(** * Multi-account OAuth dispatch core: a shallow embedding

    This development embeds the pure cores of the plugin's TypeScript
    sources (backoff computation, credential codec, account manager,
    persistent account store, token refresher, thinking-signature filter
    of the Claude transformer and the tool-schema cache) and proves the
    properties stated about them.  It goes on to the code around these:
    the rest of the account manager, the auth snapshot cache, the retry
    bookkeeping of the fetch wrapper and the model family of a request,
    the Gemini transformer's pass over the conversation, the generation
    config of the Claude transformer, the request helpers and the
    project context resolution.

    Conventions of the embedding.
    - A JavaScript [number] is a rational [Q] where the code inspects
      integrality or truthiness of untrusted data, and an integer [Z]
      where it only holds epoch milliseconds or counters.  All arithmetic
      the embedded code performs stays inside the range in which doubles
      are exact; [NaN] and the infinities are outside the model.
    - A JavaScript string is a [string]; its characters stand for code
      units below 256.
    - [Date.now()] is an explicit argument [now].
    - A [Map<string, V>] is a [gmap string V].
    - A mutable object shared by reference (a managed account) is
      addressed by its position in the manager's account array. *)

From Stdlib Require Import ZArith QArith Qround Qminmax String Ascii DecimalString DecimalNat
  DecimalFacts List Lia.
From stdpp Require Import gmap strings list.
Close Scope Q_scope.
Open Scope string_scope.
Set Warnings "-register-all".

(* ===================================================================== *)
(** * Rate-limit backoff (fetch wrapper) *)
(* ===================================================================== *)

Module Backoff.

Definition RATE_LIMIT_BACKOFF_BASE_MS : Q := inject_Z 1000.
Definition RATE_LIMIT_BACKOFF_MAX_MS : Q := inject_Z (60 * 60 * 1000).

(** [computeExponentialBackoffMs(attempt, baseMs, maxMs)]:
    [safeAttempt = Math.max(1, Math.floor(attempt))],
    [multiplier = 2 ** (safeAttempt - 1)],
    result [Math.min(maxMs, Math.max(0, Math.floor(baseMs * multiplier)))]. *)
Definition computeExponentialBackoffMs (attempt baseMs maxMs : Q) : Q :=
  let safeAttempt := Z.max 1 (Qfloor attempt) in
  let multiplier := (2 ^ (safeAttempt - 1))%Z in
  Qmin maxMs (inject_Z (Z.max 0 (Qfloor (baseMs * inject_Z multiplier)%Q))).

(** The call with both optional parameters left to their defaults. *)
Definition computeExponentialBackoffMs_default (attempt : Q) : Q :=
  computeExponentialBackoffMs attempt RATE_LIMIT_BACKOFF_BASE_MS RATE_LIMIT_BACKOFF_MAX_MS.

End Backoff.

(* ===================================================================== *)
(** * Credential codec (auth.ts) *)
(* ===================================================================== *)

Module Codec.

Definition pipe : ascii := "|"%char.

(** [s.split(c)] for a one-character separator: every occurrence cuts. *)
Fixpoint split_char (sep : ascii) (s : string) : list string :=
  match s with
  | EmptyString => [EmptyString]
  | String c rest =>
      if Ascii.eqb c sep then EmptyString :: split_char sep rest
      else match split_char sep rest with
           | seg :: segs => String c seg :: segs
           | [] => [String c EmptyString]
           end
  end.

Definition ACCOUNT_SEPARATOR : string := "||".

(** [s.split(ACCOUNT_SEPARATOR)]: the leftmost occurrence of the two
    characters cuts, and the scan resumes after it. *)
Fixpoint split_accounts (s : string) : list string :=
  match s with
  | EmptyString => [EmptyString]
  | String c rest =>
      match rest with
      | String d rest' =>
          if Ascii.eqb c pipe && Ascii.eqb d pipe
          then EmptyString :: split_accounts rest'
          else match split_accounts rest with
               | seg :: segs => String c seg :: segs
               | [] => [String c EmptyString]
               end
      | EmptyString => [String c EmptyString]
      end
  end.

(** White space removed by [String.prototype.trim], among the code units
    a [string] can hold: TAB, LF, VT, FF, CR, SP and NBSP. *)
Definition is_js_whitespace (c : ascii) : bool :=
  let n := nat_of_ascii c in
  (Nat.leb 9 n && Nat.leb n 13) || Nat.eqb n 32 || Nat.eqb n 160.

Fixpoint trim_start (s : string) : string :=
  match s with
  | String c rest => if is_js_whitespace c then trim_start rest else s
  | EmptyString => EmptyString
  end.

Fixpoint trim_end (s : string) : string :=
  match s with
  | EmptyString => EmptyString
  | String c rest =>
      match trim_end rest with
      | EmptyString => if is_js_whitespace c then EmptyString else String c EmptyString
      | t => String c t
      end
  end.

Definition trim (s : string) : string := trim_end (trim_start s).

(** Truthiness of a string value. *)
Definition truthy_string (s : string) : bool := negb (s =? "")%string.

Record RefreshParts := {
  refreshToken : string;
  projectId : option string;
  managedProjectId : option string
}.

(** [x || undefined] on a string. *)
Definition or_undefined (s : string) : option string :=
  if truthy_string s then Some s else None.

(** [const [refreshToken = "", projectId = "", managedProjectId = ""] =
    (refresh ?? "").split("|")]. *)
Definition parseRefreshParts (refresh : string) : RefreshParts :=
  let segs := split_char pipe refresh in
  {| refreshToken := nth 0 segs "";
     projectId := or_undefined (nth 1 segs "");
     managedProjectId := or_undefined (nth 2 segs "") |}.

Definition formatRefreshParts (parts : RefreshParts) : string :=
  let projectSegment := default "" (projectId parts) in
  let base := refreshToken parts ++ "|" ++ projectSegment in
  match managedProjectId parts with
  | Some m => if truthy_string m then base ++ "|" ++ m else base
  | None => base
  end.

(** [MultiAccountRefreshParts] is an object with the single field
    [accounts]; the embedding keeps the array. *)
Definition parseMultiAccountRefresh (refresh : string) : list RefreshParts :=
  if negb (truthy_string refresh) then []
  else
    let accountStrings :=
      List.filter (fun s => truthy_string (trim s)) (split_accounts refresh) in
    match accountStrings with
    | [] => []
    | _ => List.map parseRefreshParts accountStrings
    end.

Definition formatMultiAccountRefresh (accounts : list RefreshParts) : string :=
  String.concat ACCOUNT_SEPARATOR
    (List.filter (fun s => truthy_string (trim s)) (List.map formatRefreshParts accounts)).

(** ** Well-formed packed strings

    The serialized form is [refreshToken|projectId|managedProjectId] with
    the third segment left out when there is no managed project: a
    well-formed single-account string has two segments, or three with a
    non-empty last one. *)
Definition wellFormedRefresh (x : string) : bool :=
  match split_char pipe x with
  | [_; _] => true
  | [_; _; m] => truthy_string m
  | _ => false
  end.





(** The second segment (the project id) of a packed account string. *)
Definition project_segment (x : string) : string := nth 1 (split_char pipe x) "".




(** Strings that survive a split on the account separator when joined by
    it: no two adjacent pipes, no trailing pipe. *)
Fixpoint sepSafe (x : string) : bool :=
  match x with
  | EmptyString => true
  | String c rest =>
      if Ascii.eqb c pipe then
        match rest with
        | EmptyString => false
        | String d _ => negb (Ascii.eqb d pipe) && sepSafe rest
        end
      else sepSafe rest
  end.

Definition starts_nonpipe (s : string) : bool :=
  match s with
  | String d _ => negb (Ascii.eqb d pipe)
  | EmptyString => false
  end.

Definition no_pipe (s : string) : Prop :=
  Forall (fun c => c <> pipe) (list_ascii_of_string s).

(** An optional token as [parseRefreshParts] yields it: absent, or
    non-empty and without pipe. *)
Definition token_ok (o : option string) : Prop :=
  match o with
  | Some s => no_pipe s /\ s <> ""
  | None => True
  end.

(** Some character of the string is not white space. *)
Fixpoint has_nonws (s : string) : bool :=
  match s with
  | EmptyString => false
  | String c rest => negb (is_js_whitespace c) || has_nonws rest
  end.

End Codec.

(* ===================================================================== *)
(** * Account manager (accounts.ts) *)
(* ===================================================================== *)

Module Accounts.
Import Codec.

Inductive ModelFamily := claude | gemini_flash | gemini_pro.
Inductive AccountTier := free | paid.
Inductive SwitchReason := rate_limit | initial | rotation.

Definition ModelFamily_eqb (f g : ModelFamily) : bool :=
  match f, g with
  | claude, claude | gemini_flash, gemini_flash | gemini_pro, gemini_pro => true
  | _, _ => false
  end.

(** [RateLimitState]: three optional epoch-millisecond reset times. *)
Record RateLimitState := {
  rl_claude : option Z;
  rl_gemini_flash : option Z;
  rl_gemini_pro : option Z
}.

Definition no_rate_limits : RateLimitState :=
  {| rl_claude := None; rl_gemini_flash := None; rl_gemini_pro := None |}.

(** [state[family]]. *)
Definition reset_time (s : RateLimitState) (family : ModelFamily) : option Z :=
  match family with
  | claude => rl_claude s
  | gemini_flash => rl_gemini_flash s
  | gemini_pro => rl_gemini_pro s
  end.

(** [state[family] = v] ([None] for [delete state[family]]). *)
Definition set_reset_time (s : RateLimitState) (family : ModelFamily) (v : option Z)
  : RateLimitState :=
  match family with
  | claude => {| rl_claude := v; rl_gemini_flash := rl_gemini_flash s;
                 rl_gemini_pro := rl_gemini_pro s |}
  | gemini_flash => {| rl_claude := rl_claude s; rl_gemini_flash := v;
                       rl_gemini_pro := rl_gemini_pro s |}
  | gemini_pro => {| rl_claude := rl_claude s; rl_gemini_flash := rl_gemini_flash s;
                     rl_gemini_pro := v |}
  end.

Record ManagedAccount := {
  index : Z;
  parts : RefreshParts;
  access : option string;
  expires : option Z;
  rateLimitResetTimes : RateLimitState;
  lastUsed : Z;
  email : option string;
  tier : option AccountTier;
  lastSwitchReason : option SwitchReason
}.

Definition with_rateLimitResetTimes (a : ManagedAccount) (s : RateLimitState) : ManagedAccount :=
  {| index := index a; parts := parts a; access := access a; expires := expires a;
     rateLimitResetTimes := s; lastUsed := lastUsed a; email := email a;
     tier := tier a; lastSwitchReason := lastSwitchReason a |}.

Definition with_lastUsed (a : ManagedAccount) (t : Z) : ManagedAccount :=
  {| index := index a; parts := parts a; access := access a; expires := expires a;
     rateLimitResetTimes := rateLimitResetTimes a; lastUsed := t; email := email a;
     tier := tier a; lastSwitchReason := lastSwitchReason a |}.

(** [resetTime !== undefined && Date.now() < resetTime]. *)
Definition isRateLimitedForFamily (now : Z) (account : ManagedAccount) (family : ModelFamily)
  : bool :=
  match reset_time (rateLimitResetTimes account) family with
  | Some resetTime => (now <? resetTime)%Z
  | None => false
  end.

Definition clear_if_expired (now : Z) (family : ModelFamily) (s : RateLimitState)
  : RateLimitState :=
  match reset_time s family with
  | Some t => if (now >=? t)%Z then set_reset_time s family None else s
  | None => s
  end.

Definition clearExpiredRateLimits (now : Z) (account : ManagedAccount) : ManagedAccount :=
  with_rateLimitResetTimes account
    (clear_if_expired now gemini_pro
       (clear_if_expired now gemini_flash
          (clear_if_expired now claude (rateLimitResetTimes account)))).

Definition is_paid (a : ManagedAccount) : bool :=
  match tier a with Some paid => true | _ => false end.

(** The manager: the account array, the round-robin cursor
    ([currentIndex]) and the pointer to the current account
    ([currentAccountIndex], [-1] when unset). *)
Record AccountManager := {
  accounts : list ManagedAccount;
  currentIndex : Z;
  currentAccountIndex : Z
}.

(** [arr[i]] for a numeric [i]: [undefined] out of range. *)
Definition array_get {A} (arr : list A) (i : Z) : option A :=
  if (i <? 0)%Z then None else arr !! Z.to_nat i.

(** [getCurrentAccount()], as the position of the current account. *)
Definition getCurrentAccount (m : AccountManager) : option nat :=
  if (0 <=? currentAccountIndex m)%Z
     && (currentAccountIndex m <? Z.of_nat (length (accounts m)))%Z
  then
    match array_get (accounts m) (currentAccountIndex m) with
    | Some _ => Some (Z.to_nat (currentAccountIndex m))
    | None => None
    end
  else None.

(** Positions [base, base+1, ...] of the accounts that satisfy [keep]:
    [accounts.filter(keep)] as a list of references. *)
Fixpoint filter_positions (keep : ManagedAccount -> bool) (base : nat)
  (l : list ManagedAccount) : list nat :=
  match l with
  | [] => []
  | a :: rest =>
      if keep a then base :: filter_positions keep (S base) rest
      else filter_positions keep (S base) rest
  end.

(** [getNextForFamily(family)]: the chosen account's position, and the
    manager after the cursor advanced and [lastUsed] was stamped. *)
Definition getNextForFamily (now : Z) (family : ModelFamily) (m : AccountManager)
  : option nat * AccountManager :=
  let available :=
    filter_positions (fun a => negb (isRateLimitedForFamily now a family)) 0 (accounts m) in
  match available with
  | [] => (None, m)
  | _ =>
      let paidAvailable :=
        List.filter (fun p => match accounts m !! p with
                              | Some a => is_paid a
                              | None => false
                              end) available in
      let pool := match paidAvailable with [] => available | _ => paidAvailable end in
      match array_get pool (Z.rem (currentIndex m) (Z.of_nat (length pool))) with
      | None => (None, m)
      | Some p =>
          (Some p,
           {| accounts := alter (fun a => with_lastUsed a now) p (accounts m);
              currentIndex := (currentIndex m + 1)%Z;
              currentAccountIndex := currentAccountIndex m |})
      end
  end.

(** [getCurrentOrNextForFamily(family)]. *)
Definition getCurrentOrNextForFamily (now : Z) (family : ModelFamily) (m : AccountManager)
  : option nat * AccountManager :=
  let m1 := {| accounts := List.map (clearExpiredRateLimits now) (accounts m);
               currentIndex := currentIndex m;
               currentAccountIndex := currentAccountIndex m |} in
  let fall_through :=
    match getNextForFamily now family m1 with
    | (Some p, m2) =>
        (Some p,
         {| accounts := accounts m2;
            currentIndex := currentIndex m2;
            currentAccountIndex :=
              match accounts m2 !! p with
              | Some next => index next
              | None => currentAccountIndex m2
              end |})
    | (None, m2) => (None, m2)
    end in
  match getCurrentAccount m1 with
  | Some c =>
      match accounts m1 !! c with
      | Some current =>
          if negb (isRateLimitedForFamily now current family) then
            let betterTierAvailable :=
              negb (is_paid current)
              && existsb (fun a => is_paid a && negb (isRateLimitedForFamily now a family))
                   (accounts m1) in
            if negb betterTierAvailable then
              (Some c,
               {| accounts := alter (fun a => with_lastUsed a now) c (accounts m1);
                  currentIndex := currentIndex m1;
                  currentAccountIndex := currentAccountIndex m1 |})
            else fall_through
          else fall_through
      | None => fall_through
      end
  | None => fall_through
  end.

(** [markRateLimited(account, retryAfterMs, family)] on the account
    object. *)
Definition markRateLimited_account (now retryAfterMs : Z) (family : ModelFamily)
  (account : ManagedAccount) : ManagedAccount :=
  with_rateLimitResetTimes account
    (set_reset_time (rateLimitResetTimes account) family (Some (now + retryAfterMs)%Z)).

(** The same call seen from the manager that owns the account at position
    [p]. *)
Definition markRateLimited (now : Z) (p : nat) (retryAfterMs : Z) (family : ModelFamily)
  (m : AccountManager) : AccountManager :=
  {| accounts := alter (markRateLimited_account now retryAfterMs family) p (accounts m);
     currentIndex := currentIndex m;
     currentAccountIndex := currentAccountIndex m |}.

(** A run of selections at the successive clock readings [nows]. *)
Fixpoint select_run (nows : list Z) (family : ModelFamily) (m : AccountManager)
  : list (option nat) * AccountManager :=
  match nows with
  | [] => ([], m)
  | now :: rest =>
      let (r, m1) := getCurrentOrNextForFamily now family m in
      let (rs, m2) := select_run rest family m1 in
      (r :: rs, m2)
  end.

(** [a'] is [a] after rate-limit entries were cleared or [lastUsed] was
    stamped: same index and tier, and limited only where [a] was. *)
Definition derived (a a' : ManagedAccount) : Prop :=
  index a' = index a /\ tier a' = tier a
  /\ forall t f, isRateLimitedForFamily t a' f = true -> isRateLimitedForFamily t a f = true.

(** The [index] field of the account a selection returned. *)
Definition returned_index (r : option nat * AccountManager) : option Z :=
  match fst r with
  | Some p => index <$> (accounts (snd r) !! p)
  | None => None
  end.

End Accounts.

(* ===================================================================== *)
(** * JavaScript values and completions *)
(* ===================================================================== *)

Module JS.

(** Values that [JSON.parse] produces, plus [undefined] (the value of a
    missing property, and of an optional field left unset).  An object
    is the list of its own properties in enumeration order. *)
Inductive JSValue :=
| JUndefined
| JNull
| JBool (b : bool)
| JNum (q : Q)
| JStr (s : string)
| JArr (items : list JSValue)
| JObj (fields : list (string * JSValue)).

Definition JInt (z : Z) : JSValue := JNum (inject_Z z).

Inductive Thrown :=
| ErrnoException (code : string)
| TypeError
| SyntaxError.

(** The outcome of evaluating an expression or a call. *)
Inductive Completion (A : Type) :=
| Normal (a : A)
| Throw (e : Thrown).
Arguments Normal {A} a.
Arguments Throw {A} e.

Definition cbind {A B} (c : Completion A) (k : A -> Completion B) : Completion B :=
  match c with
  | Normal a => k a
  | Throw e => Throw e
  end.

#[export] Instance Completion_bind : MBind Completion := fun A B k c => cbind c k.
#[export] Instance Completion_ret : MRet Completion := fun A a => Normal a.

(** [xs.map(f)] where [f] may throw: the first throw aborts the map. *)
Fixpoint cmap {A B} (f : A -> Completion B) (xs : list A) : Completion (list B) :=
  match xs with
  | [] => Normal []
  | x :: rest =>
      cbind (f x) (fun y => cbind (cmap f rest) (fun ys => Normal (y :: ys)))
  end.

(** Truthiness ([ToBoolean]). *)
Definition truthy (v : JSValue) : bool :=
  match v with
  | JUndefined | JNull => false
  | JBool b => b
  | JNum q => negb (Qeq_bool q 0)
  | JStr s => negb (s =? "")%string
  | JArr _ | JObj _ => true
  end.

Definition is_undefined (v : JSValue) : bool :=
  match v with JUndefined => true | _ => false end.

Definition is_nullish (v : JSValue) : bool :=
  match v with JUndefined | JNull => true | _ => false end.

(** [Array.isArray(v)]. *)
Definition isArray (v : JSValue) : bool :=
  match v with JArr _ => true | _ => false end.

(** [typeof v === "object"] (true of [null] as well). *)
Definition typeof_object (v : JSValue) : bool :=
  match v with JNull | JArr _ | JObj _ => true | _ => false end.

Definition typeof_string (v : JSValue) : bool :=
  match v with JStr _ => true | _ => false end.

Definition typeof_number (v : JSValue) : bool :=
  match v with JNum _ => true | _ => false end.

(** [v === n] for a numeric literal [n]. *)
Definition strict_eq_num (v : JSValue) (n : Z) : bool :=
  match v with
  | JNum q => Qeq_bool q (inject_Z n)
  | _ => false
  end.

(** [v === s] for a string literal [s]. *)
Definition strict_eq_str (v : JSValue) (s : string) : bool :=
  match v with
  | JStr t => (t =? s)%string
  | _ => false
  end.

(** [Number.isInteger(v)]. *)
Definition isInteger (v : JSValue) : bool :=
  match v with
  | JNum q => Qeq_bool q (inject_Z (Qfloor q))
  | _ => false
  end.

Fixpoint lookup_field (k : string) (fs : list (string * JSValue)) : JSValue :=
  match fs with
  | [] => JUndefined
  | (k', v) :: rest => if (k =? k')%string then v else lookup_field k rest
  end.

(** [v.k] for the property names of the documents handled here (none of
    which is a built-in of strings, numbers or arrays): reading a
    property of [null] or [undefined] throws a [TypeError], a property an
    object does not have, or any property of a primitive or an array,
    reads as [undefined]. *)
Definition getProp (v : JSValue) (k : string) : Completion JSValue :=
  match v with
  | JUndefined | JNull => Throw TypeError
  | JObj fs => Normal (lookup_field k fs)
  | _ => Normal JUndefined
  end.

Fixpoint set_field (k : string) (x : JSValue) (fs : list (string * JSValue))
  : list (string * JSValue) :=
  match fs with
  | [] => [(k, x)]
  | (k', v) :: rest =>
      if (k =? k')%string then (k, x) :: rest else (k', v) :: set_field k x rest
  end.

(** [v.k = x] in strict mode.  Only objects reach the assignments of the
    embedded code; the other values are given the strict-mode outcome of
    a primitive. *)
Definition setProp (v : JSValue) (k : string) (x : JSValue) : Completion JSValue :=
  match v with
  | JObj fs => Normal (JObj (set_field k x fs))
  | _ => Throw TypeError
  end.

(** [v.k] where the read cannot throw ([v] is known not to be nullish),
    and [v?.k]. *)
Definition prop (v : JSValue) (k : string) : JSValue :=
  match getProp v k with
  | Normal x => x
  | Throw _ => JUndefined
  end.

(** [a ?? b]. *)
Definition nullish_or (a b : JSValue) : JSValue :=
  if is_nullish a then b else a.

(** Computations over a mutable state [S] that may throw; what was
    written before a throw stays written. *)
Definition Eff (S A : Type) : Type := S -> Completion A * S.

Definition ret {S A} (a : A) : Eff S A := fun st => (Normal a, st).
Definition lift {S A} (c : Completion A) : Eff S A := fun st => (c, st).
Definition bind {S A B} (m : Eff S A) (k : A -> Eff S B) : Eff S B :=
  fun st =>
    match m st with
    | (Normal a, st') => k a st'
    | (Throw e, st') => (Throw e, st')
    end.
Definition get_state {S} : Eff S S := fun st => (Normal st, st).
Definition put_state {S} (st : S) : Eff S unit := fun _ => (Normal tt, st).

#[export] Instance Eff_bind {S} : MBind (Eff S) := fun A B k m => bind m k.
#[export] Instance Eff_ret {S} : MRet (Eff S) := fun A a => ret a.

(** [for (const x of xs) body(x)]. *)
Fixpoint for_of {S A} (body : A -> Eff S unit) (xs : list A) : Eff S unit :=
  match xs with
  | [] => ret tt
  | x :: rest => bind (body x) (fun _ => for_of body rest)
  end.

(** The [JSON] object of the runtime.  [JSON_parse] is [None] where
    [JSON.parse] raises a [SyntaxError]. *)
Class JSON_API := {
  JSON_parse : string -> option JSValue;
  JSON_stringify : JSValue -> string
}.

End JS.

(* ===================================================================== *)
(** * Persistent account store (storage.ts) *)
(* ===================================================================== *)

Module Storage.
Import JS.

Definition undefined_if_empty (fs : list (string * JSValue)) : JSValue :=
  if (0 <? length fs)%nat then JObj fs else JUndefined.

(** The callback of [v1.accounts.map] in [migrateV1ToV2]. *)
Definition migrateAccountV1 (acc : JSValue) : Completion JSValue :=
  isRateLimited ← getProp acc "isRateLimited";
  rateLimitResetTime ← getProp acc "rateLimitResetTime";
  let rateLimitResetTimes :=
    if truthy isRateLimited && truthy rateLimitResetTime
    then [("claude", rateLimitResetTime); ("gemini", rateLimitResetTime)]
    else [] in
  email ← getProp acc "email";
  refreshToken ← getProp acc "refreshToken";
  projectId ← getProp acc "projectId";
  managedProjectId ← getProp acc "managedProjectId";
  addedAt ← getProp acc "addedAt";
  lastUsed ← getProp acc "lastUsed";
  lastSwitchReason ← getProp acc "lastSwitchReason";
  Normal (JObj [("email", email);
                ("refreshToken", refreshToken);
                ("projectId", projectId);
                ("managedProjectId", managedProjectId);
                ("addedAt", addedAt);
                ("lastUsed", lastUsed);
                ("lastSwitchReason", lastSwitchReason);
                ("rateLimitResetTimes", undefined_if_empty rateLimitResetTimes)]).

(** [xs.map(f)] on a value: a [TypeError] when [xs] has no [map]. *)
Definition array_map (f : JSValue -> Completion JSValue) (xs : JSValue)
  : Completion JSValue :=
  match xs with
  | JArr items => ys ← cmap f items; Normal (JArr ys)
  | _ => Throw TypeError
  end.

Definition migrateV1ToV2 (v1 : JSValue) : Completion JSValue :=
  accounts ← getProp v1 "accounts";
  accounts' ← array_map migrateAccountV1 accounts;
  activeIndex ← getProp v1 "activeIndex";
  Normal (JObj [("version", JInt 2);
                ("accounts", accounts');
                ("activeIndex", activeIndex)]).

(** The rate-limit object [migrateV2ToV3] builds from the v2 one. *)
Definition splitGeminiLimits (old : JSValue) : Completion (list (string * JSValue)) :=
  if truthy old then
    c ← getProp old "claude";
    g ← getProp old "gemini";
    Normal ((if negb (is_undefined c) then [("claude", c)] else [])
            ++ (if negb (is_undefined g)
                then [("gemini-flash", g); ("gemini-pro", g)]
                else []))%list
  else Normal [].

(** The callback of [v2.accounts.map] in [migrateV2ToV3]. *)
Definition migrateAccountV2 (acc : JSValue) : Completion JSValue :=
  old ← getProp acc "rateLimitResetTimes";
  rateLimitResetTimes ← splitGeminiLimits old;
  email ← getProp acc "email";
  refreshToken ← getProp acc "refreshToken";
  projectId ← getProp acc "projectId";
  managedProjectId ← getProp acc "managedProjectId";
  addedAt ← getProp acc "addedAt";
  lastUsed ← getProp acc "lastUsed";
  lastSwitchReason ← getProp acc "lastSwitchReason";
  Normal (JObj [("email", email);
                ("refreshToken", refreshToken);
                ("projectId", projectId);
                ("managedProjectId", managedProjectId);
                ("addedAt", addedAt);
                ("lastUsed", lastUsed);
                ("lastSwitchReason", lastSwitchReason);
                ("rateLimitResetTimes", undefined_if_empty rateLimitResetTimes)]).

Definition migrateV2ToV3 (v2 : JSValue) : Completion JSValue :=
  accounts ← getProp v2 "accounts";
  accounts' ← array_map migrateAccountV2 accounts;
  activeIndex ← getProp v2 "activeIndex";
  Normal (JObj [("version", JInt 3);
                ("accounts", accounts');
                ("activeIndex", activeIndex)]).

(** ** The migrations in closed form, for account entries that are
    objects *)

Definition not_nullish (v : JSValue) : Prop := is_nullish v = false.

Definition v1_limits (acc : JSValue) : list (string * JSValue) :=
  if truthy (prop acc "isRateLimited") && truthy (prop acc "rateLimitResetTime")
  then [("claude", prop acc "rateLimitResetTime"); ("gemini", prop acc "rateLimitResetTime")]
  else [].

Definition v3_limits (old : JSValue) : list (string * JSValue) :=
  if truthy old then
    ((if negb (is_undefined (prop old "claude")) then [("claude", prop old "claude")] else [])
     ++ (if negb (is_undefined (prop old "gemini"))
         then [("gemini-flash", prop old "gemini"); ("gemini-pro", prop old "gemini")]
         else []))%list
  else [].

Definition accountV1toV2 (acc : JSValue) : JSValue :=
  JObj [("email", prop acc "email");
        ("refreshToken", prop acc "refreshToken");
        ("projectId", prop acc "projectId");
        ("managedProjectId", prop acc "managedProjectId");
        ("addedAt", prop acc "addedAt");
        ("lastUsed", prop acc "lastUsed");
        ("lastSwitchReason", prop acc "lastSwitchReason");
        ("rateLimitResetTimes", undefined_if_empty (v1_limits acc))].

Definition accountV2toV3 (acc : JSValue) : JSValue :=
  JObj [("email", prop acc "email");
        ("refreshToken", prop acc "refreshToken");
        ("projectId", prop acc "projectId");
        ("managedProjectId", prop acc "managedProjectId");
        ("addedAt", prop acc "addedAt");
        ("lastUsed", prop acc "lastUsed");
        ("lastSwitchReason", prop acc "lastSwitchReason");
        ("rateLimitResetTimes",
         undefined_if_empty (v3_limits (prop acc "rateLimitResetTimes")))].

(** ** The storage file *)

Inductive FileState :=
| FileMissing                      (* [readFile] fails with ENOENT *)
| FileUnreadable (code : string)   (* [readFile] fails otherwise *)
| FileText (content : string).

(** The file system as [loadAccounts] and [saveAccounts] see it: the
    state of the storage file, how [mkdir]/[writeFile] will behave
    ([Some e]: they fail with [e]), and the documents [saveAccounts] has
    been called with (a history kept for the proofs). *)
Record FS := {
  file : FileState;
  write_failure : option Thrown;
  saves : list JSValue
}.

(** Computations that read and write the file system and may throw. *)
Abbreviation IO := (Eff FS).

(** [fs.readFile(path, "utf-8")]. *)
Definition readFile : IO string := fun fs =>
  match file fs with
  | FileMissing => (Throw (ErrnoException "ENOENT"), fs)
  | FileUnreadable code => (Throw (ErrnoException code), fs)
  | FileText content => (Normal content, fs)
  end.

Section WithJSON.
Context `{JSON_API}.

(** [saveAccounts(storage)]: the failure of [mkdir]/[writeFile] is logged
    and thrown again. *)
Definition saveAccounts (storage : JSValue) : IO unit := fun fs =>
  let called := {| file := file fs; write_failure := write_failure fs;
                   saves := (saves fs ++ [storage])%list |} in
  match write_failure fs with
  | Some e => (Throw e, called)
  | None =>
      (Normal tt,
       {| file := FileText (JSON_stringify storage);
          write_failure := None;
          saves := saves called |})
  end.

Definition parse_json (content : string) : IO JSValue :=
  lift (match JSON_parse content with
        | Some v => Normal v
        | None => Throw SyntaxError
        end).

(** [x < 0 || x >= n] on a number [x]; comparisons with a value that is
    not a number do not arise (the value was just tested or replaced). *)
Definition out_of_bounds (v : JSValue) (n : nat) : bool :=
  match v with
  | JNum q => negb (Qle_bool 0 q) || Qle_bool (inject_Z (Z.of_nat n)) q
  | _ => false
  end.

Definition array_length (v : JSValue) : Completion nat :=
  match v with
  | JArr items => Normal (length items)
  | _ => Throw TypeError
  end.

(** The version dispatch of [loadAccounts]: the v3 document to go on
    with ([None] for the [return null] of an unknown version); documents
    of version 1 and 2 are upgraded and saved at once. *)
Definition chooseStorage (data version : JSValue) : IO (option JSValue) :=
  if strict_eq_num version 1 then
    v2 ← lift (migrateV1ToV2 data);
    storage ← lift (migrateV2ToV3 v2);
    _ ← saveAccounts storage;
    ret (Some storage)
  else if strict_eq_num version 2 then
    storage ← lift (migrateV2ToV3 data);
    _ ← saveAccounts storage;
    ret (Some storage)
  else if strict_eq_num version 3 then ret (Some data)
  else ret None.

(** The two repairs of [storage.activeIndex] that end [loadAccounts]. *)
Definition normalizeActiveIndex (storage : JSValue) : IO JSValue :=
  activeIndex ← lift (getProp storage "activeIndex");
  storage1 ←
    (if negb (typeof_number activeIndex) || negb (isInteger activeIndex)
     then lift (setProp storage "activeIndex" (JInt 0))
     else ret storage);
  activeIndex1 ← lift (getProp storage1 "activeIndex");
  accounts1 ← lift (getProp storage1 "accounts");
  n ← lift (array_length accounts1);
  if out_of_bounds activeIndex1 n
  then lift (setProp storage1 "activeIndex" (JInt 0))
  else ret storage1.

(** The [try] block of [loadAccounts]. *)
Definition loadAccounts_try : IO (option JSValue) :=
  content ← readFile;
  data ← parse_json content;
  accounts ← lift (getProp data "accounts");
  if negb (isArray accounts) then ret None
  else
    version ← lift (getProp data "version");
    chosen ← chooseStorage data version;
    match chosen with
    | None => ret None
    | Some storage =>
        storage' ← normalizeActiveIndex storage;
        ret (Some storage')
    end.

(** [loadAccounts()]: whatever the [try] block throws is caught; both
    arms of the handler return [null]. *)
Definition loadAccounts : IO (option JSValue) := fun fs =>
  match loadAccounts_try fs with
  | (Throw e, fs') =>
      match e with
      | ErrnoException code =>
          if (code =? "ENOENT")%string then (Normal None, fs') else (Normal None, fs')
      | _ => (Normal None, fs')
      end
  | r => r
  end.

End WithJSON.

(** The upgrade [loadAccounts] applies to a document of version 1, and
    to one of version 2. *)
Definition upgradeV1 (data : JSValue) : Completion JSValue :=
  v2 ← migrateV1ToV2 data; migrateV2ToV3 v2.

Definition upgradeV2 (data : JSValue) : Completion JSValue := migrateV2ToV3 data.

End Storage.

(* ===================================================================== *)
(** * Token refresher (token.ts) *)
(* ===================================================================== *)

Module Token.
Import Codec JS.

(** [OAuthAuthDetails]; the [type] field is the constant ["oauth"]. *)
Record OAuthAuthDetails := {
  refresh : string;
  access : string;
  expires : Z
}.

Record ProjectContextResult := {
  pc_auth : OAuthAuthDetails;
  effectiveProjectId : string
}.

(** An in-flight project resolution (a promise), named by a number. *)
Inductive PendingResolution := InFlight (id : nat).

Definition ANTIGRAVITY_PROVIDER_ID : string := "google".

(** The process-wide state the refresher touches: the auth snapshot
    cache, the two project-context caches, and the calls made to the
    host's [client.auth.set], oldest first. *)
Record World := {
  authCache : gmap string OAuthAuthDetails;
  projectContextPendingCache : gmap string PendingResolution;
  projectContextResultCache : gmap string ProjectContextResult;
  auth_set_calls : list (string * OAuthAuthDetails)
}.

(** [{ code?, description? }], absent fields being [undefined]. *)
Record OAuthError := {
  code : JSValue;
  description : JSValue
}.

(** What the token endpoint answers to a refresh request. *)
Record TokenRequest := {
  grant_type : string;
  refresh_token : string;
  client_id : string;
  client_secret : string
}.

(** The success payload, as the code casts it. *)
Record TokenPayload := {
  access_token : string;
  expires_in : Z;
  rotated_refresh_token : option string
}.

Record Response := {
  ok : bool;
  status : Z;
  statusText : string;
  text : option string;          (* [None]: [response.text()] rejects *)
  json : option TokenPayload     (* [None]: [response.json()] rejects *)
}.

Inductive FetchOutcome :=
| NetworkError
| Responded (r : Response).

(** [normalizeRefreshKey(refresh)] (cache.ts). *)
Definition normalizeRefreshKey (refresh : string) : option string :=
  let key := trim refresh in
  if truthy_string key then Some key else None.

(** [storeCachedAuth(auth)] (cache.ts). *)
Definition storeCachedAuth (auth : OAuthAuthDetails) (w : World) : World :=
  match normalizeRefreshKey (refresh auth) with
  | None => w
  | Some key =>
      {| authCache := <[key := auth]> (authCache w);
         projectContextPendingCache := projectContextPendingCache w;
         projectContextResultCache := projectContextResultCache w;
         auth_set_calls := auth_set_calls w |}
  end.

(** [invalidateProjectContextCache(refresh)] (project.ts). *)
Definition invalidateProjectContextCache (refresh : string) (w : World) : World :=
  if negb (truthy_string refresh) then
    {| authCache := authCache w;
       projectContextPendingCache := ∅;
       projectContextResultCache := ∅;
       auth_set_calls := auth_set_calls w |}
  else
    {| authCache := authCache w;
       projectContextPendingCache := delete refresh (projectContextPendingCache w);
       projectContextResultCache := delete refresh (projectContextResultCache w);
       auth_set_calls := auth_set_calls w |}.

(** [client.auth.set({ path: { id }, body })]; a failure of the host is
    caught and logged by the caller, the call is made either way. *)
Definition client_auth_set (id : string) (body : OAuthAuthDetails) (w : World) : World :=
  {| authCache := authCache w;
     projectContextPendingCache := projectContextPendingCache w;
     projectContextResultCache := projectContextResultCache w;
     auth_set_calls := (auth_set_calls w ++ [(id, body)])%list |}.

(** The body of the refresh request. *)
Definition token_request (clientId secret : string) (auth : OAuthAuthDetails) : TokenRequest :=
  {| grant_type := "refresh_token";
     refresh_token := refreshToken (parseRefreshParts (refresh auth));
     client_id := clientId;
     client_secret := secret |}.

Section WithJSON.
Context `{JSON_API}.

(** [parseOAuthErrorPayload(text)]. *)
Definition parseOAuthErrorPayload (text : option string) : OAuthError :=
  match text with
  | None => {| code := JUndefined; description := JUndefined |}
  | Some t =>
      if negb (truthy_string t) then {| code := JUndefined; description := JUndefined |}
      else
        match JSON_parse t with
        | None => {| code := JUndefined; description := JStr t |}
        | Some payload =>
            if negb (truthy payload) || negb (typeof_object payload)
            then {| code := JUndefined; description := JStr t |}
            else
              let error := prop payload "error" in
              let error_description := prop payload "error_description" in
              let error_is_object := truthy error && typeof_object error in
              let code :=
                if typeof_string error then error
                else if error_is_object
                     then nullish_or (prop error "status") (prop error "code")
                     else JUndefined in
              if negb (typeof_string error) && error_is_object
                 && negb (truthy error_description) && truthy (prop error "message")
              then {| code := code; description := prop error "message" |}
              else if truthy error_description
              then {| code := code; description := error_description |}
              else if error_is_object && truthy (prop error "message")
              then {| code := code; description := prop error "message" |}
              else {| code := code; description := JUndefined |}
        end
  end.

(** [refreshAccessToken(auth, client)].  [secret] and [clientId] are the
    constants read from the environment, [fetch] the token endpoint. *)
Definition refreshAccessToken (clientId secret : string)
  (fetch : TokenRequest -> FetchOutcome) (now : Z)
  (auth : OAuthAuthDetails) (w : World) : option OAuthAuthDetails * World :=
  let parts := parseRefreshParts (refresh auth) in
  if negb (truthy_string (refreshToken parts)) then (None, w)
  else if negb (truthy_string secret) then (None, w)
  else
    match fetch (token_request clientId secret auth) with
    | NetworkError => (None, w)
    | Responded response =>
        if negb (ok response) then
          let errorText := text response in
          let e := parseOAuthErrorPayload errorText in
          if strict_eq_str (code e) "invalid_grant" then
            let w1 := invalidateProjectContextCache (refresh auth) w in
            let clearedAuth :=
              {| refresh := formatRefreshParts
                              {| refreshToken := "";
                                 projectId := projectId parts;
                                 managedProjectId := managedProjectId parts |};
                 access := "";
                 expires := 0 |} in
            (None, client_auth_set ANTIGRAVITY_PROVIDER_ID clearedAuth w1)
          else (None, w)
        else
          match json response with
          | None => (None, w)
          | Some payload =>
              let refreshedParts :=
                {| refreshToken := default (refreshToken parts)
                                     (rotated_refresh_token payload);
                   projectId := projectId parts;
                   managedProjectId := managedProjectId parts |} in
              let updatedAuth :=
                {| refresh := formatRefreshParts refreshedParts;
                   access := access_token payload;
                   expires := (now + expires_in payload * 1000)%Z |} in
              (Some updatedAuth,
               invalidateProjectContextCache (refresh auth) (storeCachedAuth updatedAuth w))
          end
    end.

End WithJSON.

End Token.

(* ===================================================================== *)
(** * Thinking-signature cache (cache.ts) and the Claude transformer's
      pass over the conversation parts (transform/claude.ts) *)
(* ===================================================================== *)

Module Claude.
Import Codec JS Accounts.

(** The two primitives of [node:crypto] the code calls: the hex SHA-256
    digest of a string, and [randomUUID()], whose n-th draw of a run is
    [randomUUID n]. *)
Class Crypto := {
  sha256_hex : string -> string;
  randomUUID : nat -> string
}.

Definition family_name (family : ModelFamily) : string :=
  match family with
  | claude => "claude"
  | gemini_flash => "gemini-flash"
  | gemini_pro => "gemini-pro"
  end.

Record TransformContext := {
  model : string;
  family : ModelFamily;
  projectId : string;
  streaming : bool;
  requestId : string;
  sessionId : string
}.

(** The state the pass works on: the process-wide signature cache, the
    per-call queues of function-call ids, the number of UUIDs drawn, and
    the two counters kept for the debug log. *)
Record PassState := {
  signatureCache : gmap string string;
  funcCallIdQueues : gmap string (list JSValue);
  uuids_drawn : nat;
  toolsTransformed : bool;
  thinkingBlocksRemoved : nat
}.

Section WithCrypto.
Context `{Crypto}.

Definition normalizeThoughtText (text : string) : string := trim text.

Definition getSignatureKey (family : ModelFamily) (sessionId thoughtText : string) : string :=
  sha256_hex (family_name family ++ ":" ++ sessionId ++ ":" ++ normalizeThoughtText thoughtText).

Definition cacheSignature (family : ModelFamily) (sessionId thoughtText signature : string)
  (cache : gmap string string) : gmap string string :=
  <[getSignatureKey family sessionId thoughtText := signature]> cache.

Definition getCachedSignature (family : ModelFamily) (sessionId thoughtText : string)
  (cache : gmap string string) : option string :=
  cache !! getSignatureKey family sessionId thoughtText.

Definition with_signatureCache (st : PassState) (c : gmap string string) : PassState :=
  {| signatureCache := c; funcCallIdQueues := funcCallIdQueues st;
     uuids_drawn := uuids_drawn st; toolsTransformed := toolsTransformed st;
     thinkingBlocksRemoved := thinkingBlocksRemoved st |}.

Definition with_queues (st : PassState) (q : gmap string (list JSValue)) : PassState :=
  {| signatureCache := signatureCache st; funcCallIdQueues := q;
     uuids_drawn := uuids_drawn st; toolsTransformed := toolsTransformed st;
     thinkingBlocksRemoved := thinkingBlocksRemoved st |}.

(** [signature.length < 50] on a string value. *)
Definition shorter_than_50 (v : JSValue) : bool :=
  match v with JStr s => (String.length s <? 50)%nat | _ => false end.

(** [typeof signature === "string" && signature.length > 50]. *)
Definition longer_than_50 (v : JSValue) : bool :=
  match v with JStr s => (50 <? String.length s)%nat | _ => false end.

(** The [if (part.thought === true) { ... }] block: [None] when the part
    is removed ([continue]), otherwise the part as it goes on. *)
Definition thought_block (ctx : TransformContext) (part : JSValue)
  : Eff PassState (option JSValue) :=
  signature0 ← lift (getProp part "thoughtSignature");
  text ← lift (getProp part "text");
  st ← get_state;
  let restored : option string :=
    if negb (truthy signature0) || shorter_than_50 signature0 then
      match text with
      | JStr t =>
          match getCachedSignature (family ctx) (sessionId ctx) t (signatureCache st) with
          | Some cached => if truthy_string cached then Some cached else None
          | None => None
          end
      | _ => None
      end
    else None in
  part1 ← match restored with
           | Some cached => lift (setProp part "thoughtSignature" (JStr cached))
           | None => ret part
           end;
  let signature := match restored with Some cached => JStr cached | None => signature0 end in
  if longer_than_50 signature then
    _ ← match text, signature with
        | JStr t, JStr sig =>
            if truthy_string (sessionId ctx)
            then put_state (with_signatureCache st
                              (cacheSignature (family ctx) (sessionId ctx) t sig
                                 (signatureCache st)))
            else ret tt
        | _, _ => ret tt
        end;
    ret (Some part1)
  else
    _ ← put_state {| signatureCache := signatureCache st;
                     funcCallIdQueues := funcCallIdQueues st;
                     uuids_drawn := uuids_drawn st;
                     toolsTransformed := toolsTransformed st;
                     thinkingBlocksRemoved := S (thinkingBlocksRemoved st) |};
    ret None.

(** The [functionCall] block: a call without id gets a synthetic one, and
    the id joins the queue of its tool name. *)
Definition function_call_block (part : JSValue) : Eff PassState JSValue :=
  functionCall ← lift (getProp part "functionCall");
  if negb (truthy functionCall) then ret part
  else
    name ← lift (getProp functionCall "name");
    match name with
    | JStr n =>
        id0 ← lift (getProp functionCall "id");
        st ← get_state;
        '(functionCall1, id, st1) ←
          (if negb (truthy id0) then
             let callId := JStr (n ++ "-" ++ randomUUID (uuids_drawn st)) in
             fc ← lift (setProp functionCall "id" callId);
             ret (fc, callId,
                  {| signatureCache := signatureCache st;
                     funcCallIdQueues := funcCallIdQueues st;
                     uuids_drawn := S (uuids_drawn st);
                     toolsTransformed := true;
                     thinkingBlocksRemoved := thinkingBlocksRemoved st |})
           else ret (functionCall, id0, st));
        let queue := default [] (funcCallIdQueues st1 !! n) in
        _ ← put_state (with_queues st1 (<[n := (queue ++ [id])%list]> (funcCallIdQueues st1)));
        if negb (truthy id0) then lift (setProp part "functionCall" functionCall1)
        else ret part
    | _ => ret part
    end.

(** The [functionResponse] block: a response without id takes the oldest
    queued id of its tool name. *)
Definition function_response_block (part : JSValue) : Eff PassState JSValue :=
  functionResponse ← lift (getProp part "functionResponse");
  if negb (truthy functionResponse) then ret part
  else
    name ← lift (getProp functionResponse "name");
    match name with
    | JStr n =>
        id0 ← lift (getProp functionResponse "id");
        if negb (truthy id0) then
          st ← get_state;
          match funcCallIdQueues st !! n with
          | Some (id :: queue) =>
              _ ← put_state (with_queues st (<[n := queue]> (funcCallIdQueues st)));
              fr ← lift (setProp functionResponse "id" id);
              lift (setProp part "functionResponse" fr)
          | _ => ret part
          end
        else ret part
    | _ => ret part
    end.

(** One turn of [for (const part of parts)]: the part pushed onto
    [filteredParts], if any. *)
Definition process_part (ctx : TransformContext) (part : JSValue)
  : Eff PassState (option JSValue) :=
  thought ← lift (getProp part "thought");
  kept ← (match thought with
          | JBool true => thought_block ctx part
          | _ => ret (Some part)
          end);
  match kept with
  | None => ret None
  | Some part1 =>
      part2 ← function_call_block part1;
      part3 ← function_response_block part2;
      ret (Some part3)
  end.

(** The loop over the parts of one content: [filteredParts]. *)
Fixpoint filter_parts (ctx : TransformContext) (parts : list JSValue)
  : Eff PassState (list JSValue) :=
  match parts with
  | [] => ret []
  | part :: rest =>
      kept ← process_part ctx part;
      filtered ← filter_parts ctx rest;
      ret (match kept with Some p => p :: filtered | None => filtered end)
  end.

(** One turn of [for (const content of contents)]. *)
Definition process_content (ctx : TransformContext) (content : JSValue)
  : Eff PassState JSValue :=
  parts ← lift (getProp content "parts");
  match parts with
  | JArr items =>
      filtered ← filter_parts ctx items;
      lift (setProp content "parts" (JArr filtered))
  | _ => ret content
  end.

Fixpoint process_contents (ctx : TransformContext) (contents : list JSValue)
  : Eff PassState (list JSValue) :=
  match contents with
  | [] => ret []
  | content :: rest =>
      content' ← process_content ctx content;
      rest' ← process_contents ctx rest;
      ret (content' :: rest')
  end.

(** The contents pass of [transformClaudeRequest]: it starts from the
    process-wide signature cache with fresh queues and counters, and
    leaves a payload whose [contents] is not an array untouched. *)
Definition transformClaudeContents (ctx : TransformContext) (contents : JSValue)
  (cache : gmap string string) : Completion JSValue * PassState :=
  let st0 := {| signatureCache := cache; funcCallIdQueues := ∅; uuids_drawn := 0;
                toolsTransformed := false; thinkingBlocksRemoved := 0 |} in
  match contents with
  | JArr items =>
      (cs ← process_contents ctx items; ret (JArr cs)) st0
  | _ => (Normal contents, st0)
  end.

(** ** Comparing parts up to the ids the pass assigns *)

Fixpoint remove_field (k : string) (fs : list (string * JSValue))
  : list (string * JSValue) :=
  match fs with
  | [] => []
  | (k', v) :: rest =>
      if (k =? k')%string then remove_field k rest else (k', v) :: remove_field k rest
  end.

(** The object [v] without its [id] property. *)
Definition without_id (v : JSValue) : JSValue :=
  match v with
  | JObj fs => JObj (remove_field "id" fs)
  | _ => v
  end.

(** The part without the [id] of its [functionCall] and of its
    [functionResponse]. *)
Definition erase_entry (kv : string * JSValue) : string * JSValue :=
  if ((fst kv =? "functionCall") || (fst kv =? "functionResponse"))%string
  then (fst kv, without_id (snd kv)) else kv.

Definition erase_ids (part : JSValue) : JSValue :=
  match part with
  | JObj fs => JObj (List.map erase_entry fs)
  | _ => part
  end.

Definition is_thought (part : JSValue) : bool :=
  match getProp part "thought" with
  | Normal (JBool true) => true
  | _ => false
  end.

(** A part that is not a thinking part. *)
Definition plain (part : JSValue) : bool := negb (is_thought part).

(** The state after a thinking part with a valid signature was kept. *)
Definition cached_after (ctx : TransformContext) (text signature : JSValue) (st : PassState)
  : PassState :=
  match text, signature with
  | JStr t, JStr sig =>
      if truthy_string (sessionId ctx)
      then with_signatureCache st
             (cacheSignature (family ctx) (sessionId ctx) t sig (signatureCache st))
      else st
  | _, _ => st
  end.

(** The state after a thinking part was removed. *)
Definition removed_one (st : PassState) : PassState :=
  {| signatureCache := signatureCache st;
     funcCallIdQueues := funcCallIdQueues st;
     uuids_drawn := uuids_drawn st;
     toolsTransformed := toolsTransformed st;
     thinkingBlocksRemoved := S (thinkingBlocksRemoved st) |}.

End WithCrypto.

End Claude.

(* ===================================================================== *)
(** * Tool names and the tool-schema cache
      (transform/gemini.ts, tool-schema-cache.ts, request-helpers.ts) *)
(* ===================================================================== *)

Module Tools.
Import JS.

Definition is_digit (c : ascii) : bool :=
  let n := nat_of_ascii c in (Nat.leb 48 n && Nat.leb n 57).

(** [/^[0-9]/.test(name)]. *)
Definition starts_with_digit (name : string) : bool :=
  match name with
  | String c _ => is_digit c
  | EmptyString => false
  end.

(** [sanitizeToolNameForGemini(name)] (gemini.ts). *)
Definition sanitizeToolNameForGemini (name : string) : string :=
  if starts_with_digit name then "t_" ++ name else name.

(** [sanitizeToolName(name)] (tool-schema-cache.ts), the copy kept in
    step with the transformer's. *)
Definition sanitizeToolName (name : string) : string :=
  if starts_with_digit name then "t_" ++ name else name.

(** The loop body of [sanitizeToolNames] over one declaration. *)
Definition sanitizeDeclaration (func : JSValue) : Completion JSValue :=
  name ← getProp func "name";
  match name with
  | JStr originalName => setProp func "name" (JStr (sanitizeToolNameForGemini originalName))
  | _ => Normal func
  end.

Definition sanitizeTool (tool : JSValue) : Completion JSValue :=
  funcDecls ← getProp tool "functionDeclarations";
  match funcDecls with
  | JArr decls =>
      decls' ← cmap sanitizeDeclaration decls;
      setProp tool "functionDeclarations" (JArr decls')
  | _ => Normal tool
  end.

(** [sanitizeToolNames(payload)]: the payload after the names were
    rewritten in place. *)
Definition sanitizeToolNames (payload : JSValue) : Completion JSValue :=
  tools ← getProp payload "tools";
  match tools with
  | JArr ts =>
      ts' ← cmap sanitizeTool ts;
      setProp payload "tools" (JArr ts')
  | _ => Normal payload
  end.

(** [SchemaInfo]: [{ type, items?, properties? }]. *)
Inductive SchemaInfo :=
| mkSchemaInfo (type : JSValue) (items : option SchemaInfo)
    (properties : option (list (string * SchemaInfo))).

Definition schema_type (info : SchemaInfo) : JSValue :=
  match info with mkSchemaInfo t _ _ => t end.

Definition unknown_schema : SchemaInfo := mkSchemaInfo (JStr "unknown") None None.

(** The key of the [i]-th element of an array or string in
    [Object.entries]. *)
Definition index_key (i : nat) : string := NilEmpty.string_of_uint (Nat.to_uint i).

Fixpoint indexed {A} (i : nat) (xs : list A) : list (string * A) :=
  match xs with
  | [] => []
  | x :: rest => (index_key i, x) :: indexed (S i) rest
  end.

(** [Object.entries(v)] for a value that is not nullish. *)
Definition object_entries (v : JSValue) : list (string * JSValue) :=
  match v with
  | JObj fs => fs
  | JArr items => indexed 0 items
  | JStr s => indexed 0 (List.map (fun c => JStr (String c EmptyString)) (list_ascii_of_string s))
  | _ => []
  end.

(** [extractSchemaInfo(schema)]: [type] is [schema?.type || "unknown"];
    an array schema with truthy [items] recurses into them, an object
    schema with truthy [properties] into each entry. *)
Fixpoint extractSchemaInfo (schema : JSValue) : SchemaInfo :=
  match schema with
  | JObj fs =>
      let t := lookup_field "type" fs in
      let type := if truthy t then t else JStr "unknown" in
      if strict_eq_str type "array" then
        mkSchemaInfo type
          ((fix find_items (l : list (string * JSValue)) : option SchemaInfo :=
              match l with
              | [] => None
              | (k, v) :: rest =>
                  if ("items" =? k)%string
                  then (if truthy v then Some (extractSchemaInfo v) else None)
                  else find_items rest
              end) fs)
          None
      else if strict_eq_str type "object" then
        mkSchemaInfo type None
          ((fix find_properties (l : list (string * JSValue))
              : option (list (string * SchemaInfo)) :=
              match l with
              | [] => None
              | (k, v) :: rest =>
                  if ("properties" =? k)%string
                  then
                    (if truthy v then
                       Some
                         match v with
                         | JObj pfs =>
                             (fix each (l2 : list (string * JSValue)) :=
                                match l2 with
                                | [] => []
                                | (k2, v2) :: rest2 =>
                                    (k2, extractSchemaInfo v2) :: each rest2
                                end) pfs
                         | JArr elems =>
                             (fix each_elem (i : nat) (l3 : list JSValue) :=
                                match l3 with
                                | [] => []
                                | x :: rest3 =>
                                    (index_key i, extractSchemaInfo x)
                                      :: each_elem (S i) rest3
                                end) 0%nat elems
                         | JStr s =>
                             List.map (fun kv => (fst kv, unknown_schema))
                               (object_entries (JStr s))
                         | _ => []
                         end
                     else None)
                  else find_properties rest
              end) fs)
      else mkSchemaInfo type None None
  | _ => unknown_schema
  end.

(** [Map<toolName, Map<paramName, SchemaInfo>>]. *)
Abbreviation ToolSchemaCache := (gmap string (gmap string SchemaInfo)).

(** The [paramMap] filled from [Object.entries(properties)]. *)
Definition build_paramMap (properties : JSValue) : gmap string SchemaInfo :=
  fold_left (fun (m : gmap string SchemaInfo) kv => <[fst kv := extractSchemaInfo (snd kv)]> m)
    (object_entries properties) ∅.

(** The loop body of [cacheToolSchemas] over one declaration. *)
Definition cacheDeclaration (funcDecl : JSValue) : Eff ToolSchemaCache unit :=
  originalName ← lift (getProp funcDecl "name");
  match originalName with
  | JStr name =>
      let sanitizedName := sanitizeToolName name in
      parametersJsonSchema ← lift (getProp funcDecl "parametersJsonSchema");
      parameters ← lift (getProp funcDecl "parameters");
      let schema := nullish_or parametersJsonSchema parameters in
      if negb (truthy schema) || negb (typeof_object schema) then ret tt
      else
        properties ← lift (getProp schema "properties");
        if negb (truthy properties) || negb (typeof_object properties) then ret tt
        else
          let paramMap := build_paramMap properties in
          cache ← get_state;
          let cache1 : ToolSchemaCache := <[sanitizedName := paramMap]> cache in
          put_state (if negb (sanitizedName =? name)%string
                     then <[name := paramMap]> cache1
                     else cache1)
  | _ => ret tt
  end.

Definition cacheTool (tool : JSValue) : Eff ToolSchemaCache unit :=
  funcDecls ← lift (getProp tool "functionDeclarations");
  match funcDecls with
  | JArr decls => for_of cacheDeclaration decls
  | _ => ret tt
  end.

(** [cacheToolSchemas(tools)]. *)
Definition cacheToolSchemas (tools : JSValue) : Eff ToolSchemaCache unit :=
  match tools with
  | JArr ts => for_of cacheTool ts
  | _ => ret tt
  end.

(** [getParamType(toolName, paramName)]:
    [toolSchemaCache.get(toolName)?.get(paramName)?.type]. *)
Definition getParamType (cache : ToolSchemaCache) (toolName paramName : string) : JSValue :=
  match cache !! toolName with
  | Some paramMap =>
      match paramMap !! paramName with
      | Some info => schema_type info
      | None => JUndefined
      end
  | None => JUndefined
  end.

(** The step of [transformGeminiRequest] that concerns tools: the names
    are sanitized in the payload, then the schemas of the payload's
    tools are cached. *)
Definition geminiToolStep (payload : JSValue) : Eff ToolSchemaCache JSValue :=
  payload' ← lift (sanitizeToolNames payload);
  tools ← lift (getProp payload' "tools");
  _ ← cacheToolSchemas tools;
  ret payload'.

(** ** The tool loops in closed form, for tools and declarations that
    are objects *)

Definition declarations_of (tool : JSValue) : list JSValue :=
  match prop tool "functionDeclarations" with
  | JArr decls => decls
  | _ => []
  end.

(** The declarations of a request, in the order the loops visit them. *)
Definition all_declarations (tools : list JSValue) : list JSValue :=
  flat_map declarations_of tools.

Definition well_shaped_tools (tools : list JSValue) : Prop :=
  Forall (fun tool => is_nullish tool = false
                      /\ Forall (fun d => is_nullish d = false) (declarations_of tool)) tools.

(** The [properties] object of the declaration's parameter schema, when
    [cacheToolSchemas] finds one. *)
Definition declared_properties (funcDecl : JSValue) : option JSValue :=
  let schema := nullish_or (prop funcDecl "parametersJsonSchema") (prop funcDecl "parameters") in
  if negb (truthy schema) || negb (typeof_object schema) then None
  else
    let properties := prop schema "properties" in
    if negb (truthy properties) || negb (typeof_object properties) then None
    else Some properties.

(** The cache after [cacheToolSchemas] visited one declaration. *)
Definition cache_declaration (cache : ToolSchemaCache) (funcDecl : JSValue) : ToolSchemaCache :=
  match prop funcDecl "name" with
  | JStr name =>
      match declared_properties funcDecl with
      | Some properties =>
          let paramMap := build_paramMap properties in
          let cache1 : ToolSchemaCache := <[sanitizeToolName name := paramMap]> cache in
          if negb (sanitizeToolName name =? name)%string
          then <[name := paramMap]> cache1
          else cache1
      | None => cache
      end
  | _ => cache
  end.

(** A declaration, and a tool, after [sanitizeToolNames]. *)
Definition sanitized_declaration (func : JSValue) : JSValue :=
  match prop func "name" with
  | JStr originalName =>
      match func with
      | JObj fs => JObj (set_field "name" (JStr (sanitizeToolNameForGemini originalName)) fs)
      | _ => func
      end
  | _ => func
  end.

Definition sanitized_tool (tool : JSValue) : JSValue :=
  match prop tool "functionDeclarations" with
  | JArr decls =>
      match tool with
      | JObj fs =>
          JObj (set_field "functionDeclarations"
                  (JArr (List.map sanitized_declaration decls)) fs)
      | _ => tool
      end
  | _ => tool
  end.

(** The cache holds one parameter map under both the sanitized and the
    original name [n]. *)
Definition same_entry (c : ToolSchemaCache) (n : string) : Prop :=
  exists pm, c !! ("t_" ++ n) = Some pm /\ c !! n = Some pm.

(** ** Argument normalization (request-helpers.ts) *)

Definition backslash : ascii := "\"%char.
Definition dquote : ascii := ascii_of_nat 34.

(** [s.includes(sub)]. *)
Fixpoint includes (sub s : string) : bool :=
  match s with
  | EmptyString => String.prefix sub EmptyString
  | String _ rest => String.prefix sub s || includes sub rest
  end.

(** [s.replaceAll('"', '\\"')]. *)
Fixpoint escape_quotes (s : string) : string :=
  match s with
  | EmptyString => EmptyString
  | String c rest =>
      if Ascii.eqb c dquote then String backslash (String dquote (escape_quotes rest))
      else String c (escape_quotes rest)
  end.

Section WithJSON.
Context `{JSON_API}.

(** [processEscapeSequencesOnly(value)]. *)
Definition processEscapeSequencesOnly (value : JSValue) : JSValue :=
  match value with
  | JStr s =>
      let hasControlCharEscapes := includes "\n" s || includes "\t" s in
      let hasIntentionalEscapes :=
        includes (String backslash (String dquote EmptyString)) s || includes "\\" s in
      if hasControlCharEscapes && negb hasIntentionalEscapes then
        match JSON_parse (String dquote (escape_quotes s ++ String dquote EmptyString)) with
        | Some (JStr unescaped) => JStr unescaped
        | _ => value
        end
      else value
  | _ => value
  end.

(** The value stored under [key] by the loop of [normalizeToolCallArgs]. *)
Definition normalizeArg (cache : ToolSchemaCache) (toolName key : string) (value : JSValue)
  : JSValue :=
  let expectedType := getParamType cache toolName key in
  if strict_eq_str expectedType "string" then processEscapeSequencesOnly value
  else if typeof_string value
          && (strict_eq_str expectedType "array" || strict_eq_str expectedType "object")
  then
    match value with
    | JStr s =>
        match JSON_parse s with
        | Some parsed => parsed
        | None => processEscapeSequencesOnly value
        end
    | _ => processEscapeSequencesOnly value
    end
  else processEscapeSequencesOnly value.

(** [normalizeToolCallArgs(args, toolName)]. *)
Definition normalizeToolCallArgs (cache : ToolSchemaCache) (args : JSValue) (toolName : string)
  : JSValue :=
  if negb (truthy args) || negb (typeof_object args) then args
  else
    JObj (fold_left (fun result kv =>
                       set_field (fst kv) (normalizeArg cache toolName (fst kv) (snd kv)) result)
            (object_entries args) []).

End WithJSON.

End Tools.

(* ===================================================================== *)
(** * Account manager, the rest of the class (accounts.ts) *)
(* ===================================================================== *)

Module Manager.
Import Codec Accounts.

(** The stored form of the account list ([AccountStorage], version 3,
    storage.ts), as the class reads and writes it.  [activeIndex] is an
    integer: the class is only handed documents that went through
    [loadAccounts]. *)
Module Stored.
Record AccountMetadata := {
  email : option string;
  tier : option AccountTier;
  refreshToken : string;
  projectId : option string;
  managedProjectId : option string;
  addedAt : Z;
  lastUsed : Z;
  lastSwitchReason : option SwitchReason;
  rateLimitResetTimes : option RateLimitState
}.

Record AccountStorage := {
  accounts : list AccountMetadata;
  activeIndex : Z
}.
End Stored.

Definition with_index (a : ManagedAccount) (i : Z) : ManagedAccount :=
  {| index := i; parts := parts a; access := access a; expires := expires a;
     rateLimitResetTimes := rateLimitResetTimes a; lastUsed := lastUsed a;
     email := email a; tier := tier a; lastSwitchReason := lastSwitchReason a |}.

(** [new AccountManager(auth, storedAccounts)]. *)
Definition new_AccountManager (auth : Token.OAuthAuthDetails)
  (storedAccounts : option Stored.AccountStorage) : AccountManager :=
  let from_refresh :=
    let multiAccount := parseMultiAccountRefresh (Token.refresh auth) in
    {| accounts :=
         match multiAccount with
         | _ :: _ =>
             imap (fun i p =>
                     {| index := Z.of_nat i;
                        parts := p;
                        access := if (i =? 0)%nat then Some (Token.access auth) else None;
                        expires := if (i =? 0)%nat then Some (Token.expires auth) else None;
                        rateLimitResetTimes := no_rate_limits;
                        lastUsed := 0;
                        email := None; tier := None; lastSwitchReason := None |})
               multiAccount
         | [] =>
             [{| index := 0;
                 parts := parseRefreshParts (Token.refresh auth);
                 access := Some (Token.access auth);
                 expires := Some (Token.expires auth);
                 rateLimitResetTimes := no_rate_limits;
                 lastUsed := 0;
                 email := None; tier := None; lastSwitchReason := None |}]
         end;
       currentIndex := 0;
       currentAccountIndex := 0 |} in
  match storedAccounts with
  | Some stored =>
      if (0 <? length (Stored.accounts stored))%nat then
        let activeIndex :=
          if (0 <=? Stored.activeIndex stored)%Z
             && (Stored.activeIndex stored <? Z.of_nat (length (Stored.accounts stored)))%Z
          then Stored.activeIndex stored else 0%Z in
        {| accounts :=
             imap (fun i acc =>
                     {| index := Z.of_nat i;
                        parts := {| refreshToken := Stored.refreshToken acc;
                                    projectId := Stored.projectId acc;
                                    managedProjectId := Stored.managedProjectId acc |};
                        access := if (Z.of_nat i =? activeIndex)%Z
                                  then Some (Token.access auth) else None;
                        expires := if (Z.of_nat i =? activeIndex)%Z
                                   then Some (Token.expires auth) else None;
                        rateLimitResetTimes :=
                          default no_rate_limits (Stored.rateLimitResetTimes acc);
                        lastUsed := Stored.lastUsed acc;
                        email := Stored.email acc;
                        tier := Stored.tier acc;
                        lastSwitchReason := Stored.lastSwitchReason acc |})
               (Stored.accounts stored);
           currentIndex := activeIndex;
           currentAccountIndex := activeIndex |}
      else from_refresh
  | None => from_refresh
  end.

(** The [storage] object [save()] builds and hands to [saveAccounts]. *)
Definition save_storage (now : Z) (m : AccountManager) : Stored.AccountStorage :=
  {| Stored.accounts :=
       List.map (fun acc =>
                   {| Stored.email := email acc;
                      Stored.tier := tier acc;
                      Stored.refreshToken := refreshToken (parts acc);
                      Stored.projectId := projectId (parts acc);
                      Stored.managedProjectId := managedProjectId (parts acc);
                      Stored.addedAt := if (lastUsed acc =? 0)%Z then now else lastUsed acc;
                      Stored.lastUsed := lastUsed acc;
                      Stored.lastSwitchReason := lastSwitchReason acc;
                      Stored.rateLimitResetTimes := Some (rateLimitResetTimes acc) |})
         (accounts m);
     Stored.activeIndex := Z.max 0 (currentAccountIndex m) |}.

(** [markSwitched(account, reason)], the account being the one at
    position [p]. *)
Definition markSwitched (p : nat) (reason : SwitchReason) (m : AccountManager)
  : AccountManager :=
  match accounts m !! p with
  | Some account =>
      {| accounts :=
           alter (fun a =>
                    {| index := index a; parts := parts a; access := access a;
                       expires := expires a;
                       rateLimitResetTimes := rateLimitResetTimes a;
                       lastUsed := lastUsed a; email := email a; tier := tier a;
                       lastSwitchReason := Some reason |}) p (accounts m);
         currentIndex := currentIndex m;
         currentAccountIndex := index account |}
  | None => m
  end.

Definition getAccountCount (m : AccountManager) : nat := length (accounts m).

(** [updateAccount(account, access, expires, parts?)] on the account
    object. *)
Definition updateAccount (account : ManagedAccount) (access' : string) (expires' : Z)
  (parts' : option RefreshParts) : ManagedAccount :=
  {| index := index account;
     parts := default (parts account) parts';
     access := Some access';
     expires := Some expires';
     rateLimitResetTimes := rateLimitResetTimes account;
     lastUsed := lastUsed account; email := email account; tier := tier account;
     lastSwitchReason := lastSwitchReason account |}.

(** [toAuthDetails()]; [None] where it throws ["No accounts available"]. *)
Definition toAuthDetails (m : AccountManager) : option Token.OAuthAuthDetails :=
  let current :=
    match getCurrentAccount m with
    | Some c => accounts m !! c
    | None => accounts m !! 0%nat
    end in
  match current with
  | None => None
  | Some current =>
      Some {| Token.refresh := formatMultiAccountRefresh (List.map parts (accounts m));
              Token.access := default "" (access current);
              Token.expires := default 0%Z (expires current) |}
  end.

(** [addAccount(parts, access?, expires?, email?, tier?)]. *)
Definition addAccount (parts' : RefreshParts) (access' : option string)
  (expires' : option Z) (email' : option string) (tier' : option AccountTier)
  (m : AccountManager) : AccountManager :=
  {| accounts :=
       accounts m ++
       [{| index := Z.of_nat (length (accounts m));
           parts := parts';
           access := access';
           expires := expires';
           rateLimitResetTimes := no_rate_limits;
           lastUsed := 0;
           email := email';
           tier := tier';
           lastSwitchReason := None |}];
     currentIndex := currentIndex m;
     currentAccountIndex := currentAccountIndex m |}.

(** [removeAccount(index)] for an integer [index]: the answer and the
    manager afterwards. *)
Definition removeAccount (i : Z) (m : AccountManager) : bool * AccountManager :=
  if (i <? 0)%Z || (i >=? Z.of_nat (length (accounts m)))%Z then (false, m)
  else
    (true,
     {| accounts := imap (fun idx acc => with_index acc (Z.of_nat idx))
                      (delete (Z.to_nat i) (accounts m));
        currentIndex := currentIndex m;
        currentAccountIndex := currentAccountIndex m |}).

(** [accountToAuth(account)]. *)
Definition accountToAuth (account : ManagedAccount) : Token.OAuthAuthDetails :=
  {| Token.refresh := formatRefreshParts (parts account);
     Token.access := default "" (access account);
     Token.expires := default 0%Z (expires account) |}.

(** [Math.min(...xs)] for a non-empty list. *)
Definition minimum (x : Z) (xs : list Z) : Z := fold_left Z.min xs x.

(** ** The clock within a call

    [Date.now()] is read several times within one call of the class.
    The calls below are given the readings they make, [clock n] being
    the [n]-th one; each helper takes the number of readings made so far
    and returns it with its answer. *)
Module Clocked.
Section WithClock.
Variable clock : nat -> Z.

(** [isRateLimitedForFamily(account, family)]: the clock is read only
    where the account has a reset time for the family. *)
Definition isRateLimitedForFamily (account : ManagedAccount) (family : ModelFamily)
  (n : nat) : bool * nat :=
  match reset_time (rateLimitResetTimes account) family with
  | Some resetTime => ((clock n <? resetTime)%Z, S n)
  | None => (false, n)
  end.

(** [clearExpiredRateLimits(account)]: one reading for the three
    families. *)
Definition clearExpiredRateLimits (account : ManagedAccount) (n : nat)
  : ManagedAccount * nat :=
  (Accounts.clearExpiredRateLimits (clock n) account, S n).

(** The filter callback of [getMinWaitTimeForFamily] over the array:
    each account once cleared, and whether it passes the filter. *)
Fixpoint clear_and_filter (family : ModelFamily) (l : list ManagedAccount) (n : nat)
  : list (ManagedAccount * bool) * nat :=
  match l with
  | [] => ([], n)
  | a :: rest =>
      let (a1, n1) := clearExpiredRateLimits a n in
      let (limited, n2) := isRateLimitedForFamily a1 family n1 in
      let (rest1, n3) := clear_and_filter family rest n2 in
      ((a1, negb limited) :: rest1, n3)
  end.

(** [.map((t) => Math.max(0, t - Date.now()))]. *)
Fixpoint wait_times (resets : list Z) (n : nat) : list Z * nat :=
  match resets with
  | [] => ([], n)
  | t :: rest =>
      let (ws, n1) := wait_times rest (S n) in
      (Z.max 0 (t - clock n) :: ws, n1)
  end.

(** [getMinWaitTimeForFamily(family)]: the wait, and the manager after
    the filter callback cleared the expired entries. *)
Definition getMinWaitTimeForFamily (family : ModelFamily) (m : AccountManager)
  : Z * AccountManager :=
  let (checked, n1) := clear_and_filter family (accounts m) 0 in
  let m1 := {| accounts := List.map fst checked;
               currentIndex := currentIndex m;
               currentAccountIndex := currentAccountIndex m |} in
  let available := List.filter snd checked in
  if (0 <? length available)%nat then (0%Z, m1)
  else
    let resets :=
      omap (fun a => reset_time (rateLimitResetTimes a) family) (accounts m1) in
    match fst (wait_times resets n1) with
    | [] => (0%Z, m1)
    | t :: ts => (minimum t ts, m1)
    end.

(** [this.accounts.forEach(clearExpiredRateLimits)]. *)
Fixpoint clear_each (l : list ManagedAccount) (n : nat) : list ManagedAccount * nat :=
  match l with
  | [] => ([], n)
  | a :: rest =>
      let (a1, n1) := clearExpiredRateLimits a n in
      let (rest1, n2) := clear_each rest n1 in
      (a1 :: rest1, n2)
  end.

(** [accounts.some((a) => a.tier === "paid" &&
    !isRateLimitedForFamily(a, family))]. *)
Fixpoint some_paid_available (family : ModelFamily) (l : list ManagedAccount) (n : nat)
  : bool * nat :=
  match l with
  | [] => (false, n)
  | a :: rest =>
      if is_paid a then
        let (limited, n1) := isRateLimitedForFamily a family n in
        if negb limited then (true, n1) else some_paid_available family rest n1
      else some_paid_available family rest n
  end.

(** [accounts.filter((a) => !isRateLimitedForFamily(a, family))], as the
    positions [base, base+1, ...] of the accounts that pass. *)
Fixpoint available_positions (family : ModelFamily) (base : nat)
  (l : list ManagedAccount) (n : nat) : list nat * nat :=
  match l with
  | [] => ([], n)
  | a :: rest =>
      let (limited, n1) := isRateLimitedForFamily a family n in
      let (ps, n2) := available_positions family (S base) rest n1 in
      (if negb limited then base :: ps else ps, n2)
  end.

(** [getNextForFamily(family)]. *)
Definition getNextForFamily (family : ModelFamily) (m : AccountManager) (n : nat)
  : option nat * AccountManager * nat :=
  let (available, n1) := available_positions family 0 (accounts m) n in
  match available with
  | [] => (None, m, n1)
  | _ =>
      let paidAvailable :=
        List.filter (fun p => match accounts m !! p with
                              | Some a => is_paid a
                              | None => false
                              end) available in
      let pool := match paidAvailable with [] => available | _ => paidAvailable end in
      match array_get pool (Z.rem (currentIndex m) (Z.of_nat (length pool))) with
      | None => (None, m, n1)
      | Some p =>
          (Some p,
           {| accounts := alter (fun a => with_lastUsed a (clock n1)) p (accounts m);
              currentIndex := (currentIndex m + 1)%Z;
              currentAccountIndex := currentAccountIndex m |},
           S n1)
      end
  end.

(** [getCurrentOrNextForFamily(family)]. *)
Definition getCurrentOrNextForFamily (family : ModelFamily) (m : AccountManager)
  : option nat * AccountManager :=
  let (cleared, n1) := clear_each (accounts m) 0 in
  let m1 := {| accounts := cleared;
               currentIndex := currentIndex m;
               currentAccountIndex := currentAccountIndex m |} in
  let fall_through (n : nat) :=
    match getNextForFamily family m1 n with
    | (Some p, m2, _) =>
        (Some p,
         {| accounts := accounts m2;
            currentIndex := currentIndex m2;
            currentAccountIndex :=
              match accounts m2 !! p with
              | Some next => index next
              | None => currentAccountIndex m2
              end |})
    | (None, m2, _) => (None, m2)
    end in
  match getCurrentAccount m1 with
  | Some c =>
      match accounts m1 !! c with
      | Some current =>
          let (limited, n2) := isRateLimitedForFamily current family n1 in
          if negb limited then
            let (betterTierAvailable, n3) :=
              if negb (is_paid current)
              then some_paid_available family (accounts m1) n2
              else (false, n2) in
            if negb betterTierAvailable then
              (Some c,
               {| accounts := alter (fun a => with_lastUsed a (clock n3)) c (accounts m1);
                  currentIndex := currentIndex m1;
                  currentAccountIndex := currentAccountIndex m1 |})
            else fall_through n3
          else fall_through n2
      | None => fall_through n1
      end
  | None => fall_through n1
  end.

End WithClock.
End Clocked.

(** What one clearing at a reading between [t0] and [T] makes of an
    account: the reset times that had passed at [t0] are gone, those
    after [T] are kept, none is new, and nothing else changes. *)
Definition cleared_between (t0 T : Z) (a a' : ManagedAccount) : Prop :=
  index a' = index a /\ parts a' = parts a /\ access a' = access a
  /\ expires a' = expires a /\ lastUsed a' = lastUsed a /\ email a' = email a
  /\ tier a' = tier a /\ lastSwitchReason a' = lastSwitchReason a
  /\ forall g r,
       (reset_time (rateLimitResetTimes a') g = Some r ->
        reset_time (rateLimitResetTimes a) g = Some r /\ (t0 < r)%Z)
       /\ (reset_time (rateLimitResetTimes a) g = Some r -> (T < r)%Z ->
           reset_time (rateLimitResetTimes a') g = Some r).

(** What the filter callback of [getMinWaitTimeForFamily], reading the
    clock between [t0] and [T], makes of an account and says of it: it
    passes an account that was free at [t0], passes only accounts that
    are free at [T], and an account it does not pass keeps its reset
    time. *)
Definition checked_as (t0 T : Z) (f : ModelFamily) (a : ManagedAccount)
  (c : ManagedAccount * bool) : Prop :=
  cleared_between t0 T a (fst c)
  /\ (isRateLimitedForFamily t0 a f = false -> snd c = true)
  /\ (snd c = true -> isRateLimitedForFamily T a f = false)
  /\ (snd c = false ->
      exists r, reset_time (rateLimitResetTimes a) f = Some r
                /\ reset_time (rateLimitResetTimes (fst c)) f = Some r).

(** An account limited for the family until [B] at least. *)
Definition limited_until (f : ModelFamily) (B : Z) (a : ManagedAccount) : Prop :=
  exists r, reset_time (rateLimitResetTimes a) f = Some r /\ (B <= r)%Z.

(** Parts that survive being packed into a multi-account refresh string:
    no token holds a pipe, and the project id is there. *)
Definition packable (p : RefreshParts) : Prop :=
  no_pipe (refreshToken p)
  /\ (exists s, projectId p = Some s /\ no_pipe s /\ s <> "")
  /\ token_ok (managedProjectId p).

End Manager.

(* ===================================================================== *)
(** * Auth snapshot cache (cache.ts) and token expiry (auth.ts) *)
(* ===================================================================== *)

Module AuthCache.
Import Codec Token.

Definition ACCESS_TOKEN_EXPIRY_BUFFER_MS : Z := 60 * 1000.

(** [accessTokenExpired(auth)] (auth.ts).  [expires] is a number by the
    type of the record, so the [typeof] test never fires. *)
Definition accessTokenExpired (now : Z) (auth : OAuthAuthDetails) : bool :=
  if negb (truthy_string (access auth)) then true
  else (expires auth <=? now + ACCESS_TOKEN_EXPIRY_BUFFER_MS)%Z.

Definition with_authCache (w : World) (c : gmap string OAuthAuthDetails) : World :=
  {| authCache := c;
     projectContextPendingCache := projectContextPendingCache w;
     projectContextResultCache := projectContextResultCache w;
     auth_set_calls := auth_set_calls w |}.

(** [resolveCachedAuth(auth)]: the snapshot returned and the cache
    afterwards. *)
Definition resolveCachedAuth (now : Z) (auth : OAuthAuthDetails) (w : World)
  : OAuthAuthDetails * World :=
  match normalizeRefreshKey (refresh auth) with
  | None => (auth, w)
  | Some key =>
      match authCache w !! key with
      | None => (auth, with_authCache w (<[key := auth]> (authCache w)))
      | Some cached =>
          if negb (accessTokenExpired now auth)
          then (auth, with_authCache w (<[key := auth]> (authCache w)))
          else if negb (accessTokenExpired now cached)
          then (cached, w)
          else (auth, with_authCache w (<[key := auth]> (authCache w)))
      end
  end.

(** [clearCachedAuth(refresh?)]. *)
Definition clearCachedAuth (refresh : option string) (w : World) : World :=
  match refresh with
  | None => with_authCache w ∅
  | Some r =>
      if negb (truthy_string r) then with_authCache w ∅
      else
        match normalizeRefreshKey r with
        | Some key => with_authCache w (delete key (authCache w))
        | None => w
        end
  end.

End AuthCache.

(* ===================================================================== *)
(** * Fetch wrapper: retry bookkeeping (plugin fetch wrapper) *)
(* ===================================================================== *)

Module FetchWrapper.
Import Codec Accounts Backoff Tools.

Definition RATE_LIMIT_SERVER_RETRY_MAX_MS : Z := 24 * 60 * 60 * 1000.

(** The entries of [rateLimitStateByAccount]. *)
Record RateLimitCounter := {
  consecutive429 : Z;
  lastAt : Z
}.

Record RateLimitDelay := {
  attempt : Z;
  serverRetryAfterMs : option Q;
  delayMs : Q
}.

(** [getRateLimitDelay(accountIndex, serverRetryAfterMs)], a closure of
    [createAntigravityFetch] over the map of counters. *)
Definition getRateLimitDelay (now : Z) (accountIndex : Z) (serverRetryAfterMs : option Q)
  (rateLimitStateByAccount : gmap Z RateLimitCounter)
  : RateLimitDelay * gmap Z RateLimitCounter :=
  let previous := rateLimitStateByAccount !! accountIndex in
  let attempt := (default 0 (consecutive429 <$> previous) + 1)%Z in
  let backoffMs := computeExponentialBackoffMs_default (inject_Z attempt) in
  let delayMs :=
    match serverRetryAfterMs with
    | Some server => Qmax server backoffMs
    | None => backoffMs
    end in
  ({| attempt := attempt; serverRetryAfterMs := serverRetryAfterMs; delayMs := delayMs |},
   <[accountIndex := {| consecutive429 := attempt; lastAt := now |}]>
     rateLimitStateByAccount).

(** [resetRateLimitState(accountIndex)]. *)
Definition resetRateLimitState (accountIndex : Z)
  (rateLimitStateByAccount : gmap Z RateLimitCounter) : gmap Z RateLimitCounter :=
  delete accountIndex rateLimitStateByAccount.

(** What happens to the counters over a request: a 429 answered for an
    account, with the server's hint if any, or a success. *)
Inductive Outcome :=
| RateLimited (now : Z) (accountIndex : Z) (serverRetryAfterMs : option Q)
| Succeeded (accountIndex : Z).

Definition record_outcome (o : Outcome) (st : gmap Z RateLimitCounter)
  : gmap Z RateLimitCounter :=
  match o with
  | RateLimited now i server => snd (getRateLimitDelay now i server st)
  | Succeeded i => resetRateLimitState i st
  end.

(** The 429s of account [i] since its last success, in a history given
    oldest first. *)
Fixpoint consecutive_429s (i : Z) (history : list Outcome) (count : Z) : Z :=
  match history with
  | [] => count
  | RateLimited _ j _ :: rest =>
      consecutive_429s i rest (if (j =? i)%Z then count + 1 else count)%Z
  | Succeeded j :: rest => consecutive_429s i rest (if (j =? i)%Z then 0 else count)%Z
  end.

(** ** [sleepWithBackoff] *)

Definition stepsMs : list Z := [3000; 5000; 10000; 20000; 30000]%Z.

(** [stepsMs[stepIndex] ?? stepsMs[stepsMs.length - 1] ?? 30000]. *)
Definition stepMs (stepIndex : nat) : Z :=
  match stepsMs !! stepIndex with
  | Some s => s
  | None => default 30000%Z (stepsMs !! (length stepsMs - 1)%nat)
  end.

(** The [while (remainingMs > 0)] loop over integer milliseconds.
    [aborted k] tells whether the signal fires during the sleep of turn
    [k], which then rejects; the result is whether the loop ran to its
    end, and the sleeps asked for.  [None]: out of fuel. *)
Fixpoint sleep_loop (fuel : nat) (aborted : nat -> bool) (remainingMs : Z)
  (stepIndex : nat) (slept : list Z) : option (bool * list Z) :=
  match fuel with
  | O => None
  | S fuel' =>
      if (0 <? remainingMs)%Z then
        let waitMs := Z.min remainingMs (stepMs stepIndex) in
        if aborted stepIndex then Some (false, (slept ++ [waitMs])%list)
        else sleep_loop fuel' aborted (remainingMs - waitMs)%Z (S stepIndex)
               (slept ++ [waitMs])%list
      else Some (true, slept)
  end.

Definition sleepWithBackoff (fuel : nat) (aborted : nat -> bool) (totalMs : Z)
  : option (bool * list Z) :=
  sleep_loop fuel aborted (Z.max 0 totalMs) 0 [].

Definition sum_ms (l : list Z) : Z := fold_right Z.add 0%Z l.

(** ** [parseRetryAfterMs] *)

(** The value of the longest digit prefix of [s] read after [acc];
    [None] when no digit was read. *)
Fixpoint digits_value (s : string) (acc : Z) (seen : bool) : option Z :=
  match s with
  | String c rest =>
      if is_digit c
      then digits_value rest (10 * acc + (Z.of_nat (nat_of_ascii c) - 48))%Z true
      else if seen then Some acc else None
  | EmptyString => if seen then Some acc else None
  end.

(** [parseInt(s, 10)]; [None] is [NaN].  Leading white space is skipped,
    one sign is read, then the longest run of decimal digits. *)
Definition parseInt10 (s : string) : option Z :=
  match trim_start s with
  | String "-" rest => Z.opp <$> digits_value rest 0 false
  | String "+" rest => digits_value rest 0 false
  | t => digits_value t 0 false
  end.

(** [parseRetryAfterMs(response)], given what [response.headers.get]
    answers for ["retry-after-ms"] and ["retry-after"]. *)
Definition parseRetryAfterMs (retryAfterMsHeader retryAfterSecondsHeader : option string)
  : option Z :=
  let from_seconds :=
    match retryAfterSecondsHeader with
    | Some h =>
        if truthy_string h then
          match parseInt10 h with
          | Some parsed =>
              if (0 <=? parsed)%Z
              then Some (Z.min (parsed * 1000) RATE_LIMIT_SERVER_RETRY_MAX_MS)
              else None
          | None => None
          end
        else None
    | None => None
    end in
  match retryAfterMsHeader with
  | Some h =>
      if truthy_string h then
        match parseInt10 h with
        | Some parsed =>
            if (0 <=? parsed)%Z
            then Some (Z.min parsed RATE_LIMIT_SERVER_RETRY_MAX_MS)
            else from_seconds
        | None => from_seconds
        end
      else from_seconds
  | None => from_seconds
  end.

(** ** The model family of a request URL *)

(** [s.startsWith(p)], with what follows the prefix. *)
Fixpoint strip_prefix (p s : string) : option string :=
  match p with
  | EmptyString => Some s
  | String a p' =>
      match s with
      | String b s' => if Ascii.eqb a b then strip_prefix p' s' else None
      | EmptyString => None
      end
  end.

(** The longest prefix of [s] whose characters satisfy [keep], and the
    rest. *)
Fixpoint span (keep : ascii -> bool) (s : string) : string * string :=
  match s with
  | String c rest =>
      if keep c then let (a, b) := span keep rest in (String c a, b)
      else (EmptyString, s)
  | EmptyString => (EmptyString, EmptyString)
  end.

(** [[^:\/?]]. *)
Definition model_char (c : ascii) : bool :=
  negb (Ascii.eqb c ":" || Ascii.eqb c "/" || Ascii.eqb c "?").

(** [urlString.match(/\/models\/([^:\/?]+)(?::\w+)?/)?.[1] ?? null]:
    the leftmost [/models/] that is followed by a model character
    starts the match, and the group takes every model character that
    follows. *)
Fixpoint extractModelFromUrl (urlString : string) : option string :=
  match urlString with
  | EmptyString => None
  | String _ rest =>
      match strip_prefix "/models/" urlString with
      | Some after =>
          match fst (span model_char after) with
          | EmptyString => extractModelFromUrl rest
          | model => Some model
          end
      | None => extractModelFromUrl rest
      end
  end.

(** [getModelFamilyFromUrl(urlString)]. *)
Definition getModelFamilyFromUrl (urlString : string) : ModelFamily :=
  match extractModelFromUrl urlString with
  | Some model =>
      if includes "claude" model then claude
      else if includes "flash" model then gemini_flash
      else gemini_pro
  | None => gemini_pro
  end.

End FetchWrapper.

(* ===================================================================== *)
(** * Request preparation: the model of a request (request.ts) *)
(* ===================================================================== *)

Module Request.
Import Codec Accounts Tools FetchWrapper.

Definition MODEL_ALIASES : list (string * string) :=
  [("gemini-2.5-computer-use-preview-10-2025", "rev19-uic3-1p");
   ("gemini-3-pro-image-preview", "gemini-3-pro-image");
   ("gemini-3-pro-preview", "gemini-3-pro-high");
   ("gemini-3-flash-preview", "gemini-3-flash");
   ("gemini-claude-sonnet-4-5", "claude-sonnet-4-5");
   ("gemini-claude-sonnet-4-5-thinking", "claude-sonnet-4-5-thinking");
   ("gemini-claude-opus-4-5-thinking", "claude-opus-4-5-thinking")].

Definition MODEL_FALLBACKS : list (string * string) :=
  [("gemini-2.5-flash-image", "gemini-2.5-flash")].

(** The names every object literal answers to through
    [Object.prototype], with a function or an object and not a model
    name. *)
Definition OBJECT_PROTOTYPE_KEYS : list string :=
  ["constructor"; "__defineGetter__"; "__defineSetter__"; "hasOwnProperty";
   "__lookupGetter__"; "__lookupSetter__"; "isPrototypeOf"; "propertyIsEnumerable";
   "toString"; "valueOf"; "__proto__"; "toLocaleString"].

Fixpoint table_get (key : string) (table : list (string * string)) : option string :=
  match table with
  | [] => None
  | (k, v) :: rest => if (key =? k)%string then Some v else table_get key rest
  end.

(** [getModelFamily(model)]. *)
Definition getModelFamily (model : string) : ModelFamily :=
  if includes "claude" model then claude
  else if includes "flash" model then gemini_flash
  else gemini_pro.

(** [resolveModelName(rawModel)]; [None] where the table lookup answers
    with an inherited member of [Object.prototype], which is truthy and
    returned as it is although it is no string. *)
Definition resolveModelName (rawModel : string) : option string :=
  if existsb (String.eqb rawModel) OBJECT_PROTOTYPE_KEYS then None
  else
    match table_get rawModel MODEL_ALIASES with
    | Some aliased => if truthy_string aliased then Some aliased
                      else Some (default rawModel (table_get rawModel MODEL_FALLBACKS))
    | None => Some (default rawModel (table_get rawModel MODEL_FALLBACKS))
    end.

(** [\w]. *)
Definition word_char (c : ascii) : bool :=
  let n := nat_of_ascii c in
  is_digit c || (Nat.leb 65 n && Nat.leb n 90) || (Nat.leb 97 n && Nat.leb n 122)
  || Nat.eqb n 95.

Definition starts_with_word_char (s : string) : bool :=
  match s with
  | String c _ => word_char c
  | EmptyString => false
  end.

(** [urlString.match(/\/models\/([^:]+):(\w+)/)]: the two groups
    [rawModel] and [rawAction] of the leftmost match.  At a given
    [/models/] the first group can only be the whole run of characters
    up to the next colon, which must be followed by a word character. *)
Fixpoint match_model_action (urlString : string) : option (string * string) :=
  match urlString with
  | EmptyString => None
  | String _ rest =>
      match strip_prefix "/models/" urlString with
      | Some after =>
          let (rawModel, tail) := span (fun c => negb (Ascii.eqb c ":")) after in
          match rawModel, tail with
          | String _ _, String _ afterColon =>
              if starts_with_word_char afterColon
              then Some (rawModel, fst (span word_char afterColon))
              else match_model_action rest
          | _, _ => match_model_action rest
          end
      | None => match_model_action rest
      end
  end.

(** The [family] of the transform context that
    [prepareAntigravityRequest] builds for a URL: that of the effective
    model.  [None]: the URL does not name a model and an action, or the
    effective model is no string. *)
Definition context_family (urlString : string) : option ModelFamily :=
  match match_model_action urlString with
  | Some (rawModel, _) => getModelFamily <$> resolveModelName rawModel
  | None => None
  end.

(** Every character of [s] satisfies [p]. *)
Fixpoint all_chars (p : ascii -> bool) (s : string) : bool :=
  match s with
  | EmptyString => true
  | String c rest => p c && all_chars p rest
  end.

End Request.

(* ===================================================================== *)
(** * The Gemini transformer's pass over the conversation
      (transform/gemini.ts) *)
(* ===================================================================== *)

Module Gemini.
Import Codec JS Accounts Claude.

Definition THOUGHT_SIGNATURE_BYPASS : string := "skip_thought_signature_validator".

Section WithCrypto.
Context `{Crypto}.

(** One turn of the loop over the parts of a model content: the part
    pushed onto [filteredParts], if any, and [currentThoughtSignature]
    afterwards.  The signature cache is only read.  A thinking part
    whose text is truthy but no string makes [getCachedSignature] call
    [trim] on it, a [TypeError]. *)
Definition model_part (ctx : TransformContext) (cache : gmap string string)
  (currentThoughtSignature : option string) (part : JSValue)
  : Completion (option JSValue * option string) :=
  if negb (truthy part) then Normal (None, currentThoughtSignature)
  else
    thought ← getProp part "thought";
    match thought with
    | JBool true =>
        thoughtText ← getProp part "text";
        if truthy thoughtText && truthy_string (sessionId ctx) then
          match thoughtText with
          | JStr t =>
              match getCachedSignature (family ctx) (sessionId ctx) t cache with
              | Some cachedSig =>
                  if truthy_string cachedSig then
                    part' ← setProp part "thoughtSignature" (JStr cachedSig);
                    Normal (Some part', Some cachedSig)
                  else Normal (None, currentThoughtSignature)
              | None => Normal (None, currentThoughtSignature)
              end
          | _ => Throw TypeError
          end
        else Normal (None, currentThoughtSignature)
    | _ =>
        functionCall ← getProp part "functionCall";
        if truthy functionCall then
          existingSig ← getProp part "thoughtSignature";
          if negb (typeof_string existingSig) || strict_eq_str existingSig "" then
            let nextSig := default THOUGHT_SIGNATURE_BYPASS currentThoughtSignature in
            part' ← setProp part "thoughtSignature" (JStr nextSig);
            Normal (Some part', currentThoughtSignature)
          else Normal (Some part, currentThoughtSignature)
        else
          thoughtSignature ← getProp part "thoughtSignature";
          if negb (is_undefined thoughtSignature) then
            match part with
            | JObj fs => Normal (Some (JObj (remove_field "thoughtSignature" fs)),
                                 currentThoughtSignature)
            | _ => Normal (Some part, currentThoughtSignature)
            end
          else Normal (Some part, currentThoughtSignature)
    end.

(** The loop over the parts: [filteredParts]. *)
Fixpoint model_parts (ctx : TransformContext) (cache : gmap string string)
  (currentThoughtSignature : option string) (parts : list JSValue)
  : Completion (list JSValue) :=
  match parts with
  | [] => Normal []
  | part :: rest =>
      '(kept, current') ← model_part ctx cache currentThoughtSignature part;
      filtered ← model_parts ctx cache current' rest;
      Normal (match kept with Some p => p :: filtered | None => filtered end)
  end.

(** One turn of the loop over the contents. *)
Definition model_content (ctx : TransformContext) (cache : gmap string string)
  (content : JSValue) : Completion JSValue :=
  if negb (truthy content) then Normal content
  else
    role ← getProp content "role";
    if negb (strict_eq_str role "model") then Normal content
    else
      parts ← getProp content "parts";
      match parts with
      | JArr items =>
          filteredParts ← model_parts ctx cache None items;
          setProp content "parts" (JArr filteredParts)
      | _ => Normal content
      end.

(** The contents pass of [transformGeminiRequest] on
    [requestPayload.contents]. *)
Definition transformGeminiContents (ctx : TransformContext) (cache : gmap string string)
  (contents : JSValue) : Completion JSValue :=
  match contents with
  | JArr items => cs ← cmap (model_content ctx cache) items; Normal (JArr cs)
  | _ => Normal contents
  end.

(** What the pass leaves of a part: a thinking part carries the
    signature cached for its text, a function call carries a non-empty
    signature, anything else carries none. *)
Definition signed_as_required (ctx : TransformContext) (cache : gmap string string)
  (part : JSValue) : Prop :=
  match prop part "thought" with
  | JBool true =>
      exists t sig,
        prop part "text" = JStr t
        /\ getCachedSignature (family ctx) (sessionId ctx) t cache = Some sig
        /\ sig <> ""
        /\ prop part "thoughtSignature" = JStr sig
  | _ =>
      if truthy (prop part "functionCall")
      then exists sig, prop part "thoughtSignature" = JStr sig /\ sig <> ""
      else prop part "thoughtSignature" = JUndefined
  end.

(** The part without its [thoughtSignature]. *)
Definition unsigned (part : JSValue) : JSValue :=
  match part with
  | JObj fs => JObj (remove_field "thoughtSignature" fs)
  | _ => part
  end.

(** A part the loop does not skip and that is no thinking part. *)
Definition kept_as_plain (part : JSValue) : bool := truthy part && plain part.

(** A thinking part whose text, if truthy, is a string. *)
Definition text_is_string_if_thought (part : JSValue) : Prop :=
  is_thought part = true -> truthy (prop part "text") = true ->
  typeof_string (prop part "text") = true.

(** How the pass leaves a content: a model content with an array of
    parts gets the filtered parts, every other content stays as it is. *)
Definition passed (ctx : TransformContext) (cache : gmap string string)
  (content content' : JSValue) : Prop :=
  if truthy content && strict_eq_str (prop content "role") "model" then
    match prop content "parts" with
    | JArr items =>
        exists filtered,
          prop content' "parts" = JArr filtered
          /\ (forall k, k <> "parts" -> prop content' k = prop content k)
          /\ Forall (signed_as_required ctx cache) filtered
          /\ List.map unsigned (List.filter plain filtered)
             = List.map unsigned (List.filter kept_as_plain items)
    | _ => content' = content
    end
  else content' = content.

(** [currentThoughtSignature] is unset or a non-empty string. *)
Definition current_ok (current : option string) : Prop :=
  match current with Some s => s <> "" | None => True end.

End WithCrypto.

End Gemini.

(* ===================================================================== *)
(** * Function calls and their responses in the Claude transformer's pass
      (transform/claude.ts) *)
(* ===================================================================== *)

Module ClaudeIds.
Import Codec JS Accounts Claude.

(** A part that calls tool [n] and carries no response. *)
Definition calls_tool (n : string) (part : JSValue) : Prop :=
  plain part = true
  /\ (exists call, prop part "functionCall" = JObj call /\ lookup_field "name" call = JStr n)
  /\ truthy (prop part "functionResponse") = false.

(** A part that answers tool [n] without naming the call it answers,
    and carries no call. *)
Definition answers_tool (n : string) (part : JSValue) : Prop :=
  plain part = true
  /\ truthy (prop part "functionCall") = false
  /\ exists response,
      prop part "functionResponse" = JObj response
      /\ lookup_field "name" response = JStr n
      /\ truthy (lookup_field "id" response) = false.

(** The id a part carries on its call, and on its response. *)
Definition call_id (part : JSValue) : JSValue := prop (prop part "functionCall") "id".
Definition response_id (part : JSValue) : JSValue := prop (prop part "functionResponse") "id".

End ClaudeIds.

(* ===================================================================== *)
(** * Request helpers and the payload clean-up shared by the two
      transformers (request-helpers.ts, transform/claude.ts,
      transform/gemini.ts) *)
(* ===================================================================== *)

Module Helpers.
Import Codec JS Claude Tools.

(** [c.toLowerCase()] on a code unit below 256: the letters [A]-[Z] and
    the capital letters of Latin-1 ([À]-[Þ] but for [×]) move down by
    32. *)
Definition to_lower_char (c : ascii) : ascii :=
  let n := nat_of_ascii c in
  if (Nat.leb 65 n && Nat.leb n 90)
     || (Nat.leb 192 n && Nat.leb n 222 && negb (Nat.eqb n 215))
  then ascii_of_nat (n + 32) else c.

Fixpoint toLowerCase (s : string) : string :=
  match s with
  | EmptyString => EmptyString
  | String c rest => String (to_lower_char c) (toLowerCase rest)
  end.

Definition typeof_boolean (v : JSValue) : bool :=
  match v with JBool _ => true | _ => false end.

(** The object literal that receives the fields that are defined. *)
Definition defined_fields (fs : list (string * JSValue)) : list (string * JSValue) :=
  List.filter (fun kv => negb (is_undefined (snd kv))) fs.

(** [normalizeThinkingConfig(config)]; every number of the embedding is
    finite. *)
Definition normalizeThinkingConfig (config : JSValue) : JSValue :=
  if negb (truthy config) || negb (typeof_object config) then JUndefined
  else
    let budgetRaw := nullish_or (prop config "thinkingBudget") (prop config "thinking_budget") in
    let levelRaw := nullish_or (prop config "thinkingLevel") (prop config "thinking_level") in
    let includeRaw :=
      nullish_or (prop config "includeThoughts") (prop config "include_thoughts") in
    let thinkingBudget := if typeof_number budgetRaw then budgetRaw else JUndefined in
    let thinkingLevel :=
      match levelRaw with
      | JStr level => if (0 <? String.length level)%nat then JStr (toLowerCase level)
                      else JUndefined
      | _ => JUndefined
      end in
    let includeThoughts := if typeof_boolean includeRaw then includeRaw else JUndefined in
    if is_undefined thinkingBudget && is_undefined thinkingLevel
       && is_undefined includeThoughts
    then JUndefined
    else JObj (defined_fields [("thinkingBudget", thinkingBudget);
                               ("thinkingLevel", thinkingLevel);
                               ("include_thoughts", includeThoughts)]).

(** What the type checks of [normalizeThinkingConfig] let through for the
    three fields. *)
Definition budget_ok (v : JSValue) : Prop := v = JUndefined \/ typeof_number v = true.
Definition level_ok (v : JSValue) : Prop :=
  v = JUndefined \/ exists s, v = JStr s /\ s <> "" /\ toLowerCase s = s.
Definition include_ok (v : JSValue) : Prop := v = JUndefined \/ typeof_boolean v = true.

(** [Object.keys(v).length] of an object or an array. *)
Definition keys_length (v : JSValue) : nat := length (object_entries v).

(** [delete v.k]: an array has no such property to lose. *)
Definition delete_prop (k : string) (v : JSValue) : JSValue :=
  match v with
  | JObj fs => JObj (remove_field k fs)
  | _ => v
  end.

(** The clean-up of the cached-content reference, on the fields of the
    request payload (a fresh object, the copy of the parsed body).  The
    same lines stand in both transformers. *)
Definition stripCachedContent (requestPayload : list (string * JSValue))
  : list (string * JSValue) :=
  let extra_body := lookup_field "extra_body" requestPayload in
  let cachedContentFromExtra :=
    if typeof_object extra_body && truthy extra_body
    then nullish_or (prop extra_body "cached_content") (prop extra_body "cachedContent")
    else JUndefined in
  let cachedContent :=
    nullish_or (lookup_field "cached_content" requestPayload)
      (nullish_or (lookup_field "cachedContent" requestPayload) cachedContentFromExtra) in
  let p1 := if truthy cachedContent
            then set_field "cachedContent" cachedContent requestPayload
            else requestPayload in
  let p2 := remove_field "cachedContent" (remove_field "cached_content" p1) in
  let extra_body2 := lookup_field "extra_body" p2 in
  if truthy extra_body2 && typeof_object extra_body2 then
    let cleaned := delete_prop "cachedContent" (delete_prop "cached_content" extra_body2) in
    if (keys_length cleaned =? 0)%nat then remove_field "extra_body" p2
    else set_field "extra_body" cleaned p2
  else p2.

End Helpers.

(* ===================================================================== *)
(** * The Claude transformer's generation config (transform/claude.ts) *)
(* ===================================================================== *)

Module ClaudeConfig.
Import Codec JS Claude Tools Helpers.

(** The relational operator of the runtime, [a <= b], which on two
    numbers compares them; on other values it goes through the
    runtime's conversions. *)
Class Relational := {
  less_eq : JSValue -> JSValue -> bool;
  less_eq_numbers : forall a b, less_eq (JNum a) (JNum b) = Qle_bool a b
}.

Section WithRelational.
Context `{Relational}.

(** The thinking configuration a thinking model is given: what
    [normalizeThinkingConfig] answered (an object or [undefined]) with
    the two defaults filled in. *)
Definition thinking_defaults (normalizedThinking : JSValue) : list (string * JSValue) :=
  match normalizedThinking with
  | JObj fs =>
      let fs1 :=
        if is_undefined (lookup_field "include_thoughts" fs)
        then set_field "include_thoughts" (JBool true) fs else fs in
      if is_undefined (lookup_field "thinkingBudget" fs1)
         || strict_eq_num (lookup_field "thinkingBudget" fs1) 0
      then set_field "thinkingBudget" (JInt 16384) fs1 else fs1
  | _ => [("thinkingBudget", JInt 16384); ("include_thoughts", JBool true)]
  end.

(** The first of the two places of [transformClaudeRequest] that write
    [requestPayload.generationConfig], the one that settles the thinking
    configuration: the value the field has after it, from the value
    [rawGenerationConfig] it had in the parsed request ([undefined]
    where the field is missing). *)
Definition thinkingConfigStep (model : string) (rawGenerationConfig : JSValue)
  : Completion JSValue :=
  let normalizedThinking :=
    normalizeThinkingConfig (prop rawGenerationConfig "thinkingConfig") in
  let isThinkingModel := includes "-thinking" model in
  if isThinkingModel then
    let normalizedThinking := thinking_defaults normalizedThinking in
    let budget := lookup_field "thinkingBudget" normalizedThinking in
    let finalThinkingConfig :=
      JObj ([("include_thoughts",
              nullish_or (lookup_field "include_thoughts" normalizedThinking) (JBool true))]
            ++ (if truthy budget then [("thinking_budget", budget)] else [])) in
    if truthy rawGenerationConfig then
      raw1 ← setProp rawGenerationConfig "thinkingConfig" finalThinkingConfig;
      let currentMax :=
        nullish_or (prop raw1 "maxOutputTokens") (prop raw1 "max_output_tokens") in
      if truthy budget && (negb (truthy currentMax) || less_eq currentMax budget) then
        raw2 ← setProp raw1 "maxOutputTokens" (JInt 64000);
        let raw3 :=
          if negb (is_undefined (prop raw2 "max_output_tokens"))
          then delete_prop "max_output_tokens" raw2 else raw2 in
        Normal raw3
      else Normal raw1
    else
      let genConfig :=
        JObj ([("thinkingConfig", finalThinkingConfig)]
              ++ (if truthy budget then [("maxOutputTokens", JInt 64000)] else [])) in
      Normal genConfig
  else
    if truthy normalizedThinking then
      if truthy rawGenerationConfig then
        setProp rawGenerationConfig "thinkingConfig" normalizedThinking
      else Normal (JObj [("thinkingConfig", normalizedThinking)])
    else if truthy (prop rawGenerationConfig "thinkingConfig") then
      Normal (delete_prop "thinkingConfig" rawGenerationConfig)
    else Normal rawGenerationConfig.

(** The second place, before the body is serialized: for the model
    [gemini-claude-sonnet-4-5] a truthy [thinkingConfig] is deleted from
    the generation config. *)
Definition sonnetFallbackStep (model : string) (generationConfig : JSValue) : JSValue :=
  if (model =? "gemini-claude-sonnet-4-5")%string then
    if truthy generationConfig && truthy (prop generationConfig "thinkingConfig")
    then delete_prop "thinkingConfig" generationConfig
    else generationConfig
  else generationConfig.

(** The generation config of the request [transformClaudeRequest]
    serializes, from the one of the request it parsed: the two places
    one after the other.  No other statement of the function writes the
    field or the object in it. *)
Definition claudeGenerationConfig (model : string) (rawGenerationConfig : JSValue)
  : Completion JSValue :=
  generationConfig ← thinkingConfigStep model rawGenerationConfig;
  Normal (sonnetFallbackStep model generationConfig).

End WithRelational.

End ClaudeConfig.

(* ===================================================================== *)
(** * Project context resolution (project.ts) *)
(* ===================================================================== *)

Module Project.
Import Codec Token.

Record AntigravityUserTier := {
  tier_id : option string;
  isDefault : option bool
}.

(** The payloads of the Code Assist API, as their interfaces declare
    them; [currentTier] holds [currentTier?.id]. *)
Record LoadCodeAssistPayload := {
  cloudaicompanionProject : option string;
  currentTier : option string;
  allowedTiers : option (list AntigravityUserTier)
}.

(** [managedProject] holds [response?.cloudaicompanionProject?.id]. *)
Record OnboardUserPayload := {
  done : option bool;
  managedProject : option string
}.

(** What a request to the API comes to: [fetch] or [response.json()]
    rejects, the response is not [ok], or it carries a payload. *)
Inductive Reply (P : Type) :=
| Failed
| NotOk
| Payload (p : P).
Arguments Failed {P}.
Arguments NotOk {P}.
Arguments Payload {P} p.

(** The body of a request; [metadata] in insertion order. *)
Record RequestBody := {
  body_tierId : option string;
  metadata : list (string * string);
  body_project : option string
}.

Record Request := {
  endpoint : string;
  bearer : string;
  body : RequestBody
}.

(** The process-wide state and the requests sent so far, oldest first. *)
Record ProjectWorld := {
  world : World;
  sent : list Request
}.

Inductive ProjectError :=
| ProjectIdRequiredError
| HostError.

(** How an awaited promise settles. *)
Inductive Settled (A : Type) :=
| Fulfilled (a : A)
| Rejected (e : ProjectError).
Arguments Fulfilled {A} a.
Arguments Rejected {A} e.

(** What [ensureProjectContext] hands back once awaited; a call that
    finds another resolution in flight hands back that promise. *)
Inductive Resolution :=
| Resolved (r : ProjectContextResult)
| Failure (e : ProjectError)
| Awaits (p : PendingResolution).

(** Truthiness of an optional string. *)
Definition truthy_opt (o : option string) : bool :=
  match o with
  | Some s => truthy_string s
  | None => false
  end.

(** [buildMetadata(projectId)]. *)
Definition buildMetadata (projectId : option string) : list (string * string) :=
  [("ideType", "IDE_UNSPECIFIED"); ("platform", "PLATFORM_UNSPECIFIED");
   ("pluginType", "ANTIGRAVITY")]
  ++ (if truthy_opt projectId then [("duetProject", default "" projectId)] else []).

(** [getDefaultTierId(allowedTiers)]. *)
Definition getDefaultTierId (allowedTiers : option (list AntigravityUserTier))
  : option string :=
  match allowedTiers with
  | None | Some [] => None
  | Some (first :: rest) =>
      match List.find (fun tier => default false (isDefault tier)) (first :: rest) with
      | Some tier => tier_id tier
      | None => tier_id first
      end
  end.

(** [getCacheKey(auth)]. *)
Definition getCacheKey (auth : OAuthAuthDetails) : option string :=
  let refresh := trim (refresh auth) in
  if truthy_string refresh then Some refresh else None.

Definition send (r : Request) (st : ProjectWorld) : ProjectWorld :=
  {| world := world st; sent := (sent st ++ [r])%list |}.

Definition with_project_caches (pending : gmap string PendingResolution)
  (result : gmap string ProjectContextResult) (st : ProjectWorld) : ProjectWorld :=
  {| world := {| authCache := authCache (world st);
                 projectContextPendingCache := pending;
                 projectContextResultCache := result;
                 auth_set_calls := auth_set_calls (world st) |};
     sent := sent st |}.

Section WithApi.
(** The API and the host: the answer to the request sent after [n]
    others, and whether [client.auth.set] rejects. *)
Variable load_reply : nat -> Request -> Reply LoadCodeAssistPayload.
Variable onboard_reply : nat -> Request -> Reply OnboardUserPayload.
Variable auth_set_rejects : OAuthAuthDetails -> bool.

(** [loadManagedProject(accessToken, projectId)]; [null] is [None], as is
    a body that parses to [null]. *)
Definition loadManagedProject (accessToken : string) (projectId : option string)
  (st : ProjectWorld) : option LoadCodeAssistPayload * ProjectWorld :=
  let requestBody :=
    {| body_tierId := None;
       metadata := buildMetadata projectId;
       body_project := if truthy_opt projectId then projectId else None |} in
  let request :=
    {| endpoint := "/v1internal:loadCodeAssist"; bearer := accessToken;
       body := requestBody |} in
  match load_reply (length (sent st)) request with
  | Failed | NotOk => (None, send request st)
  | Payload p => (Some p, send request st)
  end.

(** The loop of [onboardManagedProject]: one request per attempt. *)
Fixpoint onboard_attempts (attempts : nat) (request : Request) (projectId : option string)
  (st : ProjectWorld) : option string * ProjectWorld :=
  match attempts with
  | O => (None, st)
  | S attempts' =>
      let st1 := send request st in
      match onboard_reply (length (sent st)) request with
      | Failed | NotOk => (None, st1)
      | Payload payload =>
          if default false (done payload) && truthy_opt (managedProject payload)
          then (managedProject payload, st1)
          else if default false (done payload) && truthy_opt projectId
          then (projectId, st1)
          else onboard_attempts attempts' request projectId st1
      end
  end.

(** [onboardManagedProject(accessToken, tierId, projectId, attempts)]. *)
Definition onboardManagedProject (accessToken tierId : string) (projectId : option string)
  (attempts : nat) (st : ProjectWorld) : Settled (option string) * ProjectWorld :=
  if negb (tierId =? "FREE") && negb (truthy_opt projectId)
  then (Rejected ProjectIdRequiredError, st)
  else
    let requestBody :=
      {| body_tierId := Some tierId;
         metadata := buildMetadata projectId;
         body_project := if negb (tierId =? "FREE") then projectId else None |} in
    let request :=
      {| endpoint := "/v1internal:onboardUser"; bearer := accessToken;
         body := requestBody |} in
    let '(answer, st1) := onboard_attempts attempts request projectId st in
    (Fulfilled answer, st1).

(** The tail shared by the two branches that found a managed project:
    the refresh string is rebuilt and handed to the host. *)
Definition adopt_managed_project (auth : OAuthAuthDetails) (parts : RefreshParts)
  (managed : string) (st : ProjectWorld) : Settled ProjectContextResult * ProjectWorld :=
  let updatedAuth :=
    {| refresh := formatRefreshParts
                    {| refreshToken := refreshToken parts;
                       projectId := projectId parts;
                       managedProjectId := Some managed |};
       access := access auth;
       expires := expires auth |} in
  let st1 :=
    {| world := client_auth_set ANTIGRAVITY_PROVIDER_ID updatedAuth (world st);
       sent := sent st |} in
  if auth_set_rejects updatedAuth then (Rejected HostError, st1)
  else (Fulfilled {| pc_auth := updatedAuth; effectiveProjectId := managed |}, st1).

(** [resolveContext()], the closure of [ensureProjectContext]. *)
Definition resolveContext (auth : OAuthAuthDetails) (st : ProjectWorld)
  : Settled ProjectContextResult * ProjectWorld :=
  let accessToken := access auth in
  let parts := parseRefreshParts (refresh auth) in
  if truthy_opt (projectId parts) || truthy_opt (managedProjectId parts) then
    (Fulfilled {| pc_auth := auth;
                  effectiveProjectId :=
                    if truthy_opt (projectId parts) then default "" (projectId parts)
                    else if truthy_opt (managedProjectId parts)
                         then default "" (managedProjectId parts)
                         else "" |}, st)
  else
    let '(loadPayload, st1) := loadManagedProject accessToken (projectId parts) st in
    match loadPayload with
    | None => (Rejected ProjectIdRequiredError, st1)
    | Some payload =>
        if truthy_opt (cloudaicompanionProject payload) then
          adopt_managed_project auth parts (default "" (cloudaicompanionProject payload)) st1
        else
          let currentTierId := currentTier payload in
          if truthy_opt currentTierId && negb (default "" currentTierId =? "FREE")
          then (Rejected ProjectIdRequiredError, st1)
          else
            let tierId := default "FREE" (getDefaultTierId (allowedTiers payload)) in
            if negb (tierId =? "FREE") then (Rejected ProjectIdRequiredError, st1)
            else
              match onboardManagedProject accessToken tierId (projectId parts) 10 st1 with
              | (Rejected e, st2) => (Rejected e, st2)
              | (Fulfilled managedProjectId, st2) =>
                  if truthy_opt managedProjectId
                  then adopt_managed_project auth parts (default "" managedProjectId) st2
                  else (Rejected ProjectIdRequiredError, st2)
              end
    end.

(** [ensureProjectContext(auth, client)], awaited.  The entry of the
    pending cache this call writes is gone again once it settles. *)
Definition ensureProjectContext (auth : OAuthAuthDetails) (st : ProjectWorld)
  : Resolution * ProjectWorld :=
  if negb (truthy_string (access auth))
  then (Resolved {| pc_auth := auth; effectiveProjectId := "" |}, st)
  else
    let pendingCache := projectContextPendingCache (world st) in
    let resultCache := projectContextResultCache (world st) in
    match getCacheKey auth with
    | None =>
        match resolveContext auth st with
        | (Fulfilled result, st1) => (Resolved result, st1)
        | (Rejected e, st1) => (Failure e, st1)
        end
    | Some cacheKey =>
        match resultCache !! cacheKey, pendingCache !! cacheKey with
        | Some cached, _ => (Resolved cached, st)
        | None, Some pending => (Awaits pending, st)
        | None, None =>
            match resolveContext auth st with
            | (Fulfilled result, st1) =>
                let nextKey := default cacheKey (getCacheKey (pc_auth result)) in
                let pending1 := delete cacheKey (projectContextPendingCache (world st1)) in
                let result1 := <[nextKey := result]> (projectContextResultCache (world st1)) in
                let result2 :=
                  if negb (nextKey =? cacheKey) then delete cacheKey result1 else result1 in
                (Resolved result, with_project_caches pending1 result2 st1)
            | (Rejected e, st1) =>
                (Failure e,
                 with_project_caches
                   (delete cacheKey (projectContextPendingCache (world st1)))
                   (projectContextResultCache (world st1)) st1)
            end
        end
    end.

End WithApi.

(** The entries [ensureProjectContext] writes: each result is filed
    under the key of its own auth record, has an access token and names
    a project. *)
Definition cache_sound (st : ProjectWorld) : Prop :=
  forall key r,
    projectContextResultCache (world st) !! key = Some r ->
    getCacheKey (pc_auth r) = Some key
    /\ access (pc_auth r) <> ""
    /\ effectiveProjectId r <> "".

(** Two states with the same project-context caches. *)
Definition same_caches (st st' : ProjectWorld) : Prop :=
  projectContextResultCache (world st') = projectContextResultCache (world st)
  /\ projectContextPendingCache (world st') = projectContextPendingCache (world st).

(** A result [resolveContext] has just produced for [auth]: it keeps the
    access token, names a project, and its auth record is [auth] itself
    or one that has a cache key. *)
Definition fresh_result (auth : OAuthAuthDetails) (r : ProjectContextResult) : Prop :=
  access (pc_auth r) = access auth
  /\ effectiveProjectId r <> ""
  /\ (pc_auth r = auth \/ exists key, getCacheKey (pc_auth r) = Some key).

End Project.


(* ===================================================================== *)
(** * Sample data *)
(* ===================================================================== *)

Module Examples.
Import Codec Accounts JS Storage.

Definition index_key_of (n : nat) : string := NilEmpty.string_of_uint (Nat.to_uint n).

Definition sample_account (i : Z) (t : AccountTier) : ManagedAccount :=
  {| index := i;
     parts := {| refreshToken := "refresh"; projectId := Some "project";
                 managedProjectId := None |};
     access := None; expires := None;
     rateLimitResetTimes := no_rate_limits;
     lastUsed := 0; email := None; tier := Some t; lastSwitchReason := None |}.

(** [free A (current), paid B]. *)
Definition manager_free_paid : AccountManager :=
  {| accounts := [sample_account 0 free; sample_account 1 paid];
     currentIndex := 0; currentAccountIndex := 0 |}.

(** Two paid accounts, account 0 current. *)
Definition manager_two_paid : AccountManager :=
  {| accounts := [sample_account 0 paid; sample_account 1 paid];
     currentIndex := 0; currentAccountIndex := 0 |}.

Definition v1_account (limited : bool) (resetTime : Z) : JSValue :=
  JObj [("refreshToken", JStr "refresh");
        ("addedAt", JInt 1);
        ("lastUsed", JInt 2);
        ("isRateLimited", JBool limited);
        ("rateLimitResetTime", JInt resetTime)].

Definition v1_document (limited : bool) (resetTime : Z) : JSValue :=
  JObj [("version", JInt 1);
        ("accounts", JArr [v1_account limited resetTime]);
        ("activeIndex", JInt 0)].

Definition v2_account (gemini : Z) : JSValue :=
  JObj [("refreshToken", JStr "refresh");
        ("addedAt", JInt 1);
        ("lastUsed", JInt 2);
        ("rateLimitResetTimes", JObj [("gemini", JInt gemini)])].

Definition v2_document (gemini : Z) : JSValue :=
  JObj [("version", JInt 2);
        ("accounts", JArr [v2_account gemini]);
        ("activeIndex", JInt 0)].

Definition v3_document : JSValue :=
  JObj [("version", JInt 3);
        ("accounts", JArr [JObj [("refreshToken", JStr "refresh");
                                 ("addedAt", JInt 1);
                                 ("lastUsed", JInt 2)]]);
        ("activeIndex", JInt 0)].

(** A runtime whose [JSON.parse] knows the texts of five documents by
    name and rejects every other text. *)
Definition sample_parse (text : string) : option JSValue :=
  if (text =? "v1 document")%string then Some (v1_document true 5000)
  else if (text =? "v2 document")%string then Some (v2_document 7000)
  else if (text =? "v3 document")%string then Some v3_document
  else if (text =? "no accounts array")%string
       then Some (JObj [("version", JInt 3); ("accounts", JStr "none")])
  else if (text =? "version 4")%string
       then Some (JObj [("version", JInt 4); ("accounts", JArr [])])
  else if (text =? "invalid_grant response")%string
       then Some (JObj [("error", JStr "invalid_grant");
                        ("error_description", JStr "Token has been revoked.")])
  else if (text =? "server error response")%string
       then Some (JObj [("error", JObj [("code", JInt 500);
                                        ("status", JStr "INTERNAL");
                                        ("message", JStr "backend error")])])
  else None.

Definition sample_json : JSON_API :=
  {| JSON_parse := sample_parse; JSON_stringify := fun _ => "saved" |}.

Definition fs_with (f : FileState) : FS :=
  {| file := f; write_failure := None; saves := [] |}.

(** Stand-ins for the two [node:crypto] primitives: a digest that keeps
    its input, and numbered UUIDs. *)
Definition sample_crypto : Claude.Crypto :=
  {| Claude.sha256_hex := fun s => s;
     Claude.randomUUID := fun n => index_key_of n |}.

Definition claude_context : Claude.TransformContext :=
  {| Claude.model := "claude-opus-4-5-thinking";
     Claude.family := claude;
     Claude.projectId := "project";
     Claude.streaming := false;
     Claude.requestId := "agent-1";
     Claude.sessionId := "-42" |}.

Definition fresh_pass : Claude.PassState :=
  {| Claude.signatureCache := ∅; Claude.funcCallIdQueues := ∅; Claude.uuids_drawn := 0;
     Claude.toolsTransformed := false; Claude.thinkingBlocksRemoved := 0 |}.

Definition ten : string := "0123456789".
Definition signature_50 : string := ten ++ ten ++ ten ++ ten ++ ten.
Definition signature_51 : string := signature_50 ++ "A".

Definition thinking_part (signature : string) : JSValue :=
  JObj [("text", JStr "I am thinking..."); ("thought", JBool true);
        ("thoughtSignature", JStr signature)].

Definition text_part (t : string) : JSValue := JObj [("text", JStr t)].

Definition base_auth : Token.OAuthAuthDetails :=
  {| Token.refresh := "refresh-token|project-123";
     Token.access := "old-access";
     Token.expires := 0 |}.

Definition empty_world : Token.World :=
  {| Token.authCache := ∅;
     Token.projectContextPendingCache := ∅;
     Token.projectContextResultCache := ∅;
     Token.auth_set_calls := [] |}.

(** A token endpoint that answers every request with an HTTP failure
    carrying the given body. *)
Definition fetch_failure (code : Z) (body : string) (_ : Token.TokenRequest)
  : Token.FetchOutcome :=
  Token.Responded {| Token.ok := false; Token.status := code;
                     Token.statusText := "error";
                     Token.text := Some body; Token.json := None |}.

Definition fetch_offline (_ : Token.TokenRequest) : Token.FetchOutcome :=
  Token.NetworkError.

(** A token endpoint that grants a new access token, with or without a
    rotated refresh token. *)
Definition fetch_success (rotated : option string) (_ : Token.TokenRequest)
  : Token.FetchOutcome :=
  Token.Responded {| Token.ok := true; Token.status := 200;
                     Token.statusText := "OK";
                     Token.text := None;
                     Token.json := Some {| Token.access_token := "new-access";
                                           Token.expires_in := 3600;
                                           Token.rotated_refresh_token := rotated |} |}.

(** A function declaration with one parameter [code] of the given type. *)
Definition declaration (name type : string) : JSValue :=
  JObj [("name", JStr name);
        ("parameters",
         JObj [("type", JStr "object");
               ("properties", JObj [("code", JObj [("type", JStr type)])])])].

Definition magic : string := "21st-dev-magic".

Definition tools_of (decls : list JSValue) : list JSValue :=
  [JObj [("functionDeclarations", JArr decls)]].

Definition payload_of (decls : list JSValue) : JSValue :=
  JObj [("contents", JArr []); ("tools", JArr (tools_of decls))].

(** Two paid accounts, limited for [gemini-pro] until 6000 and 8000. *)
Definition manager_both_limited : AccountManager :=
  markRateLimited 1000 1 7000 gemini_pro
    (markRateLimited 1000 0 5000 gemini_pro manager_two_paid).

(** A clock that advances by one millisecond at each of its first
    eight readings, from 1000, and clocks that stand at 5990 and at
    6010. *)
Definition ticking_clock (n : nat) : Z := 1000 + Z.of_nat (Nat.min n 8).
Definition clock_at_5990 (n : nat) : Z := 5990.
Definition clock_at_6010 (n : nat) : Z := 6010.

(** The same credentials with an access token good until 10 000 000. *)
Definition fresh_auth : Token.OAuthAuthDetails :=
  {| Token.refresh := "refresh-token|project-123";
     Token.access := "new-access";
     Token.expires := 10000000 |}.

(** A v3 document whose [activeIndex] points past its only account. *)
Definition v3_document_stale_index : JSValue :=
  JObj [("version", JInt 3);
        ("accounts", JArr [JObj [("refreshToken", JStr "refresh")]]);
        ("activeIndex", JInt 4)].

Definition v3_document_repaired : JSValue :=
  JObj [("version", JInt 3);
        ("accounts", JArr [JObj [("refreshToken", JStr "refresh")]]);
        ("activeIndex", JInt 0)].

Definition stale_json : JSON_API :=
  {| JSON_parse := fun _ => Some v3_document_stale_index;
     JSON_stringify := fun _ => "saved" |}.

(** A model turn: a thought nobody cached, a function call without
    signature, a text with a stray signature. *)
Definition model_turn : JSValue :=
  JObj [("role", JStr "model");
        ("parts", JArr [JObj [("thought", JBool true); ("text", JStr "hm")];
                        JObj [("functionCall", JObj [("name", JStr "read")])];
                        JObj [("text", JStr "done"); ("thoughtSignature", JStr "stray")]])].

(** A call of tool [name] and an answer to it, neither with an id. *)
Definition call_part (name : string) : JSValue :=
  JObj [("functionCall", JObj [("name", JStr name); ("args", JObj [])])].
Definition answer_part (name : string) : JSValue :=
  JObj [("functionResponse", JObj [("name", JStr name); ("response", JObj [])])].

Import Codec Token Project.

(** An account without a project, and an API that knows its managed
    project. *)
Definition projectless_auth : OAuthAuthDetails :=
  {| refresh := "refresh-token"; access := "access-token"; expires := 5000 |}.

Definition api_with_project (n : nat) (r : Request) : Reply LoadCodeAssistPayload :=
  Payload {| cloudaicompanionProject := Some "managed-1";
             currentTier := None; allowedTiers := None |}.

Definition api_offline {P} (n : nat) (r : Request) : Reply P := Failed.

Definition quiet_world : ProjectWorld := {| world := empty_world; sent := [] |}.

(** A runtime whose [<=] is given on numbers only. *)
Definition numbers_only : ClaudeConfig.Relational :=
  {| ClaudeConfig.less_eq :=
       fun a b => match a, b with
                  | JS.JNum x, JS.JNum y => Qle_bool x y
                  | _, _ => false
                  end;
     ClaudeConfig.less_eq_numbers := fun a b => eq_refl |}.

End Examples.

(* ===================================================================== *)
(** * Proof automation *)
(* ===================================================================== *)

(** Runs the effectful computation of the goal as far as its head
    allows. *)
Ltac eff :=
  unfold mbind, JS.Eff_bind, JS.bind, JS.lift, JS.ret, JS.get_state, JS.put_state,
    JS.Completion_bind, JS.cbind;
  cbn beta iota.

(** Closes the branch of a block that returns its part untouched. *)
Ltac finish_block :=
  eff; intros E; injection E as <- <-; eexists; split; [reflexivity|]; solve [auto].

(* ===================================================================== *)
(** * Properties of the backoff computation *)
(* ===================================================================== *)

Section BackoffFacts.
Import Backoff.

Lemma Qmin_inject_Z (a b : Z) : Qmin (inject_Z a) (inject_Z b) = inject_Z (Z.min a b).
Proof.
  unfold Qmin, GenericMinMax.gmin, Qcompare, Z.min. simpl.
  rewrite !Z.mul_1_r. destruct (a ?= b)%Z; reflexivity.
Qed.

Lemma backoff_closed_form (a : Q) :
  computeExponentialBackoffMs_default a
  = inject_Z (Z.min 3600000 (1000 * 2 ^ (Z.max 1 (Qfloor a) - 1))).
Proof.
  unfold computeExponentialBackoffMs_default, computeExponentialBackoffMs.
  unfold RATE_LIMIT_BACKOFF_BASE_MS, RATE_LIMIT_BACKOFF_MAX_MS.
  set (k := (2 ^ (Z.max 1 (Qfloor a) - 1))%Z).
  assert (Hk : (0 < k)%Z) by (apply Z.pow_pos_nonneg; lia).
  rewrite <- inject_Z_mult, Qfloor_Z.
  rewrite Z.max_r by lia.
  rewrite Qmin_inject_Z. reflexivity.
Qed.

(** C10. With the default base and cap, the backoff for attempt [a] is
    [min(3600000, 1000 * 2^(max(1, floor a) - 1))]; it is therefore never
    negative, never above one hour, and nondecreasing in the attempt. *)
Theorem backoff_default_formula_bounds_monotone :
  forall a : Q,
    computeExponentialBackoffMs_default a
      = inject_Z (Z.min 3600000 (1000 * 2 ^ (Z.max 1 (Qfloor a) - 1)))
    /\ (0 <= computeExponentialBackoffMs_default a)%Q
    /\ (computeExponentialBackoffMs_default a <= inject_Z 3600000)%Q
    /\ forall b : Q, (a <= b)%Q ->
         (computeExponentialBackoffMs_default a <= computeExponentialBackoffMs_default b)%Q.
Proof.
  intros a. split; [apply backoff_closed_form|].
  rewrite backoff_closed_form.
  assert (Hp : forall x, (0 < 2 ^ (Z.max 1 (Qfloor x) - 1))%Z)
    by (intros; apply Z.pow_pos_nonneg; lia).
  split; [|split].
  - change 0%Q with (inject_Z 0). rewrite <- Zle_Qle. specialize (Hp a). lia.
  - rewrite <- Zle_Qle. lia.
  - intros b Hab. rewrite backoff_closed_form, <- Zle_Qle.
    apply Qfloor_resp_le in Hab.
    apply Z.min_le_compat_l, Z.mul_le_mono_nonneg_l; [lia|].
    apply Z.pow_le_mono_r; lia.
Qed.

Lemma backoff_default_witness :
  (inject_Z 3 <= 11 # 2)%Q
  /\ (computeExponentialBackoffMs_default (inject_Z 3)
       <= computeExponentialBackoffMs_default (11 # 2))%Q.
Proof.
  assert (H : (inject_Z 3 <= 11 # 2)%Q) by (unfold Qle; simpl; lia).
  split; [exact H|].
  exact (proj2 (proj2 (proj2 (backoff_default_formula_bounds_monotone (inject_Z 3))))
           (11 # 2)%Q H).
Defined.

End BackoffFacts.

(* ===================================================================== *)
(** * Properties of the credential codec *)
(* ===================================================================== *)

Section CodecFacts.
Import Codec.

Lemma append_nil_l (b : string) : "" ++ b = b.
Proof. reflexivity. Qed.

Lemma append_cons (c : ascii) (a b : string) : String c a ++ b = String c (a ++ b).
Proof. reflexivity. Qed.

Ltac str_simpl := rewrite ?append_cons, ?append_nil_l in *.

Lemma append_assoc (a b c : string) : (a ++ b) ++ c = a ++ (b ++ c).
Proof. induction a as [|x a IH]; str_simpl; [reflexivity|f_equal; exact IH]. Qed.

Lemma split_char_nonempty sep x : split_char sep x <> [].
Proof.
  destruct x as [|c r]; simpl; [discriminate|].
  destruct (Ascii.eqb c sep); [discriminate|].
  destruct (split_char sep r); discriminate.
Qed.

Lemma concat_cons2 sep a b l :
  String.concat sep (a :: b :: l) = a ++ sep ++ String.concat sep (b :: l).
Proof. reflexivity. Qed.

Lemma concat_cons_nonempty sep a l :
  l <> [] -> String.concat sep (a :: l) = a ++ sep ++ String.concat sep l.
Proof. destruct l; [congruence|reflexivity]. Qed.

Lemma concat_split_char x : String.concat "|" (split_char pipe x) = x.
Proof.
  induction x as [|c r IH]; [reflexivity|].
  simpl. destruct (Ascii.eqb_spec c pipe) as [->|Hne].
  - rewrite concat_cons_nonempty by apply split_char_nonempty.
    rewrite IH. reflexivity.
  - pose proof (split_char_nonempty pipe r) as Hn.
    destruct (split_char pipe r) as [|seg segs]; [congruence|].
    destruct segs as [|s2 segs].
    + simpl in *. congruence.
    + rewrite concat_cons2 in IH. rewrite concat_cons2.
      change (String c seg ++ "|" ++ String.concat "|" (s2 :: segs))
        with (String c (seg ++ "|" ++ String.concat "|" (s2 :: segs))).
      now rewrite IH.
Qed.

Lemma split_char_no_pipe x : Forall no_pipe (split_char pipe x).
Proof.
  induction x as [|c r IH]; simpl.
  - repeat constructor.
  - destruct (Ascii.eqb_spec c pipe) as [->|Hne].
    + constructor; [constructor|exact IH].
    + destruct (split_char pipe r) as [|seg segs]; [repeat constructor; auto|].
      inversion IH; subst. constructor; [|assumption].
      constructor; assumption.
Qed.


Lemma split_accounts_cons2 c d r :
  split_accounts (String c (String d r))
  = if Ascii.eqb c pipe && Ascii.eqb d pipe
    then EmptyString :: split_accounts r
    else match split_accounts (String d r) with
         | seg :: segs => String c seg :: segs
         | [] => [String c EmptyString]
         end.
Proof. reflexivity. Qed.

Lemma split_accounts_safe x : sepSafe x = true -> split_accounts x = [x].
Proof.
  induction x as [|c r IH]; [reflexivity|].
  intros Hs. destruct r as [|d r']; [reflexivity|].
  rewrite split_accounts_cons2.
  cbn [sepSafe] in Hs. fold sepSafe in Hs.
  destruct (Ascii.eqb c pipe) eqn:Ec.
  - apply andb_prop in Hs as [Hd Hs]. apply negb_true_iff in Hd.
    rewrite Hd. cbn [andb]. rewrite (IH Hs). reflexivity.
  - cbn [andb]. rewrite (IH Hs). reflexivity.
Qed.

Lemma split_accounts_app x rest :
  sepSafe x = true ->
  split_accounts (x ++ "||" ++ rest) = x :: split_accounts rest.
Proof.
  induction x as [|c r IH]; intros Hs.
  - reflexivity.
  - rewrite append_cons.
    destruct r as [|d r'].
    + cbn [sepSafe] in Hs. destruct (Ascii.eqb c pipe) eqn:Ec; [discriminate|].
      change ("" ++ "||" ++ rest) with (String pipe (String pipe rest)).
      rewrite split_accounts_cons2, Ec. cbn [andb].
      rewrite split_accounts_cons2. reflexivity.
    + rewrite append_cons, split_accounts_cons2, <- append_cons.
      cbn [sepSafe] in Hs. fold sepSafe in Hs.
      destruct (Ascii.eqb c pipe) eqn:Ec.
      * apply andb_prop in Hs as [Hd Hs]. apply negb_true_iff in Hd.
        rewrite Hd. cbn [andb]. rewrite (IH Hs). reflexivity.
      * cbn [andb]. rewrite (IH Hs). reflexivity.
Qed.

Lemma split_accounts_concat xs :
  xs <> [] -> Forall (fun x => sepSafe x = true) xs ->
  split_accounts (String.concat ACCOUNT_SEPARATOR xs) = xs.
Proof.
  induction xs as [|x xs IH]; [congruence|].
  intros _ Hall. inversion Hall as [|? ? Hx Hxs]; subst.
  destruct xs as [|x2 xs].
  - simpl. now apply split_accounts_safe.
  - rewrite concat_cons2. unfold ACCOUNT_SEPARATOR.
    rewrite split_accounts_app by assumption.
    f_equal. apply IH; [discriminate|assumption].
Qed.

Lemma sepSafe_pipe s : starts_nonpipe s = true -> sepSafe s = true -> sepSafe (String pipe s) = true.
Proof.
  intros Hh Hs. destruct s as [|d s]; [discriminate|].
  cbn [sepSafe]. fold sepSafe. cbn [starts_nonpipe] in Hh.
  change (Ascii.eqb pipe pipe) with true. cbv iota.
  rewrite Hh. exact Hs.
Qed.

Lemma sepSafe_prefix a s :
  no_pipe a -> starts_nonpipe s = true -> sepSafe s = true ->
  sepSafe (a ++ String pipe s) = true.
Proof.
  induction a as [|c a IH]; intros Ha Hh Hs.
  - now apply sepSafe_pipe.
  - inversion Ha as [|? ? Hc Ha']; subst.
    rewrite append_cons. cbn [sepSafe]. fold sepSafe.
    apply Ascii.eqb_neq in Hc. rewrite Hc. now apply IH.
Qed.

Lemma sepSafe_no_pipe b : no_pipe b -> sepSafe b = true.
Proof.
  induction b as [|c b IH]; intros Hb; [reflexivity|].
  inversion Hb as [|? ? Hc Hb']; subst.
  cbn [sepSafe]. fold sepSafe. apply Ascii.eqb_neq in Hc. rewrite Hc. now apply IH.
Qed.

Lemma starts_nonpipe_app b t : no_pipe b -> b <> "" -> starts_nonpipe (b ++ t) = true.
Proof.
  intros Hb Hne. destruct b as [|c b]; [congruence|].
  inversion Hb as [|? ? Hc _]; subst. rewrite append_cons. cbn [starts_nonpipe].
  apply Ascii.eqb_neq in Hc. now rewrite Hc.
Qed.

Lemma starts_nonpipe_no_pipe b : no_pipe b -> b <> "" -> starts_nonpipe b = true.
Proof.
  intros Hb Hne. destruct b as [|c b]; [congruence|].
  inversion Hb as [|? ? Hc _]; subst. cbn [starts_nonpipe].
  apply Ascii.eqb_neq in Hc. now rewrite Hc.
Qed.

Lemma wellFormed_sepSafe x :
  wellFormedRefresh x = true -> project_segment x <> "" -> sepSafe x = true.
Proof.
  unfold wellFormedRefresh, project_segment.
  pose proof (concat_split_char x) as Hx.
  pose proof (split_char_no_pipe x) as Hp.
  destruct (split_char pipe x) as [|a [|b [|m [|? ?]]]]; try discriminate;
    intros Hm Hb; cbn [nth] in Hb; rewrite <- Hx; clear Hx.
  - inversion Hp as [|? ? Ha Hp1]; subst. inversion Hp1 as [|? ? Hb' _]; subst.
    rewrite concat_cons2. cbn [String.concat].
    apply sepSafe_prefix; auto using starts_nonpipe_no_pipe, sepSafe_no_pipe.
  - inversion Hp as [|? ? Ha Hp1]; subst. inversion Hp1 as [|? ? Hb' Hp2]; subst.
    inversion Hp2 as [|? ? Hm' _]; subst.
    rewrite !concat_cons2. cbn [String.concat].
    apply sepSafe_prefix; auto using starts_nonpipe_app.
    apply sepSafe_prefix; auto using sepSafe_no_pipe.
    apply starts_nonpipe_no_pipe; auto.
    unfold truthy_string in Hm. destruct (String.eqb_spec m ""); [discriminate|assumption].
Qed.

Lemma trim_start_has_nonws s : has_nonws s = true -> has_nonws (trim_start s) = true.
Proof.
  induction s as [|c s IH]; [discriminate|].
  cbn [has_nonws trim_start]. destruct (is_js_whitespace c) eqn:Ec; cbn [negb orb].
  - exact IH.
  - intros _. cbn [has_nonws]. now rewrite Ec.
Qed.

Lemma trim_end_has_nonws s : has_nonws s = true -> trim_end s <> "".
Proof.
  induction s as [|c s IH]; [discriminate|].
  cbn [has_nonws trim_end]. intros Hs.
  destruct (trim_end s) eqn:Et; [|discriminate].
  destruct (is_js_whitespace c); [|discriminate].
  cbn [negb orb] in Hs. exfalso. now apply IH.
Qed.

Lemma trim_truthy s : has_nonws s = true -> truthy_string (trim s) = true.
Proof.
  intros Hs. unfold truthy_string, trim.
  apply trim_start_has_nonws, trim_end_has_nonws in Hs.
  destruct (String.eqb_spec (trim_end (trim_start s)) ""); [contradiction|reflexivity].
Qed.

Lemma has_nonws_app_pipe a t : has_nonws (a ++ String pipe t) = true.
Proof.
  induction a as [|c a IH].
  - reflexivity.
  - rewrite append_cons. cbn [has_nonws]. rewrite IH. apply orb_true_r.
Qed.


Lemma filter_all {A} (f : A -> bool) l : Forall (fun x => f x = true) l -> List.filter f l = l.
Proof.
  induction 1 as [|x l Hx _ IH]; [reflexivity|].
  cbn [List.filter]. now rewrite Hx, IH.
Qed.









End CodecFacts.

(* ===================================================================== *)
(** * Properties of the account manager *)
(* ===================================================================== *)

Section AccountFacts.
Import Codec Accounts Examples.

Lemma derived_refl a : derived a a.
Proof. repeat split; auto. Qed.

Lemma derived_trans a b c : derived a b -> derived b c -> derived a c.
Proof.
  intros (Hi & Ht & Hr) (Hi' & Ht' & Hr').
  repeat split; [congruence|congruence|auto].
Qed.

Lemma reset_time_set s f g v :
  reset_time (set_reset_time s f v) g = if ModelFamily_eqb f g then v else reset_time s g.
Proof. destruct f, g; reflexivity. Qed.

Lemma reset_time_clear_if_expired now g s f :
  reset_time (clear_if_expired now g s) f
  = if ModelFamily_eqb g f
    then match reset_time s f with
         | Some t => if (now >=? t)%Z then None else Some t
         | None => None
         end
    else reset_time s f.
Proof.
  unfold clear_if_expired.
  destruct (ModelFamily_eqb g f) eqn:E.
  - assert (g = f) as -> by (destruct g, f; simpl in E; congruence).
    destruct (reset_time s f) as [t|] eqn:Et; [|now rewrite Et].
    destruct (now >=? t)%Z; [|now rewrite Et].
    rewrite reset_time_set. destruct f; reflexivity.
  - destruct (reset_time s g) as [t|]; [|reflexivity].
    destruct (now >=? t)%Z; [|reflexivity].
    rewrite reset_time_set, E. reflexivity.
Qed.

Lemma reset_time_clearExpired now a f :
  reset_time (rateLimitResetTimes (clearExpiredRateLimits now a)) f
  = match reset_time (rateLimitResetTimes a) f with
    | Some t => if (now >=? t)%Z then None else Some t
    | None => None
    end.
Proof.
  unfold clearExpiredRateLimits. cbn [rateLimitResetTimes with_rateLimitResetTimes].
  rewrite !reset_time_clear_if_expired.
  destruct f; cbn [ModelFamily_eqb]; reflexivity.
Qed.

Lemma isRateLimited_clearExpired now a f :
  isRateLimitedForFamily now (clearExpiredRateLimits now a) f = isRateLimitedForFamily now a f.
Proof.
  unfold isRateLimitedForFamily. rewrite reset_time_clearExpired.
  destruct (reset_time (rateLimitResetTimes a) f) as [t|]; [|reflexivity].
  destruct (now >=? t)%Z eqn:E; [|reflexivity].
  symmetry. apply Z.ltb_ge. lia.
Qed.

Lemma derived_clearExpired now a : derived a (clearExpiredRateLimits now a).
Proof.
  repeat split. intros t f. unfold isRateLimitedForFamily.
  rewrite reset_time_clearExpired.
  destruct (reset_time (rateLimitResetTimes a) f) as [r|]; [|discriminate].
  destruct (now >=? r)%Z; [discriminate|auto].
Qed.

Lemma derived_with_lastUsed a t : derived a (with_lastUsed a t).
Proof. repeat split; auto. Qed.

Lemma is_paid_derived a a' : derived a a' -> is_paid a' = is_paid a.
Proof. intros (_ & Ht & _). unfold is_paid. now rewrite Ht. Qed.

Lemma not_limited_derived a a' t f :
  derived a a' -> isRateLimitedForFamily t a f = false -> isRateLimitedForFamily t a' f = false.
Proof.
  intros (_ & _ & Hr) Hn.
  destruct (isRateLimitedForFamily t a' f) eqn:E; [|reflexivity].
  apply Hr in E. congruence.
Qed.

Lemma getCurrentAccount_at m c a :
  accounts m !! c = Some a -> currentAccountIndex m = Z.of_nat c ->
  getCurrentAccount m = Some c.
Proof.
  intros Ha Hc. unfold getCurrentAccount, array_get. rewrite Hc.
  apply lookup_lt_Some in Ha as Hlt.
  replace (0 <=? Z.of_nat c)%Z with true by (symmetry; apply Z.leb_le; lia).
  replace (Z.of_nat c <? Z.of_nat (length (accounts m)))%Z with true
    by (symmetry; apply Z.ltb_lt; lia).
  replace (Z.of_nat c <? 0)%Z with false by (symmetry; apply Z.ltb_ge; lia).
  rewrite Nat2Z.id, Ha. reflexivity.
Qed.

(** A usable paid current account is returned again. *)
Lemma sticky_step now f m c a :
  accounts m !! c = Some a ->
  currentAccountIndex m = Z.of_nat c ->
  is_paid a = true ->
  isRateLimitedForFamily now a f = false ->
  getCurrentOrNextForFamily now f m
  = (Some c,
     {| accounts := alter (fun x => with_lastUsed x now) c
                      (List.map (clearExpiredRateLimits now) (accounts m));
        currentIndex := currentIndex m;
        currentAccountIndex := Z.of_nat c |}).
Proof.
  intros Ha Hc Hp Hn. unfold getCurrentOrNextForFamily.
  set (m1 := {| accounts := List.map (clearExpiredRateLimits now) (accounts m);
                currentIndex := currentIndex m;
                currentAccountIndex := currentAccountIndex m |}).
  assert (Ha1 : accounts m1 !! c = Some (clearExpiredRateLimits now a)).
  { cbn [accounts m1]. change (List.map ?g ?l) with (g <$> l).
    rewrite list_lookup_fmap, Ha. reflexivity. }
  rewrite (getCurrentAccount_at m1 c _ Ha1 Hc), Ha1.
  rewrite isRateLimited_clearExpired, Hn. cbn [negb].
  rewrite (is_paid_derived _ _ (derived_clearExpired now a)), Hp.
  cbn [negb andb]. cbn [accounts currentIndex currentAccountIndex m1].
  now rewrite Hc.
Qed.

Lemma derived_clear_list now l :
  Forall2 derived l (List.map (clearExpiredRateLimits now) l).
Proof. induction l; constructor; auto using derived_clearExpired. Qed.

Lemma derived_step_list now c l :
  Forall2 derived l (alter (fun x => with_lastUsed x now) c
                       (List.map (clearExpiredRateLimits now) l)).
Proof.
  revert c. induction l as [|a l IH]; intros c; [constructor|].
  destruct c as [|c]; cbn [List.map alter list_alter].
  - constructor.
    + eapply derived_trans; [apply derived_clearExpired|apply derived_with_lastUsed].
    + apply derived_clear_list.
  - constructor; [apply derived_clearExpired|apply IH].
Qed.

Lemma Forall2_derived_trans l1 l2 l3 :
  Forall2 derived l1 l2 -> Forall2 derived l2 l3 -> Forall2 derived l1 l3.
Proof.
  intros H12. revert l3. induction H12; intros l3 H23; inversion H23; subst; constructor.
  - eapply derived_trans; eauto.
  - auto.
Qed.

Lemma sticky_run nows : forall f m c a,
  accounts m !! c = Some a ->
  currentAccountIndex m = Z.of_nat c ->
  is_paid a = true ->
  Forall (fun t => isRateLimitedForFamily t a f = false) nows ->
  exists m',
    select_run nows f m = (replicate (length nows) (Some c), m')
    /\ Forall2 derived (accounts m) (accounts m')
    /\ currentAccountIndex m' = Z.of_nat c
    /\ currentIndex m' = currentIndex m.
Proof.
  induction nows as [|now rest IH]; intros f m c a Ha Hc Hp Hall.
  - exists m. repeat split; auto.
    clear. induction (accounts m); constructor; auto using derived_refl.
  - inversion Hall as [|? ? Hnow Hrest]; subst.
    cbn [select_run]. rewrite (sticky_step now f m c a) by assumption.
    set (m1 := {| accounts := _ |}).
    pose proof (derived_step_list now c (accounts m)) as Hd.
    destruct (Forall2_lookup_l _ _ _ _ _ Hd Ha) as (a1 & Ha1 & Hda).
    destruct (IH f m1 c a1) as (m' & Hrun & Hd' & Hc' & Hi').
    + exact Ha1.
    + reflexivity.
    + now rewrite (is_paid_derived _ _ Hda).
    + eapply Forall_impl; [exact Hrest|]. cbv beta. intros t Ht.
      now apply (not_limited_derived a a1).
    + exists m'. rewrite Hrun. cbn [length replicate].
      repeat split; auto.
      eapply Forall2_derived_trans; [exact Hd|exact Hd'].
Qed.

Lemma isRateLimited_marked now retry f a t :
  isRateLimitedForFamily t (markRateLimited_account now retry f a) f = (t <? now + retry)%Z.
Proof.
  unfold isRateLimitedForFamily, markRateLimited_account.
  cbn [rateLimitResetTimes with_rateLimitResetTimes].
  rewrite reset_time_set. destruct f; reflexivity.
Qed.

(** With one usable paid account at position 1 of two, next-selection
    picks it whatever the cursor. *)
Lemma getNext_only_second now f l A B cur cai :
  l = [A; B] ->
  isRateLimitedForFamily now B f = false -> is_paid B = true ->
  (isRateLimitedForFamily now A f = true \/ is_paid A = false) ->
  getNextForFamily now f {| accounts := l; currentIndex := cur; currentAccountIndex := cai |}
  = (Some 1%nat,
     {| accounts := [A; with_lastUsed B now];
        currentIndex := (cur + 1)%Z; currentAccountIndex := cai |}).
Proof.
  intros -> HB HpB HA. unfold getNextForFamily.
  cbn [accounts currentIndex currentAccountIndex filter_positions].
  rewrite HB. cbn [negb].
  destruct (isRateLimitedForFamily now A f) eqn:EA; cbn [negb].
  - cbn [List.filter lookup list_lookup]. rewrite HpB. cbn [length].
    rewrite Z.rem_1_r. reflexivity.
  - destruct HA as [HA|HA]; [discriminate|].
    cbn [List.filter lookup list_lookup]. rewrite HA, HpB. cbn [length].
    rewrite Z.rem_1_r. reflexivity.
Qed.

(** C1. Selection is sticky but tier-aware.  With accounts [free A
    (current), paid B], neither limited for the family, the selection
    returns B (position and index 1) and makes it current.  With two paid
    accounts and account 0 current, every selection made while account 0
    is not limited returns account 0; once account 0 is marked limited,
    the next selection (made before the reset time, account 1 not being
    limited) returns account 1, and so do all the following ones. *)
Theorem selection_sticky_tier_aware :
  (forall now f m A B,
      accounts m = [A; B] -> currentAccountIndex m = 0%Z ->
      index A = 0%Z -> index B = 1%Z ->
      tier A = Some free -> tier B = Some paid ->
      isRateLimitedForFamily now A f = false ->
      isRateLimitedForFamily now B f = false ->
      exists m',
        getCurrentOrNextForFamily now f m = (Some 1%nat, m')
        /\ List.map index (accounts m') = [0%Z; 1%Z]
        /\ List.map tier (accounts m') = [Some free; Some paid]
        /\ currentAccountIndex m' = 1%Z)
  /\ (forall f m A B before tmark retry t0 later,
      accounts m = [A; B] -> currentAccountIndex m = 0%Z ->
      index A = 0%Z -> index B = 1%Z ->
      tier A = Some paid -> tier B = Some paid ->
      Forall (fun t => isRateLimitedForFamily t A f = false) before ->
      (t0 < tmark + retry)%Z ->
      Forall (fun t => isRateLimitedForFamily t B f = false) (t0 :: later) ->
      exists m1 m3,
        select_run before f m = (replicate (length before) (Some 0%nat), m1)
        /\ List.map index (accounts m1) = [0%Z; 1%Z]
        /\ select_run (t0 :: later) f (markRateLimited tmark 0 retry f m1)
           = (replicate (S (length later)) (Some 1%nat), m3)
        /\ List.map index (accounts m3) = [0%Z; 1%Z]
        /\ currentAccountIndex m3 = 1%Z).
Proof.
  split.
  - intros now f m A B Hacc Hcur HiA HiB HtA HtB HnA HnB.
    destruct m as [accs cur cai]. cbn [accounts currentAccountIndex] in *. subst accs cai.
    unfold getCurrentOrNextForFamily.
    cbn [accounts currentIndex currentAccountIndex List.map].
    set (A1 := clearExpiredRateLimits now A). set (B1 := clearExpiredRateLimits now B).
    assert (HnA1 : isRateLimitedForFamily now A1 f = false)
      by (unfold A1; now rewrite isRateLimited_clearExpired).
    assert (HnB1 : isRateLimitedForFamily now B1 f = false)
      by (unfold B1; now rewrite isRateLimited_clearExpired).
    assert (HpA1 : is_paid A1 = false) by (unfold is_paid, A1; cbn; now rewrite HtA).
    assert (HpB1 : is_paid B1 = true) by (unfold is_paid, B1; cbn; now rewrite HtB).
    rewrite (getNext_only_second now f [A1; B1] A1 B1) by auto.
    rewrite (getCurrentAccount_at _ 0 A1) by reflexivity.
    change ([A1; B1] !! 0%nat) with (Some A1). cbv beta iota.
    repeat (cbn [negb andb orb existsb]; rewrite ?HnA1, ?HpA1, ?HpB1, ?HnB1).
    eexists. split; [reflexivity|].
    cbn [accounts currentAccountIndex List.map index tier with_lastUsed].
    unfold A1, B1. cbn. rewrite HiA, HiB, HtA, HtB. auto.
  - intros f m A B before tmark retry t0 later Hacc Hcur HiA HiB HtA HtB Hbefore Ht0 HB.
    assert (HpA : is_paid A = true) by (unfold is_paid; now rewrite HtA).
    assert (HpB : is_paid B = true) by (unfold is_paid; now rewrite HtB).
    destruct (sticky_run before f m 0 A) as (m1 & Hrun1 & Hd1 & Hc1 & _); auto.
    { now rewrite Hacc. }
    rewrite Hacc in Hd1.
    inversion Hd1 as [|? A1 ? l1 HdA Hd1' E1 E2]; subst.
    inversion Hd1' as [|? B1 ? l2 HdB Hd1'' E3 E4]; subst.
    inversion Hd1''; subst.
    destruct m1 as [accs1 cur1 cai1]. cbn [accounts currentAccountIndex] in *. subst accs1 cai1.
    (* the first selection after the mark *)
    inversion HB as [|? ? HB0 HBlater]; subst.
    set (A2 := clearExpiredRateLimits t0 (markRateLimited_account tmark retry f A1)).
    set (B2 := clearExpiredRateLimits t0 B1).
    assert (HlA2 : isRateLimitedForFamily t0 A2 f = true).
    { unfold A2. rewrite isRateLimited_clearExpired, isRateLimited_marked.
      apply Z.ltb_lt. lia. }
    assert (HdB2 : derived B B2).
    { eapply derived_trans; [exact HdB|apply derived_clearExpired]. }
    assert (HnB2 : isRateLimitedForFamily t0 B2 f = false)
      by (now apply (not_limited_derived B B2)).
    assert (HpB2 : is_paid B2 = true) by (now rewrite (is_paid_derived _ _ HdB2)).
    assert (Hstep :
      getCurrentOrNextForFamily t0 f
        (markRateLimited tmark 0 retry f
           {| accounts := [A1; B1]; currentIndex := cur1; currentAccountIndex := 0 |})
      = (Some 1%nat,
         {| accounts := [A2; with_lastUsed B2 t0];
            currentIndex := (cur1 + 1)%Z; currentAccountIndex := 1 |})).
    { unfold getCurrentOrNextForFamily, markRateLimited.
      cbn [accounts currentIndex currentAccountIndex List.map alter list_alter].
      fold A2 B2.
      rewrite (getNext_only_second t0 f [A2; B2] A2 B2) by auto.
      rewrite (getCurrentAccount_at _ 0 A2) by reflexivity.
      change ([A2; B2] !! 0%nat) with (Some A2). cbv beta iota.
      rewrite HlA2. cbn [negb accounts currentIndex currentAccountIndex].
      change ([A2; with_lastUsed B2 t0] !! 1%nat) with (Some (with_lastUsed B2 t0)).
      cbv beta iota. cbn [index with_lastUsed].
      destruct HdB2 as (HiB2 & _). now rewrite HiB2, HiB. }
    set (m2 := {| accounts := [A2; with_lastUsed B2 t0];
                  currentIndex := (cur1 + 1)%Z; currentAccountIndex := 1 |}) in *.
    destruct (sticky_run later f m2 1 (with_lastUsed B2 t0)) as (m3 & Hrun3 & Hd3 & Hc3 & _).
    + reflexivity.
    + reflexivity.
    + exact HpB2.
    + eapply Forall_impl; [exact HBlater|]. cbv beta. intros t Ht.
      apply (not_limited_derived B); [|exact Ht].
      eapply derived_trans; [exact HdB2|apply derived_with_lastUsed].
    + exists {| accounts := [A1; B1]; currentIndex := cur1; currentAccountIndex := 0 |}, m3.
      split; [exact Hrun1|].
      destruct HdA as (HiA1 & _). destruct HdB as (HiB1 & _).
      split; [cbn; now rewrite HiA1, HiB1, HiA, HiB|].
      split.
      { cbn [select_run]. rewrite Hstep, Hrun3. reflexivity. }
      split; [|exact Hc3].
      cbn [accounts m2] in Hd3.
      inversion Hd3 as [|? A3 ? l3 HdA3 Hd3' E1 E2]; subst.
      inversion Hd3' as [|? B3 ? l4 HdB3 Hd3'' E3 E4]; subst.
      inversion Hd3''; subst.
      destruct HdA3 as (HiA3 & _). destruct HdB3 as (HiB3 & _).
      destruct HdB2 as (HiB2 & _).
      cbn [List.map]. rewrite HiA3, HiB3. cbn [index with_lastUsed].
      rewrite HiB2, HiB. unfold A2. cbn. now rewrite HiA1, HiA.
Qed.

Lemma family_eqb_neq f g : g <> f -> ModelFamily_eqb f g = false.
Proof. destruct f, g; try reflexivity; congruence. Qed.

(** C6. [markRateLimited(account, retryAfterMs, family)] sets the reset
    time of [family] to [now + retryAfterMs] and leaves the reset times of
    the two other families, hence the account's standing for them, and
    every other account as they were. *)
Theorem markRateLimited_per_family :
  forall now retry f m p a,
    accounts m !! p = Some a ->
    exists a',
      accounts (markRateLimited now p retry f m) !! p = Some a'
      /\ a' = markRateLimited_account now retry f a
      /\ reset_time (rateLimitResetTimes a') f = Some (now + retry)%Z
      /\ (forall g, g <> f ->
            reset_time (rateLimitResetTimes a') g = reset_time (rateLimitResetTimes a) g)
      /\ (forall g t, g <> f ->
            isRateLimitedForFamily t a' g = isRateLimitedForFamily t a g)
      /\ (forall q, q <> p ->
            accounts (markRateLimited now p retry f m) !! q = accounts m !! q).
Proof.
  intros now retry f m p a Ha.
  exists (markRateLimited_account now retry f a).
  split.
  { unfold markRateLimited. cbn [accounts]. now rewrite list_lookup_alter_eq, Ha. }
  split; [reflexivity|].
  unfold markRateLimited_account, isRateLimitedForFamily.
  cbn [rateLimitResetTimes with_rateLimitResetTimes].
  split; [rewrite reset_time_set; destruct f; reflexivity|].
  split; [intros g Hg; now rewrite reset_time_set, family_eqb_neq|].
  split; [intros g t Hg; now rewrite reset_time_set, family_eqb_neq|].
  intros q Hq. unfold markRateLimited. cbn [accounts].
  rewrite list_lookup_alter_ne by congruence. reflexivity.
Qed.

Lemma markRateLimited_per_family_witness :
  accounts manager_two_paid !! 0%nat = Some (sample_account 0 paid)
  /\ gemini_pro <> claude
  /\ isRateLimitedForFamily 1500 (markRateLimited_account 1000 60000 claude (sample_account 0 paid)) claude = true
  /\ isRateLimitedForFamily 1500 (markRateLimited_account 1000 60000 claude (sample_account 0 paid)) gemini_pro = false.
Proof.
  assert (H0 : accounts manager_two_paid !! 0%nat = Some (sample_account 0 paid)) by reflexivity.
  assert (Hne : gemini_pro <> claude) by discriminate.
  destruct (markRateLimited_per_family 1000 60000 claude manager_two_paid 0
              (sample_account 0 paid) H0) as (a' & _ & -> & _ & _ & Hrl & _).
  split; [exact H0|]. split; [exact Hne|]. split; [reflexivity|].
  rewrite (Hrl gemini_pro 1500%Z Hne). reflexivity.
Defined.


End AccountFacts.

(* ===================================================================== *)
(** * Properties of the persistent account store *)
(* ===================================================================== *)

Section StorageFacts.
Import JS Storage.

Lemma getProp_prop v k : is_nullish v = false -> getProp v k = Normal (prop v k).
Proof. destruct v; try discriminate; reflexivity. Qed.

Lemma truthy_not_nullish v : truthy v = true -> is_nullish v = false.
Proof. destruct v; try discriminate; reflexivity. Qed.

Lemma cbind_normal {A B} (a : A) (k : A -> Completion B) :
  (Normal a ≫= k) = k a.
Proof. reflexivity. Qed.

Lemma migrateAccountV1_object acc :
  is_nullish acc = false ->
  migrateAccountV1 acc
  = Normal (JObj [("email", prop acc "email");
                  ("refreshToken", prop acc "refreshToken");
                  ("projectId", prop acc "projectId");
                  ("managedProjectId", prop acc "managedProjectId");
                  ("addedAt", prop acc "addedAt");
                  ("lastUsed", prop acc "lastUsed");
                  ("lastSwitchReason", prop acc "lastSwitchReason");
                  ("rateLimitResetTimes", undefined_if_empty (v1_limits acc))]).
Proof.
  intros Hn. unfold migrateAccountV1. rewrite !(getProp_prop acc) by assumption.
  reflexivity.
Qed.

Lemma splitGeminiLimits_total old : splitGeminiLimits old = Normal (v3_limits old).
Proof.
  unfold splitGeminiLimits, v3_limits. destruct (truthy old) eqn:E; [|reflexivity].
  rewrite !(getProp_prop old) by (now apply truthy_not_nullish). reflexivity.
Qed.

Lemma migrateAccountV2_object acc :
  is_nullish acc = false ->
  migrateAccountV2 acc
  = Normal (JObj [("email", prop acc "email");
                  ("refreshToken", prop acc "refreshToken");
                  ("projectId", prop acc "projectId");
                  ("managedProjectId", prop acc "managedProjectId");
                  ("addedAt", prop acc "addedAt");
                  ("lastUsed", prop acc "lastUsed");
                  ("lastSwitchReason", prop acc "lastSwitchReason");
                  ("rateLimitResetTimes",
                   undefined_if_empty (v3_limits (prop acc "rateLimitResetTimes")))]).
Proof.
  intros Hn. unfold migrateAccountV2. rewrite !(getProp_prop acc) by assumption.
  rewrite cbind_normal, splitGeminiLimits_total. reflexivity.
Qed.

(** A map whose callback returns on every element returns the list of
    the results. *)
Lemma cmap_total {A B} (f : A -> Completion B) (g : A -> B) (P : A -> Prop) l :
  (forall x, P x -> f x = Normal (g x)) -> Forall P l ->
  cmap f l = Normal (List.map g l).
Proof.
  intros Hf. induction 1 as [|x l Hx _ IH]; [reflexivity|].
  cbn [cmap List.map]. rewrite (Hf x Hx). cbn [cbind]. rewrite IH. reflexivity.
Qed.

Lemma migrateV1ToV2_total d l :
  prop d "accounts" = JArr l -> Forall not_nullish l ->
  migrateV1ToV2 d
  = Normal (JObj [("version", JInt 2);
                  ("accounts", JArr (List.map accountV1toV2 l));
                  ("activeIndex", prop d "activeIndex")]).
Proof.
  intros Hacc Hall.
  assert (Hd : is_nullish d = false) by (destruct d; try discriminate; reflexivity).
  unfold migrateV1ToV2. rewrite !(getProp_prop d), Hacc by assumption.
  rewrite cbind_normal. cbn [array_map].
  rewrite (cmap_total migrateAccountV1 accountV1toV2 not_nullish)
    by (auto using migrateAccountV1_object).
  reflexivity.
Qed.

Lemma migrateV2ToV3_total d l :
  prop d "accounts" = JArr l -> Forall not_nullish l ->
  migrateV2ToV3 d
  = Normal (JObj [("version", JInt 3);
                  ("accounts", JArr (List.map accountV2toV3 l));
                  ("activeIndex", prop d "activeIndex")]).
Proof.
  intros Hacc Hall.
  assert (Hd : is_nullish d = false) by (destruct d; try discriminate; reflexivity).
  unfold migrateV2ToV3. rewrite !(getProp_prop d), Hacc by assumption.
  rewrite cbind_normal. cbn [array_map].
  rewrite (cmap_total migrateAccountV2 accountV2toV3 not_nullish)
    by (auto using migrateAccountV2_object).
  reflexivity.
Qed.

Lemma upgradeV1_total d l :
  prop d "accounts" = JArr l -> Forall not_nullish l ->
  upgradeV1 d
  = Normal (JObj [("version", JInt 3);
                  ("accounts", JArr (List.map accountV2toV3 (List.map accountV1toV2 l)));
                  ("activeIndex", prop d "activeIndex")]).
Proof.
  intros Hacc Hall. unfold upgradeV1. rewrite (migrateV1ToV2_total d l) by assumption.
  rewrite cbind_normal.
  rewrite (migrateV2ToV3_total _ (List.map accountV1toV2 l)); [reflexivity|reflexivity|].
  apply Forall_forall. intros x Hx. apply list_elem_of_In, in_map_iff in Hx as (y & <- & _).
  reflexivity.
Qed.

Lemma bind_lift_normal {S A B} (a : A) (k : A -> Eff S B) (st : S) :
  (lift (Normal a) ≫= k) st = k a st.
Proof. reflexivity. Qed.

Lemma bind_lift_throw {S A B} (e : Thrown) (k : A -> Eff S B) (st : S) :
  (lift (Throw e) ≫= k) st = (Throw e, st).
Proof. reflexivity. Qed.

Lemma bind_ret {S A B} (a : A) (k : A -> Eff S B) (st : S) :
  (ret a ≫= k) st = k a st.
Proof. reflexivity. Qed.

Section LoadFacts.
Context `{JSON_API}.

Lemma loadAccounts_returns fs : exists r fs', loadAccounts fs = (Normal r, fs').
Proof.
  unfold loadAccounts. destruct (loadAccounts_try fs) as [[r|e] fs'].
  - eauto.
  - destruct e as [code| |]; [destruct (code =? "ENOENT")%string|..]; eauto.
Qed.

Lemma loadAccounts_of_try fs r fs' :
  loadAccounts_try fs = (r, fs') ->
  loadAccounts fs = (match r with Normal x => Normal x | Throw _ => Normal None end, fs').
Proof.
  intros Ht. unfold loadAccounts. rewrite Ht.
  destruct r as [x|e]; [reflexivity|].
  destruct e as [code| |]; [destruct (code =? "ENOENT")%string|..]; reflexivity.
Qed.

(** The [try] block once the file was read and parsed. *)
Lemma loadAccounts_try_parsed fs c d :
  file fs = FileText c -> JSON_parse c = Some d ->
  loadAccounts_try fs
  = (accounts ← lift (getProp d "accounts");
     if negb (isArray accounts) then ret None
     else
       version ← lift (getProp d "version");
       chosen ← chooseStorage d version;
       match chosen with
       | None => ret None
       | Some storage =>
           storage' ← normalizeActiveIndex storage;
           ret (Some storage')
       end) fs.
Proof.
  intros Hf Hp. unfold loadAccounts_try at 1.
  unfold mbind at 1, Eff_bind at 1, bind at 1, readFile. rewrite Hf.
  unfold mbind at 1, Eff_bind at 1, bind at 1, parse_json, lift at 1. rewrite Hp.
  reflexivity.
Qed.

(** C5. [loadAccounts] never throws: it always returns.  It returns
    [null], leaving the file system as it was, when the file is missing,
    when its text is not JSON, when the [accounts] field of the document
    is not an array, and when the version is none of 1, 2 and 3. *)
Theorem loadAccounts_never_throws :
  forall fs,
    (exists r fs', loadAccounts fs = (Normal r, fs'))
    /\ (file fs = FileMissing -> loadAccounts fs = (Normal None, fs))
    /\ (forall c, file fs = FileText c -> JSON_parse c = None ->
          loadAccounts fs = (Normal None, fs))
    /\ (forall c d, file fs = FileText c -> JSON_parse c = Some d ->
          isArray (prop d "accounts") = false ->
          loadAccounts fs = (Normal None, fs))
    /\ (forall c d, file fs = FileText c -> JSON_parse c = Some d ->
          isArray (prop d "accounts") = true ->
          strict_eq_num (prop d "version") 1 = false ->
          strict_eq_num (prop d "version") 2 = false ->
          strict_eq_num (prop d "version") 3 = false ->
          loadAccounts fs = (Normal None, fs)).
Proof.
  intros fs. split; [apply loadAccounts_returns|]. split; [|split; [|split]].
  - intros Hf. apply (loadAccounts_of_try fs (Throw (ErrnoException "ENOENT"))).
    unfold loadAccounts_try, mbind, Eff_bind, bind, readFile. now rewrite Hf.
  - intros c Hf Hp. apply (loadAccounts_of_try fs (Throw SyntaxError)).
    unfold loadAccounts_try.
    unfold mbind at 1, Eff_bind at 1, bind at 1, readFile. rewrite Hf.
    unfold mbind at 1, Eff_bind at 1, bind at 1, parse_json, lift at 1. now rewrite Hp.
  - intros c d Hf Hp Harr.
    destruct (is_nullish d) eqn:Hd.
    + apply (loadAccounts_of_try fs (Throw TypeError)).
      rewrite (loadAccounts_try_parsed fs c d Hf Hp).
      destruct d; try discriminate; reflexivity.
    + apply (loadAccounts_of_try fs (Normal None)).
      rewrite (loadAccounts_try_parsed fs c d Hf Hp).
      rewrite !(getProp_prop d) by assumption.
      rewrite bind_lift_normal, Harr. reflexivity.
  - intros c d Hf Hp Harr H1 H2 H3.
    assert (Hd : is_nullish d = false) by (destruct d; try discriminate; reflexivity).
    apply (loadAccounts_of_try fs (Normal None)).
    rewrite (loadAccounts_try_parsed fs c d Hf Hp).
    rewrite !(getProp_prop d) by assumption.
    rewrite bind_lift_normal, Harr. cbn [negb].
    rewrite bind_lift_normal. unfold chooseStorage. rewrite H1, H2, H3. reflexivity.
Qed.

Lemma Qle_bool_inject_Z a b : Qle_bool (inject_Z a) (inject_Z b) = (a <=? b)%Z.
Proof. unfold Qle_bool. simpl. now rewrite !Z.mul_1_r. Qed.

Lemma isInteger_JInt z : isInteger (JInt z) = true.
Proof.
  unfold isInteger, JInt. rewrite Qfloor_Z. apply Qeq_bool_iff. reflexivity.
Qed.

Lemma strict_eq_num_distinct v a b :
  a <> b -> strict_eq_num v a = true -> strict_eq_num v b = false.
Proof.
  intros Hab. destruct v; try discriminate. cbn [strict_eq_num]. intros Ha.
  apply Qeq_bool_iff in Ha.
  destruct (Qeq_bool q (inject_Z b)) eqn:Eb; [|reflexivity].
  apply Qeq_bool_iff in Eb. exfalso. apply Hab. apply inject_Z_injective.
  rewrite <- Ha, <- Eb. reflexivity.
Qed.

(** An in-range integer [activeIndex] is left alone. *)
Lemma normalizeActiveIndex_valid storage l i fs :
  prop storage "accounts" = JArr l ->
  prop storage "activeIndex" = JInt i ->
  (0 <= i < Z.of_nat (length l))%Z ->
  normalizeActiveIndex storage fs = (Normal storage, fs).
Proof.
  intros Hacc Hai Hi.
  assert (Hs : is_nullish storage = false) by (destruct storage; try discriminate; reflexivity).
  unfold normalizeActiveIndex. rewrite !(getProp_prop storage), Hai by assumption.
  rewrite bind_lift_normal. rewrite isInteger_JInt. cbn [typeof_number JInt negb orb].
  rewrite bind_ret. rewrite !(getProp_prop storage), Hai, Hacc by assumption.
  rewrite !bind_lift_normal. cbn [array_length]. rewrite bind_lift_normal.
  unfold out_of_bounds, JInt. change (Qle_bool 0) with (Qle_bool (inject_Z 0)).
  rewrite !Qle_bool_inject_Z.
  replace (0 <=? i)%Z with true by (symmetry; apply Z.leb_le; lia).
  replace (Z.of_nat (length l) <=? i)%Z with false by (symmetry; apply Z.leb_gt; lia).
  reflexivity.
Qed.

(** On a freshly built v3 document the repairs return, and change at most
    [activeIndex], to 0. *)
Lemma normalizeActiveIndex_built (l : list JSValue) (ai : JSValue) fs :
  let storage := JObj [("version", JInt 3); ("accounts", JArr l); ("activeIndex", ai)] in
  exists storage',
    normalizeActiveIndex storage fs = (Normal storage', fs)
    /\ (storage' = storage
        \/ storage' = JObj [("version", JInt 3); ("accounts", JArr l);
                            ("activeIndex", JInt 0)]).
Proof.
  intros storage. unfold normalizeActiveIndex, storage.
  cbn [getProp lookup_field String.eqb Ascii.eqb Bool.eqb].
  rewrite bind_lift_normal.
  destruct (negb (typeof_number ai) || negb (isInteger ai)).
  - cbn [setProp set_field String.eqb Ascii.eqb Bool.eqb].
    rewrite !bind_lift_normal.
    cbn [getProp lookup_field String.eqb Ascii.eqb Bool.eqb].
    rewrite !bind_lift_normal. cbn [array_length]. rewrite bind_lift_normal.
    destruct (out_of_bounds (JInt 0) (length l)).
    + cbn [setProp set_field String.eqb Ascii.eqb Bool.eqb]. eexists. split; [reflexivity|auto].
    + eexists. split; [reflexivity|auto].
  - rewrite bind_ret.
    cbn [getProp lookup_field String.eqb Ascii.eqb Bool.eqb].
    rewrite !bind_lift_normal. cbn [array_length]. rewrite bind_lift_normal.
    destruct (out_of_bounds ai (length l)).
    + cbn [setProp set_field String.eqb Ascii.eqb Bool.eqb]. eexists. split; [reflexivity|auto].
    + eexists. split; [reflexivity|auto].
Qed.


Lemma not_nullish_V1toV2 l : Forall not_nullish (List.map accountV1toV2 l).
Proof.
  apply Forall_forall. intros x Hx.
  apply list_elem_of_In, in_map_iff in Hx as (y & <- & _). reflexivity.
Qed.

(** What the version dispatch does with a document of version 1 or 2
    whose account entries are objects. *)
Lemma chooseStorage_upgrade fs d l n v3 :
  (n = 1 \/ n = 2)%Z -> strict_eq_num (prop d "version") n = true ->
  prop d "accounts" = JArr l -> Forall not_nullish l ->
  v3 = JObj [("version", JInt 3);
             ("accounts", JArr (if (n =? 1)%Z
                                then List.map accountV2toV3 (List.map accountV1toV2 l)
                                else List.map accountV2toV3 l));
             ("activeIndex", prop d "activeIndex")] ->
  chooseStorage d (prop d "version") fs
  = match write_failure fs with
    | Some e => (Throw e, {| file := file fs; write_failure := write_failure fs;
                             saves := (saves fs ++ [v3])%list |})
    | None => (Normal (Some v3),
               {| file := FileText (JSON_stringify v3); write_failure := None;
                  saves := (saves fs ++ [v3])%list |})
    end.
Proof.
  intros Hn Hv Hacc Hall ->. unfold chooseStorage.
  destruct Hn as [-> | ->].
  - rewrite Hv. rewrite (migrateV1ToV2_total d l) by assumption.
    rewrite bind_lift_normal.
    rewrite (migrateV2ToV3_total _ (List.map accountV1toV2 l))
      by (try reflexivity; apply not_nullish_V1toV2).
    rewrite bind_lift_normal. cbn [Z.eqb Pos.eqb].
    change (prop (JObj [("version", JInt 2);
                        ("accounts", JArr (List.map accountV1toV2 l));
                        ("activeIndex", prop d "activeIndex")]) "activeIndex")
      with (prop d "activeIndex").
    unfold mbind, Eff_bind, bind, saveAccounts.
    destruct (write_failure fs); reflexivity.
  - rewrite (strict_eq_num_distinct _ 2 1) by (auto; lia). rewrite Hv.
    rewrite (migrateV2ToV3_total d l) by assumption.
    rewrite bind_lift_normal. cbn [Z.eqb Pos.eqb].
    unfold mbind, Eff_bind, bind, saveAccounts.
    destruct (write_failure fs); reflexivity.
Qed.

(** C9. Loading a valid v3 document (version 3, [accounts] an array,
    [activeIndex] an integer within bounds) returns the document itself
    and leaves the file system untouched: [saveAccounts] is not called.
    Loading a v1 or v2 document calls [saveAccounts] once, with the
    upgraded v3 document, before returning: when the write succeeds the
    file holds that document and the load returns it ([activeIndex]
    repaired if need be); when the write fails the load returns [null]. *)
Theorem loadAccounts_v3_untouched_older_persisted :
  (forall fs c d l i,
      file fs = FileText c -> JSON_parse c = Some d ->
      strict_eq_num (prop d "version") 3 = true ->
      prop d "accounts" = JArr l -> prop d "activeIndex" = JInt i ->
      (0 <= i < Z.of_nat (length l))%Z ->
      loadAccounts fs = (Normal (Some d), fs))
  /\ (forall fs c d l n,
      file fs = FileText c -> JSON_parse c = Some d ->
      (n = 1 \/ n = 2)%Z -> strict_eq_num (prop d "version") n = true ->
      prop d "accounts" = JArr l -> Forall not_nullish l ->
      exists v3,
        (if (n =? 1)%Z then upgradeV1 d else upgradeV2 d) = Normal v3
        /\ strict_eq_num (prop v3 "version") 3 = true
        /\ saves (snd (loadAccounts fs)) = (saves fs ++ [v3])%list
        /\ match write_failure fs with
           | None =>
               file (snd (loadAccounts fs)) = FileText (JSON_stringify v3)
               /\ exists v3', fst (loadAccounts fs) = Normal (Some v3')
                    /\ (v3' = v3 \/ setProp v3 "activeIndex" (JInt 0) = Normal v3')
           | Some _ =>
               fst (loadAccounts fs) = Normal None
               /\ file (snd (loadAccounts fs)) = file fs
           end).
Proof.
  split.
  - intros fs c d l i Hf Hp Hv Hacc Hai Hi.
    assert (Hd : is_nullish d = false) by (destruct d; try discriminate; reflexivity).
    apply (loadAccounts_of_try fs (Normal (Some d))).
    rewrite (loadAccounts_try_parsed fs c d Hf Hp).
    rewrite !(getProp_prop d) by assumption.
    rewrite bind_lift_normal, Hacc. cbn [isArray negb]. rewrite bind_lift_normal.
    unfold chooseStorage.
    rewrite (strict_eq_num_distinct _ 3 1), (strict_eq_num_distinct _ 3 2), Hv by (auto; lia).
    rewrite bind_ret.
    unfold mbind at 1, Eff_bind at 1, bind at 1.
    rewrite (normalizeActiveIndex_valid d l i) by assumption. reflexivity.
  - intros fs c d l n Hf Hp Hn Hv Hacc Hall.
    assert (Hd : is_nullish d = false) by (destruct d; try discriminate; reflexivity).
    set (l3 := if (n =? 1)%Z then List.map accountV2toV3 (List.map accountV1toV2 l)
               else List.map accountV2toV3 l).
    set (v3 := JObj [("version", JInt 3); ("accounts", JArr l3);
                     ("activeIndex", prop d "activeIndex")]).
    exists v3. split; [|split; [reflexivity|]].
    { unfold v3, l3. destruct Hn as [-> | ->]; cbn [Z.eqb Pos.eqb].
      - now apply upgradeV1_total.
      - now apply migrateV2ToV3_total. }
    pose proof (chooseStorage_upgrade fs d l n v3 Hn Hv Hacc Hall eq_refl) as Hch.
    assert (Htry : loadAccounts_try fs
                   = (chosen ← chooseStorage d (prop d "version");
                      match chosen with
                      | None => ret None
                      | Some storage =>
                          storage' ← normalizeActiveIndex storage; ret (Some storage')
                      end) fs).
    { rewrite (loadAccounts_try_parsed fs c d Hf Hp).
      rewrite !(getProp_prop d) by assumption.
      rewrite bind_lift_normal, Hacc. cbn [isArray negb]. now rewrite bind_lift_normal. }
    unfold mbind at 1, Eff_bind at 1, bind at 1 in Htry. rewrite Hch in Htry.
    destruct (write_failure fs) as [e|] eqn:Ew.
    + rewrite (loadAccounts_of_try _ _ _ Htry). cbn [fst snd saves file]. auto.
    + set (fs1 := {| file := FileText (JSON_stringify v3); write_failure := None;
                     saves := (saves fs ++ [v3])%list |}) in *.
      destruct (normalizeActiveIndex_built l3 (prop d "activeIndex") fs1)
        as (v3' & Hnorm & Hshape).
      fold v3 in Hnorm, Hshape.
      unfold mbind at 1, Eff_bind at 1, bind at 1 in Htry. rewrite Hnorm in Htry.
      rewrite (loadAccounts_of_try _ _ _ Htry). cbn [fst snd saves file fs1].
      repeat split. exists v3'. split; [reflexivity|].
      destruct Hshape as [-> | ->]; [auto|right; reflexivity].
Qed.

End LoadFacts.

Lemma truthy_JNum_nonzero T : ~ (T == 0)%Q -> truthy (JNum T) = true.
Proof.
  intros HT. cbn [truthy]. destruct (Qeq_bool T 0) eqn:E; [|reflexivity].
  apply Qeq_bool_iff in E. contradiction.
Qed.

(** What the migration chain does with the reset times.  The upgrade of
    a v1 document turns an account with [isRateLimited = true] and a
    [rateLimitResetTime = T] other than 0 into a
    v3 account whose [claude], [gemini-flash] and [gemini-pro] reset times
    all equal [T], and an account that is not rate-limited into one whose
    [rateLimitResetTimes] is [undefined]; the upgrade of a v2 document
    turns [rateLimitResetTimes.gemini = T] into [gemini-flash = T] and
    [gemini-pro = T], [claude] staying absent when it was. *)
Theorem migration_chain_rate_limits :
  (forall d l i acc,
      prop d "accounts" = JArr l -> Forall not_nullish l -> l !! i = Some acc ->
      exists d3 l3 acc3,
        upgradeV1 d = Normal d3
        /\ prop d3 "version" = JInt 3
        /\ prop d3 "accounts" = JArr l3
        /\ length l3 = length l
        /\ l3 !! i = Some acc3
        /\ (forall T, prop acc "isRateLimited" = JBool true ->
                      prop acc "rateLimitResetTime" = JNum T -> ~ (T == 0)%Q ->
              prop (prop acc3 "rateLimitResetTimes") "claude" = JNum T
              /\ prop (prop acc3 "rateLimitResetTimes") "gemini-flash" = JNum T
              /\ prop (prop acc3 "rateLimitResetTimes") "gemini-pro" = JNum T)
        /\ (truthy (prop acc "isRateLimited") = false ->
              prop acc3 "rateLimitResetTimes" = JUndefined))
  /\ (forall d l i acc,
      prop d "accounts" = JArr l -> Forall not_nullish l -> l !! i = Some acc ->
      exists d3 l3 acc3,
        upgradeV2 d = Normal d3
        /\ prop d3 "version" = JInt 3
        /\ prop d3 "accounts" = JArr l3
        /\ length l3 = length l
        /\ l3 !! i = Some acc3
        /\ (forall T, prop (prop acc "rateLimitResetTimes") "gemini" = JNum T ->
              prop (prop acc3 "rateLimitResetTimes") "gemini-flash" = JNum T
              /\ prop (prop acc3 "rateLimitResetTimes") "gemini-pro" = JNum T
              /\ (prop (prop acc "rateLimitResetTimes") "claude" = JUndefined ->
                  prop (prop acc3 "rateLimitResetTimes") "claude" = JUndefined))).
Proof.
  split.
  - intros d l i acc Hacc Hall Hi.
    exists (JObj [("version", JInt 3);
                  ("accounts", JArr (List.map accountV2toV3 (List.map accountV1toV2 l)));
                  ("activeIndex", prop d "activeIndex")]),
           (List.map accountV2toV3 (List.map accountV1toV2 l)),
           (accountV2toV3 (accountV1toV2 acc)).
    split; [now apply upgradeV1_total|].
    split; [reflexivity|]. split; [reflexivity|].
    split; [now rewrite !length_map|].
    split.
    { change (List.map ?g ?x) with (g <$> x). now rewrite !list_lookup_fmap, Hi. }
    split.
    + intros T Hrl Ht HT.
      assert (Hlim : v1_limits acc = [("claude", JNum T); ("gemini", JNum T)]).
      { unfold v1_limits. rewrite Hrl, Ht, (truthy_JNum_nonzero T HT). reflexivity. }
      unfold accountV2toV3, accountV1toV2. rewrite Hlim.
      repeat split.
    + intros Hrl. unfold accountV2toV3, accountV1toV2, v1_limits. rewrite Hrl. reflexivity.
  - intros d l i acc Hacc Hall Hi.
    exists (JObj [("version", JInt 3);
                  ("accounts", JArr (List.map accountV2toV3 l));
                  ("activeIndex", prop d "activeIndex")]),
           (List.map accountV2toV3 l), (accountV2toV3 acc).
    split; [now apply migrateV2ToV3_total|].
    split; [reflexivity|]. split; [reflexivity|].
    split; [now rewrite length_map|].
    split.
    { change (List.map ?g ?x) with (g <$> x). now rewrite list_lookup_fmap, Hi. }
    intros T Hg.
    assert (Ht : truthy (prop acc "rateLimitResetTimes") = true).
    { destruct (prop acc "rateLimitResetTimes"); try discriminate; reflexivity. }
    unfold accountV2toV3, v3_limits. rewrite Ht, Hg. cbn [is_undefined negb].
    destruct (is_undefined (prop (prop acc "rateLimitResetTimes") "claude")) eqn:Ec.
    + repeat split.
    + cbn [negb]. repeat split. intros Hc. rewrite Hc in Ec. discriminate.
Qed.

End StorageFacts.

(* ===================================================================== *)
(** * The account manager and the store on sample data *)
(* ===================================================================== *)

Section AccountAndStorageSamples.
Import Codec Accounts JS Storage Examples.

Lemma selection_sticky_tier_aware_witness :
  (exists m', getCurrentOrNextForFamily 100 gemini_pro manager_free_paid = (Some 1%nat, m')
              /\ currentAccountIndex m' = 1%Z)
  /\ (exists m1 m3,
        select_run [100; 200; 300]%Z gemini_pro manager_two_paid
          = ([Some 0%nat; Some 0%nat; Some 0%nat], m1)
        /\ select_run [500; 600]%Z gemini_pro (markRateLimited 400 0 5000 gemini_pro m1)
          = ([Some 1%nat; Some 1%nat], m3)).
Proof.
  split.
  - destruct (proj1 selection_sticky_tier_aware 100%Z gemini_pro manager_free_paid
                (sample_account 0 free) (sample_account 1 paid))
      as (m' & Hsel & _ & _ & Hcur); try reflexivity.
    exists m'. split; assumption.
  - destruct (proj2 selection_sticky_tier_aware gemini_pro manager_two_paid
                (sample_account 0 paid) (sample_account 1 paid)
                [100; 200; 300]%Z 400%Z 5000%Z 500%Z [600]%Z)
      as (m1 & m3 & Hrun1 & _ & Hrun3 & _); try reflexivity.
    + repeat constructor.
    + repeat constructor.
    + exists m1, m3. split; assumption.
Defined.

Lemma migration_chain_rate_limits_witness :
  (exists d3 acc3,
      upgradeV1 (v1_document true 5000) = Normal d3
      /\ prop d3 "accounts" = JArr [acc3]
      /\ prop (prop acc3 "rateLimitResetTimes") "claude" = JInt 5000
      /\ prop (prop acc3 "rateLimitResetTimes") "gemini-flash" = JInt 5000
      /\ prop (prop acc3 "rateLimitResetTimes") "gemini-pro" = JInt 5000)
  /\ (exists d3 acc3,
      upgradeV2 (v2_document 7000) = Normal d3
      /\ prop d3 "accounts" = JArr [acc3]
      /\ prop (prop acc3 "rateLimitResetTimes") "gemini-flash" = JInt 7000
      /\ prop (prop acc3 "rateLimitResetTimes") "gemini-pro" = JInt 7000
      /\ prop (prop acc3 "rateLimitResetTimes") "claude" = JUndefined).
Proof.
  split.
  - destruct (proj1 migration_chain_rate_limits (v1_document true 5000)
                [v1_account true 5000] 0%nat (v1_account true 5000))
      as (d3 & l3 & acc3 & Hup & _ & Hacc & Hlen & Hi & Hlim & _).
    + reflexivity.
    + repeat constructor.
    + reflexivity.
    + destruct l3 as [|x [|y l3]]; try discriminate. cbn in Hi. injection Hi as ->.
      exists d3, acc3. split; [exact Hup|]. split; [exact Hacc|].
      apply (Hlim (inject_Z 5000)); [reflexivity|reflexivity|].
      intros H0. discriminate H0.
  - destruct (proj2 migration_chain_rate_limits (v2_document 7000)
                [v2_account 7000] 0%nat (v2_account 7000))
      as (d3 & l3 & acc3 & Hup & _ & Hacc & Hlen & Hi & Hlim).
    + reflexivity.
    + repeat constructor.
    + reflexivity.
    + destruct l3 as [|x [|y l3]]; try discriminate. cbn in Hi. injection Hi as ->.
      exists d3, acc3. split; [exact Hup|]. split; [exact Hacc|].
      destruct (Hlim (inject_Z 7000) eq_refl) as (Hf & Hp & Hc).
      repeat split; auto.
Defined.

(** C3. The upgrade at a v1 account flagged rate-limited with reset
    time 0: the truthiness test of [migrateV1ToV2] takes the 0 for no
    reset time, and the account leaves without [rateLimitResetTimes]
    instead of with the three families at 0.  The upgrade of a v2
    document, which tests [!== undefined], keeps a reset time of 0. *)
Lemma migration_v1_zero_reset_time_dropped :
  prop (v1_account true 0) "isRateLimited" = JBool true
  /\ prop (v1_account true 0) "rateLimitResetTime" = JInt 0
  /\ (exists d3 acc3,
        upgradeV1 (v1_document true 0) = Normal d3
        /\ prop d3 "accounts" = JArr [acc3]
        /\ prop acc3 "rateLimitResetTimes" = JUndefined
        /\ prop (prop acc3 "rateLimitResetTimes") "claude" <> JInt 0
        /\ prop (prop acc3 "rateLimitResetTimes") "gemini-flash" <> JInt 0
        /\ prop (prop acc3 "rateLimitResetTimes") "gemini-pro" <> JInt 0)
  /\ (exists d3 acc3,
        upgradeV2 (v2_document 0) = Normal d3
        /\ prop d3 "accounts" = JArr [acc3]
        /\ prop (prop acc3 "rateLimitResetTimes") "gemini-flash" = JInt 0
        /\ prop (prop acc3 "rateLimitResetTimes") "gemini-pro" = JInt 0).
Proof.
  split; [reflexivity|]. split; [reflexivity|]. split.
  - eexists _, _. split; [vm_compute; reflexivity|].
    split; [reflexivity|]. split; [reflexivity|].
    repeat split; vm_compute; discriminate.
  - eexists _, _. split; [vm_compute; reflexivity|].
    split; [reflexivity|]. split; reflexivity.
Qed.

Lemma loadAccounts_never_throws_witness :
  @loadAccounts sample_json (fs_with FileMissing) = (Normal None, fs_with FileMissing)
  /\ @loadAccounts sample_json (fs_with (FileText "{ not json"))
     = (Normal None, fs_with (FileText "{ not json"))
  /\ @loadAccounts sample_json (fs_with (FileText "no accounts array"))
     = (Normal None, fs_with (FileText "no accounts array"))
  /\ @loadAccounts sample_json (fs_with (FileText "version 4"))
     = (Normal None, fs_with (FileText "version 4")).
Proof.
  split; [|split; [|split]].
  - apply (proj1 (proj2 (@loadAccounts_never_throws sample_json (fs_with FileMissing)))).
    reflexivity.
  - apply (proj1 (proj2 (proj2 (@loadAccounts_never_throws sample_json
                                   (fs_with (FileText "{ not json")))))
             "{ not json"); reflexivity.
  - eapply (proj1 (proj2 (proj2 (proj2 (@loadAccounts_never_throws sample_json
                                   (fs_with (FileText "no accounts array"))))))
             "no accounts array"); reflexivity.
  - eapply (proj2 (proj2 (proj2 (proj2 (@loadAccounts_never_throws sample_json
                                   (fs_with (FileText "version 4"))))))
             "version 4"); reflexivity.
Defined.

Lemma loadAccounts_v3_untouched_older_persisted_witness :
  @loadAccounts sample_json (fs_with (FileText "v3 document"))
  = (Normal (Some v3_document), fs_with (FileText "v3 document"))
  /\ exists v3,
       upgradeV1 (v1_document true 5000) = Normal v3
       /\ saves (snd (@loadAccounts sample_json (fs_with (FileText "v1 document")))) = [v3]
       /\ file (snd (@loadAccounts sample_json (fs_with (FileText "v1 document"))))
          = FileText "saved".
Proof.
  split.
  - apply (proj1 (@loadAccounts_v3_untouched_older_persisted sample_json)
             (fs_with (FileText "v3 document")) "v3 document" v3_document
             [JObj [("refreshToken", JStr "refresh"); ("addedAt", JInt 1); ("lastUsed", JInt 2)]]
             0%Z); try reflexivity.
    cbn. lia.
  - destruct (proj2 (@loadAccounts_v3_untouched_older_persisted sample_json)
                (fs_with (FileText "v1 document")) "v1 document" (v1_document true 5000)
                [v1_account true 5000] 1%Z)
      as (v3 & Hup & _ & Hsaves & Hfile & _); try reflexivity.
    + left; reflexivity.
    + repeat constructor.
    + exists v3. split; [exact Hup|]. split; [exact Hsaves|exact Hfile].
Defined.

End AccountAndStorageSamples.

(* ===================================================================== *)
(** * Properties of the token refresher *)
(* ===================================================================== *)

Section TokenFactsOuter.
Import Codec JS Token Examples.

Lemma split_char_no_pipe_id b : no_pipe b -> split_char pipe b = [b].
Proof.
  induction b as [|c b IH]; intros Hb; [reflexivity|].
  inversion Hb as [|? ? Hc Hb']; subst. cbn [split_char].
  apply Ascii.eqb_neq in Hc. rewrite Hc, (IH Hb'). reflexivity.
Qed.

Lemma split_char_app a rest :
  no_pipe a -> split_char pipe (a ++ String pipe rest) = a :: split_char pipe rest.
Proof.
  induction a as [|c a IH]; intros Ha.
  - rewrite append_nil_l. cbn [split_char]. now rewrite Ascii.eqb_refl.
  - inversion Ha as [|? ? Hc Ha']; subst. rewrite append_cons. cbn [split_char].
    apply Ascii.eqb_neq in Hc. rewrite Hc, (IH Ha'). reflexivity.
Qed.

Lemma or_undefined_ok s : no_pipe s -> token_ok (or_undefined s).
Proof.
  intros Hs. unfold or_undefined, truthy_string.
  destruct (String.eqb_spec s ""); cbn; auto.
Qed.

Lemma nth_no_pipe n x : no_pipe (nth n (split_char pipe x) "").
Proof.
  pose proof (split_char_no_pipe x) as Hall.
  destruct (nth_in_or_default n (split_char pipe x) "") as [Hin | ->].
  - rewrite Forall_forall in Hall. apply Hall. now apply list_elem_of_In.
  - constructor.
Qed.

Lemma parseRefreshParts_tokens x :
  no_pipe (refreshToken (parseRefreshParts x))
  /\ token_ok (projectId (parseRefreshParts x))
  /\ token_ok (managedProjectId (parseRefreshParts x)).
Proof.
  unfold parseRefreshParts. cbn [refreshToken projectId managedProjectId].
  auto using nth_no_pipe, or_undefined_ok.
Qed.

Lemma or_undefined_nonempty s : s <> "" -> or_undefined s = Some s.
Proof.
  intros Hs. unfold or_undefined, truthy_string.
  destruct (String.eqb_spec s ""); [contradiction|reflexivity].
Qed.

(** Parsing undoes formatting on parts whose tokens hold no pipe and
    whose optional tokens are non-empty when present. *)
Lemma parse_format_parts rt pid mpid :
  no_pipe rt -> token_ok pid -> token_ok mpid ->
  parseRefreshParts (formatRefreshParts
                       {| refreshToken := rt; projectId := pid; managedProjectId := mpid |})
  = {| refreshToken := rt; projectId := pid; managedProjectId := mpid |}.
Proof.
  intros Hrt Hpid Hmpid. unfold formatRefreshParts, parseRefreshParts.
  cbn [refreshToken projectId managedProjectId].
  assert (Hseg : no_pipe (default "" pid) /\ or_undefined (default "" pid) = pid).
  { destruct pid as [s|]; cbn in *; [|split; [constructor|reflexivity]].
    destruct Hpid. split; [assumption|now apply or_undefined_nonempty]. }
  destruct Hseg as (Hseg & Hpid').
  destruct mpid as [m|].
  - destruct Hmpid as (Hm & Hne).
    assert (Htm : truthy_string m = true).
    { unfold truthy_string. destruct (String.eqb_spec m ""); [contradiction|reflexivity]. }
    rewrite Htm.
    change ("|" ++ default "" pid) with (String pipe (default "" pid)).
    change ("|" ++ m) with (String pipe m).
    rewrite append_assoc, append_cons.
    rewrite split_char_app by assumption.
    rewrite split_char_app by assumption.
    rewrite split_char_no_pipe_id by assumption.
    cbn [nth]. now rewrite Hpid', or_undefined_nonempty.
  - change ("|" ++ default "" pid) with (String pipe (default "" pid)).
    rewrite split_char_app by assumption.
    rewrite split_char_no_pipe_id by assumption.
    cbn [nth]. now rewrite Hpid'.
Qed.

Section TokenFacts.
Context `{JSON_API}.

Lemma truthy_string_nonempty s : truthy_string s = true -> s <> "".
Proof. unfold truthy_string. destruct (String.eqb_spec s ""); [discriminate|auto]. Qed.

(** C7. Once the refresh request is sent (the stored refresh token and
    the client secret being non-empty): on an HTTP failure whose parsed
    payload carries the code ["invalid_grant"], the refresher calls the
    host's [auth.set] with a credential whose refresh string parses to an
    empty refresh token and the same project id and managed project id
    (access token empty, expiry 0), removes the project-context cache
    entries keyed by the old refresh string, and returns [undefined]; on
    a network error and on any other HTTP failure it returns [undefined]
    and changes nothing; on success the returned credential carries the
    rotated refresh token when the server sent one and the original one
    otherwise, and [auth.set] is not called. *)
Theorem refresh_failure_handling :
  forall clientId secret fetch now auth w,
    truthy_string (refreshToken (parseRefreshParts (refresh auth))) = true ->
    truthy_string secret = true ->
    (forall r,
        fetch (token_request clientId secret auth) = Responded r -> ok r = false ->
        code (parseOAuthErrorPayload (text r)) = JStr "invalid_grant" ->
        exists cleared w',
          refreshAccessToken clientId secret fetch now auth w = (None, w')
          /\ auth_set_calls w' = (auth_set_calls w ++ [(ANTIGRAVITY_PROVIDER_ID, cleared)])%list
          /\ parseRefreshParts (refresh cleared)
             = {| refreshToken := "";
                  projectId := projectId (parseRefreshParts (refresh auth));
                  managedProjectId := managedProjectId (parseRefreshParts (refresh auth)) |}
          /\ access cleared = "" /\ expires cleared = 0%Z
          /\ projectContextResultCache w' !! refresh auth = None
          /\ projectContextPendingCache w' !! refresh auth = None)
    /\ (fetch (token_request clientId secret auth) = NetworkError ->
        refreshAccessToken clientId secret fetch now auth w = (None, w))
    /\ (forall r,
        fetch (token_request clientId secret auth) = Responded r -> ok r = false ->
        strict_eq_str (code (parseOAuthErrorPayload (text r))) "invalid_grant" = false ->
        refreshAccessToken clientId secret fetch now auth w = (None, w))
    /\ (forall r payload,
        fetch (token_request clientId secret auth) = Responded r -> ok r = true ->
        json r = Some payload ->
        exists updated w',
          refreshAccessToken clientId secret fetch now auth w = (Some updated, w')
          /\ refresh updated
             = formatRefreshParts
                 {| refreshToken :=
                      match rotated_refresh_token payload with
                      | Some rotated => rotated
                      | None => refreshToken (parseRefreshParts (refresh auth))
                      end;
                    projectId := projectId (parseRefreshParts (refresh auth));
                    managedProjectId := managedProjectId (parseRefreshParts (refresh auth)) |}
          /\ (rotated_refresh_token payload = None ->
              refreshToken (parseRefreshParts (refresh updated))
              = refreshToken (parseRefreshParts (refresh auth)))
          /\ access updated = access_token payload
          /\ expires updated = (now + expires_in payload * 1000)%Z
          /\ auth_set_calls w' = auth_set_calls w).
Proof.
  intros clientId secret fetch now auth w Hrt Hsecret.
  pose proof (parseRefreshParts_tokens (refresh auth)) as (Hnp & Hpid & Hmpid).
  split; [|split; [|split]].
  - intros r Hfetch Hok Hcode.
    unfold refreshAccessToken. rewrite Hrt, Hsecret. cbn [negb]. rewrite Hfetch, Hok.
    cbn [negb]. rewrite Hcode. cbn [strict_eq_str].
    change ("invalid_grant" =? "invalid_grant")%string with true. cbv iota.
    eexists _, _. split; [reflexivity|].
    cbn [auth_set_calls client_auth_set refresh access expires].
    assert (Hne : truthy_string (refresh auth) = true).
    { unfold truthy_string. destruct (String.eqb_spec (refresh auth) "") as [He|]; [|reflexivity].
      rewrite He in Hrt. discriminate Hrt. }
    unfold invalidateProjectContextCache. rewrite Hne. cbn [negb].
    cbn [auth_set_calls projectContextResultCache projectContextPendingCache].
    split; [reflexivity|].
    split; [apply parse_format_parts; auto; constructor|].
    split; [reflexivity|]. split; [reflexivity|].
    split; apply lookup_delete_eq.
  - intros Hfetch. unfold refreshAccessToken. rewrite Hrt, Hsecret. cbn [negb].
    now rewrite Hfetch.
  - intros r Hfetch Hok Hcode. unfold refreshAccessToken. rewrite Hrt, Hsecret. cbn [negb].
    rewrite Hfetch, Hok. cbn [negb]. now rewrite Hcode.
  - intros r payload Hfetch Hok Hjson. unfold refreshAccessToken.
    rewrite Hrt, Hsecret. cbn [negb]. rewrite Hfetch, Hok. cbn [negb]. rewrite Hjson.
    eexists _, _. split; [reflexivity|].
    cbn [refresh access expires].
    split; [destruct (rotated_refresh_token payload); reflexivity|].
    split.
    { intros ->. cbn [default]. now rewrite parse_format_parts. }
    split; [reflexivity|]. split; [reflexivity|].
    unfold invalidateProjectContextCache, storeCachedAuth.
    destruct (normalizeRefreshKey _); destruct (negb (truthy_string (refresh auth))); reflexivity.
Qed.

End TokenFacts.

Lemma refresh_failure_handling_witness :
  (exists cleared w',
      @refreshAccessToken sample_json "client" "secret"
        (fetch_failure 400 "invalid_grant response") 1000 base_auth empty_world = (None, w')
      /\ auth_set_calls w' = [(ANTIGRAVITY_PROVIDER_ID, cleared)]
      /\ parseRefreshParts (refresh cleared)
         = {| refreshToken := ""; projectId := Some "project-123";
              managedProjectId := None |})
  /\ @refreshAccessToken sample_json "client" "secret" fetch_offline 1000 base_auth empty_world
     = (None, empty_world)
  /\ @refreshAccessToken sample_json "client" "secret"
       (fetch_failure 500 "server error response") 1000 base_auth empty_world
     = (None, empty_world)
  /\ (exists updated w',
        @refreshAccessToken sample_json "client" "secret"
          (fetch_success (Some "rotated-token")) 1000 base_auth empty_world = (Some updated, w')
        /\ refresh updated = "rotated-token|project-123"
        /\ access updated = "new-access"
        /\ expires updated = 3601000%Z).
Proof.
  pose proof (fun fetch =>
    @refresh_failure_handling sample_json "client" "secret" fetch 1000%Z base_auth empty_world
      eq_refl eq_refl) as Hall.
  split; [|split; [|split]].
  - destruct (proj1 (Hall (fetch_failure 400 "invalid_grant response")) _ eq_refl eq_refl eq_refl)
      as (cleared & w' & Hrun & Hcalls & Hparts & _).
    exists cleared, w'. split; [exact Hrun|]. split; [exact Hcalls|exact Hparts].
  - apply (proj1 (proj2 (Hall fetch_offline))). reflexivity.
  - apply (proj1 (proj2 (proj2 (Hall (fetch_failure 500 "server error response")))) _ eq_refl);
      reflexivity.
  - destruct (proj2 (proj2 (proj2 (Hall (fetch_success (Some "rotated-token"))))) _ _
                eq_refl eq_refl eq_refl)
      as (updated & w' & Hrun & Hrefresh & _ & Haccess & Hexpires & _).
    exists updated, w'. split; [exact Hrun|]. split; [exact Hrefresh|].
    split; [exact Haccess|exact Hexpires].
Defined.

End TokenFactsOuter.

(* ===================================================================== *)
(** * Properties of the Claude transformer's pass over the parts *)
(* ===================================================================== *)

Section ClaudeFactsOuter.
Import Codec JS Accounts Claude Storage Examples.

Lemma bind_get_state {S B} (k : S -> Eff S B) (st : S) :
  (get_state ≫= k) st = k st st.
Proof. reflexivity. Qed.

Lemma bind_put_state {S B} (s' : S) (k : unit -> Eff S B) (st : S) :
  (put_state s' ≫= k) st = k tt s'.
Proof. reflexivity. Qed.

Lemma bind_normal_result {S A B} (m : Eff S A) (k : A -> Eff S B) st a st' :
  m st = (Normal a, st') -> (m ≫= k) st = k a st'.
Proof. intros Hm. unfold mbind, Eff_bind, bind. now rewrite Hm. Qed.

(** ** Objects and their fields *)

Lemma remove_set_field k x fs : remove_field k (set_field k x fs) = remove_field k fs.
Proof.
  induction fs as [|[k' v] fs IH]; cbn [set_field remove_field].
  - now rewrite String.eqb_refl.
  - destruct (String.eqb_spec k k') as [->|Hne]; cbn [remove_field].
    + now rewrite String.eqb_refl.
    + destruct (String.eqb_spec k k'); [contradiction|]. now rewrite IH.
Qed.

Lemma lookup_set_field_ne k k' x fs :
  k <> k' -> lookup_field k' (set_field k x fs) = lookup_field k' fs.
Proof.
  intros Hne. induction fs as [|[k0 v] fs IH]; cbn [set_field lookup_field].
  - destruct (String.eqb_spec k' k); [congruence|reflexivity].
  - destruct (String.eqb_spec k k0) as [->|Hk]; cbn [lookup_field].
    + destruct (String.eqb_spec k' k0); [congruence|reflexivity].
    + destruct (String.eqb_spec k' k0); [reflexivity|exact IH].
Qed.

Lemma lookup_set_field_eq k x fs : lookup_field k (set_field k x fs) = x.
Proof.
  induction fs as [|[k0 v] fs IH]; cbn [set_field lookup_field].
  - now rewrite String.eqb_refl.
  - destruct (String.eqb_spec k k0) as [->|Hk]; cbn [lookup_field].
    + now rewrite String.eqb_refl.
    + destruct (String.eqb_spec k k0); [contradiction|exact IH].
Qed.

(** Replacing the value of a field that is there by one that a map over
    the fields does not tell apart changes nothing under the map. *)
Lemma map_set_field (E : string * JSValue -> string * JSValue) k x fs :
  lookup_field k fs <> JUndefined ->
  E (k, x) = E (k, lookup_field k fs) ->
  List.map E (set_field k x fs) = List.map E fs.
Proof.
  induction fs as [|[k0 v] fs IH]; cbn [set_field lookup_field List.map].
  - congruence.
  - destruct (String.eqb_spec k k0) as [->|Hk]; cbn [List.map].
    + intros _ HE. now rewrite HE.
    + intros Hl HE. now rewrite IH.
Qed.

Lemma erase_ids_obj fs : erase_ids (JObj fs) = JObj (List.map erase_entry fs).
Proof. reflexivity. Qed.

Lemma truthy_not_undefined v : truthy v = true -> v <> JUndefined.
Proof. destruct v; discriminate. Qed.

(** Giving the [id] field of the object under [k] a value is invisible
    once ids are erased, for [k] one of the two id-carrying fields. *)
Lemma erase_ids_set_id k id fs ofs :
  (k = "functionCall" \/ k = "functionResponse") ->
  lookup_field k fs = JObj ofs ->
  erase_ids (JObj (set_field k (JObj (set_field "id" id ofs)) fs)) = erase_ids (JObj fs).
Proof.
  intros Hk Hl. rewrite !erase_ids_obj. f_equal.
  apply map_set_field.
  - rewrite Hl. discriminate.
  - rewrite Hl. unfold erase_entry. cbn [fst snd].
    destruct Hk as [-> | ->]; cbn [String.eqb Ascii.eqb Bool.eqb orb without_id];
      now rewrite remove_set_field.
Qed.

Lemma prop_JStr_obj v k s : prop v k = JStr s -> exists fs, v = JObj fs.
Proof. destruct v; try discriminate; eauto. Qed.

Lemma truthy_prop_obj v k : truthy (prop v k) = true -> exists fs, v = JObj fs.
Proof. destruct v; try discriminate; eauto. Qed.

Section ClaudeFacts.
Context `{Crypto}.

Lemma function_call_block_spec part st r st' :
  is_nullish part = false ->
  function_call_block part st = (r, st') ->
  exists part',
    r = Normal part'
    /\ erase_ids part' = erase_ids part
    /\ signatureCache st' = signatureCache st
    /\ (forall k, k <> "functionCall" -> prop part' k = prop part k)
    /\ is_nullish part' = false.
Proof.
  intros Hn. unfold function_call_block.
  rewrite (getProp_prop part) by assumption. eff.
  destruct (truthy (prop part "functionCall")) eqn:Efc; cbn [negb]; [|finish_block].
  destruct (truthy_prop_obj _ _ Efc) as (fs & ->).
  rewrite (getProp_prop (prop (JObj fs) "functionCall")) by (now apply truthy_not_nullish).
  eff.
  destruct (prop (prop (JObj fs) "functionCall") "name") as [| | | |n| |] eqn:En;
    try finish_block.
  destruct (prop_JStr_obj _ _ _ En) as (ofs & Hofs). rewrite Hofs.
  cbn [getProp]. eff.
  destruct (truthy (lookup_field "id" ofs)) eqn:Eid; cbn [negb].
  - finish_block.
  - cbn [setProp]. eff.
    intros E; injection E as <- <-. eexists. split; [reflexivity|].
    split; [apply erase_ids_set_id; auto|].
    split; [reflexivity|]. split; [|reflexivity].
    intros k Hk. unfold prop. cbn [getProp]. now apply lookup_set_field_ne.
Qed.

Lemma function_response_block_spec part st r st' :
  is_nullish part = false ->
  function_response_block part st = (r, st') ->
  exists part',
    r = Normal part'
    /\ erase_ids part' = erase_ids part
    /\ signatureCache st' = signatureCache st
    /\ (forall k, k <> "functionResponse" -> prop part' k = prop part k)
    /\ is_nullish part' = false.
Proof.
  intros Hn. unfold function_response_block.
  rewrite (getProp_prop part) by assumption. eff.
  destruct (truthy (prop part "functionResponse")) eqn:Efr; cbn [negb]; [|finish_block].
  destruct (truthy_prop_obj _ _ Efr) as (fs & ->).
  rewrite (getProp_prop (prop (JObj fs) "functionResponse")) by (now apply truthy_not_nullish).
  eff.
  destruct (prop (prop (JObj fs) "functionResponse") "name") as [| | | |n| |] eqn:En;
    try finish_block.
  destruct (prop_JStr_obj _ _ _ En) as (ofs & Hofs). rewrite Hofs.
  cbn [getProp]. eff.
  destruct (truthy (lookup_field "id" ofs)) eqn:Eid; cbn [negb]; [finish_block|].
  eff.
  destruct (funcCallIdQueues st !! n) as [[|id queue]|] eqn:Eq; try finish_block.
  cbn [setProp]. eff.
  intros E; injection E as <- <-. eexists. split; [reflexivity|].
  split; [apply erase_ids_set_id; auto|].
  split; [reflexivity|]. split; [|reflexivity].
  intros k Hk. unfold prop. cbn [getProp]. now apply lookup_set_field_ne.
Qed.

Lemma is_thought_prop part : is_nullish part = false ->
  is_thought part = match prop part "thought" with JBool true => true | _ => false end.
Proof. intros Hn. unfold is_thought. now rewrite getProp_prop. Qed.

Lemma longer_than_50_truthy v : longer_than_50 v = true -> truthy v = true.
Proof.
  destruct v as [| | | |s| |]; try discriminate. cbn [longer_than_50 truthy].
  destruct s; [discriminate|reflexivity].
Qed.

Lemma longer_not_shorter v : longer_than_50 v = true -> shorter_than_50 v = false.
Proof.
  destruct v as [| | | |s| |]; try discriminate. cbn [longer_than_50 shorter_than_50].
  intros Hl. apply Nat.ltb_lt in Hl. apply Nat.ltb_ge. lia.
Qed.

Lemma thought_block_valid ctx part st :
  is_nullish part = false ->
  longer_than_50 (prop part "thoughtSignature") = true ->
  thought_block ctx part st
  = (Normal (Some part),
     cached_after ctx (prop part "text") (prop part "thoughtSignature") st).
Proof.
  intros Hn Hl. unfold thought_block.
  rewrite !(getProp_prop part) by assumption. eff.
  rewrite (longer_than_50_truthy _ Hl), (longer_not_shorter _ Hl). cbn [negb orb].
  cbn beta iota. rewrite Hl. unfold cached_after.
  destruct (prop part "text"); try reflexivity.
  destruct (prop part "thoughtSignature"); try reflexivity.
  destruct (truthy_string (sessionId ctx)); reflexivity.
Qed.

Lemma thought_block_dropped ctx part st :
  is_nullish part = false ->
  longer_than_50 (prop part "thoughtSignature") = false ->
  (forall t, prop part "text" = JStr t ->
     getCachedSignature (family ctx) (sessionId ctx) t (signatureCache st) = None) ->
  thought_block ctx part st = (Normal None, removed_one st).
Proof.
  intros Hn Hl Hmiss. unfold thought_block.
  rewrite !(getProp_prop part) by assumption. eff.
  assert (Hrest :
    (if negb (truthy (prop part "thoughtSignature"))
        || shorter_than_50 (prop part "thoughtSignature")
     then match prop part "text" with
          | JStr t =>
              match getCachedSignature (family ctx) (sessionId ctx) t (signatureCache st) with
              | Some cached => if truthy_string cached then Some cached else None
              | None => None
              end
          | _ => None
          end
     else None) = None).
  { destruct (negb _ || _); [|reflexivity].
    destruct (prop part "text") eqn:Et; try reflexivity.
    now rewrite (Hmiss _ eq_refl). }
  rewrite Hrest. cbn beta iota. rewrite Hl. reflexivity.
Qed.

(** Whatever the signature, the block returns, and a part it keeps
    differs from the original at most in [thoughtSignature]. *)
Lemma thought_block_spec ctx part st r st' :
  is_nullish part = false ->
  thought_block ctx part st = (r, st') ->
  r = Normal None
  \/ exists part', r = Normal (Some part')
        /\ is_nullish part' = false
        /\ (forall k, k <> "thoughtSignature" -> prop part' k = prop part k).
Proof.
  intros Hn. unfold thought_block.
  rewrite !(getProp_prop part) by assumption. eff.
  match goal with
  | |- context [longer_than_50 (match ?x with Some _ => _ | None => _ end)] =>
      set (restored := x); assert (Er : restored = x) by reflexivity;
      clearbody restored; destruct restored as [cached|]
  end; symmetry in Er.
  - assert (Hobj : exists fs, part = JObj fs).
    { destruct (negb _ || _); [|discriminate].
      destruct (prop part "text") eqn:Et; try discriminate.
      now apply (prop_JStr_obj _ _ _ Et). }
    destruct Hobj as (fs & ->). cbn [setProp].
    destruct (longer_than_50 (JStr cached)).
    + destruct (prop (JObj fs) "text"); try destruct (truthy_string (sessionId ctx));
        intros E; injection E as <- <-; right; eexists; (split; [reflexivity|]);
        (split; [reflexivity|]); intros k Hk; unfold prop; cbn [getProp];
        now apply lookup_set_field_ne.
    + intros E; injection E as <- <-. now left.
  - destruct (longer_than_50 (prop part "thoughtSignature")).
    + destruct (prop part "text"); destruct (prop part "thoughtSignature");
        try destruct (truthy_string (sessionId ctx));
        intros E; injection E as <- <-; right; exists part; auto.
    + intros E; injection E as <- <-. now left.
Qed.

Lemma bind_inv {S A B} (m : Eff S A) (k : A -> Eff S B) st r st' :
  (m ≫= k) st = (r, st') ->
  (exists a st1, m st = (Normal a, st1) /\ k a st1 = (r, st'))
  \/ (exists e, m st = (Throw e, st') /\ r = Throw e).
Proof.
  unfold mbind, Eff_bind, bind. destruct (m st) as [[a|e] st1].
  - intros Hk. left. eauto.
  - intros E. injection E as <- <-. right. eauto.
Qed.

(** The two id blocks return, and touch only the ids. *)
Lemma id_blocks_spec part1 st r st' :
  is_nullish part1 = false ->
  (part2 ← function_call_block part1;
   part3 ← function_response_block part2;
   ret (Some part3)) st = (r, st') ->
  exists part3,
    r = Normal (Some part3)
    /\ erase_ids part3 = erase_ids part1
    /\ signatureCache st' = signatureCache st
    /\ (forall k, k <> "functionCall" -> k <> "functionResponse" ->
          prop part3 k = prop part1 k)
    /\ is_nullish part3 = false.
Proof.
  intros Hn Hrun.
  apply bind_inv in Hrun as [(part2 & st2 & Hfc & Hrun) | (e & Hfc & _)].
  2:{ apply function_call_block_spec in Hfc as (? & Habs & _); [discriminate|assumption]. }
  apply function_call_block_spec in Hfc as (p2 & Hp2 & He2 & Hc2 & Hk2 & Hn2); [|assumption].
  injection Hp2 as <-.
  apply bind_inv in Hrun as [(part3 & st3 & Hfr & Hrun) | (e & Hfr & _)].
  2:{ apply function_response_block_spec in Hfr as (? & Habs & _); [discriminate|assumption]. }
  apply function_response_block_spec in Hfr as (p3 & Hp3 & He3 & Hc3 & Hk3 & Hn3); [|assumption].
  injection Hp3 as <-.
  unfold ret in Hrun. injection Hrun as <- <-.
  exists part3. split; [reflexivity|].
  split; [congruence|]. split; [congruence|]. split; [|assumption].
  intros k Hk Hk'. rewrite Hk3, Hk2 by assumption. reflexivity.
Qed.

Lemma process_part_unfold ctx part st :
  is_nullish part = false ->
  process_part ctx part st
  = (kept ← (match prop part "thought" with
             | JBool true => thought_block ctx part
             | _ => ret (Some part)
             end);
     match kept with
     | None => ret None
     | Some part1 =>
         part2 ← function_call_block part1;
         part3 ← function_response_block part2;
         ret (Some part3)
     end) st.
Proof. intros Hn. unfold process_part. now rewrite (getProp_prop part). Qed.

(** A part that is not a thinking part is kept, up to ids. *)
Lemma process_part_plain ctx part st r st' :
  is_nullish part = false -> is_thought part = false ->
  process_part ctx part st = (r, st') ->
  exists part',
    r = Normal (Some part')
    /\ erase_ids part' = erase_ids part
    /\ is_thought part' = false
    /\ signatureCache st' = signatureCache st.
Proof.
  intros Hn Ht. rewrite process_part_unfold by assumption.
  rewrite is_thought_prop in Ht by assumption.
  assert (Hk : (match prop part "thought" with
                | JBool true => thought_block ctx part
                | _ => ret (Some part)
                end) = ret (Some part)).
  { destruct (prop part "thought") as [| |[|]| | | |]; try reflexivity. discriminate. }
  rewrite Hk. intros Hrun.
  apply bind_inv in Hrun as [(a & st1 & Hret & Hrun) | (e & Habs & _)]; [|discriminate].
  unfold ret in Hret. injection Hret as <- <-.
  apply id_blocks_spec in Hrun as (part3 & -> & He & Hc & Hp & Hn3); [|assumption].
  exists part3. split; [reflexivity|]. split; [assumption|]. split; [|assumption].
  rewrite is_thought_prop by assumption. rewrite Hp by discriminate.
  destruct (prop part "thought") as [| |[|]| | | |]; try reflexivity. discriminate.
Qed.

(** A thinking part is removed, or kept as a thinking part. *)
Lemma process_part_thought ctx part st r st' :
  is_nullish part = false -> is_thought part = true ->
  process_part ctx part st = (r, st') ->
  r = Normal None
  \/ exists part', r = Normal (Some part') /\ is_thought part' = true.
Proof.
  intros Hn Ht. rewrite process_part_unfold by assumption.
  rewrite is_thought_prop in Ht by assumption.
  destruct (prop part "thought") as [| |[|]| | | |] eqn:Eth; try discriminate.
  intros Hrun.
  apply bind_inv in Hrun as [(kept & st1 & Htb & Hrun) | (e & Htb & _)].
  2:{ apply thought_block_spec in Htb as [Habs | (? & Habs & _)];
        [discriminate|discriminate|assumption]. }
  apply thought_block_spec in Htb as [Hnone | (part1 & Hsome & Hn1 & Hp1)]; [| |assumption].
  - injection Hnone as ->. unfold ret in Hrun. injection Hrun as <- <-. now left.
  - injection Hsome as ->.
    apply id_blocks_spec in Hrun as (part3 & -> & He & Hc & Hp & Hn3); [|assumption].
    right. exists part3. split; [reflexivity|].
    rewrite is_thought_prop by assumption.
    rewrite Hp, Hp1, Eth by discriminate. reflexivity.
Qed.

(** The loop returns on parts that are objects, and the parts that are
    not thinking parts come out in their order, up to ids. *)
Lemma filter_parts_plain ctx parts : forall st r st',
  Forall not_nullish parts ->
  filter_parts ctx parts st = (r, st') ->
  exists out,
    r = Normal out
    /\ List.map erase_ids (List.filter plain out)
       = List.map erase_ids (List.filter plain parts).
Proof.
  induction parts as [|part rest IH]; intros st r st' Hall Hrun.
  - cbn [filter_parts] in Hrun. unfold ret in Hrun. injection Hrun as <- <-.
    exists []. auto.
  - inversion Hall as [|? ? Hn Hrest]; subst. cbn [filter_parts] in Hrun.
    apply bind_inv in Hrun as [(kept & st1 & Hp & Hrun) | (e & Hp & _)].
    2:{ destruct (is_thought part) eqn:Et.
        - apply process_part_thought in Hp as [Habs | (? & Habs & _)];
            try assumption; discriminate.
        - apply process_part_plain in Hp as (? & Habs & _); try assumption; discriminate. }
    apply bind_inv in Hrun as [(filtered & st2 & Hf & Hrun) | (e & Hf & _)].
    2:{ apply IH in Hf as (? & Habs & _); [discriminate|assumption]. }
    apply IH in Hf as (out & Hout & Heq); [|assumption]. injection Hout as ->.
    unfold ret in Hrun. injection Hrun as <- <-.
    eexists. split; [reflexivity|].
    cbn [List.filter]. unfold plain at 2.
    destruct (is_thought part) eqn:Et; cbn [negb].
    + apply process_part_thought in Hp as [Hnone | (part' & Hsome & Ht')]; try assumption.
      * injection Hnone as ->. exact Heq.
      * injection Hsome as ->. cbn [List.filter]. unfold plain at 1. now rewrite Ht'.
    + apply process_part_plain in Hp as (part' & Hsome & He & Ht' & _); try assumption.
      injection Hsome as ->. cbn [List.filter]. unfold plain at 1. rewrite Ht'.
      cbn [negb List.map]. now rewrite He, Heq.
Qed.

Lemma not_longer_than_50 v :
  truthy v = false \/ shorter_than_50 v = true -> longer_than_50 v = false.
Proof.
  intros [Hf | Hs].
  - destruct (longer_than_50 v) eqn:E; [|reflexivity].
    apply longer_than_50_truthy in E. congruence.
  - destruct v as [| | | |s| |]; try discriminate. cbn [longer_than_50 shorter_than_50] in *.
    apply Nat.ltb_lt in Hs. apply Nat.ltb_ge. lia.
Qed.

(** The loop, one part at a time and over two stretches of parts. *)
Lemma filter_parts_cons ctx part rest st kept st1 out st2 :
  process_part ctx part st = (Normal kept, st1) ->
  filter_parts ctx rest st1 = (Normal out, st2) ->
  filter_parts ctx (part :: rest) st
  = (Normal (match kept with Some p => p :: out | None => out end), st2).
Proof.
  intros Hp Hr. cbn [filter_parts]. eff. rewrite Hp, Hr. reflexivity.
Qed.

Lemma filter_parts_app ctx l1 l2 st out1 st1 out2 st2 :
  filter_parts ctx l1 st = (Normal out1, st1) ->
  filter_parts ctx l2 st1 = (Normal out2, st2) ->
  filter_parts ctx (l1 ++ l2) st = (Normal (out1 ++ out2)%list, st2).
Proof.
  revert st out1. induction l1 as [|part l1 IH]; intros st out1 H1 H2.
  - cbn [filter_parts] in H1. unfold ret in H1. injection H1 as <- <-. exact H2.
  - cbn [filter_parts] in H1.
    apply bind_inv in H1 as [(kept & sta & Hp & H1) | (e & _ & Habs)]; [|discriminate].
    apply bind_inv in H1 as [(o & stb & Hr & H1) | (e & _ & Habs)]; [|discriminate].
    unfold ret in H1. injection H1 as <- <-.
    change ((part :: l1) ++ l2)%list with (part :: (l1 ++ l2))%list.
    rewrite (filter_parts_cons ctx part (l1 ++ l2) st kept sta (o ++ out2)%list st2 Hp
               (IH sta o Hr H2)).
    now destruct kept.
Qed.

(** A thinking part the block keeps carries a signature of more than 50
    characters. *)
Lemma thought_block_signed ctx part st part' st' :
  is_nullish part = false ->
  thought_block ctx part st = (Normal (Some part'), st') ->
  longer_than_50 (prop part' "thoughtSignature") = true.
Proof.
  intros Hn. unfold thought_block.
  rewrite !(getProp_prop part) by assumption. eff.
  match goal with
  | |- context [longer_than_50 (match ?x with Some _ => _ | None => _ end)] =>
      set (restored := x); assert (Er : restored = x) by reflexivity;
      clearbody restored; destruct restored as [cached|]
  end; symmetry in Er.
  - assert (Hobj : exists fs, part = JObj fs).
    { destruct (negb _ || _); [|discriminate].
      destruct (prop part "text") eqn:Et; try discriminate.
      now apply (prop_JStr_obj _ _ _ Et). }
    destruct Hobj as (fs & ->). cbn [setProp].
    destruct (longer_than_50 (JStr cached)) eqn:Hl.
    + destruct (prop (JObj fs) "text"); try destruct (truthy_string (sessionId ctx));
        intros E; injection E as <- <-; unfold prop; cbn [getProp];
        now rewrite lookup_set_field_eq.
    + intros E; discriminate E.
  - destruct (longer_than_50 (prop part "thoughtSignature")) eqn:Hl.
    + intros E. assert (Hpart : part' = part).
      { destruct (prop part "text"); destruct (prop part "thoughtSignature");
          try destruct (truthy_string (sessionId ctx));
          injection E as <- _; reflexivity. }
      rewrite Hpart. exact Hl.
    + intros E; discriminate E.
Qed.

Lemma process_part_thought_signed ctx part st part' st' :
  is_nullish part = false -> is_thought part = true ->
  process_part ctx part st = (Normal (Some part'), st') ->
  is_thought part' = true
  /\ longer_than_50 (prop part' "thoughtSignature") = true.
Proof.
  intros Hn Ht Hrun.
  destruct (process_part_thought ctx part st _ _ Hn Ht Hrun) as [Habs|(p & Hp & Hth)];
    [discriminate|].
  injection Hp as <-. split; [exact Hth|].
  rewrite process_part_unfold in Hrun by assumption.
  rewrite is_thought_prop in Ht by assumption.
  destruct (prop part "thought") as [| |[|]| | | |] eqn:Eth; try discriminate.
  apply bind_inv in Hrun as [(kept & st1 & Htb & Hrun) | (e & Htb & Habs)]; [|discriminate].
  destruct kept as [part1|]; [|unfold ret in Hrun; discriminate].
  pose proof (thought_block_signed ctx part st part1 st1 Hn Htb) as Hsigned.
  apply thought_block_spec in Htb as [Habs | (p1 & Hsome & Hn1 & _)];
    [discriminate| |assumption].
  injection Hsome as <-.
  apply id_blocks_spec in Hrun as (part3 & E3 & _ & _ & Hp3 & _); [|assumption].
  injection E3 as <-. rewrite Hp3 by discriminate. exact Hsigned.
Qed.

(** Every thinking part the loop lets through carries a signature of
    more than 50 characters. *)
Lemma filter_parts_signed ctx parts : forall st out st',
  Forall not_nullish parts ->
  filter_parts ctx parts st = (Normal out, st') ->
  Forall (fun p => is_thought p = true ->
                   longer_than_50 (prop p "thoughtSignature") = true) out.
Proof.
  induction parts as [|part rest IH]; intros st out st' Hall Hrun.
  - cbn [filter_parts] in Hrun. unfold ret in Hrun. injection Hrun as <- <-. constructor.
  - inversion Hall as [|? ? Hn Hrest]; subst. cbn [filter_parts] in Hrun.
    apply bind_inv in Hrun as [(kept & st1 & Hp & Hrun) | (e & _ & Habs)]; [|discriminate].
    apply bind_inv in Hrun as [(filtered & st2 & Hf & Hrun) | (e & _ & Habs)]; [|discriminate].
    unfold ret in Hrun. injection Hrun as <- <-.
    specialize (IH _ _ _ Hrest Hf).
    destruct kept as [part'|]; [|exact IH].
    constructor; [|exact IH].
    destruct (is_thought part) eqn:Et.
    + intros _. now apply (process_part_thought_signed ctx part st part' st1).
    + apply process_part_plain in Hp as (p & Hsome & _ & Ht' & _); try assumption.
      injection Hsome as <-. intros Habs. congruence.
Qed.

(** C4 (as amended). In the pass of the Claude transformer over the
    parts: a thinking part whose signature is a string of more than 50
    characters is kept, unchanged up to the ids the pass assigns, and
    when its text is a string and the session id is not empty its
    signature is retrievable from the cache of the context's family
    under that session id and text once the part is processed; a
    thinking part whose signature is missing or shorter than 50
    characters and whose text has no cached signature is removed; the
    parts that are not thinking parts come out in their original order,
    unchanged up to ids.  In the list the loop builds: a thinking part
    that is removed leaves nothing between what the parts before it and
    the parts after it leave, one that is kept stands between them, and
    every thinking part that comes out carries a signature of more than
    50 characters. *)
Theorem thinking_parts_filtered :
  forall ctx,
    (forall part st sig,
        is_nullish part = false -> prop part "thought" = JBool true ->
        prop part "thoughtSignature" = JStr sig -> (50 < String.length sig)%nat ->
        exists part' st',
          process_part ctx part st = (Normal (Some part'), st')
          /\ erase_ids part' = erase_ids part
          /\ prop part' "thoughtSignature" = JStr sig
          /\ prop part' "text" = prop part "text"
          /\ (forall t, prop part "text" = JStr t -> sessionId ctx <> "" ->
                getCachedSignature (family ctx) (sessionId ctx) t (signatureCache st')
                = Some sig))
    /\ (forall part st,
        is_nullish part = false -> prop part "thought" = JBool true ->
        (truthy (prop part "thoughtSignature") = false
         \/ shorter_than_50 (prop part "thoughtSignature") = true) ->
        (forall t, prop part "text" = JStr t ->
           getCachedSignature (family ctx) (sessionId ctx) t (signatureCache st) = None) ->
        process_part ctx part st = (Normal None, removed_one st))
    /\ (forall parts st,
        Forall not_nullish parts ->
        exists out st',
          filter_parts ctx parts st = (Normal out, st')
          /\ List.map erase_ids (List.filter plain out)
             = List.map erase_ids (List.filter plain parts))
    /\ (forall before part after st out1 st1 out2 st2,
        filter_parts ctx before st = (Normal out1, st1) ->
        is_nullish part = false -> prop part "thought" = JBool true ->
        (truthy (prop part "thoughtSignature") = false
         \/ shorter_than_50 (prop part "thoughtSignature") = true) ->
        (forall t, prop part "text" = JStr t ->
           getCachedSignature (family ctx) (sessionId ctx) t (signatureCache st1) = None) ->
        filter_parts ctx after (removed_one st1) = (Normal out2, st2) ->
        filter_parts ctx (before ++ part :: after) st = (Normal (out1 ++ out2)%list, st2))
    /\ (forall before part after st out1 st1 sig,
        filter_parts ctx before st = (Normal out1, st1) ->
        is_nullish part = false -> prop part "thought" = JBool true ->
        prop part "thoughtSignature" = JStr sig -> (50 < String.length sig)%nat ->
        exists part' st1',
          process_part ctx part st1 = (Normal (Some part'), st1')
          /\ erase_ids part' = erase_ids part
          /\ prop part' "thoughtSignature" = JStr sig
          /\ forall out2 st2,
               filter_parts ctx after st1' = (Normal out2, st2) ->
               filter_parts ctx (before ++ part :: after) st
               = (Normal (out1 ++ part' :: out2)%list, st2))
    /\ (forall parts st out st',
        Forall not_nullish parts ->
        filter_parts ctx parts st = (Normal out, st') ->
        Forall (fun p => is_thought p = true ->
                         longer_than_50 (prop p "thoughtSignature") = true) out).
Proof.
  intros ctx.
  assert (Hkeep : forall part st sig,
        is_nullish part = false -> prop part "thought" = JBool true ->
        prop part "thoughtSignature" = JStr sig -> (50 < String.length sig)%nat ->
        exists part' st',
          process_part ctx part st = (Normal (Some part'), st')
          /\ erase_ids part' = erase_ids part
          /\ prop part' "thoughtSignature" = JStr sig
          /\ prop part' "text" = prop part "text"
          /\ (forall t, prop part "text" = JStr t -> sessionId ctx <> "" ->
                getCachedSignature (family ctx) (sessionId ctx) t (signatureCache st')
                = Some sig)).
  { intros part st sig Hn Hth Hsig Hlen.
    assert (Hl : longer_than_50 (prop part "thoughtSignature") = true).
    { rewrite Hsig. cbn [longer_than_50]. now apply Nat.ltb_lt. }
    destruct (process_part ctx part st) as [r st'] eqn:Hrun.
    rewrite process_part_unfold, Hth in Hrun by assumption.
    apply bind_inv in Hrun as [(kept & st1 & Htb & Hrun) | (e & Htb & _)];
      rewrite thought_block_valid in Htb by assumption; [|discriminate].
    injection Htb as <- <-.
    apply id_blocks_spec in Hrun as (part3 & -> & He & Hc & Hp & Hn3); [|assumption].
    exists part3, st'. split; [reflexivity|]. split; [assumption|].
    split; [rewrite Hp, Hsig by discriminate; reflexivity|].
    split; [apply Hp; discriminate|].
    intros t Ht Hsid. rewrite Hc, Ht, Hsig. unfold cached_after.
    assert (Hts : truthy_string (sessionId ctx) = true).
    { unfold truthy_string. destruct (String.eqb_spec (sessionId ctx) ""); [contradiction|reflexivity]. }
    rewrite Hts. cbn [signatureCache with_signatureCache].
    unfold getCachedSignature, cacheSignature. apply lookup_insert_eq. }
  assert (Hdrop : forall part st,
        is_nullish part = false -> prop part "thought" = JBool true ->
        (truthy (prop part "thoughtSignature") = false
         \/ shorter_than_50 (prop part "thoughtSignature") = true) ->
        (forall t, prop part "text" = JStr t ->
           getCachedSignature (family ctx) (sessionId ctx) t (signatureCache st) = None) ->
        process_part ctx part st = (Normal None, removed_one st)).
  { intros part st Hn Hth Hsig Hmiss.
    rewrite process_part_unfold, Hth by assumption.
    apply not_longer_than_50 in Hsig.
    unfold mbind, Eff_bind, bind.
    rewrite thought_block_dropped by assumption. reflexivity. }
  split; [exact Hkeep|]. split; [exact Hdrop|]. split; [|split; [|split]].
  - intros parts st Hall.
    destruct (filter_parts ctx parts st) as [r st'] eqn:Hrun.
    destruct (filter_parts_plain ctx parts st r st' Hall Hrun) as (out & -> & Heq).
    exists out, st'. auto.
  - intros before part after st out1 st1 out2 st2 Hbefore Hn Hth Hsig Hmiss Hafter.
    apply (filter_parts_app ctx before (part :: after) st out1 st1 out2 st2 Hbefore).
    exact (filter_parts_cons ctx part after st1 None (removed_one st1) out2 st2
             (Hdrop part st1 Hn Hth Hsig Hmiss) Hafter).
  - intros before part after st out1 st1 sig Hbefore Hn Hth Hsig Hlen.
    destruct (Hkeep part st1 sig Hn Hth Hsig Hlen) as (part' & st1' & Hrun & He & Hs & _).
    exists part', st1'. split; [exact Hrun|]. split; [exact He|]. split; [exact Hs|].
    intros out2 st2 Hafter.
    apply (filter_parts_app ctx before (part :: after) st out1 st1 _ st2 Hbefore).
    exact (filter_parts_cons ctx part after st1 (Some part') st1' out2 st2 Hrun Hafter).
  - intros parts st out st'. apply filter_parts_signed.
Qed.
End ClaudeFacts.

Lemma thinking_parts_filtered_witness :
  (exists part' st',
     @process_part sample_crypto claude_context (thinking_part signature_51) fresh_pass
       = (Normal (Some part'), st')
     /\ prop part' "thoughtSignature" = JStr signature_51
     /\ @getCachedSignature sample_crypto claude "-42" "I am thinking..." (signatureCache st')
        = Some signature_51)
  /\ @process_part sample_crypto claude_context (thinking_part "short-invalid-sig") fresh_pass
     = (Normal None, removed_one fresh_pass)
  /\ (exists out st',
        @filter_parts sample_crypto claude_context
          [text_part "before"; thinking_part "short-invalid-sig"; text_part "after"] fresh_pass
        = (Normal out, st')
        /\ List.map erase_ids (List.filter plain out)
           = [text_part "before"; text_part "after"])
  /\ @filter_parts sample_crypto claude_context
       ([text_part "before"] ++ thinking_part "short-invalid-sig" :: [text_part "after"])
       fresh_pass
     = (Normal ([text_part "before"] ++ [text_part "after"])%list, removed_one fresh_pass)
  /\ (exists part' st',
        @filter_parts sample_crypto claude_context
          ([text_part "before"] ++ thinking_part signature_51 :: [text_part "after"])
          fresh_pass
        = (Normal ([text_part "before"] ++ part' :: [text_part "after"])%list, st')
        /\ prop part' "thoughtSignature" = JStr signature_51).
Proof.
  pose proof (@thinking_parts_filtered sample_crypto claude_context)
    as (Hkeep & Hdrop & Horder & Hgone & Hstays & _).
  split; [|split; [|split; [|split]]].
  - destruct (Hkeep (thinking_part signature_51) fresh_pass signature_51)
      as (part' & st' & Hrun & _ & Hsig & _ & Hcache); try reflexivity.
    { vm_compute. lia. }
    exists part', st'. split; [exact Hrun|]. split; [exact Hsig|].
    apply (Hcache "I am thinking..."); [reflexivity|discriminate].
  - apply Hdrop; [reflexivity|reflexivity|right; reflexivity|intros t Ht; reflexivity].
  - destruct (Horder [text_part "before"; thinking_part "short-invalid-sig"; text_part "after"]
                fresh_pass) as (out & st' & Hrun & Heq).
    { repeat constructor. }
    exists out, st'. split; [exact Hrun|exact Heq].
  - apply (Hgone [text_part "before"] (thinking_part "short-invalid-sig")
             [text_part "after"] fresh_pass [text_part "before"] fresh_pass
             [text_part "after"] (removed_one fresh_pass));
      try reflexivity; try (intros t Ht; reflexivity).
    right; reflexivity.
  - destruct (Hstays [text_part "before"] (thinking_part signature_51)
                [text_part "after"] fresh_pass [text_part "before"] fresh_pass signature_51)
      as (part' & st1' & Hrun & _ & Hsig & Hlist); try reflexivity.
    { vm_compute. lia. }
    exists part', st1'. split; [|exact Hsig].
    apply Hlist. vm_compute in Hrun. injection Hrun as _ <-. reflexivity.
Defined.

(** C4, counterexample: a thinking part whose signature has exactly 50
    characters is removed. *)
Lemma thinking_part_with_50_characters_dropped :
  String.length signature_50 = 50%nat
  /\ is_thought (thinking_part signature_50) = true
  /\ @process_part sample_crypto claude_context (thinking_part signature_50) fresh_pass
     = (Normal None, removed_one fresh_pass).
Proof. repeat split. Qed.


End ClaudeFactsOuter.

(* ===================================================================== *)
(** * Properties of the tool-name sanitizer and the tool-schema cache *)
(* ===================================================================== *)

Section ToolFactsOuter.
Import Codec JS Tools Examples.

Lemma cacheDeclaration_pure d (cache : ToolSchemaCache) :
  is_nullish d = false ->
  cacheDeclaration d cache = (Normal tt, cache_declaration cache d).
Proof.
  intros Hn. unfold cacheDeclaration, cache_declaration, declared_properties.
  rewrite !(getProp_prop d) by assumption. eff.
  destruct (prop d "name") as [| | | |name| |]; try reflexivity.
  set (schema := nullish_or (prop d "parametersJsonSchema") (prop d "parameters")).
  destruct (truthy schema) eqn:Ets; cbn [negb orb]; [|reflexivity].
  destruct (typeof_object schema); cbn [negb]; [|reflexivity].
  rewrite (getProp_prop schema) by (now apply truthy_not_nullish). cbn beta iota.
  destruct (negb (truthy (prop schema "properties"))
            || negb (typeof_object (prop schema "properties"))); reflexivity.
Qed.

Lemma for_of_cacheDeclaration decls : forall cache : ToolSchemaCache,
  Forall (fun d => is_nullish d = false) decls ->
  for_of cacheDeclaration decls cache = (Normal tt, fold_left cache_declaration decls cache).
Proof.
  induction decls as [|d decls IH]; intros cache Hall; [reflexivity|].
  inversion Hall as [|? ? Hd Hrest]; subst. cbn [for_of fold_left].
  unfold bind. rewrite cacheDeclaration_pure by assumption. now apply IH.
Qed.

Lemma cacheTool_pure tool (cache : ToolSchemaCache) :
  is_nullish tool = false ->
  Forall (fun d => is_nullish d = false) (declarations_of tool) ->
  cacheTool tool cache = (Normal tt, fold_left cache_declaration (declarations_of tool) cache).
Proof.
  intros Hn Hall. unfold cacheTool, declarations_of in *.
  rewrite (getProp_prop tool) by assumption. eff.
  destruct (prop tool "functionDeclarations"); try reflexivity.
  now apply for_of_cacheDeclaration.
Qed.

Lemma cacheToolSchemas_pure tools : forall cache : ToolSchemaCache,
  well_shaped_tools tools ->
  cacheToolSchemas (JArr tools) cache
  = (Normal tt, fold_left cache_declaration (all_declarations tools) cache).
Proof.
  unfold cacheToolSchemas, all_declarations.
  induction tools as [|tool tools IH]; intros cache Hall; [reflexivity|].
  inversion Hall as [|? ? (Hn & Hd) Hrest]; subst. cbn [for_of flat_map].
  unfold bind. rewrite cacheTool_pure by assumption.
  rewrite fold_left_app. now apply IH.
Qed.

(** ** Tool names *)

Lemma sanitize_digit n : starts_with_digit n = true -> sanitizeToolName n = "t_" ++ n.
Proof. intros Hd. unfold sanitizeToolName. now rewrite Hd. Qed.

Lemma sanitize_other n : starts_with_digit n = false -> sanitizeToolName n = n.
Proof. intros Hd. unfold sanitizeToolName. now rewrite Hd. Qed.

Lemma sanitizeForGemini_eq n : sanitizeToolNameForGemini n = sanitizeToolName n.
Proof. reflexivity. Qed.

Lemma prefixed_not_digit m : starts_with_digit ("t_" ++ m) = false.
Proof. reflexivity. Qed.

Lemma prefixed_inj m n : "t_" ++ m = "t_" ++ n -> m = n.
Proof. intros E. now injection E. Qed.

Lemma digit_not_prefixed m n : starts_with_digit n = true -> "t_" ++ m <> n.
Proof. intros Hd <-. discriminate Hd. Qed.

(** The sanitized name of [m] is the sanitized name of [n] only for [m]
    being [n] or its sanitized name. *)
Lemma sanitize_hits_prefixed m n :
  starts_with_digit n = true -> m <> n -> m <> "t_" ++ n -> sanitizeToolName m <> "t_" ++ n.
Proof.
  intros Hd Hn Ht. unfold sanitizeToolName.
  destruct (starts_with_digit m); [|assumption].
  intros E. apply prefixed_inj in E. contradiction.
Qed.

Lemma sanitize_misses_original m n :
  starts_with_digit n = true -> m <> n -> sanitizeToolName m <> n.
Proof.
  intros Hd Hn. unfold sanitizeToolName.
  destruct (starts_with_digit m); [|assumption]. now apply digit_not_prefixed.
Qed.

Lemma sanitize_idempotent m : sanitizeToolName (sanitizeToolName m) = sanitizeToolName m.
Proof.
  unfold sanitizeToolName. destruct (starts_with_digit m) eqn:E.
  - now rewrite prefixed_not_digit.
  - now rewrite E.
Qed.

(** ** The cache under the original and the sanitized name *)

Lemma cache_declaration_both c d n ps :
  prop d "name" = JStr n -> starts_with_digit n = true ->
  declared_properties d = Some ps ->
  cache_declaration c d !! ("t_" ++ n) = Some (build_paramMap ps)
  /\ cache_declaration c d !! n = Some (build_paramMap ps).
Proof.
  intros Hname Hd Hps. unfold cache_declaration. rewrite Hname, Hps.
  rewrite (sanitize_digit n Hd).
  assert (Hne : "t_" ++ n <> n) by (now apply digit_not_prefixed).
  destruct (String.eqb_spec ("t_" ++ n) n); [contradiction|]. cbn [negb].
  split.
  - rewrite lookup_insert_ne by congruence. apply lookup_insert_eq.
  - apply lookup_insert_eq.
Qed.

Lemma cache_declaration_same_entry c d n :
  starts_with_digit n = true ->
  prop d "name" <> JStr ("t_" ++ n) ->
  same_entry c n -> same_entry (cache_declaration c d) n.
Proof.
  intros Hd Hname (pm & Ht & Ho).
  destruct (prop d "name") as [| | | |m| |] eqn:Em;
    try (unfold cache_declaration; rewrite Em; exists pm; now split).
  destruct (declared_properties d) as [ps|] eqn:Eps;
    [|unfold cache_declaration; rewrite Em, Eps; exists pm; now split].
  destruct (String.eqb_spec m n) as [->|Hmn].
  - exists (build_paramMap ps). now apply cache_declaration_both.
  - assert (Hmt : m <> "t_" ++ n) by congruence.
    exists pm. unfold cache_declaration. rewrite Em, Eps.
    pose proof (sanitize_hits_prefixed m n Hd Hmn Hmt) as H1.
    pose proof (sanitize_misses_original m n Hd Hmn) as H2.
    destruct (negb (sanitizeToolName m =? m)%string);
      rewrite ?lookup_insert_ne by congruence; now split.
Qed.

Lemma fold_cache_same_entry post : forall c n,
  starts_with_digit n = true ->
  Forall (fun d => prop d "name" <> JStr ("t_" ++ n)) post ->
  same_entry c n -> same_entry (fold_left cache_declaration post c) n.
Proof.
  induction post as [|d post IH]; intros c n Hd Hall Hs; [exact Hs|].
  inversion Hall as [|? ? Hname Hrest]; subst. cbn [fold_left].
  apply IH; [assumption|assumption|]. now apply cache_declaration_same_entry.
Qed.

Lemma getParamType_same_entry c n p :
  same_entry c n -> getParamType c ("t_" ++ n) p = getParamType c n p.
Proof. intros (pm & Ht & Ho). unfold getParamType. now rewrite Ht, Ho. Qed.

Section NormalizeFacts.
Context `{JSON_API}.

Lemma normalizeToolCallArgs_ext c args t1 t2 :
  (forall p, getParamType c t1 p = getParamType c t2 p) ->
  normalizeToolCallArgs c args t1 = normalizeToolCallArgs c args t2.
Proof.
  intros Hp. unfold normalizeToolCallArgs.
  destruct (negb (truthy args) || negb (typeof_object args)); [reflexivity|].
  assert (Hna : forall k v, normalizeArg c t1 k v = normalizeArg c t2 k v)
    by (intros k v; unfold normalizeArg; now rewrite Hp).
  f_equal. generalize (@nil (string * JSValue)).
  induction (object_entries args) as [|kv l IH]; intros acc; [reflexivity|].
  cbn [fold_left]. rewrite Hna. apply IH.
Qed.

End NormalizeFacts.

(** ** The renaming pass *)

Lemma sanitizeDeclaration_pure func :
  is_nullish func = false ->
  sanitizeDeclaration func = Normal (sanitized_declaration func).
Proof.
  intros Hn. unfold sanitizeDeclaration, sanitized_declaration.
  rewrite (getProp_prop func) by assumption. cbn [mbind Completion_bind cbind].
  destruct (prop func "name") as [| | | |n| |] eqn:En; try reflexivity.
  destruct (prop_JStr_obj _ _ _ En) as (fs & ->). reflexivity.
Qed.

Lemma cmap_sanitizeDeclaration decls :
  Forall (fun d => is_nullish d = false) decls ->
  cmap sanitizeDeclaration decls = Normal (List.map sanitized_declaration decls).
Proof.
  apply (cmap_total sanitizeDeclaration sanitized_declaration
           (fun d => is_nullish d = false)).
  intros x Hx. now apply sanitizeDeclaration_pure.
Qed.

Lemma prop_JArr_obj v k l : prop v k = JArr l -> exists fs, v = JObj fs.
Proof. destruct v; try discriminate; eauto. Qed.

Lemma sanitizeTool_pure tool :
  is_nullish tool = false ->
  Forall (fun d => is_nullish d = false) (declarations_of tool) ->
  sanitizeTool tool = Normal (sanitized_tool tool).
Proof.
  intros Hn Hall. unfold sanitizeTool, sanitized_tool, declarations_of in *.
  rewrite (getProp_prop tool) by assumption. cbn [mbind Completion_bind cbind].
  destruct (prop tool "functionDeclarations") as [| | | | |decls|] eqn:Ed;
    try reflexivity.
  destruct (prop_JArr_obj _ _ _ Ed) as (fs & ->).
  rewrite cmap_sanitizeDeclaration by assumption. reflexivity.
Qed.

Lemma cmap_sanitizeTool tools :
  well_shaped_tools tools ->
  cmap sanitizeTool tools = Normal (List.map sanitized_tool tools).
Proof.
  apply (cmap_total sanitizeTool sanitized_tool
           (fun tool => is_nullish tool = false
                        /\ Forall (fun d => is_nullish d = false) (declarations_of tool))).
  intros x (Hn & Hd). now apply sanitizeTool_pure.
Qed.

Lemma declarations_of_sanitized tool :
  declarations_of (sanitized_tool tool)
  = List.map sanitized_declaration (declarations_of tool).
Proof.
  unfold sanitized_tool, declarations_of.
  destruct (prop tool "functionDeclarations") as [| | | | |decls|] eqn:Ed;
    try (now rewrite Ed).
  destruct (prop_JArr_obj _ _ _ Ed) as (fs & ->).
  unfold prop. cbn [getProp]. now rewrite lookup_set_field_eq.
Qed.

Lemma all_declarations_sanitized tools :
  all_declarations (List.map sanitized_tool tools)
  = List.map sanitized_declaration (all_declarations tools).
Proof.
  unfold all_declarations. induction tools as [|tool tools IH]; [reflexivity|].
  cbn [List.map flat_map]. now rewrite declarations_of_sanitized, IH, List.map_app.
Qed.

Lemma sanitized_declaration_not_nullish d :
  is_nullish d = false -> is_nullish (sanitized_declaration d) = false.
Proof.
  unfold sanitized_declaration. intros Hn.
  destruct (prop d "name"); try assumption. destruct d; try discriminate; reflexivity.
Qed.

Lemma sanitized_tool_not_nullish tool :
  is_nullish tool = false -> is_nullish (sanitized_tool tool) = false.
Proof.
  unfold sanitized_tool. intros Hn.
  destruct (prop tool "functionDeclarations"); try assumption.
  destruct tool; try discriminate; reflexivity.
Qed.

Lemma well_shaped_sanitized tools :
  well_shaped_tools tools -> well_shaped_tools (List.map sanitized_tool tools).
Proof.
  unfold well_shaped_tools. induction 1 as [|tool tools (Hn & Hd) _ IH]; [constructor|].
  cbn [List.map]. constructor; [|exact IH].
  split; [now apply sanitized_tool_not_nullish|].
  rewrite declarations_of_sanitized.
  clear -Hd. induction Hd; cbn [List.map]; constructor;
    auto using sanitized_declaration_not_nullish.
Qed.

Lemma sanitized_declaration_name d :
  prop (sanitized_declaration d) "name"
  = match prop d "name" with
    | JStr n => JStr (sanitizeToolName n)
    | v => v
    end.
Proof.
  unfold sanitized_declaration.
  destruct (prop d "name") as [| | | |n| |] eqn:En; try (now rewrite En).
  destruct (prop_JStr_obj _ _ _ En) as (fs & ->).
  unfold prop. cbn [getProp]. now rewrite lookup_set_field_eq.
Qed.

Lemma sanitized_declaration_other d k :
  k <> "name" -> prop (sanitized_declaration d) k = prop d k.
Proof.
  intros Hk. unfold sanitized_declaration.
  destruct (prop d "name") as [| | | |n| |] eqn:En; try reflexivity.
  destruct (prop_JStr_obj _ _ _ En) as (fs & ->).
  unfold prop. cbn [getProp]. apply lookup_set_field_ne. congruence.
Qed.

Lemma declared_properties_sanitized d :
  declared_properties (sanitized_declaration d) = declared_properties d.
Proof.
  unfold declared_properties. now rewrite !sanitized_declaration_other by discriminate.
Qed.

(** After the renaming pass a declaration is cached under its sanitized
    name only. *)
Lemma cache_sanitized_declaration c d :
  cache_declaration c (sanitized_declaration d)
  = match prop d "name", declared_properties d with
    | JStr m, Some ps => <[sanitizeToolName m := build_paramMap ps]> c
    | _, _ => c
    end.
Proof.
  unfold cache_declaration.
  rewrite sanitized_declaration_name, declared_properties_sanitized.
  destruct (prop d "name") as [| | | |m| |]; try reflexivity.
  destruct (declared_properties d); [|reflexivity].
  now rewrite sanitize_idempotent, String.eqb_refl.
Qed.

Lemma fold_cache_sanitized_keeps post : forall (c : ToolSchemaCache) n pm,
  starts_with_digit n = true ->
  Forall (fun d => prop d "name" <> JStr n /\ prop d "name" <> JStr ("t_" ++ n)) post ->
  c !! ("t_" ++ n) = Some pm ->
  fold_left cache_declaration (List.map sanitized_declaration post) c !! ("t_" ++ n) = Some pm.
Proof.
  induction post as [|d post IH]; intros c n pm Hd Hall Hc; [exact Hc|].
  inversion Hall as [|? ? (Hn & Ht) Hrest]; subst. cbn [List.map fold_left].
  apply IH; [assumption|assumption|].
  rewrite cache_sanitized_declaration.
  destruct (prop d "name") as [| | | |m| |]; try assumption.
  destruct (declared_properties d); [|assumption].
  rewrite lookup_insert_ne; [assumption|].
  apply sanitize_hits_prefixed; congruence.
Qed.

Section ToolFacts.
Context `{JSON_API}.

(** C8 (as amended). In the outgoing payload of a Gemini-family request
    every function declaration whose name begins with a digit bears the
    name prefixed by ["t_"].  When [cacheToolSchemas] runs on tools that
    bear the original names, a declaration with a parameter schema whose
    name begins with a digit, and which no later declaration named
    ["t_" + name] follows, leaves the cache with one parameter map under
    both names: [getParamType] answers alike under both, and so does
    [normalizeToolCallArgs].  In the Gemini transform, which caches after
    renaming, the parameter map of such a declaration, when no later
    declaration bears its original or its sanitized name, is the one
    cached under the sanitized name. *)
Theorem tool_names_sanitized_and_cached :
  (forall payload tools,
      prop payload "tools" = JArr tools -> well_shaped_tools tools ->
      exists payload' tools',
        sanitizeToolNames payload = Normal payload'
        /\ prop payload' "tools" = JArr tools'
        /\ Forall2 (fun d d' => forall n, prop d "name" = JStr n ->
                                          starts_with_digit n = true ->
                                          prop d' "name" = JStr ("t_" ++ n))
             (all_declarations tools) (all_declarations tools'))
  /\ (forall (cache : ToolSchemaCache) tools pre d post n ps,
      well_shaped_tools tools ->
      all_declarations tools = (pre ++ d :: post)%list ->
      prop d "name" = JStr n -> starts_with_digit n = true ->
      declared_properties d = Some ps ->
      Forall (fun d' => prop d' "name" <> JStr ("t_" ++ n)) post ->
      exists cache',
        cacheToolSchemas (JArr tools) cache = (Normal tt, cache')
        /\ same_entry cache' n
        /\ (forall p, getParamType cache' ("t_" ++ n) p = getParamType cache' n p)
        /\ (forall args, normalizeToolCallArgs cache' args ("t_" ++ n)
                         = normalizeToolCallArgs cache' args n))
  /\ (forall (cache : ToolSchemaCache) payload tools pre d post n ps,
      prop payload "tools" = JArr tools -> well_shaped_tools tools ->
      all_declarations tools = (pre ++ d :: post)%list ->
      prop d "name" = JStr n -> starts_with_digit n = true ->
      declared_properties d = Some ps ->
      Forall (fun d' => prop d' "name" <> JStr n /\ prop d' "name" <> JStr ("t_" ++ n)) post ->
      exists payload' cache',
        geminiToolStep payload cache = (Normal payload', cache')
        /\ cache' !! ("t_" ++ n) = Some (build_paramMap ps)).
Proof.
  split; [|split].
  - intros payload tools Htools Hws.
    destruct (prop_JArr_obj _ _ _ Htools) as (fs & ->).
    unfold sanitizeToolNames. rewrite (getProp_prop (JObj fs)), Htools by reflexivity.
    cbn [mbind Completion_bind cbind]. rewrite cmap_sanitizeTool by assumption.
    cbn [cbind setProp]. eexists _, _. split; [reflexivity|].
    split; [unfold prop; cbn [getProp]; now rewrite lookup_set_field_eq|].
    rewrite all_declarations_sanitized.
    induction (all_declarations tools) as [|d l IH]; cbn [List.map]; constructor; [|exact IH].
    intros n Hn Hd. now rewrite sanitized_declaration_name, Hn, (sanitize_digit n Hd).
  - intros cache tools pre d post n ps Hws Hall Hname Hd Hps Hpost.
    exists (fold_left cache_declaration (all_declarations tools) cache).
    split; [now apply cacheToolSchemas_pure|].
    assert (Hs : same_entry (fold_left cache_declaration (all_declarations tools) cache) n).
    { rewrite Hall, fold_left_app. cbn [fold_left].
      apply fold_cache_same_entry; [assumption|assumption|].
      exists (build_paramMap ps). now apply cache_declaration_both. }
    split; [exact Hs|].
    assert (Hp : forall p,
               getParamType (fold_left cache_declaration (all_declarations tools) cache)
                 ("t_" ++ n) p
               = getParamType (fold_left cache_declaration (all_declarations tools) cache) n p)
      by (intros p; now apply getParamType_same_entry).
    split; [exact Hp|]. intros args. now apply normalizeToolCallArgs_ext.
  - intros cache payload tools pre d post n ps Htools Hws Hall Hname Hd Hps Hpost.
    destruct (prop_JArr_obj _ _ _ Htools) as (fs & ->).
    unfold geminiToolStep, sanitizeToolNames.
    rewrite (getProp_prop (JObj fs)), Htools by reflexivity.
    eff. rewrite cmap_sanitizeTool by assumption. cbn beta iota. cbn [setProp getProp].
    cbn beta iota. rewrite lookup_set_field_eq.
    rewrite cacheToolSchemas_pure by (now apply well_shaped_sanitized).
    eexists _, _. split; [reflexivity|].
    rewrite all_declarations_sanitized, Hall, List.map_app, fold_left_app.
    cbn [List.map fold_left].
    apply fold_cache_sanitized_keeps; [assumption|assumption|].
    rewrite cache_sanitized_declaration, Hname, Hps, (sanitize_digit n Hd).
    apply lookup_insert_eq.
Qed.

End ToolFacts.

Lemma tool_names_sanitized_and_cached_witness :
  (exists payload' tools',
      sanitizeToolNames (payload_of [declaration magic "string"]) = Normal payload'
      /\ prop payload' "tools" = JArr tools'
      /\ Forall2 (fun d d' => forall n, prop d "name" = JStr n ->
                                        starts_with_digit n = true ->
                                        prop d' "name" = JStr ("t_" ++ n))
           [declaration magic "string"] (all_declarations tools'))
  /\ (exists cache',
        cacheToolSchemas (JArr (tools_of [declaration magic "string"])) ∅
        = (Normal tt, cache')
        /\ getParamType cache' ("t_" ++ magic) "code" = getParamType cache' magic "code"
        /\ @normalizeToolCallArgs sample_json cache'
             (JObj [("code", JStr "v3 document")]) ("t_" ++ magic)
           = @normalizeToolCallArgs sample_json cache'
               (JObj [("code", JStr "v3 document")]) magic)
  /\ (exists payload' cache',
        geminiToolStep (payload_of [declaration magic "string"]) ∅ = (Normal payload', cache')
        /\ is_Some (cache' !! ("t_" ++ magic))).
Proof.
  pose proof (@tool_names_sanitized_and_cached sample_json) as (Hrename & Hcache & Hflow).
  assert (Hws : well_shaped_tools (tools_of [declaration magic "string"]))
    by (repeat constructor).
  split; [|split].
  - destruct (Hrename (payload_of [declaration magic "string"])
                (tools_of [declaration magic "string"]) eq_refl Hws)
      as (payload' & tools' & Hrun & Htools & Hall).
    exists payload', tools'. auto.
  - destruct (Hcache ∅ (tools_of [declaration magic "string"]) []
                (declaration magic "string") [] magic
                (JObj [("code", JObj [("type", JStr "string")])])
                Hws eq_refl eq_refl eq_refl eq_refl (List.Forall_nil _))
      as (cache' & Hrun & _ & Hp & Hargs).
    exists cache'. auto.
  - destruct (Hflow ∅ (payload_of [declaration magic "string"])
                (tools_of [declaration magic "string"]) []
                (declaration magic "string") [] magic
                (JObj [("code", JObj [("type", JStr "string")])])
                eq_refl Hws eq_refl eq_refl eq_refl eq_refl (List.Forall_nil _))
      as (payload' & cache' & Hrun & Hc).
    exists payload', cache'. split; [exact Hrun|]. rewrite Hc. eauto.
Defined.

(** C8, counterexample: a request that declares both ["21st-dev-magic"]
    and ["t_21st-dev-magic"]. *)
Lemma tool_name_collision :
  let decls := [declaration magic "string"; declaration ("t_" ++ magic) "object"] in
  let direct := snd (cacheToolSchemas (JArr (tools_of decls)) ∅) in
  let in_flow := snd (geminiToolStep (payload_of decls) ∅) in
  well_shaped_tools (tools_of decls)
  /\ getParamType direct ("t_" ++ magic) "code" = JStr "object"
  /\ getParamType direct magic "code" = JStr "string"
  /\ getParamType in_flow ("t_" ++ magic) "code" = JStr "object"
  /\ getParamType in_flow magic "code" = JUndefined
  /\ @normalizeToolCallArgs sample_json direct (JObj [("code", JStr "v3 document")])
       ("t_" ++ magic)
     <> @normalizeToolCallArgs sample_json direct (JObj [("code", JStr "v3 document")]) magic.
Proof.
  cbv zeta. split; [repeat constructor|].
  repeat split; try (vm_compute; reflexivity).
  vm_compute. discriminate.
Qed.

End ToolFactsOuter.

(* ===================================================================== *)
(** * Properties of the rest of the account manager *)
(* ===================================================================== *)

Section ManagerFacts.
Import Codec Accounts Manager.

Lemma minimum_le x xs : (minimum x xs <= x)%Z /\ Forall (fun y => (minimum x xs <= y)%Z) xs.
Proof.
  unfold minimum. revert x. induction xs as [|y ys IH]; intros x; cbn [fold_left].
  - split; [lia|constructor].
  - destruct (IH (Z.min x y)) as (H1 & H2). split; [lia|].
    constructor; [lia|exact H2].
Qed.

Lemma minimum_In x xs : In (minimum x xs) (x :: xs).
Proof.
  unfold minimum. revert x. induction xs as [|y ys IH]; intros x; cbn [fold_left].
  - now left.
  - specialize (IH (Z.min x y)).
    destruct (Z.min_spec x y) as [(_ & E) | (_ & E)]; rewrite E in *.
    + destruct IH as [H1 | H1]; [now left|right; now right].
    + destruct IH as [H1 | H1]; [right; now left|right; now right].
Qed.

Lemma array_get_rem {A} (pool : list A) cur :
  pool <> [] -> (0 <= cur)%Z ->
  exists p, array_get pool (Z.rem cur (Z.of_nat (length pool))) = Some p.
Proof.
  intros Hne Hcur. unfold array_get.
  assert (Hlen : (0 < Z.of_nat (length pool))%Z) by (destruct pool; [congruence|cbn; lia]).
  pose proof (Z.rem_bound_pos cur _ Hcur Hlen) as (Hlo & Hhi).
  replace (Z.rem cur (Z.of_nat (length pool)) <? 0)%Z with false
    by (symmetry; apply Z.ltb_ge; lia).
  apply lookup_lt_is_Some. lia.
Qed.

(** One clearing at a reading between [t0] and [T]. *)
Lemma cleared_between_clear t0 T c a :
  (t0 <= c <= T)%Z -> cleared_between t0 T a (clearExpiredRateLimits c a).
Proof.
  intros Hc. unfold cleared_between. do 8 (split; [reflexivity|]).
  intros g r. rewrite reset_time_clearExpired.
  destruct (reset_time (rateLimitResetTimes a) g) as [r0|]; [|split; discriminate].
  destruct (c >=? r0)%Z eqn:E.
  - split; [discriminate|]. intros [= ->] Hr. rewrite Z.geb_leb in E.
    apply Z.leb_le in E. lia.
  - split.
    + intros [= ->]. split; [reflexivity|]. rewrite Z.geb_leb in E.
      apply Z.leb_gt in E. lia.
    + intros [= ->] _. reflexivity.
Qed.

Lemma Forall2_In_l {A B} (P : A -> B -> Prop) l k x :
  Forall2 P l k -> In x l -> exists y, In y k /\ P x y.
Proof.
  induction 1 as [|a b l k Hab _ IH]; intros Hin; [contradiction|].
  destruct Hin as [-> | Hin]; [exists b; split; [now left|exact Hab]|].
  destruct (IH Hin) as (y & Hy & Hxy). exists y. split; [now right|exact Hxy].
Qed.

Lemma Forall2_In_r {A B} (P : A -> B -> Prop) l k y :
  Forall2 P l k -> In y k -> exists x, In x l /\ P x y.
Proof.
  induction 1 as [|a b l k Hab _ IH]; intros Hin; [contradiction|].
  destruct Hin as [-> | Hin]; [exists a; split; [now left|exact Hab]|].
  destruct (IH Hin) as (x & Hx & Hxy). exists x. split; [now right|exact Hxy].
Qed.

Section WithClock.
Variable clock : nat -> Z.
Variables t0 T : Z.
Hypothesis readings : forall n, (t0 <= clock n <= T)%Z.
Variable f : ModelFamily.

Lemma bounds_ordered : (t0 <= T)%Z.
Proof. pose proof (readings 0). lia. Qed.

Lemma clear_and_filter_spec l : forall n,
  Forall2 (checked_as t0 T f) l (fst (Clocked.clear_and_filter clock f l n)).
Proof.
  induction l as [|a l IH]; intros n; cbn [Clocked.clear_and_filter]; [constructor|].
  unfold Clocked.clearExpiredRateLimits, Clocked.isRateLimitedForFamily.
  set (a1 := clearExpiredRateLimits (clock n) a).
  pose proof (cleared_between_clear t0 T (clock n) a (readings n)) as Hcl. fold a1 in Hcl.
  pose proof (reset_time_clearExpired (clock n) a f) as Hreset. fold a1 in Hreset.
  pose proof (readings n) as Hn. pose proof (readings (S n)) as Hn1.
  destruct (reset_time (rateLimitResetTimes a1) f) as [r|] eqn:E1.
  - specialize (IH (S (S n))).
    destruct (Clocked.clear_and_filter clock f l (S (S n))) as [rest1 n3].
    cbn [fst]. constructor; [|exact IH].
    assert (Ea : reset_time (rateLimitResetTimes a) f = Some r
                 /\ (clock n < r)%Z).
    { destruct (reset_time (rateLimitResetTimes a) f) as [r0|]; [|discriminate].
      destruct (clock n >=? r0)%Z eqn:E; [discriminate|]. injection Hreset as ->.
      rewrite Z.geb_leb in E. apply Z.leb_gt in E. now split. }
    destruct Ea as (Ea & Hlt).
    unfold checked_as. cbn [fst snd]. split; [exact Hcl|]. split; [|split].
    + unfold isRateLimitedForFamily. rewrite Ea. intros Hfree.
      apply Z.ltb_ge in Hfree. lia.
    + intros Hpass. apply negb_true_iff, Z.ltb_ge in Hpass.
      unfold isRateLimitedForFamily. rewrite Ea. apply Z.ltb_ge. lia.
    + intros _. exists r. now split.
  - specialize (IH (S n)).
    destruct (Clocked.clear_and_filter clock f l (S n)) as [rest1 n3].
    cbn [fst]. constructor; [|exact IH].
    unfold checked_as. cbn [fst snd negb]. split; [exact Hcl|]. split; [|split].
    + reflexivity.
    + intros _. unfold isRateLimitedForFamily.
      destruct (reset_time (rateLimitResetTimes a) f) as [r0|]; [|reflexivity].
      destruct (clock n >=? r0)%Z eqn:E; [|discriminate].
      rewrite Z.geb_leb in E. apply Z.leb_le in E. apply Z.ltb_ge. lia.
    + discriminate.
Qed.

Lemma wait_times_spec resets : forall n,
  Forall2 (fun r w => exists s, (t0 <= s <= T)%Z /\ w = Z.max 0 (r - s))
    resets (fst (Clocked.wait_times clock resets n)).
Proof.
  induction resets as [|r resets IH]; intros n; cbn [Clocked.wait_times]; [constructor|].
  specialize (IH (S n)). destruct (Clocked.wait_times clock resets (S n)) as [ws n1].
  cbn [fst] in *. constructor; [|exact IH].
  exists (clock n). split; [apply readings|reflexivity].
Qed.

(** When the filter passes nobody, every account has a wait. *)
Lemma waits_of_limited l checked n :
  Forall2 (checked_as t0 T f) l checked ->
  Forall (fun c => snd c = false) checked ->
  Forall2 (fun a w => exists r s, reset_time (rateLimitResetTimes a) f = Some r
                                  /\ (t0 <= s <= T)%Z /\ w = Z.max 0 (r - s))
    l
    (fst (Clocked.wait_times clock
            (omap (fun a => reset_time (rateLimitResetTimes a) f) (List.map fst checked))
            n)).
Proof.
  intros Hspec. revert n.
  induction Hspec as [|a c l checked (_ & _ & _ & Hkeep) _ IH]; intros n Hall;
    [constructor|].
  inversion Hall as [|? ? Hc Hrest]; subst.
  destruct (Hkeep Hc) as (r & Ea & Ec).
  cbn [List.map omap list_omap]. rewrite Ec. cbn [Clocked.wait_times].
  specialize (IH (S n) Hrest).
  destruct (Clocked.wait_times clock _ (S n)) as [ws n1]. cbn [fst] in *.
  constructor; [|exact IH].
  exists r, (clock n). split; [exact Ea|]. split; [apply readings|reflexivity].
Qed.

Lemma filter_snd_nil (checked : list (ManagedAccount * bool)) :
  List.filter snd checked = [] <-> Forall (fun c => snd c = false) checked.
Proof.
  induction checked as [|c l IH]; cbn [List.filter].
  - split; [constructor|reflexivity].
  - destruct (snd c) eqn:E.
    + split; [discriminate|]. intros Hall. inversion Hall; congruence.
    + rewrite IH. split; [now constructor|]. intros Hall. now inversion Hall.
Qed.

(** The wait, the accounts it leaves and what decided it. *)
Lemma min_wait_spec m :
  let r := Clocked.getMinWaitTimeForFamily clock f m in
  exists checked,
    Forall2 (checked_as t0 T f) (accounts m) checked
    /\ snd r = {| accounts := List.map fst checked;
                  currentIndex := currentIndex m;
                  currentAccountIndex := currentAccountIndex m |}
    /\ ((Exists (fun c => snd c = true) checked \/ accounts m = []) /\ fst r = 0%Z
        \/ accounts m <> []
           /\ Forall (fun c => snd c = false) checked
           /\ exists ws,
                ws <> []
                /\ Forall2 (fun a w => exists r s,
                              reset_time (rateLimitResetTimes a) f = Some r
                              /\ (t0 <= s <= T)%Z /\ w = Z.max 0 (r - s))
                     (accounts m) ws
                /\ In (fst r) ws
                /\ Forall (fun w => (fst r <= w)%Z) ws).
Proof.
  intros r. subst r. unfold Clocked.getMinWaitTimeForFamily.
  pose proof (clear_and_filter_spec (accounts m) 0) as Hspec.
  destruct (Clocked.clear_and_filter clock f (accounts m) 0) as [checked n1].
  cbn [fst] in Hspec. exists checked. split; [exact Hspec|].
  destruct (List.filter snd checked) as [|c0 cs] eqn:Eav.
  - apply filter_snd_nil in Eav. cbn [length Nat.ltb Nat.leb accounts].
    pose proof (waits_of_limited (accounts m) checked n1 Hspec Eav) as Hw.
    destruct (fst (Clocked.wait_times clock _ n1)) as [|w ws] eqn:Ews.
    + cbn [fst snd]. split; [reflexivity|]. left. split; [|reflexivity].
      right. inversion Hw. reflexivity.
    + cbn [fst snd]. split; [reflexivity|]. right.
      split; [intros E; rewrite E in Hw; inversion Hw|].
      split; [exact Eav|].
      exists (w :: ws). split; [discriminate|]. split; [exact Hw|].
      split; [apply minimum_In|].
      destruct (minimum_le w ws) as (H1 & H2). now constructor.
  - cbn [length Nat.ltb Nat.leb fst snd]. split; [reflexivity|]. left.
    split; [|reflexivity]. left.
    assert (Hin : In c0 (List.filter snd checked)) by (rewrite Eav; now left).
    apply filter_In in Hin as (Hin & Hc0).
    apply Exists_exists. exists c0. split; [now apply list_elem_of_In|exact Hc0].
Qed.

Lemma free_cleared u a a' :
  cleared_between t0 T a a' ->
  isRateLimitedForFamily u a f = false -> isRateLimitedForFamily u a' f = false.
Proof.
  intros (_ & _ & _ & _ & _ & _ & _ & _ & Hr). unfold isRateLimitedForFamily.
  destruct (reset_time (rateLimitResetTimes a') f) as [r|] eqn:E; [|reflexivity].
  destruct (proj1 (Hr f r) E) as (-> & _). exact id.
Qed.

(** The wait against the accounts before the call and after it. *)
Lemma min_wait_result m :
  let r := Clocked.getMinWaitTimeForFamily clock f m in
  (0 <= fst r)%Z
  /\ currentIndex (snd r) = currentIndex m
  /\ currentAccountIndex (snd r) = currentAccountIndex m
  /\ Forall2 (cleared_between t0 T) (accounts m) (accounts (snd r))
  /\ (accounts m = []
      \/ Exists (fun a => isRateLimitedForFamily t0 a f = false) (accounts m) ->
      fst r = 0%Z)
  /\ (fst r = 0%Z ->
      accounts m = []
      \/ Exists (fun a => isRateLimitedForFamily T a f = false) (accounts m))
  /\ ((0 < fst r)%Z ->
      Forall (limited_until f (t0 + fst r)) (accounts m)
      /\ Forall (limited_until f (t0 + fst r)) (accounts (snd r)))
  /\ (accounts m <> [] ->
      Exists (fun a => isRateLimitedForFamily (T + fst r) a f = false) (accounts m)
      /\ Exists (fun a => isRateLimitedForFamily (T + fst r) a f = false)
           (accounts (snd r))).
Proof.
  intros r. pose proof (min_wait_spec m) as Hspec. cbv zeta in Hspec. fold r in Hspec.
  destruct Hspec as (checked & Hspec & Hsnd & Hcases).
  pose proof bounds_ordered as Hord.
  rewrite Hsnd. cbn [accounts currentIndex currentAccountIndex].
  assert (Hcl : Forall2 (cleared_between t0 T) (accounts m) (List.map fst checked)).
  { clear -Hspec. induction Hspec as [|a c l k (H & _) _ IH]; cbn [List.map];
      constructor; assumption. }
  assert (Hl : forall a, In a (accounts m) -> exists c, In c checked /\ checked_as t0 T f a c)
    by (intros a; now apply Forall2_In_l).
  assert (Hr : forall c, In c checked ->
                         exists a, In a (accounts m) /\ checked_as t0 T f a c)
    by (intros c; now apply Forall2_In_r).
  destruct Hcases as [(Hfree & Hw) | (Hne & Hall & ws & Hws & Hwaits & Hin & Hmin)].
  - rewrite Hw. split; [lia|]. do 2 (split; [reflexivity|]). split; [exact Hcl|].
    split; [reflexivity|].
    assert (Hex : accounts m <> [] ->
                  exists a c, In a (accounts m) /\ In c checked
                              /\ cleared_between t0 T a (fst c)
                              /\ isRateLimitedForFamily T a f = false).
    { intros Hne. destruct Hfree as [Hfree | E]; [|contradiction].
      apply List.Exists_exists in Hfree as (c & Hc & Hpass).
      destruct (Hr c Hc) as (a & Ha & Hcla & _ & Hpassed & _).
      exists a, c. auto. }
    split; [|split; [lia|]].
    + intros _. destruct (accounts m) as [|a0 l0] eqn:E; [now left|right].
      destruct Hex as (a & c & Ha & _ & _ & Hfr); [discriminate|].
      apply List.Exists_exists. eauto.
    + intros Hne. destruct (Hex Hne) as (a & c & Ha & Hc & Hcla & Hfr).
      rewrite Z.add_0_r. split; apply List.Exists_exists.
      * eauto.
      * exists (fst c). split; [now apply in_map|]. eapply free_cleared; eassumption.
  - rewrite List.Forall_forall in Hall, Hmin.
    assert (Hone : exists a x s, In a (accounts m)
                     /\ reset_time (rateLimitResetTimes a) f = Some x
                     /\ (t0 <= s <= T)%Z /\ fst r = Z.max 0 (x - s)).
    { destruct (Forall2_In_r _ _ _ _ Hwaits Hin) as (a & Ha & x & s & Hx & Hs & Hw).
      exists a, x, s. auto. }
    assert (Hevery : forall a, In a (accounts m) ->
                       exists x s, reset_time (rateLimitResetTimes a) f = Some x
                                   /\ (t0 <= s <= T)%Z /\ (fst r <= Z.max 0 (x - s))%Z).
    { intros a Ha.
      destruct (Forall2_In_l _ _ _ _ Hwaits Ha) as (w & Hw & x & s & Hx & Hs & ->).
      exists x, s. auto. }
    assert (Hkept : forall c, In c checked ->
                      exists a, In a (accounts m)
                                /\ cleared_between t0 T a (fst c)
                                /\ reset_time (rateLimitResetTimes (fst c)) f
                                   = reset_time (rateLimitResetTimes a) f).
    { intros c Hc. destruct (Hr c Hc) as (a & Ha & Hcla & _ & _ & Hkeep).
      destruct (Hkeep (Hall c Hc)) as (x & Ex & Ec). exists a. rewrite Ex, Ec. auto. }
    destruct Hone as (a1 & x1 & s1 & Ha1 & Hx1 & Hs1 & Hw1).
    split; [lia|]. do 2 (split; [reflexivity|]). split; [exact Hcl|].
    split; [|split; [|split]].
    + intros [E | Hex]; [contradiction|]. exfalso.
      apply List.Exists_exists in Hex as (a & Ha & Hfr).
      destruct (Hl a Ha) as (c & Hc & _ & Hpass & _).
      specialize (Hall c Hc). rewrite Hpass in Hall by exact Hfr. discriminate.
    + intros Hw0. right. apply List.Exists_exists. exists a1. split; [exact Ha1|].
      unfold isRateLimitedForFamily. rewrite Hx1. apply Z.ltb_ge. lia.
    + intros Hpos. split; apply List.Forall_forall.
      * intros a Ha. destruct (Hevery a Ha) as (x & s & Hx & Hs & Hle).
        exists x. split; [exact Hx|lia].
      * intros a' Ha'. apply in_map_iff in Ha' as (c & <- & Hc).
        destruct (Hkept c Hc) as (a & Ha & _ & Esame).
        destruct (Hevery a Ha) as (x & s & Hx & Hs & Hle).
        exists x. split; [rewrite Esame; exact Hx|lia].
    + intros _. destruct (Hl a1 Ha1) as (c1 & Hc1 & Hchk).
      assert (Hfr : isRateLimitedForFamily (T + fst r) a1 f = false).
      { unfold isRateLimitedForFamily. rewrite Hx1. apply Z.ltb_ge. lia. }
      split; apply List.Exists_exists.
      * eauto.
      * exists (fst c1). split; [now apply in_map|].
        eapply free_cleared; [exact (proj1 Hchk)|exact Hfr].
Qed.

End WithClock.

(** ** Selection on a given clock *)

Lemma clear_each_spec clock l : forall n,
  Forall2 (fun a a' => exists k, a' = clearExpiredRateLimits (clock k) a)
    l (fst (Clocked.clear_each clock l n)).
Proof.
  induction l as [|a l IH]; intros n; cbn [Clocked.clear_each]; [constructor|].
  unfold Clocked.clearExpiredRateLimits. specialize (IH (S n)).
  destruct (Clocked.clear_each clock l (S n)) as [rest n2]. cbn [fst] in *.
  constructor; [now exists n|exact IH].
Qed.

Lemma available_positions_free clock f l : forall base n,
  Exists (fun a => reset_time (rateLimitResetTimes a) f = None) l ->
  fst (Clocked.available_positions clock f base l n) <> [].
Proof.
  induction l as [|a l IH]; intros base n Hex; [inversion Hex|].
  cbn [Clocked.available_positions]. unfold Clocked.isRateLimitedForFamily.
  destruct (reset_time (rateLimitResetTimes a) f) as [x|] eqn:E.
  - inversion Hex as [? ? Ha|? ? Hrest]; subst; [congruence|].
    specialize (IH (S base) (S n) Hrest).
    destruct (Clocked.available_positions clock f (S base) l (S n)) as [ps n2].
    cbn [fst] in *. destruct (negb (clock n <? x)%Z); [discriminate|exact IH].
  - destruct (Clocked.available_positions clock f (S base) l n) as [ps n2].
    cbn [fst negb]. discriminate.
Qed.

Lemma available_positions_limited clock f B l :
  (forall n, (clock n < B)%Z) ->
  Forall (limited_until f B) l ->
  forall base n, fst (Clocked.available_positions clock f base l n) = [].
Proof.
  intros Hclock. induction 1 as [|a l (x & Hx & Hle) _ IH]; intros base n; [reflexivity|].
  cbn [Clocked.available_positions]. unfold Clocked.isRateLimitedForFamily. rewrite Hx.
  specialize (IH (S base) (S n)).
  destruct (Clocked.available_positions clock f (S base) l (S n)) as [ps n2].
  cbn [fst] in *. pose proof (Hclock n).
  replace (clock n <? x)%Z with true by (symmetry; apply Z.ltb_lt; lia).
  exact IH.
Qed.

Lemma getNext_some clock f m n :
  (0 <= currentIndex m)%Z ->
  Exists (fun a => reset_time (rateLimitResetTimes a) f = None) (accounts m) ->
  exists p, fst (fst (Clocked.getNextForFamily clock f m n)) = Some p.
Proof.
  intros Hcur Hex. unfold Clocked.getNextForFamily.
  pose proof (available_positions_free clock f (accounts m) 0 n Hex) as Hav.
  destruct (Clocked.available_positions clock f 0 (accounts m) n) as [available n1].
  cbn [fst] in Hav. destruct available as [|p0 ps]; [congruence|].
  set (pool := match List.filter _ (p0 :: ps) with [] => p0 :: ps | _ => _ end).
  assert (Hpool : pool <> []).
  { subst pool. destruct (List.filter _ (p0 :: ps)); discriminate. }
  destruct (array_get_rem pool (currentIndex m) Hpool Hcur) as (p & ->).
  exists p. reflexivity.
Qed.

Lemma getNext_none clock f B m n :
  (forall k, (clock k < B)%Z) ->
  Forall (limited_until f B) (accounts m) ->
  fst (fst (Clocked.getNextForFamily clock f m n)) = None.
Proof.
  intros Hclock Hall. unfold Clocked.getNextForFamily.
  pose proof (available_positions_limited clock f B (accounts m) Hclock Hall 0 n) as Hav.
  destruct (Clocked.available_positions clock f 0 (accounts m) n) as [available n1].
  cbn [fst] in Hav. rewrite Hav. reflexivity.
Qed.

Lemma select_some clock f m :
  (0 <= currentIndex m)%Z ->
  Exists (fun a => reset_time (rateLimitResetTimes a) f = None)
    (fst (Clocked.clear_each clock (accounts m) 0)) ->
  exists p, fst (Clocked.getCurrentOrNextForFamily clock f m) = Some p.
Proof.
  intros Hcur Hex. unfold Clocked.getCurrentOrNextForFamily.
  destruct (Clocked.clear_each clock (accounts m) 0) as [cleared n1]. cbn [fst] in Hex.
  set (m1 := {| accounts := cleared; currentIndex := currentIndex m;
                currentAccountIndex := currentAccountIndex m |}).
  assert (Hfall : forall n,
            exists p,
              fst (match Clocked.getNextForFamily clock f m1 n with
                   | (Some p, m2, _) =>
                       (Some p,
                        {| accounts := accounts m2;
                           currentIndex := currentIndex m2;
                           currentAccountIndex :=
                             match accounts m2 !! p with
                             | Some next => index next
                             | None => currentAccountIndex m2
                             end |})
                   | (None, m2, _) => (None, m2)
                   end) = Some p).
  { intros n. destruct (getNext_some clock f m1 n Hcur Hex) as (p & Hp).
    destruct (Clocked.getNextForFamily clock f m1 n) as [[o m2] n2].
    cbn [fst] in Hp. subst o. exists p. reflexivity. }
  destruct (getCurrentAccount m1) as [c|]; [|apply Hfall].
  destruct (accounts m1 !! c) as [current|]; [|apply Hfall].
  destruct (Clocked.isRateLimitedForFamily clock current f n1) as [limited n2].
  destruct (negb limited); [|apply Hfall].
  destruct (if negb (is_paid current)
            then Clocked.some_paid_available clock f (accounts m1) n2
            else (false, n2)) as [better n3].
  destruct (negb better); [|apply Hfall].
  exists c. reflexivity.
Qed.

Lemma select_none clock f B m :
  (forall k, (clock k < B)%Z) ->
  Forall (limited_until f B) (fst (Clocked.clear_each clock (accounts m) 0)) ->
  fst (Clocked.getCurrentOrNextForFamily clock f m) = None.
Proof.
  intros Hclock Hall. unfold Clocked.getCurrentOrNextForFamily.
  destruct (Clocked.clear_each clock (accounts m) 0) as [cleared n1]. cbn [fst] in Hall.
  set (m1 := {| accounts := cleared; currentIndex := currentIndex m;
                currentAccountIndex := currentAccountIndex m |}).
  assert (Hfall : forall n,
              fst (match Clocked.getNextForFamily clock f m1 n with
                   | (Some p, m2, _) =>
                       (Some p,
                        {| accounts := accounts m2;
                           currentIndex := currentIndex m2;
                           currentAccountIndex :=
                             match accounts m2 !! p with
                             | Some next => index next
                             | None => currentAccountIndex m2
                             end |})
                   | (None, m2, _) => (None, m2)
                   end) = None).
  { intros n. pose proof (getNext_none clock f B m1 n Hclock Hall) as Hp.
    destruct (Clocked.getNextForFamily clock f m1 n) as [[o m2] n2].
    cbn [fst] in Hp. subst o. reflexivity. }
  destruct (getCurrentAccount m1) as [c|]; [|apply Hfall].
  destruct (accounts m1 !! c) as [current|] eqn:Ec; [|apply Hfall].
  assert (Hlim : limited_until f B current).
  { rewrite List.Forall_forall in Hall. apply Hall.
    apply list_elem_of_In. eapply list_elem_of_lookup_2. exact Ec. }
  destruct Hlim as (x & Hx & Hle).
  unfold Clocked.isRateLimitedForFamily. rewrite Hx. pose proof (Hclock n1).
  replace (clock n1 <? x)%Z with true by (symmetry; apply Z.ltb_lt; lia).
  cbn [negb]. apply Hfall.
Qed.

(** ** A clock that stands still

    On a clock that reads [now] every time, the selection is the one
    given [now] for the whole call. *)

Lemma isRateLimited_standing now a f n :
  fst (Clocked.isRateLimitedForFamily (fun _ => now) a f n) = isRateLimitedForFamily now a f.
Proof.
  unfold Clocked.isRateLimitedForFamily, isRateLimitedForFamily.
  now destruct (reset_time (rateLimitResetTimes a) f).
Qed.

Lemma clear_each_standing now l : forall n,
  fst (Clocked.clear_each (fun _ => now) l n) = List.map (clearExpiredRateLimits now) l.
Proof.
  induction l as [|a l IH]; intros n; cbn [Clocked.clear_each List.map]; [reflexivity|].
  unfold Clocked.clearExpiredRateLimits. specialize (IH (S n)).
  destruct (Clocked.clear_each (fun _ => now) l (S n)) as [rest n2]. cbn [fst] in *.
  now rewrite IH.
Qed.

Lemma some_paid_available_standing now f l : forall n,
  fst (Clocked.some_paid_available (fun _ => now) f l n)
  = existsb (fun a => is_paid a && negb (isRateLimitedForFamily now a f)) l.
Proof.
  induction l as [|a l IH]; intros n; cbn [Clocked.some_paid_available existsb];
    [reflexivity|].
  destruct (is_paid a); cbn [andb orb]; [|apply IH].
  pose proof (isRateLimited_standing now a f n) as Hl.
  destruct (Clocked.isRateLimitedForFamily (fun _ => now) a f n) as [limited n1].
  cbn [fst] in Hl. rewrite <- Hl.
  destruct limited; cbn [negb orb]; [apply IH|reflexivity].
Qed.

Lemma available_positions_standing now f l : forall base n,
  fst (Clocked.available_positions (fun _ => now) f base l n)
  = filter_positions (fun a => negb (isRateLimitedForFamily now a f)) base l.
Proof.
  induction l as [|a l IH]; intros base n;
    cbn [Clocked.available_positions filter_positions]; [reflexivity|].
  pose proof (isRateLimited_standing now a f n) as Hl.
  destruct (Clocked.isRateLimitedForFamily (fun _ => now) a f n) as [limited n1].
  cbn [fst] in Hl. rewrite <- Hl. specialize (IH (S base) n1).
  destruct (Clocked.available_positions (fun _ => now) f (S base) l n1) as [ps n2].
  cbn [fst] in *. rewrite IH. reflexivity.
Qed.

Lemma getNext_standing now f m n :
  fst (Clocked.getNextForFamily (fun _ => now) f m n) = getNextForFamily now f m.
Proof.
  unfold Clocked.getNextForFamily, getNextForFamily.
  pose proof (available_positions_standing now f (accounts m) 0 n) as Hav.
  destruct (Clocked.available_positions (fun _ => now) f 0 (accounts m) n)
    as [available n1].
  cbn [fst] in Hav. rewrite <- Hav.
  destruct available as [|p0 ps]; [reflexivity|].
  destruct (array_get _ _); reflexivity.
Qed.

Lemma selection_standing now f m :
  Clocked.getCurrentOrNextForFamily (fun _ => now) f m = getCurrentOrNextForFamily now f m.
Proof.
  unfold Clocked.getCurrentOrNextForFamily, getCurrentOrNextForFamily.
  pose proof (clear_each_standing now (accounts m) 0) as Hcl.
  destruct (Clocked.clear_each (fun _ => now) (accounts m) 0) as [cleared n1].
  cbn [fst] in Hcl. rewrite <- Hcl.
  set (m1 := {| accounts := cleared; currentIndex := currentIndex m;
                currentAccountIndex := currentAccountIndex m |}).
  assert (Hfall : forall n,
            match Clocked.getNextForFamily (fun _ => now) f m1 n with
            | (Some p, m2, _) =>
                (Some p,
                 {| accounts := accounts m2;
                    currentIndex := currentIndex m2;
                    currentAccountIndex :=
                      match accounts m2 !! p with
                      | Some next => index next
                      | None => currentAccountIndex m2
                      end |})
            | (None, m2, _) => (None, m2)
            end
            = match getNextForFamily now f m1 with
              | (Some p, m2) =>
                  (Some p,
                   {| accounts := accounts m2;
                      currentIndex := currentIndex m2;
                      currentAccountIndex :=
                        match accounts m2 !! p with
                        | Some next => index next
                        | None => currentAccountIndex m2
                        end |})
              | (None, m2) => (None, m2)
              end).
  { intros n. rewrite <- (getNext_standing now f m1 n).
    destruct (Clocked.getNextForFamily (fun _ => now) f m1 n) as [[[p|] m2] n2];
      reflexivity. }
  destruct (getCurrentAccount m1) as [c|]; [|apply Hfall].
  destruct (accounts m1 !! c) as [current|]; [|apply Hfall].
  pose proof (isRateLimited_standing now current f n1) as Hl.
  destruct (Clocked.isRateLimitedForFamily (fun _ => now) current f n1) as [limited n2].
  cbn [fst] in Hl. rewrite <- Hl.
  destruct limited; cbn [negb]; [apply Hfall|].
  destruct (is_paid current); cbn [negb andb]; [reflexivity|].
  pose proof (some_paid_available_standing now f (accounts m1) n2) as Hb.
  destruct (Clocked.some_paid_available (fun _ => now) f (accounts m1) n2) as [better n3].
  cbn [fst] in Hb. rewrite <- Hb.
  destruct better; cbn [negb]; [apply Hfall|reflexivity].
Qed.

(** Clearing at readings from [L] on frees what is free at [L]; clearing
    at readings before [B] keeps what is limited until [B]. *)
Lemma clear_each_later clock f L l n :
  (forall k, (L <= clock k)%Z) ->
  Exists (fun a => isRateLimitedForFamily L a f = false) l ->
  Exists (fun a => reset_time (rateLimitResetTimes a) f = None)
    (fst (Clocked.clear_each clock l n)).
Proof.
  intros Hclock Hex. apply List.Exists_exists in Hex as (a & Ha & Hfree).
  destruct (Forall2_In_l _ _ _ _ (clear_each_spec clock l n) Ha) as (a' & Ha' & k & ->).
  apply List.Exists_exists. exists (clearExpiredRateLimits (clock k) a).
  split; [exact Ha'|]. rewrite reset_time_clearExpired.
  unfold isRateLimitedForFamily in Hfree.
  destruct (reset_time (rateLimitResetTimes a) f) as [x|]; [|reflexivity].
  apply Z.ltb_ge in Hfree. pose proof (Hclock k).
  replace (clock k >=? x)%Z with true; [reflexivity|].
  symmetry. rewrite Z.geb_leb. apply Z.leb_le. lia.
Qed.

Lemma clear_each_sooner clock f B l n :
  (forall k, (clock k < B)%Z) ->
  Forall (limited_until f B) l ->
  Forall (limited_until f B) (fst (Clocked.clear_each clock l n)).
Proof.
  intros Hclock Hall. rewrite List.Forall_forall in Hall. apply List.Forall_forall.
  intros a' Ha'.
  destruct (Forall2_In_r _ _ _ _ (clear_each_spec clock l n) Ha') as (a & Ha & k & ->).
  destruct (Hall a Ha) as (x & Hx & Hle). exists x. split; [|exact Hle].
  rewrite reset_time_clearExpired, Hx. pose proof (Hclock k).
  replace (clock k >=? x)%Z with false; [reflexivity|].
  symmetry. rewrite Z.geb_leb. apply Z.leb_gt. lia.
Qed.

(** X1. The wait [getMinWaitTimeForFamily] returns, when every reading of
    the clock during the call lies between [t0] and [T]: it is never
    negative; it is 0 when there is no account or some account was
    usable for the family at [t0], and only when there is none or some
    account is usable at [T]; a positive wait [w] means every account is
    limited at every time before [t0 + w], and one of them no longer is
    at [T + w].  The call leaves the cursors alone, and of the accounts
    it changes only the reset times: those that had passed at [t0] are
    gone, those after [T] are kept, and none is new. *)
Theorem min_wait_is_exact :
  forall (clock : nat -> Z) (t0 T : Z) f m,
    (forall n, (t0 <= clock n <= T)%Z) ->
    let r := Clocked.getMinWaitTimeForFamily clock f m in
    (0 <= fst r)%Z
    /\ currentIndex (snd r) = currentIndex m
    /\ currentAccountIndex (snd r) = currentAccountIndex m
    /\ Forall2 (cleared_between t0 T) (accounts m) (accounts (snd r))
    /\ (accounts m = []
        \/ Exists (fun a => isRateLimitedForFamily t0 a f = false) (accounts m) ->
        fst r = 0%Z)
    /\ (fst r = 0%Z ->
        accounts m = []
        \/ Exists (fun a => isRateLimitedForFamily T a f = false) (accounts m))
    /\ ((0 < fst r)%Z ->
        Forall (fun a => forall u, (u < t0 + fst r)%Z ->
                                   isRateLimitedForFamily u a f = true) (accounts m)
        /\ Exists (fun a => isRateLimitedForFamily (T + fst r) a f = false) (accounts m)).
Proof.
  intros clock t0 T f m Hclock r.
  destruct (min_wait_result clock t0 T Hclock f m)
    as (Hnn & Hci & Hcai & Hcl & Hzero & Hzero' & Hpos & Hat).
  fold r in Hnn, Hci, Hcai, Hcl, Hzero, Hzero', Hpos, Hat.
  do 6 (split; [assumption|]).
  intros Hw. destruct (Hpos Hw) as (Hall & _). split.
  - eapply Forall_impl; [exact Hall|]. cbv beta. intros a (x & Hx & Hle) u Hu.
    unfold isRateLimitedForFamily. rewrite Hx. apply Z.ltb_lt. lia.
  - apply Hat. intros E. rewrite E in Hall.
    destruct (Hzero (or_introl E)). lia.
Qed.

Lemma min_wait_is_exact_witness :
  fst (Clocked.getMinWaitTimeForFamily Examples.ticking_clock gemini_pro
         Examples.manager_both_limited) = 4996%Z
  /\ Forall (fun a => forall u, (u < 1000 + 4996)%Z ->
                                isRateLimitedForFamily u a gemini_pro = true)
       (accounts Examples.manager_both_limited)
  /\ Exists (fun a => isRateLimitedForFamily (1008 + 4996) a gemini_pro = false)
       (accounts Examples.manager_both_limited).
Proof.
  assert (Hclock : forall n, (1000 <= Examples.ticking_clock n <= 1008)%Z)
    by (intros n; unfold Examples.ticking_clock; lia).
  assert (Hw : fst (Clocked.getMinWaitTimeForFamily Examples.ticking_clock gemini_pro
                      Examples.manager_both_limited) = 4996%Z) by reflexivity.
  split; [exact Hw|].
  destruct (min_wait_is_exact Examples.ticking_clock 1000 1008 gemini_pro
              Examples.manager_both_limited Hclock)
    as (_ & _ & _ & _ & _ & _ & Hpos).
  rewrite Hw in Hpos. apply Hpos. lia.
Defined.

(** X2. Selection after [getMinWaitTimeForFamily], for a manager with an
    account and a cursor that is not negative, the readings of the clock
    during the wait computation lying between [t0] and [T] and the wait
    being [w]: a selection all of whose readings are at [T + w] or later
    returns an account; and when [w] is positive, a selection all of
    whose readings are before [t0 + w] returns none. *)
Theorem selection_succeeds_after_min_wait :
  forall (clock : nat -> Z) (t0 T : Z) f m,
    (forall n, (t0 <= clock n <= T)%Z) ->
    accounts m <> [] ->
    (0 <= currentIndex m)%Z ->
    let w := fst (Clocked.getMinWaitTimeForFamily clock f m) in
    let m1 := snd (Clocked.getMinWaitTimeForFamily clock f m) in
    (forall later : nat -> Z,
        (forall n, (T + w <= later n)%Z) ->
        exists p, fst (Clocked.getCurrentOrNextForFamily later f m1) = Some p)
    /\ ((0 < w)%Z ->
        forall sooner : nat -> Z,
          (forall n, (sooner n < t0 + w)%Z) ->
          fst (Clocked.getCurrentOrNextForFamily sooner f m1) = None).
Proof.
  intros clock t0 T f m Hclock Hne Hcur w m1.
  destruct (min_wait_result clock t0 T Hclock f m)
    as (_ & Hci & _ & _ & _ & _ & Hpos & Hat).
  fold w in Hpos, Hat. fold m1 in Hci, Hpos, Hat. split.
  - intros later Hlater. apply select_some; [rewrite Hci; exact Hcur|].
    apply (clear_each_later later f (T + w)); [exact Hlater|].
    exact (proj2 (Hat Hne)).
  - intros Hw sooner Hsooner. apply (select_none sooner f (t0 + w)); [exact Hsooner|].
    apply clear_each_sooner; [exact Hsooner|]. exact (proj2 (Hpos Hw)).
Qed.

Lemma selection_succeeds_after_min_wait_witness :
  (exists p,
      fst (Clocked.getCurrentOrNextForFamily Examples.clock_at_6010 gemini_pro
             (snd (Clocked.getMinWaitTimeForFamily Examples.ticking_clock gemini_pro
                     Examples.manager_both_limited))) = Some p)
  /\ fst (Clocked.getCurrentOrNextForFamily Examples.clock_at_5990 gemini_pro
            (snd (Clocked.getMinWaitTimeForFamily Examples.ticking_clock gemini_pro
                    Examples.manager_both_limited))) = None.
Proof.
  assert (Hclock : forall n, (1000 <= Examples.ticking_clock n <= 1008)%Z)
    by (intros n; unfold Examples.ticking_clock; lia).
  assert (Hw : fst (Clocked.getMinWaitTimeForFamily Examples.ticking_clock gemini_pro
                      Examples.manager_both_limited) = 4996%Z) by reflexivity.
  destruct (selection_succeeds_after_min_wait Examples.ticking_clock 1000 1008
              gemini_pro Examples.manager_both_limited Hclock)
    as (Hlater & Hsooner).
  - discriminate.
  - cbn. lia.
  - rewrite Hw in Hlater, Hsooner. split.
    + apply Hlater. intros n. unfold Examples.clock_at_6010. lia.
    + apply Hsooner; [lia|]. intros n. unfold Examples.clock_at_5990. lia.
Defined.

End ManagerFacts.

Section ManagerShapeFacts.
Import Codec Accounts Manager.

Lemma map_as_fmap {A B} (f : A -> B) (l : list A) : List.map f l = f <$> l.
Proof. reflexivity. Qed.

(** X3. [removeAccount] refuses a position outside the array and leaves
    the manager as it was; inside, it takes out exactly that account,
    keeps the others in order with [index] renumbered to their new
    positions, and does not move either cursor. *)
Theorem removeAccount_reindexes :
  forall i m,
    ((i < 0)%Z \/ (Z.of_nat (length (accounts m)) <= i)%Z ->
     removeAccount i m = (false, m))
    /\ ((0 <= i < Z.of_nat (length (accounts m)))%Z ->
        exists m',
          removeAccount i m = (true, m')
          /\ S (length (accounts m')) = length (accounts m)
          /\ (forall p a', accounts m' !! p = Some a' ->
                index a' = Z.of_nat p
                /\ exists a,
                    accounts m !! (if (p <? Z.to_nat i)%nat then p else S p) = Some a
                    /\ a' = with_index a (Z.of_nat p))
          /\ currentIndex m' = currentIndex m
          /\ currentAccountIndex m' = currentAccountIndex m).
Proof.
  intros i m. unfold removeAccount. split.
  - intros Hout.
    destruct (i <? 0)%Z eqn:E1; [reflexivity|].
    destruct (i >=? Z.of_nat (length (accounts m)))%Z eqn:E2; [reflexivity|].
    apply Z.ltb_ge in E1. rewrite Z.geb_leb in E2. apply Z.leb_gt in E2. lia.
  - intros (Hlo & Hhi).
    replace (i <? 0)%Z with false by (symmetry; apply Z.ltb_ge; lia).
    replace (i >=? Z.of_nat (length (accounts m)))%Z with false
      by (symmetry; rewrite Z.geb_leb; apply Z.leb_gt; lia).
    cbn [orb]. eexists. split; [reflexivity|].
    cbn [accounts currentIndex currentAccountIndex].
    assert (Hi : (Z.to_nat i < length (accounts m))%nat) by lia.
    split.
    { rewrite length_imap, length_delete by (apply lookup_lt_is_Some; exact Hi). lia. }
    split; [|split; reflexivity].
    intros p a' Hp. rewrite list_lookup_imap in Hp.
    destruct (delete (Z.to_nat i) (accounts m) !! p) as [a|] eqn:Ea; [|discriminate].
    cbn in Hp. injection Hp as <-. split; [reflexivity|].
    exists a. split; [|reflexivity].
    destruct (p <? Z.to_nat i)%nat eqn:Ep.
    + apply Nat.ltb_lt in Ep. now rewrite list_lookup_delete_lt in Ea.
    + apply Nat.ltb_ge in Ep. now rewrite list_lookup_delete_ge in Ea.
Qed.

Lemma removeAccount_reindexes_witness :
  removeAccount 5 Examples.manager_two_paid = (false, Examples.manager_two_paid)
  /\ exists m', removeAccount 0 Examples.manager_two_paid = (true, m')
                /\ List.map index (accounts m') = [0%Z].
Proof.
  split.
  - apply (proj1 (removeAccount_reindexes 5 Examples.manager_two_paid)).
    right. cbn. lia.
  - destruct (proj2 (removeAccount_reindexes 0 Examples.manager_two_paid))
      as (m' & Hm' & _); [cbn; lia|].
    exists m'. split; [exact Hm'|].
    vm_compute in Hm'. injection Hm' as <-. reflexivity.
Defined.


Lemma parts_eta (p : RefreshParts) :
  {| refreshToken := refreshToken p; projectId := projectId p;
     managedProjectId := managedProjectId p |} = p.
Proof. destruct p; reflexivity. Qed.

Lemma toAuthDetails_current m c a :
  accounts m !! c = Some a -> currentAccountIndex m = Z.of_nat c ->
  toAuthDetails m
  = Some {| Token.refresh := formatMultiAccountRefresh (List.map parts (accounts m));
            Token.access := default "" (access a);
            Token.expires := default 0%Z (expires a) |}.
Proof.
  intros Ha Hc. unfold toAuthDetails.
  rewrite (getCurrentAccount_at m c a Ha Hc), Ha. reflexivity.
Qed.

(** X4. A freshly constructed manager is never empty, numbers its
    accounts by position, points both cursors at one of them, gives the
    access token of the host's auth record to that account alone, and
    can always export auth details, which carry that access token. *)
Theorem new_manager_invariants :
  forall auth stored,
    let m := new_AccountManager auth stored in
    accounts m <> []
    /\ (forall p a, accounts m !! p = Some a -> index a = Z.of_nat p)
    /\ (0 <= currentAccountIndex m < Z.of_nat (length (accounts m)))%Z
    /\ currentIndex m = currentAccountIndex m
    /\ (forall p a, accounts m !! p = Some a ->
          access a = (if (Z.of_nat p =? currentAccountIndex m)%Z
                      then Some (Token.access auth) else None)
          /\ expires a = (if (Z.of_nat p =? currentAccountIndex m)%Z
                          then Some (Token.expires auth) else None))
    /\ exists out,
        toAuthDetails m = Some out
        /\ Token.access out = Token.access auth
        /\ Token.expires out = Token.expires auth.
Proof.
  intros auth stored m.
  assert (Hshape :
            accounts m <> []
            /\ (forall p a, accounts m !! p = Some a -> index a = Z.of_nat p)
            /\ (0 <= currentAccountIndex m < Z.of_nat (length (accounts m)))%Z
            /\ currentIndex m = currentAccountIndex m
            /\ (forall p a, accounts m !! p = Some a ->
                  access a = (if (Z.of_nat p =? currentAccountIndex m)%Z
                              then Some (Token.access auth) else None)
                  /\ expires a = (if (Z.of_nat p =? currentAccountIndex m)%Z
                                  then Some (Token.expires auth) else None))).
  { subst m. unfold new_AccountManager.
    set (from_refresh := {| accounts := _; currentIndex := 0; currentAccountIndex := 0 |}).
    assert (Hfrom :
              accounts from_refresh <> []
              /\ (forall p a, accounts from_refresh !! p = Some a -> index a = Z.of_nat p)
              /\ (0 <= currentAccountIndex from_refresh
                  < Z.of_nat (length (accounts from_refresh)))%Z
              /\ currentIndex from_refresh = currentAccountIndex from_refresh
              /\ (forall p a, accounts from_refresh !! p = Some a ->
                    access a = (if (Z.of_nat p =? currentAccountIndex from_refresh)%Z
                                then Some (Token.access auth) else None)
                    /\ expires a = (if (Z.of_nat p =? currentAccountIndex from_refresh)%Z
                                    then Some (Token.expires auth) else None))).
    { subst from_refresh. cbn [accounts currentIndex currentAccountIndex].
      destruct (parseMultiAccountRefresh (Token.refresh auth)) as [|p0 ps].
      - split; [discriminate|]. split.
        { intros [|p] a Ha; [|discriminate]. injection Ha as <-. reflexivity. }
        split; [cbn; lia|]. split; [reflexivity|].
        intros [|p] a Ha; [|discriminate]. injection Ha as <-. split; reflexivity.
      - split; [discriminate|]. split.
        { intros p a Ha. rewrite list_lookup_imap in Ha.
          destruct ((p0 :: ps) !! p); [|discriminate]. injection Ha as <-. reflexivity. }
        split; [rewrite length_imap; cbn [length]; lia|]. split; [reflexivity|].
        intros p a Ha. rewrite list_lookup_imap in Ha.
        destruct ((p0 :: ps) !! p); [|discriminate]. injection Ha as <-.
        cbn [access expires]. destruct p; split; reflexivity. }
    destruct stored as [stored|]; [|exact Hfrom].
    destruct (0 <? length (Stored.accounts stored))%nat eqn:Elen; [|exact Hfrom].
    apply Nat.ltb_lt in Elen.
    set (activeIndex := if (_ && _)%bool then Stored.activeIndex stored else 0%Z).
    assert (Hactive : (0 <= activeIndex < Z.of_nat (length (Stored.accounts stored)))%Z).
    { subst activeIndex.
      destruct (0 <=? Stored.activeIndex stored)%Z eqn:E1; cbn [andb]; [|lia].
      destruct (Stored.activeIndex stored <? _)%Z eqn:E2; [|lia].
      apply Z.leb_le in E1. apply Z.ltb_lt in E2. lia. }
    cbn [accounts currentIndex currentAccountIndex].
    split.
    { intros E. apply (f_equal length) in E. rewrite length_imap in E. cbn in E. lia. }
    split.
    { intros p a Ha. rewrite list_lookup_imap in Ha.
      destruct (Stored.accounts stored !! p); [|discriminate]. injection Ha as <-.
      reflexivity. }
    split; [rewrite length_imap; exact Hactive|]. split; [reflexivity|].
    intros p a Ha. rewrite list_lookup_imap in Ha.
    destruct (Stored.accounts stored !! p); [|discriminate]. injection Ha as <-.
    split; reflexivity. }
  destruct Hshape as (Hne & Hidx & Hcur & Hcursor & Hacc).
  repeat (split; [assumption|]).
  destruct (lookup_lt_is_Some_2 (accounts m) (Z.to_nat (currentAccountIndex m)))
    as (a & Ha); [lia|].
  assert (Hc : currentAccountIndex m = Z.of_nat (Z.to_nat (currentAccountIndex m))) by lia.
  rewrite (toAuthDetails_current m _ a Ha Hc).
  eexists. split; [reflexivity|]. cbn [Token.access Token.expires].
  destruct (Hacc _ a Ha) as (-> & ->).
  rewrite <- Hc, Z.eqb_refl. split; reflexivity.
Qed.

(** X5. A manager rebuilt from what [save()] stored has the same accounts
    in the same order: every account comes back with its parts, reset
    times, [lastUsed], email, tier and switch reason, and its position
    as [index].  The current account is the saved one when that was a
    valid position, and account 0 otherwise. *)
Theorem saved_manager_is_restored :
  forall now auth m,
    accounts m <> [] ->
    let m' := new_AccountManager auth (Some (save_storage now m)) in
    let active :=
      if (currentAccountIndex m <? Z.of_nat (length (accounts m)))%Z
      then Z.max 0 (currentAccountIndex m) else 0%Z in
    currentAccountIndex m' = active
    /\ currentIndex m' = active
    /\ length (accounts m') = length (accounts m)
    /\ forall p a, accounts m !! p = Some a ->
         exists a',
           accounts m' !! p = Some a'
           /\ index a' = Z.of_nat p
           /\ parts a' = parts a
           /\ rateLimitResetTimes a' = rateLimitResetTimes a
           /\ lastUsed a' = lastUsed a
           /\ email a' = email a
           /\ tier a' = tier a
           /\ lastSwitchReason a' = lastSwitchReason a.
Proof.
  intros now auth m Hne m' active. subst m'. unfold new_AccountManager.
  cbn [save_storage Stored.accounts Stored.activeIndex].
  rewrite length_map.
  replace (0 <? length (accounts m))%nat with true
    by (symmetry; apply Nat.ltb_lt; destruct (accounts m); [congruence|cbn; lia]).
  replace (0 <=? Z.max 0 (currentAccountIndex m))%Z with true
    by (symmetry; apply Z.leb_le; lia).
  cbn [andb accounts currentIndex currentAccountIndex].
  assert (Hactive :
            (if (Z.max 0 (currentAccountIndex m) <? Z.of_nat (length (accounts m)))%Z
             then Z.max 0 (currentAccountIndex m) else 0%Z) = active).
  { subst active.
    destruct (currentAccountIndex m <? Z.of_nat (length (accounts m)))%Z eqn:E.
    - apply Z.ltb_lt in E.
      replace (Z.max 0 (currentAccountIndex m) <? Z.of_nat (length (accounts m)))%Z
        with true; [reflexivity|].
      symmetry. apply Z.ltb_lt. destruct (accounts m); [congruence|cbn [length] in *; lia].
    - apply Z.ltb_ge in E.
      replace (Z.max 0 (currentAccountIndex m) <? Z.of_nat (length (accounts m)))%Z
        with false; [reflexivity|].
      symmetry. apply Z.ltb_ge. lia. }
  rewrite Hactive.
  split; [reflexivity|]. split; [reflexivity|].
  split; [now rewrite length_imap, length_map|].
  intros p a Ha. rewrite list_lookup_imap, map_as_fmap, list_lookup_fmap, Ha.
  cbn [fmap option_fmap option_map]. eexists. split; [reflexivity|].
  cbn [index parts rateLimitResetTimes lastUsed email tier lastSwitchReason
       Stored.refreshToken Stored.projectId Stored.managedProjectId
       Stored.rateLimitResetTimes Stored.lastUsed Stored.email Stored.tier
       Stored.lastSwitchReason default].
  rewrite parts_eta. repeat split; reflexivity.
Qed.

Lemma saved_manager_is_restored_witness :
  currentAccountIndex
    (new_AccountManager Examples.base_auth (Some (save_storage 99 Examples.manager_both_limited)))
  = 0%Z
  /\ exists a',
      accounts (new_AccountManager Examples.base_auth
                  (Some (save_storage 99 Examples.manager_both_limited))) !! 1%nat = Some a'
      /\ reset_time (rateLimitResetTimes a') gemini_pro = Some 8000%Z.
Proof.
  destruct (saved_manager_is_restored 99 Examples.base_auth Examples.manager_both_limited)
    as (Hcur & _ & _ & Hacc); [discriminate|].
  split; [exact Hcur|].
  destruct (Hacc 1%nat _ eq_refl) as (a' & Ha' & _ & _ & Hrl & _).
  exists a'. split; [exact Ha'|]. rewrite Hrl. reflexivity.
Defined.

Lemma sepSafe_format p : packable p -> sepSafe (formatRefreshParts p) = true.
Proof.
  intros (Hrt & (s & Hs & Hsp & Hsne) & Hm). unfold formatRefreshParts. rewrite Hs.
  cbn [default].
  destruct (managedProjectId p) as [mp|].
  - destruct Hm as (Hmp & Hmne).
    replace (truthy_string mp) with true
      by (unfold truthy_string; destruct (String.eqb_spec mp ""); [contradiction|reflexivity]).
    change ("|" ++ s) with (String pipe s). change ("|" ++ mp) with (String pipe mp).
    rewrite append_assoc, append_cons.
    apply sepSafe_prefix; [assumption|now apply starts_nonpipe_app|].
    apply sepSafe_prefix; [assumption|now apply starts_nonpipe_no_pipe|].
    now apply sepSafe_no_pipe.
  - change ("|" ++ s) with (String pipe s).
    apply sepSafe_prefix; [assumption|now apply starts_nonpipe_no_pipe|].
    now apply sepSafe_no_pipe.
Qed.

Lemma format_kept p : truthy_string (trim (formatRefreshParts p)) = true.
Proof.
  apply trim_truthy. unfold formatRefreshParts.
  destruct (managedProjectId p) as [mp|]; [destruct (truthy_string mp)|];
    rewrite ?append_assoc; apply has_nonws_app_pipe.
Qed.

Lemma parse_format_packable p : packable p -> parseRefreshParts (formatRefreshParts p) = p.
Proof.
  intros (Hrt & (s & Hs & Hsp & Hsne) & Hm). destruct p as [rt pid mpid].
  cbn [refreshToken projectId managedProjectId] in *. subst pid.
  apply parse_format_parts; [assumption|split; assumption|assumption].
Qed.

(** Parsing undoes the packing of packable parts. *)
Lemma parse_format_multi ps :
  ps <> [] -> Forall packable ps ->
  parseMultiAccountRefresh (formatMultiAccountRefresh ps) = ps.
Proof.
  intros Hne Hall. unfold formatMultiAccountRefresh.
  assert (Hkept : Forall (fun x => truthy_string (trim x) = true)
                    (List.map formatRefreshParts ps)).
  { rewrite Forall_map. apply Forall_forall. intros p _. apply format_kept. }
  rewrite (filter_all _ _ Hkept).
  assert (Hsafe : Forall (fun x => sepSafe x = true) (List.map formatRefreshParts ps)).
  { rewrite Forall_map. eapply Forall_impl; [exact Hall|]. apply sepSafe_format. }
  assert (Hne' : List.map formatRefreshParts ps <> []) by (destruct ps; [congruence|discriminate]).
  pose proof (split_accounts_concat _ Hne' Hsafe) as Hsplit.
  unfold parseMultiAccountRefresh.
  assert (Htruthy : truthy_string (String.concat ACCOUNT_SEPARATOR
                                     (List.map formatRefreshParts ps)) = true).
  { unfold truthy_string.
    destruct (String.eqb_spec (String.concat ACCOUNT_SEPARATOR
                                 (List.map formatRefreshParts ps)) "") as [E|]; [|reflexivity].
    rewrite E in Hsplit. destruct ps as [|p ps']; [congruence|].
    cbn in Hsplit. injection Hsplit as Hp _.
    pose proof (format_kept p) as Hk. rewrite <- Hp in Hk. discriminate Hk. }
  rewrite Htruthy. cbn [negb]. rewrite Hsplit, (filter_all _ _ Hkept).
  destruct ps as [|p ps']; [congruence|].
  change (match List.map formatRefreshParts (p :: ps') with
          | [] => []
          | _ :: _ => List.map parseRefreshParts (List.map formatRefreshParts (p :: ps'))
          end)
    with (List.map parseRefreshParts (List.map formatRefreshParts (p :: ps'))).
  rewrite List.map_map. clear -Hall.
  induction Hall as [|q l Hq _ IH]; [reflexivity|].
  cbn [List.map]. now rewrite parse_format_packable, IH.
Qed.

Lemma parts_imap {A} (f : nat -> A -> ManagedAccount) (l : list A) (g : A -> RefreshParts) :
  (forall i x, parts (f i x) = g x) -> List.map parts (imap f l) = List.map g l.
Proof.
  intros Hf. revert f Hf. induction l as [|x l IH]; intros f Hf; [reflexivity|].
  rewrite imap_cons. cbn [List.map]. rewrite Hf. f_equal. apply IH. intros i y. apply Hf.
Qed.

(** X6. The refresh string a manager exports is enough to rebuild its
    account list: when every account's parts are packable, a manager
    constructed from the exported auth details alone holds the same
    parts in the same order, numbered by position. *)
Theorem exported_auth_restores_parts :
  forall m out,
    Forall packable (List.map parts (accounts m)) ->
    toAuthDetails m = Some out ->
    List.map parts (accounts (new_AccountManager out None)) = List.map parts (accounts m)
    /\ List.map index (accounts (new_AccountManager out None))
       = List.map Z.of_nat (seq 0 (length (accounts m))).
Proof.
  intros m out Hall Hout.
  assert (Hne : List.map parts (accounts m) <> []).
  { unfold toAuthDetails in Hout.
    destruct (accounts m) as [|a l]; [|discriminate].
    destruct (getCurrentAccount _) as [c|]; [destruct c|]; discriminate. }
  assert (Hrefresh : Token.refresh out
                     = formatMultiAccountRefresh (List.map parts (accounts m))).
  { unfold toAuthDetails in Hout.
    destruct (match getCurrentAccount m with
              | Some c => accounts m !! c
              | None => accounts m !! 0%nat
              end); [|discriminate].
    injection Hout as <-. reflexivity. }
  unfold new_AccountManager. rewrite Hrefresh.
  rewrite (parse_format_multi _ Hne Hall).
  destruct (List.map parts (accounts m)) as [|p0 ps] eqn:E; [congruence|].
  cbn [accounts]. split.
  - rewrite (parts_imap _ _ (fun p => p)) by reflexivity. apply List.map_id.
  - rewrite <- (length_map parts), E. clear.
    generalize (p0 :: ps). intros l.
    set (f := fun (i : nat) (p : RefreshParts) => _).
    assert (Hf : forall i p, index (f i p) = Z.of_nat i) by reflexivity.
    clearbody f. revert f Hf.
    assert (Hgen : forall (k : nat) (f : nat -> RefreshParts -> ManagedAccount),
               (forall i p, index (f i p) = Z.of_nat (k + i)) ->
               List.map index (imap f l) = List.map Z.of_nat (seq k (length l))).
    { induction l as [|x l IH]; intros k f Hf; [reflexivity|].
      rewrite imap_cons. cbn [List.map length seq]. rewrite Hf, Nat.add_0_r. f_equal.
      apply IH. intros i p. unfold compose. rewrite Hf. f_equal. lia. }
    intros f Hf. apply (Hgen 0%nat). exact Hf.
Qed.

Lemma exported_auth_restores_parts_witness :
  exists out,
    toAuthDetails Examples.manager_two_paid = Some out
    /\ List.map parts (accounts (new_AccountManager out None))
       = List.map parts (accounts Examples.manager_two_paid).
Proof.
  destruct (toAuthDetails Examples.manager_two_paid) as [out|] eqn:E; [|discriminate E].
  exists out. split; [reflexivity|].
  apply (exported_auth_restores_parts Examples.manager_two_paid out); [|exact E].
  repeat constructor; cbn; try discriminate;
    try (exists "project"; repeat split; try discriminate; repeat constructor; discriminate).
Defined.

End ManagerShapeFacts.

Lemma new_manager_invariants_witness :
  exists out,
    Manager.toAuthDetails (Manager.new_AccountManager Examples.base_auth None) = Some out
    /\ Token.access out = Token.access Examples.base_auth
    /\ Accounts.currentAccountIndex (Manager.new_AccountManager Examples.base_auth None) = 0%Z.
Proof.
  destruct (new_manager_invariants Examples.base_auth None)
    as (_ & _ & _ & Hcursor & _ & out & Hout & Haccess & _).
  exists out. split; [exact Hout|]. split; [exact Haccess|].
  rewrite <- Hcursor. reflexivity.
Defined.

(* ===================================================================== *)
(** * Properties of the auth snapshot cache *)
(* ===================================================================== *)

Section AuthCacheFacts.
Import Codec Token AuthCache.

(** X7. [resolveCachedAuth] answers with the given snapshot or with the
    one cached for its refresh key, never with anything else; it answers
    with an expired snapshot only when both are expired, and with the
    given one whenever that is still valid.  When the refresh string
    yields a key, the cache afterwards holds the answer under that key
    and every other entry as before; when it does not, nothing is
    written.  The project caches are not touched. *)
Theorem resolveCachedAuth_prefers_unexpired :
  forall now auth w,
    let r := fst (resolveCachedAuth now auth w) in
    let w' := snd (resolveCachedAuth now auth w) in
    (r = auth
     \/ exists key, normalizeRefreshKey (refresh auth) = Some key
                    /\ authCache w !! key = Some r)
    /\ (forall key, normalizeRefreshKey (refresh auth) = Some key ->
          authCache w' !! key = Some r
          /\ forall k, k <> key -> authCache w' !! k = authCache w !! k)
    /\ (normalizeRefreshKey (refresh auth) = None -> w' = w)
    /\ (accessTokenExpired now auth = false -> r = auth)
    /\ (accessTokenExpired now r = true ->
          accessTokenExpired now auth = true
          /\ forall key c, normalizeRefreshKey (refresh auth) = Some key ->
               authCache w !! key = Some c -> accessTokenExpired now c = true)
    /\ projectContextPendingCache w' = projectContextPendingCache w
    /\ projectContextResultCache w' = projectContextResultCache w
    /\ auth_set_calls w' = auth_set_calls w.
Proof.
  intros now auth w. unfold resolveCachedAuth.
  destruct (normalizeRefreshKey (refresh auth)) as [key|] eqn:Ek.
  2:{ cbn [fst snd]. repeat split; try reflexivity; try discriminate; auto. }
  assert (Hwrite :
            forall k0, Some key = Some k0 ->
              authCache (with_authCache w (<[key := auth]> (authCache w))) !! k0 = Some auth
              /\ forall k, k <> k0 ->
                   authCache (with_authCache w (<[key := auth]> (authCache w))) !! k
                   = authCache w !! k).
  { intros k0 [= <-]. cbn [authCache with_authCache]. split.
    - apply lookup_insert_eq.
    - intros k Hk. now apply lookup_insert_ne. }
  destruct (authCache w !! key) as [cached|] eqn:Ec.
  - destruct (accessTokenExpired now auth) eqn:Ea; cbn [negb].
    + destruct (accessTokenExpired now cached) eqn:Ecd; cbn [negb fst snd].
      * split; [now left|]. split; [exact Hwrite|].
        split; [discriminate|]. split; [discriminate|].
        split; [|repeat split; reflexivity].
        intros _. split; [reflexivity|]. intros k0 c [= <-] Hc. congruence.
      * split; [right; eauto|]. split.
        { intros k0 [= <-]. split; [exact Ec|reflexivity]. }
        split; [discriminate|]. split; [discriminate|].
        split; [congruence|repeat split; reflexivity].
    + cbn [fst snd]. split; [now left|]. split; [exact Hwrite|].
      split; [discriminate|]. split; [reflexivity|].
      split; [congruence|repeat split; reflexivity].
  - cbn [fst snd]. split; [now left|]. split; [exact Hwrite|].
    split; [discriminate|]. split; [reflexivity|].
    split; [|repeat split; reflexivity].
    intros Ha. split; [exact Ha|]. intros k0 c [= <-] Hc. congruence.
Qed.

Lemma resolveCachedAuth_prefers_unexpired_witness :
  fst (resolveCachedAuth 0 Examples.fresh_auth
         (storeCachedAuth Examples.base_auth Examples.empty_world))
  = Examples.fresh_auth.
Proof.
  apply (proj1 (proj2 (proj2 (proj2
           (resolveCachedAuth_prefers_unexpired 0 Examples.fresh_auth
              (storeCachedAuth Examples.base_auth Examples.empty_world)))))).
  reflexivity.
Defined.

Lemma normalizeRefreshKey_truthy r key :
  normalizeRefreshKey r = Some key -> truthy_string r = true.
Proof.
  unfold normalizeRefreshKey. destruct r; [discriminate|reflexivity].
Qed.

(** X8. The auth cache composes as a cache should.  A snapshot cleared by
    its refresh string is not served again: resolving right after
    [clearCachedAuth(auth.refresh)] answers with the given record.  A
    stored snapshot that is still valid is served in place of an expired
    record with the same refresh key.  Clearing by a refresh string
    removes the entry of that key only; clearing without one empties the
    cache. *)
Theorem auth_cache_store_clear_resolve :
  (forall now auth w,
      fst (resolveCachedAuth now auth (clearCachedAuth (Some (refresh auth)) w)) = auth)
  /\ (forall now auth stored w key,
        normalizeRefreshKey (refresh stored) = Some key ->
        normalizeRefreshKey (refresh auth) = Some key ->
        accessTokenExpired now auth = true ->
        accessTokenExpired now stored = false ->
        fst (resolveCachedAuth now auth (storeCachedAuth stored w)) = stored)
  /\ (forall r key w,
        normalizeRefreshKey r = Some key ->
        authCache (clearCachedAuth (Some r) w) !! key = None
        /\ forall k, k <> key ->
             authCache (clearCachedAuth (Some r) w) !! k = authCache w !! k)
  /\ (forall w, authCache (clearCachedAuth None w) = ∅
                /\ authCache (clearCachedAuth (Some "") w) = ∅).
Proof.
  split; [|split; [|split]].
  - intros now auth w. unfold resolveCachedAuth.
    destruct (normalizeRefreshKey (refresh auth)) as [key|] eqn:Ek; [|reflexivity].
    unfold clearCachedAuth.
    rewrite (normalizeRefreshKey_truthy _ _ Ek), Ek. cbn [negb authCache with_authCache].
    rewrite lookup_delete_eq. reflexivity.
  - intros now auth stored w key Hs Ha Hexp Hvalid. unfold resolveCachedAuth, storeCachedAuth.
    rewrite Ha, Hs. cbn [authCache]. rewrite lookup_insert_eq, Hexp, Hvalid. reflexivity.
  - intros r key w Hk. unfold clearCachedAuth.
    rewrite (normalizeRefreshKey_truthy _ _ Hk), Hk. cbn [negb authCache with_authCache].
    split; [apply lookup_delete_eq|]. intros k Hne. now apply lookup_delete_ne.
  - intros w. split; reflexivity.
Qed.

Lemma auth_cache_store_clear_resolve_witness :
  fst (resolveCachedAuth 0 Examples.base_auth
         (storeCachedAuth Examples.fresh_auth Examples.empty_world))
  = Examples.fresh_auth
  /\ authCache (clearCachedAuth (Some " refresh-token|project-123 ")
                  (storeCachedAuth Examples.base_auth Examples.empty_world))
       !! "refresh-token|project-123" = None.
Proof.
  destruct auth_cache_store_clear_resolve as (_ & Hserve & Hclear & _).
  split.
  - apply (Hserve 0%Z Examples.base_auth Examples.fresh_auth Examples.empty_world
             "refresh-token|project-123"); reflexivity.
  - apply (Hclear " refresh-token|project-123 " "refresh-token|project-123"). reflexivity.
Defined.

End AuthCacheFacts.

(* ===================================================================== *)
(** * Properties of the retry bookkeeping and of the model family of a request *)
(* ===================================================================== *)

Section RetryFacts.
Import Codec Accounts Backoff Tools FetchWrapper.

Lemma counter_after_history i history st :
  default 0%Z (consecutive429 <$> fold_left (fun s o => record_outcome o s) history st !! i)
  = consecutive_429s i history (default 0%Z (consecutive429 <$> st !! i)).
Proof.
  revert st. induction history as [|o history IH]; intros st; [reflexivity|].
  cbn [fold_left consecutive_429s]. rewrite IH. f_equal.
  destruct o as [now j server | j]; cbn [record_outcome].
  - unfold getRateLimitDelay. cbn [snd].
    destruct (Z.eqb_spec j i) as [-> | Hne].
    + rewrite lookup_insert_eq. reflexivity.
    + rewrite lookup_insert_ne by assumption. reflexivity.
  - unfold resetRateLimitState.
    destruct (Z.eqb_spec j i) as [-> | Hne].
    + rewrite lookup_delete_eq. reflexivity.
    + rewrite lookup_delete_ne by assumption. reflexivity.
Qed.

Lemma consecutive_429s_nonneg i history count :
  (0 <= count)%Z -> (0 <= consecutive_429s i history count)%Z.
Proof.
  revert count. induction history as [|o history IH]; intros count Hc; [exact Hc|].
  destruct o as [now j server | j]; cbn [consecutive_429s]; apply IH;
    destruct (j =? i)%Z; lia.
Qed.

(** X9. The attempt number [getRateLimitDelay] hands out for an account
    is one more than the number of 429s recorded for that account since
    its last success, whatever happened to other accounts in between.
    Without a server hint the delay is [min(1h, 1000 * 2^n)] for the
    [n+1]-th consecutive 429; with one it is never below the hint nor
    below that backoff.  The call writes the counter of its own account
    only. *)
Theorem rate_limit_delay_counts_consecutive_429s :
  forall history now i server,
    let st := fold_left (fun s o => record_outcome o s) history ∅ in
    let r := fst (getRateLimitDelay now i server st) in
    let st' := snd (getRateLimitDelay now i server st) in
    let n := consecutive_429s i history 0 in
    attempt r = (n + 1)%Z
    /\ (server = None -> delayMs r = inject_Z (Z.min 3600000 (1000 * 2 ^ n)))
    /\ (forall s, server = Some s ->
          (s <= delayMs r)%Q
          /\ (inject_Z (Z.min 3600000 (1000 * 2 ^ n)) <= delayMs r)%Q)
    /\ (consecutive429 <$> st' !! i) = Some (n + 1)%Z
    /\ (forall j, j <> i -> st' !! j = st !! j).
Proof.
  intros history now i server st r st' n.
  assert (Hn : default 0%Z (consecutive429 <$> st !! i) = n).
  { subst st n. rewrite counter_after_history. now rewrite lookup_empty. }
  assert (Hpos : (0 <= n)%Z) by (apply consecutive_429s_nonneg; lia).
  assert (Hbackoff : computeExponentialBackoffMs_default (inject_Z (n + 1))
                     = inject_Z (Z.min 3600000 (1000 * 2 ^ n))).
  { rewrite backoff_closed_form, Qfloor_Z.
    replace (Z.max 1 (n + 1) - 1)%Z with n by lia. reflexivity. }
  subst r st'. unfold getRateLimitDelay. cbn [fst snd attempt delayMs]. rewrite Hn.
  split; [reflexivity|]. split.
  { intros ->. exact Hbackoff. }
  split.
  { intros s ->. rewrite Hbackoff. split; [apply Q.le_max_l|apply Q.le_max_r]. }
  split.
  { rewrite lookup_insert_eq. reflexivity. }
  intros j Hj. now apply lookup_insert_ne.
Qed.

Lemma rate_limit_delay_counts_consecutive_429s_witness :
  delayMs (fst (getRateLimitDelay 30 7 None
                  (fold_left (fun s o => record_outcome o s)
                     [RateLimited 10 7 None; RateLimited 15 2 None; RateLimited 20 7 None]
                     ∅)))
  = inject_Z 4000.
Proof.
  apply (proj1 (proj2 (rate_limit_delay_counts_consecutive_429s
                         [RateLimited 10 7 None; RateLimited 15 2 None; RateLimited 20 7 None]
                         30 7 None))).
  reflexivity.
Defined.

(** ** [sleepWithBackoff] *)

Lemma stepMs_bounds k : (3000 <= stepMs k <= 30000)%Z.
Proof.
  destruct k as [|[|[|[|[|k]]]]].
  - change (stepMs 0) with 3000%Z. lia.
  - change (stepMs 1) with 5000%Z. lia.
  - change (stepMs 2) with 10000%Z. lia.
  - change (stepMs 3) with 20000%Z. lia.
  - change (stepMs 4) with 30000%Z. lia.
  - change (stepMs (S (S (S (S (S k)))))) with 30000%Z. lia.
Qed.

Lemma sum_ms_app l1 l2 : sum_ms (l1 ++ l2) = (sum_ms l1 + sum_ms l2)%Z.
Proof.
  unfold sum_ms. induction l1 as [|x l1 IH]; cbn [app fold_right]; [reflexivity|].
  change ((x :: l1) ++ l2)%list with (x :: (l1 ++ l2))%list. cbn [fold_right].
  rewrite IH. lia.
Qed.

(** The loop from turn [stepIndex] on, with [remainingMs] left. *)
Lemma sleep_loop_spec fuel aborted :
  forall remainingMs stepIndex slept,
    (0 <= remainingMs)%Z ->
    (Z.to_nat remainingMs < fuel)%nat ->
    exists finished ws,
      sleep_loop fuel aborted remainingMs stepIndex slept = Some (finished, (slept ++ ws)%list)
      /\ (sum_ms ws <= remainingMs)%Z
      /\ (finished = true -> sum_ms ws = remainingMs)
      /\ (forall k w, ws !! k = Some w ->
            (0 < w <= stepMs (stepIndex + k))%Z
            /\ ((S k < length ws)%nat -> w = stepMs (stepIndex + k)))
      /\ (finished = true <->
          forall k, (k < length ws)%nat -> aborted (stepIndex + k)%nat = false).
Proof.
  induction fuel as [|fuel IH]; intros remainingMs stepIndex slept Hrem Hfuel; [lia|].
  cbn [sleep_loop].
  destruct (0 <? remainingMs)%Z eqn:Epos.
  2:{ apply Z.ltb_ge in Epos. exists true, []. rewrite app_nil_r.
      split; [reflexivity|]. cbn. split; [lia|]. split; [lia|].
      split; [intros k w Hk; destruct k; discriminate|].
      split; [intros _ k Hk; cbn in Hk; lia|reflexivity]. }
  apply Z.ltb_lt in Epos.
  pose proof (stepMs_bounds stepIndex) as Hstep.
  set (waitMs := Z.min remainingMs (stepMs stepIndex)).
  assert (Hwait : (0 < waitMs <= stepMs stepIndex)%Z) by (subst waitMs; lia).
  destruct (aborted stepIndex) eqn:Eab.
  - exists false, [waitMs]. split; [reflexivity|].
    split; [cbn; lia|]. split; [discriminate|].
    split.
    { intros [|k] w Hk; [|destruct k; discriminate].
      injection Hk as <-. rewrite Nat.add_0_r. split; [lia|]. cbn. lia. }
    split; [discriminate|].
    intros Hall. specialize (Hall 0%nat). rewrite Nat.add_0_r in Hall.
    rewrite Hall in Eab by (cbn; lia). discriminate.
  - destruct (IH (remainingMs - waitMs)%Z (S stepIndex) (slept ++ [waitMs])%list)
      as (finished & ws & Hrun & Hsum & Hfin & Hws & Hab); [lia|lia|].
    exists finished, (waitMs :: ws).
    split.
    { rewrite Hrun. now rewrite <- app_assoc. }
    split; [cbn [sum_ms fold_right]; unfold sum_ms in Hsum; lia|].
    split.
    { intros Hf. specialize (Hfin Hf). cbn [sum_ms fold_right]. unfold sum_ms in Hfin. lia. }
    split.
    { intros [|k] w Hk.
      - injection Hk as <-. rewrite Nat.add_0_r. split; [lia|].
        intros Hlen. cbn [length] in Hlen.
        (* a shorter wait would have ended the loop *)
        destruct ws as [|w1 ws']; [cbn in Hlen; lia|].
        destruct (Hws 0%nat w1 eq_refl) as ((Hw1 & _) & _).
        assert (Hs : (0 < sum_ms (w1 :: ws'))%Z).
        { cbn [sum_ms fold_right].
          assert (Hnn : (0 <= fold_right Z.add 0 ws')%Z).
          { clear -Hws. assert (Hall : forall k w, ws' !! k = Some w -> (0 < w)%Z).
            { intros k w Hk. destruct (Hws (S k) w Hk) as ((H1 & _) & _). exact H1. }
            clear Hws. induction ws' as [|x l IHl]; cbn [fold_right]; [lia|].
            pose proof (Hall 0%nat x eq_refl).
            assert (0 <= fold_right Z.add 0 l)%Z
              by (apply IHl; intros k w Hk; apply (Hall (S k) w Hk)).
            lia. }
          lia. }
        subst waitMs. lia.
      - cbn [lookup list_lookup] in Hk. destruct (Hws k w Hk) as (Hb & Hl).
        replace (stepIndex + S k)%nat with (S stepIndex + k)%nat by lia.
        split; [exact Hb|]. intros Hlen. apply Hl. cbn [length] in Hlen. lia. }
    rewrite Hab. split.
    + intros Hall [|k] Hk.
      * now rewrite Nat.add_0_r.
      * replace (stepIndex + S k)%nat with (S stepIndex + k)%nat by lia.
        apply Hall. cbn [length] in Hk. lia.
    + intros Hall k Hk.
      replace (S stepIndex + k)%nat with (stepIndex + S k)%nat by lia.
      apply Hall. cbn [length]. lia.
Qed.

(** X10. Given fuel for it, [sleepWithBackoff] returns.  If the signal
    never fires it sleeps exactly [max(0, totalMs)] in all; if it fires,
    the loop stops at that sleep having asked for no more than the
    total.  Every sleep is positive and no longer than the step of its
    turn (3 s, 5 s, 10 s, 20 s, then 30 s for good), and only the last
    one can be shorter than its step. *)
Theorem sleepWithBackoff_sleeps_the_total :
  forall totalMs fuel aborted,
    (Z.to_nat (Z.max 0 totalMs) < fuel)%nat ->
    exists finished waits,
      sleepWithBackoff fuel aborted totalMs = Some (finished, waits)
      /\ (sum_ms waits <= Z.max 0 totalMs)%Z
      /\ (finished = true -> sum_ms waits = Z.max 0 totalMs)
      /\ (forall k w, waits !! k = Some w ->
            (0 < w <= stepMs k)%Z /\ ((S k < length waits)%nat -> w = stepMs k))
      /\ (finished = true <-> forall k, (k < length waits)%nat -> aborted k = false).
Proof.
  intros totalMs fuel aborted Hfuel. unfold sleepWithBackoff.
  destruct (sleep_loop_spec fuel aborted (Z.max 0 totalMs) 0 [])
    as (finished & ws & Hrun & Hsum & Hfin & Hws & Hab); [lia|exact Hfuel|].
  exists finished, ws. rewrite Hrun. cbn [app].
  split; [reflexivity|]. split; [exact Hsum|]. split; [exact Hfin|].
  split; [exact Hws|exact Hab].
Qed.

Lemma sleepWithBackoff_sleeps_the_total_witness :
  exists finished waits,
    sleepWithBackoff 3201 (fun _ => false) 3200 = Some (finished, waits)
    /\ (finished = true -> sum_ms waits = 3200%Z).
Proof.
  destruct (sleepWithBackoff_sleeps_the_total 3200 3201 (fun _ => false))
    as (finished & waits & Hrun & _ & Hfin & _); [cbn; lia|].
  exists finished, waits. split; [exact Hrun|exact Hfin].
Defined.

End RetryFacts.

Section RetryAfterFacts.
Import Codec Accounts Tools FetchWrapper.

Lemma digits_value_digit c rest acc seen :
  is_digit c = true ->
  digits_value (String c rest) acc seen
  = digits_value rest (10 * acc + (Z.of_nat (nat_of_ascii c) - 48))%Z true.
Proof. intros Hc. cbn [digits_value]. now rewrite Hc. Qed.

Lemma digits_value_uint d :
  forall acc, (0 <= acc)%Z ->
    digits_value (NilEmpty.string_of_uint d) acc true
    = Some (Z.of_nat (Nat.of_uint_acc d (Z.to_nat acc))).
Proof.
  induction d as [|d IH|d IH|d IH|d IH|d IH|d IH|d IH|d IH|d IH|d IH]; intros acc Hacc;
    cbn [NilEmpty.string_of_uint Nat.of_uint_acc].
  - cbn [digits_value]. now rewrite Z2Nat.id.
  - rewrite digits_value_digit by reflexivity.
    change (Z.of_nat (nat_of_ascii "0") - 48)%Z with 0%Z.
    rewrite IH by lia. rewrite Nat.tail_mul_spec.
    replace (Z.to_nat (10 * acc + 0)) with (0 + 10 * Z.to_nat acc)%nat by lia.
    reflexivity.
  - rewrite digits_value_digit by reflexivity.
    change (Z.of_nat (nat_of_ascii "1") - 48)%Z with 1%Z.
    rewrite IH by lia. rewrite Nat.tail_mul_spec.
    replace (Z.to_nat (10 * acc + 1)) with (1 + 10 * Z.to_nat acc)%nat by lia.
    reflexivity.
  - rewrite digits_value_digit by reflexivity.
    change (Z.of_nat (nat_of_ascii "2") - 48)%Z with 2%Z.
    rewrite IH by lia. rewrite Nat.tail_mul_spec.
    replace (Z.to_nat (10 * acc + 2)) with (2 + 10 * Z.to_nat acc)%nat by lia.
    reflexivity.
  - rewrite digits_value_digit by reflexivity.
    change (Z.of_nat (nat_of_ascii "3") - 48)%Z with 3%Z.
    rewrite IH by lia. rewrite Nat.tail_mul_spec.
    replace (Z.to_nat (10 * acc + 3)) with (3 + 10 * Z.to_nat acc)%nat by lia.
    reflexivity.
  - rewrite digits_value_digit by reflexivity.
    change (Z.of_nat (nat_of_ascii "4") - 48)%Z with 4%Z.
    rewrite IH by lia. rewrite Nat.tail_mul_spec.
    replace (Z.to_nat (10 * acc + 4)) with (4 + 10 * Z.to_nat acc)%nat by lia.
    reflexivity.
  - rewrite digits_value_digit by reflexivity.
    change (Z.of_nat (nat_of_ascii "5") - 48)%Z with 5%Z.
    rewrite IH by lia. rewrite Nat.tail_mul_spec.
    replace (Z.to_nat (10 * acc + 5)) with (5 + 10 * Z.to_nat acc)%nat by lia.
    reflexivity.
  - rewrite digits_value_digit by reflexivity.
    change (Z.of_nat (nat_of_ascii "6") - 48)%Z with 6%Z.
    rewrite IH by lia. rewrite Nat.tail_mul_spec.
    replace (Z.to_nat (10 * acc + 6)) with (6 + 10 * Z.to_nat acc)%nat by lia.
    reflexivity.
  - rewrite digits_value_digit by reflexivity.
    change (Z.of_nat (nat_of_ascii "7") - 48)%Z with 7%Z.
    rewrite IH by lia. rewrite Nat.tail_mul_spec.
    replace (Z.to_nat (10 * acc + 7)) with (7 + 10 * Z.to_nat acc)%nat by lia.
    reflexivity.
  - rewrite digits_value_digit by reflexivity.
    change (Z.of_nat (nat_of_ascii "8") - 48)%Z with 8%Z.
    rewrite IH by lia. rewrite Nat.tail_mul_spec.
    replace (Z.to_nat (10 * acc + 8)) with (8 + 10 * Z.to_nat acc)%nat by lia.
    reflexivity.
  - rewrite digits_value_digit by reflexivity.
    change (Z.of_nat (nat_of_ascii "9") - 48)%Z with 9%Z.
    rewrite IH by lia. rewrite Nat.tail_mul_spec.
    replace (Z.to_nat (10 * acc + 9)) with (9 + 10 * Z.to_nat acc)%nat by lia.
    reflexivity.
Qed.

Lemma to_uint_nonnil n : Nat.to_uint n <> Decimal.Nil.
Proof.
  rewrite <- (Unsigned.of_to n), Unsigned.to_of. unfold Decimal.unorm.
  destruct (Decimal.nzhead _); discriminate.
Qed.

(** [parseInt] reads a number printed in decimal back. *)
Lemma parseInt10_decimal n : parseInt10 (index_key n) = Some (Z.of_nat n).
Proof.
  unfold index_key.
  pose proof (to_uint_nonnil n) as Hnn.
  pose proof (digits_value_uint (Nat.to_uint n) 0 ltac:(lia)) as Hval.
  change (Z.to_nat 0) with 0%nat in Hval.
  change (Nat.of_uint_acc (Nat.to_uint n) 0) with (Nat.of_uint (Nat.to_uint n)) in Hval.
  rewrite Unsigned.of_to in Hval.
  destruct (Nat.to_uint n) as [|d|d|d|d|d|d|d|d|d|d]; [congruence|..];
    exact Hval.
Qed.

Lemma index_key_truthy n : truthy_string (index_key n) = true.
Proof.
  unfold index_key. pose proof (to_uint_nonnil n) as Hnn.
  destruct (Nat.to_uint n); [congruence|..]; reflexivity.
Qed.

(** X11. A retry delay read from the response headers is never negative
    and never above 24 hours.  A [retry-after-ms] header of [n] in
    decimal gives [min(n, 24h)] whatever [retry-after] says; without
    [retry-after-ms], a [retry-after] of [n] seconds gives
    [min(1000 n, 24h)]; a [retry-after-ms] that is empty, not a number
    or negative is passed over for [retry-after]. *)
Theorem retry_after_headers_bounded :
  (forall h1 h2 r, parseRetryAfterMs h1 h2 = Some r ->
                   (0 <= r <= RATE_LIMIT_SERVER_RETRY_MAX_MS)%Z)
  /\ (forall n h2,
        parseRetryAfterMs (Some (index_key n)) h2
        = Some (Z.min (Z.of_nat n) RATE_LIMIT_SERVER_RETRY_MAX_MS))
  /\ (forall n,
        parseRetryAfterMs None (Some (index_key n))
        = Some (Z.min (Z.of_nat n * 1000) RATE_LIMIT_SERVER_RETRY_MAX_MS))
  /\ (forall h1 h2,
        h1 = "" \/ parseInt10 h1 = None \/ (exists v, parseInt10 h1 = Some v /\ (v < 0)%Z) ->
        parseRetryAfterMs (Some h1) h2 = parseRetryAfterMs None h2).
Proof.
  assert (Hmax : (0 < RATE_LIMIT_SERVER_RETRY_MAX_MS)%Z) by reflexivity.
  assert (Hseconds : forall h2 r, parseRetryAfterMs None h2 = Some r ->
                                  (0 <= r <= RATE_LIMIT_SERVER_RETRY_MAX_MS)%Z).
  { intros h2 r. unfold parseRetryAfterMs.
    destruct h2 as [h|]; [|discriminate].
    destruct (truthy_string h); [|discriminate].
    destruct (parseInt10 h) as [v|]; [|discriminate].
    destruct (0 <=? v)%Z eqn:Ev; [|discriminate].
    apply Z.leb_le in Ev. intros [= <-]. lia. }
  split; [|split; [|split]].
  - intros h1 h2 r. destruct h1 as [h|]; [|apply Hseconds].
    unfold parseRetryAfterMs. fold (parseRetryAfterMs None h2).
    destruct (truthy_string h); [|apply Hseconds].
    destruct (parseInt10 h) as [v|]; [|apply Hseconds].
    destruct (0 <=? v)%Z eqn:Ev; [|apply Hseconds].
    apply Z.leb_le in Ev. intros [= <-]. lia.
  - intros n h2. unfold parseRetryAfterMs.
    rewrite index_key_truthy, parseInt10_decimal.
    replace (0 <=? Z.of_nat n)%Z with true by (symmetry; apply Z.leb_le; lia).
    reflexivity.
  - intros n. unfold parseRetryAfterMs.
    rewrite index_key_truthy, parseInt10_decimal.
    replace (0 <=? Z.of_nat n)%Z with true by (symmetry; apply Z.leb_le; lia).
    reflexivity.
  - intros h1 h2 Hbad. unfold parseRetryAfterMs. fold (parseRetryAfterMs None h2).
    destruct Hbad as [-> | [Hnan | (v & Hv & Hneg)]]; [reflexivity| |].
    + rewrite Hnan. now destruct (truthy_string h1).
    + rewrite Hv. replace (0 <=? v)%Z with false by (symmetry; apply Z.leb_gt; lia).
      now destruct (truthy_string h1).
Qed.

Lemma retry_after_headers_bounded_witness :
  parseRetryAfterMs (Some "soon") (Some "120") = Some 120000%Z
  /\ parseRetryAfterMs (Some "-5") (Some " 7 seconds") = Some 7000%Z.
Proof.
  destruct retry_after_headers_bounded as (_ & _ & Hsec & Hskip).
  split.
  - rewrite (Hskip "soon" (Some "120")) by (right; left; reflexivity).
    exact (Hsec 120%nat).
  - rewrite (Hskip "-5" (Some " 7 seconds")).
    + reflexivity.
    + right. right. exists (-5)%Z. split; [reflexivity|lia].
Defined.

End RetryAfterFacts.

Section FamilyFacts.
Import Codec Accounts Tools FetchWrapper Request.

Lemma strip_prefix_app p s : strip_prefix p (p ++ s) = Some s.
Proof.
  induction p as [|a p IH]; [reflexivity|].
  rewrite append_cons. cbn [strip_prefix]. now rewrite Ascii.eqb_refl.
Qed.

Lemma strip_prefix_prefix p s t :
  (String.length p <= String.length s)%nat ->
  strip_prefix p (s ++ t) <> None -> String.prefix p s = true.
Proof.
  revert s. induction p as [|a p IH]; intros s Hlen Hsome.
  - now destruct s.
  - destruct s as [|b s]; [cbn in Hlen; lia|].
    rewrite append_cons in Hsome. cbn [strip_prefix] in Hsome. cbn [String.prefix].
    destruct (Ascii.eqb_spec a b) as [-> | Hne]; [|congruence].
    destruct (ascii_dec b b) as [_|Hbb]; [|congruence].
    apply IH; [cbn in Hlen; lia|exact Hsome].
Qed.

Lemma length_append (a b : string) :
  String.length (a ++ b) = (String.length a + String.length b)%nat.
Proof. induction a as [|c a IH]; [reflexivity|]. rewrite append_cons. cbn. now rewrite IH. Qed.

(** No [/models/] starts inside [base] when none occurs in
    [base ++ "/models"]. *)
Lemma no_match_in_base c base X :
  includes "/models/" (String c base ++ "/models") = false ->
  strip_prefix "/models/" (String c base ++ "/models/" ++ X) = None
  /\ includes "/models/" (base ++ "/models") = false.
Proof.
  intros Hinc. rewrite append_cons in Hinc. cbn [includes] in Hinc.
  apply orb_false_iff in Hinc as (Hpre & Hrest). split; [|exact Hrest].
  destruct (strip_prefix "/models/" (String c base ++ "/models/" ++ X)) eqn:E; [|reflexivity].
  exfalso.
  assert (Hp : String.prefix "/models/" (String c base ++ "/models") = true).
  { apply (strip_prefix_prefix _ _ ("/" ++ X)).
    - rewrite length_append. cbn. lia.
    - rewrite append_assoc.
      change ("/models" ++ "/" ++ X) with ("/models/" ++ X). congruence. }
  rewrite append_cons in Hp. congruence.
Qed.

Lemma span_all keep model tail :
  all_chars keep model = true ->
  match tail with String c _ => keep c = false | EmptyString => True end ->
  span keep (model ++ tail) = (model, tail).
Proof.
  intros Hall Htail. induction model as [|c model IH].
  - rewrite append_nil_l. destruct tail as [|d tail]; [reflexivity|].
    cbn [span]. now rewrite Htail.
  - cbn [all_chars] in Hall. apply andb_true_iff in Hall as (Hc & Hall).
    rewrite append_cons. cbn [span]. rewrite Hc, (IH Hall). reflexivity.
Qed.

Lemma extract_skips_base base X :
  includes "/models/" (base ++ "/models") = false ->
  extractModelFromUrl (base ++ "/models/" ++ X) = extractModelFromUrl ("/models/" ++ X).
Proof.
  induction base as [|c base IH]; intros Hinc; [reflexivity|].
  destruct (no_match_in_base c base X Hinc) as (Hnone & Hrest).
  rewrite append_cons in *.
  change (extractModelFromUrl (String c (base ++ "/models/" ++ X)))
    with (match strip_prefix "/models/" (String c (base ++ "/models/" ++ X)) with
          | Some after =>
              match fst (span model_char after) with
              | EmptyString => extractModelFromUrl (base ++ "/models/" ++ X)
              | model => Some model
              end
          | None => extractModelFromUrl (base ++ "/models/" ++ X)
          end).
  rewrite Hnone. now apply IH.
Qed.

Lemma match_skips_base base X :
  includes "/models/" (base ++ "/models") = false ->
  match_model_action (base ++ "/models/" ++ X) = match_model_action ("/models/" ++ X).
Proof.
  induction base as [|c base IH]; intros Hinc; [reflexivity|].
  destruct (no_match_in_base c base X Hinc) as (Hnone & Hrest).
  rewrite append_cons in *.
  change (match_model_action (String c (base ++ "/models/" ++ X)))
    with (match strip_prefix "/models/" (String c (base ++ "/models/" ++ X)) with
          | Some after =>
              let (rawModel, tail) := span (fun c => negb (Ascii.eqb c ":")) after in
              match rawModel, tail with
              | String _ _, String _ afterColon =>
                  if starts_with_word_char afterColon
                  then Some (rawModel, fst (span word_char afterColon))
                  else match_model_action (base ++ "/models/" ++ X)
              | _, _ => match_model_action (base ++ "/models/" ++ X)
              end
          | None => match_model_action (base ++ "/models/" ++ X)
          end).
  rewrite Hnone. now apply IH.
Qed.

Lemma model_chars_no_colon model :
  all_chars model_char model = true ->
  all_chars (fun c => negb (Ascii.eqb c ":")) model = true.
Proof.
  induction model as [|c model IH]; [reflexivity|]. cbn [all_chars].
  intros H. apply andb_true_iff in H as (Hc & Hall). rewrite (IH Hall), andb_true_r.
  unfold model_char in Hc. destruct (Ascii.eqb c ":"); [discriminate|reflexivity].
Qed.

(** An alias or a fallback never moves a model to another family. *)
Lemma resolveModelName_family rawModel effective :
  resolveModelName rawModel = Some effective ->
  getModelFamily effective = getModelFamily rawModel.
Proof.
  unfold resolveModelName.
  destruct (existsb (String.eqb rawModel) OBJECT_PROTOTYPE_KEYS); [discriminate|].
  unfold MODEL_ALIASES, MODEL_FALLBACKS. cbn [table_get].
  repeat match goal with
         | |- context [(rawModel =? ?k)%string] =>
             destruct (String.eqb_spec rawModel k) as [-> | _];
             [intros [= <-]; vm_compute; reflexivity|]
         end.
  cbn [default]. now intros [= <-].
Qed.

(** X12. One request, one model family.  For a URL
    [base/models/<model>:<action>...] whose first [/models/] is the one
    shown, the family the fetch wrapper uses for rate limits is that of
    [<model>], the request preparation reads the same [<model>] as the
    raw model, and the family it puts in the transform context, that of
    the effective model after aliases and fallbacks, is the same
    family. *)
Theorem url_family_is_context_family :
  forall base model tail effective,
    includes "/models/" (base ++ "/models") = false ->
    model <> "" ->
    all_chars model_char model = true ->
    starts_with_word_char tail = true ->
    resolveModelName model = Some effective ->
    let url := base ++ "/models/" ++ model ++ ":" ++ tail in
    extractModelFromUrl url = Some model
    /\ getModelFamilyFromUrl url = getModelFamily model
    /\ match_model_action url = Some (model, fst (span word_char tail))
    /\ getModelFamily effective = getModelFamily model
    /\ context_family url = Some (getModelFamilyFromUrl url).
Proof.
  intros base model tail effective Hbase Hne Hchars Hword Hres url.
  assert (Hextract : extractModelFromUrl url = Some model).
  { subst url. rewrite extract_skips_base by assumption.
    change ("/models/" ++ model ++ ":" ++ tail)
      with (String "/" ("models/" ++ model ++ ":" ++ tail)).
    cbn [extractModelFromUrl].
    change (String "/" ("models/" ++ model ++ ":" ++ tail))
      with ("/models/" ++ (model ++ ":" ++ tail)).
    rewrite strip_prefix_app.
    change (":" ++ tail) with (String ":" tail).
    rewrite (span_all model_char model (String ":" tail) Hchars) by reflexivity.
    cbn [fst]. destruct model; [congruence|reflexivity]. }
  assert (Hmatch : match_model_action url = Some (model, fst (span word_char tail))).
  { subst url. rewrite match_skips_base by assumption.
    change ("/models/" ++ model ++ ":" ++ tail)
      with (String "/" ("models/" ++ model ++ ":" ++ tail)).
    cbn [match_model_action].
    change (String "/" ("models/" ++ model ++ ":" ++ tail))
      with ("/models/" ++ (model ++ ":" ++ tail)).
    rewrite strip_prefix_app.
    change (":" ++ tail) with (String ":" tail).
    rewrite (span_all (fun c => negb (Ascii.eqb c ":")) model (String ":" tail))
      by (try reflexivity; now apply model_chars_no_colon).
    destruct model; [congruence|]. now rewrite Hword. }
  assert (Hfamily : getModelFamilyFromUrl url = getModelFamily model).
  { unfold getModelFamilyFromUrl. now rewrite Hextract. }
  pose proof (resolveModelName_family model effective Hres) as Heff.
  repeat split; try assumption.
  unfold context_family. rewrite Hmatch, Hres. cbn. now rewrite Hfamily, Heff.
Qed.

Lemma url_family_is_context_family_witness :
  getModelFamilyFromUrl
    "https://generativelanguage.googleapis.com/v1beta/models/gemini-claude-sonnet-4-5:generateContent"
  = claude
  /\ context_family
       "https://generativelanguage.googleapis.com/v1beta/models/gemini-claude-sonnet-4-5:generateContent"
     = Some claude.
Proof.
  destruct (url_family_is_context_family
              "https://generativelanguage.googleapis.com/v1beta"
              "gemini-claude-sonnet-4-5" "generateContent" "claude-sonnet-4-5")
    as (_ & Hfam & _ & _ & Hctx); try reflexivity; try discriminate.
  split; [exact Hfam|exact (eq_trans Hctx (f_equal Some Hfam))].
Defined.

End FamilyFacts.

(* ===================================================================== *)
(** * Further properties of the account store *)
(* ===================================================================== *)

Section StorageShapeFacts.
Import JS Storage.

Lemma migrateV2ToV3_shape x s :
  migrateV2ToV3 x = Normal s ->
  exists l, s = JObj [("version", JInt 3); ("accounts", JArr l);
                      ("activeIndex", prop x "activeIndex")].
Proof.
  unfold migrateV2ToV3.
  destruct x; try discriminate;
    cbn [getProp mbind Completion_bind cbind];
    try (unfold array_map; discriminate).
  destruct (lookup_field "accounts" fields); cbn [array_map]; try discriminate.
  unfold mbind, Completion_bind, cbind.
  destruct (cmap migrateAccountV2 items); [|discriminate].
  intros [= <-]. eauto.
Qed.

Lemma integer_in_range_cases (v : JSValue) (n : nat) :
  negb (typeof_number v) || negb (isInteger v) = false ->
  out_of_bounds v n = false ->
  exists q, v = JNum q /\ isInteger (JNum q) = true
            /\ (0 <= q)%Q /\ (q < inject_Z (Z.of_nat n))%Q.
Proof.
  intros Hinteger Hb. destruct v; try discriminate. exists q.
  cbn [typeof_number negb orb] in Hinteger. apply negb_false_iff in Hinteger.
  split; [reflexivity|]. split; [exact Hinteger|].
  cbn [out_of_bounds] in Hb. apply orb_false_iff in Hb as (H0 & Hn).
  apply negb_false_iff, Qle_bool_iff in H0. split; [exact H0|].
  apply Qnot_le_lt. intros Hle. apply Qle_bool_iff in Hle. congruence.
Qed.

(** The repairs of [activeIndex] on an object whose [accounts] is an
    array: they return, touch nothing else, and keep the index they find
    if it is an integer that is a position of the array; any other is
    replaced by 0. *)
Lemma normalizeActiveIndex_value fs0 l (st : FS) :
  lookup_field "accounts" fs0 = JArr l ->
  exists storage',
    normalizeActiveIndex (JObj fs0) st = (Normal storage', st)
    /\ (forall k, k <> "activeIndex" -> prop storage' k = lookup_field k fs0)
    /\ prop storage' "activeIndex"
       = (let found := lookup_field "activeIndex" fs0 in
          if typeof_number found && isInteger found
             && negb (out_of_bounds found (length l))
          then found else JInt 0).
Proof.
  intros Hacc. unfold normalizeActiveIndex. cbn [getProp]. rewrite bind_lift_normal.
  cbv zeta.
  assert (Hzero : forall fs1,
             lookup_field "accounts" fs1 = JArr l ->
             lookup_field "activeIndex" fs1 = JInt 0 ->
             (forall k, k <> "activeIndex" -> lookup_field k fs1 = lookup_field k fs0) ->
             exists storage',
               (if out_of_bounds (JInt 0) (length l)
                then lift (setProp (JObj fs1) "activeIndex" (JInt 0))
                else ret (JObj fs1)) st = (Normal storage', st)
               /\ (forall k, k <> "activeIndex" -> prop storage' k = lookup_field k fs0)
               /\ prop storage' "activeIndex" = JInt 0).
  { intros fs1 Ha1 Hai1 Hk1.
    destruct (out_of_bounds (JInt 0) (length l)).
    - cbn [setProp]. eexists. split; [reflexivity|]. split.
      + intros k Hk. cbn [prop getProp]. rewrite lookup_set_field_ne by congruence.
        now apply Hk1.
      + cbn [prop getProp]. apply lookup_set_field_eq.
    - eexists. split; [reflexivity|]. split.
      + intros k Hk. cbn [prop getProp]. now apply Hk1.
      + cbn [prop getProp]. exact Hai1. }
  destruct (negb (typeof_number (lookup_field "activeIndex" fs0))
            || negb (isInteger (lookup_field "activeIndex" fs0))) eqn:Eint.
  - assert (Hcond : typeof_number (lookup_field "activeIndex" fs0)
                    && isInteger (lookup_field "activeIndex" fs0) = false).
    { destruct (typeof_number _), (isInteger _); try reflexivity. discriminate Eint. }
    rewrite Hcond. cbn [andb].
    cbn [setProp]. rewrite bind_lift_normal. cbn [getProp].
    rewrite !bind_lift_normal, lookup_set_field_eq.
    rewrite lookup_set_field_ne by discriminate. rewrite Hacc.
    cbn [array_length]. rewrite bind_lift_normal.
    apply Hzero.
    + rewrite lookup_set_field_ne by discriminate. exact Hacc.
    + apply lookup_set_field_eq.
    + intros k Hk. apply lookup_set_field_ne. congruence.
  - assert (Hcond : typeof_number (lookup_field "activeIndex" fs0)
                    && isInteger (lookup_field "activeIndex" fs0) = true).
    { destruct (typeof_number _), (isInteger _); try reflexivity; discriminate Eint. }
    rewrite Hcond. cbn [andb].
    rewrite bind_ret. cbn [getProp]. rewrite !bind_lift_normal, Hacc.
    cbn [array_length]. rewrite bind_lift_normal.
    destruct (out_of_bounds (lookup_field "activeIndex" fs0) (length l)) eqn:Eb;
      cbn [negb].
    + cbn [setProp]. eexists. split; [reflexivity|]. split.
      * intros k Hk. cbn [prop getProp]. apply lookup_set_field_ne. congruence.
      * cbn [prop getProp]. apply lookup_set_field_eq.
    + eexists. split; [reflexivity|]. split; reflexivity.
Qed.

Lemma kept_index_is_position v n :
  exists q,
    (if typeof_number v && isInteger v && negb (out_of_bounds v n) then v else JInt 0)
    = JNum q
    /\ isInteger (JNum q) = true
    /\ (0 <= q)%Q
    /\ ((q < inject_Z (Z.of_nat n))%Q \/ q = inject_Z 0).
Proof.
  destruct (typeof_number v && isInteger v && negb (out_of_bounds v n)) eqn:E.
  - apply andb_true_iff in E as (E & Hb). apply andb_true_iff in E as (Hn & Hi).
    apply negb_true_iff in Hb.
    destruct (integer_in_range_cases v n) as (q & -> & Hq & H0 & Hlt); [|exact Hb|].
    + now rewrite Hn, Hi.
    + exists q. auto.
  - exists (inject_Z 0). split; [reflexivity|]. split; [apply isInteger_JInt|].
    split; [apply Qle_refl|now right].
Qed.

(** The same at a stored index that is an integer. *)
Lemma kept_index_integer i n :
  (if typeof_number (JInt i) && isInteger (JInt i) && negb (out_of_bounds (JInt i) n)
   then JInt i else JInt 0)
  = JInt (if (0 <=? i)%Z && (i <? Z.of_nat n)%Z then i else 0).
Proof.
  rewrite isInteger_JInt. cbn [typeof_number JInt andb out_of_bounds].
  change (Qle_bool 0) with (Qle_bool (inject_Z 0)).
  destruct (0 <=? i)%Z eqn:E0.
  - apply Z.leb_le in E0.
    replace (Qle_bool (inject_Z 0) (inject_Z i)) with true
      by (symmetry; apply Qle_bool_iff; rewrite <- Zle_Qle; exact E0).
    cbn [negb orb andb].
    destruct (i <? Z.of_nat n)%Z eqn:En.
    + apply Z.ltb_lt in En.
      replace (Qle_bool (inject_Z (Z.of_nat n)) (inject_Z i)) with false; [reflexivity|].
      symmetry. apply not_true_is_false. intros Hle.
      apply Qle_bool_iff in Hle. rewrite <- Zle_Qle in Hle. lia.
    + apply Z.ltb_ge in En.
      replace (Qle_bool (inject_Z (Z.of_nat n)) (inject_Z i)) with true; [reflexivity|].
      symmetry. apply Qle_bool_iff. rewrite <- Zle_Qle. exact En.
  - apply Z.leb_gt in E0.
    replace (Qle_bool (inject_Z 0) (inject_Z i)) with false; [reflexivity|].
    symmetry. apply not_true_is_false. intros Hle.
    apply Qle_bool_iff in Hle. rewrite <- Zle_Qle in Hle. lia.
Qed.

Lemma migrateV1ToV2_activeIndex x v2 :
  migrateV1ToV2 x = Normal v2 -> prop v2 "activeIndex" = prop x "activeIndex".
Proof.
  unfold migrateV1ToV2.
  destruct x; try discriminate;
    cbn [getProp mbind Completion_bind cbind];
    try (unfold array_map; discriminate).
  destruct (lookup_field "accounts" fields); cbn [array_map]; try discriminate.
  unfold mbind, Completion_bind, cbind.
  destruct (cmap migrateAccountV1 items); [|discriminate].
  intros [= <-]. reflexivity.
Qed.

Section LoadShapeFacts.
Context `{JSON_API}.

(** What the version dispatch hands on is an object of version 3 whose
    [accounts] is an array. *)
Lemma chooseStorage_shape data st storage st' :
  isArray (prop data "accounts") = true ->
  chooseStorage data (prop data "version") st = (Normal (Some storage), st') ->
  exists fs0 l,
    storage = JObj fs0
    /\ lookup_field "accounts" fs0 = JArr l
    /\ strict_eq_num (lookup_field "version" fs0) 3 = true
    /\ lookup_field "activeIndex" fs0 = prop data "activeIndex".
Proof.
  intros Harr. unfold chooseStorage.
  assert (Hbuilt : forall l ai,
             ai = prop data "activeIndex" ->
             exists fs0 l0,
               JObj [("version", JInt 3); ("accounts", JArr l); ("activeIndex", ai)]
               = JObj fs0
               /\ lookup_field "accounts" fs0 = JArr l0
               /\ strict_eq_num (lookup_field "version" fs0) 3 = true
               /\ lookup_field "activeIndex" fs0 = prop data "activeIndex").
  { intros l ai ->. eexists; eexists. split; [reflexivity|].
    split; [reflexivity|]. split; reflexivity. }
  destruct (strict_eq_num (prop data "version") 1).
  - intros Hrun.
    apply bind_inv in Hrun as [(v2 & st1 & Hv2 & Hrun) | (e & _ & Habs)]; [|discriminate].
    apply bind_inv in Hrun as [(s & st2 & Hm & Hrun) | (e & _ & Habs)]; [|discriminate].
    apply bind_inv in Hrun as [(u & st3 & _ & Hrun) | (e & _ & Habs)]; [|discriminate].
    unfold ret in Hrun. injection Hrun as <- <-.
    unfold lift in Hm. injection Hm as Hm _.
    unfold lift in Hv2. injection Hv2 as Hv2 _.
    apply migrateV2ToV3_shape in Hm as (l & ->). apply Hbuilt.
    now apply migrateV1ToV2_activeIndex.
  - destruct (strict_eq_num (prop data "version") 2).
    + intros Hrun.
      apply bind_inv in Hrun as [(s & st2 & Hm & Hrun) | (e & _ & Habs)]; [|discriminate].
      apply bind_inv in Hrun as [(u & st3 & _ & Hrun) | (e & _ & Habs)]; [|discriminate].
      unfold ret in Hrun. injection Hrun as <- <-.
      unfold lift in Hm. injection Hm as Hm _.
      apply migrateV2ToV3_shape in Hm as (l & ->). now apply Hbuilt.
    + destruct (strict_eq_num (prop data "version") 3) eqn:E3; [|discriminate].
      unfold ret. intros [= <- <-].
      destruct data as [| | | | | |fs0]; try discriminate Harr.
      cbn [prop getProp] in *.
      destruct (lookup_field "accounts" fs0) as [| | | | |l|] eqn:Ea; try discriminate Harr.
      exists fs0, l. split; [reflexivity|]. split; [exact Ea|].
      split; [exact E3|reflexivity].
Qed.

(** X13. Whatever document [loadAccounts] returns is a version-3 object
    whose [accounts] is an array, and its [activeIndex] is the one of
    the stored document (the file's text, parsed) if that one is an
    integer that is a position of the returned array, and 0 otherwise:
    a stored index that is missing, not a number, fractional, negative
    or too large comes back as 0, any other comes back as it is. *)
Theorem loadAccounts_result_is_normalized :
  forall fs d fs',
    loadAccounts fs = (Normal (Some d), fs') ->
    exists content data l q,
      file fs = FileText content
      /\ JSON_parse content = Some data
      /\ prop d "accounts" = JArr l
      /\ strict_eq_num (prop d "version") 3 = true
      /\ prop d "activeIndex" = JNum q
      /\ isInteger (JNum q) = true
      /\ (0 <= q)%Q
      /\ ((q < inject_Z (Z.of_nat (length l)))%Q \/ q = inject_Z 0)
      /\ prop d "activeIndex"
         = (let stored := prop data "activeIndex" in
            if typeof_number stored && isInteger stored
               && negb (out_of_bounds stored (length l))
            then stored else JInt 0)
      /\ (forall i, prop data "activeIndex" = JInt i ->
            prop d "activeIndex"
            = JInt (if (0 <=? i)%Z && (i <? Z.of_nat (length l))%Z then i else 0))
      /\ (typeof_number (prop data "activeIndex") = false ->
          prop d "activeIndex" = JInt 0).
Proof.
  intros fs d fs' Hload.
  assert (Htry : loadAccounts_try fs = (Normal (Some d), fs')).
  { unfold loadAccounts in Hload.
    destruct (loadAccounts_try fs) as [[r|e] fs1]; [exact Hload|].
    destruct e as [code| |]; [destruct (code =? "ENOENT")%string|..]; discriminate. }
  clear Hload. unfold loadAccounts_try in Htry.
  apply bind_inv in Htry as [(content & st1 & Hread & Htry) | (e & _ & Habs)]; [|discriminate].
  apply bind_inv in Htry as [(data & st2 & Hparse & Htry) | (e & _ & Habs)]; [|discriminate].
  assert (Hfile : file fs = FileText content).
  { unfold readFile in Hread. destruct (file fs); try discriminate Hread.
    now injection Hread as -> _. }
  assert (Hjson : JSON_parse content = Some data).
  { unfold parse_json, lift in Hparse. destruct (JSON_parse content); [|discriminate Hparse].
    now injection Hparse as -> _. }
  apply bind_inv in Htry as [(accounts & st3 & Hacc & Htry) | (e & _ & Habs)]; [|discriminate].
  unfold lift in Hacc. injection Hacc as Hacc <-.
  destruct (isArray accounts) eqn:Earr; cbn [negb] in Htry; [|discriminate].
  apply bind_inv in Htry as [(version & st4 & Hver & Htry) | (e & _ & Habs)]; [|discriminate].
  unfold lift in Hver. injection Hver as Hver <-.
  apply bind_inv in Htry as [(chosen & st5 & Hchoose & Htry) | (e & _ & Habs)]; [|discriminate].
  destruct chosen as [storage|]; [|discriminate].
  apply bind_inv in Htry as [(storage' & st6 & Hnorm & Htry) | (e & _ & Habs)]; [|discriminate].
  unfold ret in Htry. injection Htry as <- <-.
  assert (Hdata : is_nullish data = false) by (destruct data; try discriminate; reflexivity).
  rewrite (getProp_prop data) in Hacc, Hver by assumption.
  injection Hacc as <-. injection Hver as <-.
  destruct (chooseStorage_shape data st2 storage st5 Earr Hchoose)
    as (fs0 & l & -> & Hl & Hv & Hstored).
  destruct (normalizeActiveIndex_value fs0 l st5 Hl) as (s' & Hrun & Hkeep & Hvalue).
  rewrite Hrun in Hnorm. injection Hnorm as <- <-.
  cbv zeta in Hvalue. rewrite Hstored in Hvalue.
  destruct (kept_index_is_position (prop data "activeIndex") (length l))
    as (q & Hq & Hinteger & H0 & Hpos).
  exists content, data, l, q. rewrite !Hkeep by discriminate. rewrite Hl, Hv.
  split; [exact Hfile|]. split; [exact Hjson|]. do 2 (split; [reflexivity|]).
  split; [rewrite Hvalue; exact Hq|]. do 3 (split; [assumption|]).
  split; [exact Hvalue|]. split.
  - intros i Hi. rewrite Hvalue, Hi. apply kept_index_integer.
  - intros Hnan. rewrite Hvalue, Hnan. reflexivity.
Qed.

End LoadShapeFacts.

Lemma loadAccounts_result_is_normalized_witness :
  @loadAccounts Examples.stale_json (Examples.fs_with (FileText "anything"))
  = (Normal (Some Examples.v3_document_repaired), Examples.fs_with (FileText "anything"))
  /\ prop Examples.v3_document_stale_index "activeIndex" = JInt 4
  /\ prop Examples.v3_document_repaired "activeIndex" = JInt 0.
Proof.
  assert (Hload : @loadAccounts Examples.stale_json (Examples.fs_with (FileText "anything"))
                  = (Normal (Some Examples.v3_document_repaired),
                     Examples.fs_with (FileText "anything"))) by reflexivity.
  split; [exact Hload|]. split; [reflexivity|].
  destruct (@loadAccounts_result_is_normalized Examples.stale_json _ _ _ Hload)
    as (content & data & l & q & _ & Hjson & Hl & _ & _ & _ & _ & _ & _ & Hinteger & _).
  injection Hjson as <-. injection Hl as <-.
  exact (Hinteger 4%Z eq_refl).
Defined.

Lemma lookup_map {A B} (f : A -> B) (l : list A) p :
  List.map f l !! p = f <$> l !! p.
Proof. change (List.map f l) with (f <$> l). apply list_lookup_fmap. Qed.

(** The fields an upgraded account keeps. *)
Lemma accountV2toV3_fields acc k :
  prop (accountV2toV3 acc) k
  = if existsb (String.eqb k)
         ["email"; "refreshToken"; "projectId"; "managedProjectId"; "addedAt";
          "lastUsed"; "lastSwitchReason"]
    then prop acc k
    else if (k =? "rateLimitResetTimes")%string
         then undefined_if_empty (v3_limits (prop acc "rateLimitResetTimes"))
         else JUndefined.
Proof.
  unfold accountV2toV3. cbn [prop getProp lookup_field existsb].
  repeat match goal with
         | |- context [(k =? ?s)%string] =>
             destruct (String.eqb_spec k s) as [-> | _]; [reflexivity|]
         end.
  reflexivity.
Qed.

Lemma accountV1toV2_fields acc k :
  prop (accountV1toV2 acc) k
  = if existsb (String.eqb k)
         ["email"; "refreshToken"; "projectId"; "managedProjectId"; "addedAt";
          "lastUsed"; "lastSwitchReason"]
    then prop acc k
    else if (k =? "rateLimitResetTimes")%string
         then undefined_if_empty (v1_limits acc)
         else JUndefined.
Proof.
  unfold accountV1toV2. cbn [prop getProp lookup_field existsb].
  repeat match goal with
         | |- context [(k =? ?s)%string] =>
             destruct (String.eqb_spec k s) as [-> | _]; [reflexivity|]
         end.
  reflexivity.
Qed.

(** X15. An upgrade from version 1 or 2 keeps the accounts and their
    order, and for each account its email, refresh token, project ids,
    [addedAt], [lastUsed] and switch reason, as well as the document's
    [activeIndex].  Apart from these and the rate-limit times an
    upgraded account has no field: no tier, and nothing of what else
    the stored entry held. *)
Theorem upgrade_keeps_accounts :
  forall d l n v3,
    (n = 1 \/ n = 2)%Z ->
    prop d "accounts" = JArr l ->
    Forall not_nullish l ->
    (if (n =? 1)%Z then upgradeV1 d else upgradeV2 d) = Normal v3 ->
    prop v3 "activeIndex" = prop d "activeIndex"
    /\ exists l3,
        prop v3 "accounts" = JArr l3
        /\ length l3 = length l
        /\ forall p acc, l !! p = Some acc ->
             exists acc3,
               l3 !! p = Some acc3
               /\ (forall k, In k ["email"; "refreshToken"; "projectId"; "managedProjectId";
                                   "addedAt"; "lastUsed"; "lastSwitchReason"] ->
                             prop acc3 k = prop acc k)
               /\ (forall k, ~ In k ["email"; "refreshToken"; "projectId";
                                     "managedProjectId"; "addedAt"; "lastUsed";
                                     "lastSwitchReason"; "rateLimitResetTimes"] ->
                             prop acc3 k = JUndefined).
Proof.
  intros d l n v3 Hn Hacc Hall Hup.
  assert (Hkept : forall k,
             In k ["email"; "refreshToken"; "projectId"; "managedProjectId";
                   "addedAt"; "lastUsed"; "lastSwitchReason"] ->
             existsb (String.eqb k)
               ["email"; "refreshToken"; "projectId"; "managedProjectId"; "addedAt";
                "lastUsed"; "lastSwitchReason"] = true).
  { intros k Hk. apply existsb_exists. exists k. split; [exact Hk|apply String.eqb_refl]. }
  assert (Hdropped : forall k,
             ~ In k ["email"; "refreshToken"; "projectId"; "managedProjectId";
                     "addedAt"; "lastUsed"; "lastSwitchReason"; "rateLimitResetTimes"] ->
             existsb (String.eqb k)
               ["email"; "refreshToken"; "projectId"; "managedProjectId"; "addedAt";
                "lastUsed"; "lastSwitchReason"] = false
             /\ (k =? "rateLimitResetTimes")%string = false).
  { intros k Hk. split.
    - destruct (existsb _ _) eqn:E; [|reflexivity]. exfalso.
      apply existsb_exists in E as (x & Hx & Hkx). apply String.eqb_eq in Hkx. subst x.
      apply Hk. apply in_or_app with (l := [_; _; _; _; _; _; _]) (m := [_]). now left.
    - apply String.eqb_neq. intros ->. apply Hk.
      apply in_or_app with (l := [_; _; _; _; _; _; _]) (m := [_]). right. now left. }
  destruct Hn as [-> | ->]; cbn [Z.eqb Pos.eqb] in Hup.
  - rewrite (upgradeV1_total d l Hacc Hall) in Hup. injection Hup as <-.
    split; [reflexivity|]. eexists. split; [reflexivity|].
    split; [now rewrite !length_map|].
    intros p acc Hp. rewrite !lookup_map, Hp. cbn [fmap option_fmap option_map].
    eexists. split; [reflexivity|]. split.
    + intros k Hk. rewrite accountV2toV3_fields, (Hkept k Hk).
      now rewrite accountV1toV2_fields, (Hkept k Hk).
    + intros k Hk. destruct (Hdropped k Hk) as (H1 & H2).
      now rewrite accountV2toV3_fields, H1, H2.
  - unfold upgradeV2 in Hup. rewrite (migrateV2ToV3_total d l Hacc Hall) in Hup.
    injection Hup as <-.
    split; [reflexivity|]. eexists. split; [reflexivity|].
    split; [now rewrite length_map|].
    intros p acc Hp. rewrite lookup_map, Hp. cbn [fmap option_fmap option_map].
    eexists. split; [reflexivity|]. split.
    + intros k Hk. now rewrite accountV2toV3_fields, (Hkept k Hk).
    + intros k Hk. destruct (Hdropped k Hk) as (H1 & H2).
      now rewrite accountV2toV3_fields, H1, H2.
Qed.

Lemma upgrade_keeps_accounts_witness :
  exists v3 l3 acc3,
    upgradeV1 (Examples.v1_document true 5000) = Normal v3
    /\ prop v3 "accounts" = JArr l3
    /\ l3 !! 0%nat = Some acc3
    /\ prop acc3 "refreshToken" = JStr "refresh"
    /\ prop acc3 "isRateLimited" = JUndefined.
Proof.
  destruct (upgradeV1 (Examples.v1_document true 5000)) as [v3|] eqn:E; [|discriminate E].
  destruct (upgrade_keeps_accounts (Examples.v1_document true 5000)
              [Examples.v1_account true 5000] 1 v3)
    as (_ & l3 & Hl3 & _ & Hacc); try reflexivity; try exact E.
  { left; reflexivity. }
  { repeat constructor. }
  destruct (Hacc 0%nat _ eq_refl) as (acc3 & Hp & Hkeep & Hdrop).
  exists v3, l3, acc3. split; [reflexivity|]. split; [exact Hl3|]. split; [exact Hp|].
  split.
  - rewrite (Hkeep "refreshToken"); [reflexivity|]. right; left; reflexivity.
  - apply Hdrop. cbn. intros Habs. repeat (destruct Habs as [Habs | Habs]; [discriminate|]).
    exact Habs.
Defined.

End StorageShapeFacts.

(* ===================================================================== *)
(** * Properties of the Gemini pass over the conversation *)
(* ===================================================================== *)

Section GeminiFactsOuter.
Import Codec JS Accounts Claude Gemini Storage.

Lemma lookup_remove_field_eq k fs : lookup_field k (remove_field k fs) = JUndefined.
Proof.
  induction fs as [|[k0 v] fs IH]; cbn [remove_field lookup_field]; [reflexivity|].
  destruct (String.eqb_spec k k0) as [-> | Hne]; [exact IH|].
  cbn [lookup_field]. destruct (String.eqb_spec k k0); [contradiction|exact IH].
Qed.

Lemma lookup_remove_field_ne k k' fs :
  k <> k' -> lookup_field k' (remove_field k fs) = lookup_field k' fs.
Proof.
  intros Hne. induction fs as [|[k0 v] fs IH]; cbn [remove_field lookup_field]; [reflexivity|].
  destruct (String.eqb_spec k k0) as [-> | Hk].
  - destruct (String.eqb_spec k' k0); [congruence|exact IH].
  - cbn [lookup_field]. destruct (String.eqb_spec k' k0); [reflexivity|exact IH].
Qed.

Lemma remove_field_idem k fs : remove_field k (remove_field k fs) = remove_field k fs.
Proof.
  induction fs as [|[k0 v] fs IH]; cbn [remove_field]; [reflexivity|].
  destruct (String.eqb_spec k k0) as [-> | Hk]; [exact IH|].
  cbn [remove_field]. destruct (String.eqb_spec k k0); [contradiction|now rewrite IH].
Qed.

Lemma cmap_Forall2 {A B} (f : A -> Completion B) l l' :
  cmap f l = Normal l' -> Forall2 (fun x y => f x = Normal y) l l'.
Proof.
  revert l'. induction l as [|x l IH]; intros l'; cbn [cmap].
  - intros [= <-]. constructor.
  - destruct (f x) as [y|e] eqn:Ex; cbn [cbind]; [|discriminate].
    destruct (cmap f l) as [ys|e]; cbn [cbind]; [|discriminate].
    intros [= <-]. constructor; [exact Ex|now apply IH].
Qed.

Lemma filter_cons_true {A} (f : A -> bool) x l :
  f x = true -> List.filter f (x :: l) = x :: List.filter f l.
Proof. intros Hx. cbn [List.filter]. now rewrite Hx. Qed.

Lemma filter_cons_false {A} (f : A -> bool) x l :
  f x = false -> List.filter f (x :: l) = List.filter f l.
Proof. intros Hx. cbn [List.filter]. now rewrite Hx. Qed.

Section GeminiFacts.
Context `{Crypto}.

Lemma truthy_string_ne s : truthy_string s = true -> s <> "".
Proof. unfold truthy_string. destruct (String.eqb_spec s ""); [discriminate|auto]. Qed.

(** The turn on a part that is no thinking part. *)
Lemma model_part_other ctx cache current part :
  truthy part = true -> is_thought part = false ->
  model_part ctx cache current part
  = if truthy (prop part "functionCall") then
      if negb (typeof_string (prop part "thoughtSignature"))
         || strict_eq_str (prop part "thoughtSignature") ""
      then
        part' ← setProp part "thoughtSignature"
                  (JStr (default THOUGHT_SIGNATURE_BYPASS current));
        Normal (Some part', current)
      else Normal (Some part, current)
    else if negb (is_undefined (prop part "thoughtSignature")) then
           match part with
           | JObj fs => Normal (Some (JObj (remove_field "thoughtSignature" fs)), current)
           | _ => Normal (Some part, current)
           end
         else Normal (Some part, current).
Proof.
  intros Htr Hth.
  assert (Hn : is_nullish part = false) by (now apply truthy_not_nullish).
  rewrite is_thought_prop in Hth by assumption.
  unfold model_part. rewrite Htr. cbn [negb].
  rewrite !(getProp_prop part) by assumption. rewrite cbind_normal.
  destruct (prop part "thought") as [| |[|]| | | |]; try discriminate Hth;
    rewrite !cbind_normal; destruct (truthy (prop part "functionCall"));
    rewrite ?cbind_normal; reflexivity.
Qed.

(** The turn on a thinking part. *)
Lemma model_part_thought ctx cache current part :
  truthy part = true -> is_thought part = true ->
  model_part ctx cache current part
  = if truthy (prop part "text") && truthy_string (sessionId ctx) then
      match prop part "text" with
      | JStr t =>
          match getCachedSignature (family ctx) (sessionId ctx) t cache with
          | Some cachedSig =>
              if truthy_string cachedSig then
                part' ← setProp part "thoughtSignature" (JStr cachedSig);
                Normal (Some part', Some cachedSig)
              else Normal (None, current)
          | None => Normal (None, current)
          end
      | _ => Throw TypeError
      end
    else Normal (None, current).
Proof.
  intros Htr Hth.
  assert (Hn : is_nullish part = false) by (now apply truthy_not_nullish).
  rewrite is_thought_prop in Hth by assumption.
  unfold model_part. rewrite Htr. cbn [negb].
  rewrite !(getProp_prop part) by assumption. rewrite cbind_normal.
  destruct (prop part "thought") as [| |[|]| | | |]; try discriminate Hth.
  now rewrite cbind_normal.
Qed.

Lemma set_signature_keeps fs x k :
  k <> "thoughtSignature" ->
  prop (JObj (set_field "thoughtSignature" x fs)) k = prop (JObj fs) k.
Proof. intros Hk. cbn [prop getProp]. apply lookup_set_field_ne. congruence. Qed.

Lemma remove_signature_keeps fs k :
  k <> "thoughtSignature" ->
  prop (JObj (remove_field "thoughtSignature" fs)) k = prop (JObj fs) k.
Proof. intros Hk. cbn [prop getProp]. apply lookup_remove_field_ne. congruence. Qed.

Lemma is_thought_keeps p part :
  is_nullish p = false -> is_nullish part = false ->
  prop p "thought" = prop part "thought" -> is_thought p = is_thought part.
Proof. intros Hp Hn E. rewrite !is_thought_prop by assumption. now rewrite E. Qed.

Lemma model_part_spec ctx cache current part kept current' :
  current_ok current ->
  model_part ctx cache current part = Normal (kept, current') ->
  current_ok current'
  /\ match kept with
     | Some p =>
         truthy part = true
         /\ signed_as_required ctx cache p
         /\ is_thought p = is_thought part
         /\ (is_thought part = false -> unsigned p = unsigned part)
         /\ (forall k, k <> "thoughtSignature" -> prop p k = prop part k)
     | None => truthy part = false \/ is_thought part = true
     end.
Proof.
  intros Hcur.
  destruct (truthy part) eqn:Etr.
  2:{ unfold model_part. rewrite Etr. cbn [negb].
      intros [= <- <-]. split; [exact Hcur|now left]. }
  assert (Hn : is_nullish part = false) by (now apply truthy_not_nullish).
  destruct (is_thought part) eqn:Eth.
  - (* a thinking part *)
    rewrite model_part_thought by assumption.
    destruct (truthy (prop part "text") && truthy_string (sessionId ctx)) eqn:Eguard.
    2:{ intros [= <- <-]. split; [exact Hcur|now right]. }
    destruct (prop part "text") as [| | | |t| |] eqn:Etext; try discriminate.
    destruct (getCachedSignature (family ctx) (sessionId ctx) t cache) as [sig|] eqn:Ecache.
    2:{ intros [= <- <-]. split; [exact Hcur|now right]. }
    destruct (truthy_string sig) eqn:Esig.
    2:{ intros [= <- <-]. split; [exact Hcur|now right]. }
    destruct (prop_JStr_obj _ _ _ Etext) as (fs & ->).
    cbn [setProp]. rewrite cbind_normal. intros [= <- <-].
    apply truthy_string_ne in Esig.
    assert (Hthought : prop (JObj fs) "thought" = JBool true).
    { rewrite is_thought_prop in Eth by assumption.
      destruct (prop (JObj fs) "thought") as [| |[|]| | | |]; try discriminate Eth.
      reflexivity. }
    split; [exact Esig|]. split; [reflexivity|].
    split.
    { unfold signed_as_required. rewrite !set_signature_keeps by discriminate.
      rewrite Hthought. exists t, sig.
      split; [rewrite set_signature_keeps by discriminate; exact Etext|].
      split; [exact Ecache|]. split; [exact Esig|].
      cbn [prop getProp]. apply lookup_set_field_eq. }
    split.
    { etransitivity; [|exact Eth]. apply is_thought_keeps; try reflexivity.
      now apply set_signature_keeps. }
    split; [intros Habs; discriminate Habs|].
    intros k Hk. now apply set_signature_keeps.
  - (* no thinking part *)
    rewrite model_part_other by assumption.
    assert (Hnt : match prop part "thought" with JBool true => False | _ => True end).
    { rewrite is_thought_prop in Eth by assumption.
      destruct (prop part "thought") as [| |[|]| | | |]; try exact I. discriminate Eth. }
    destruct (truthy (prop part "functionCall")) eqn:Efc.
    + destruct (truthy_prop_obj _ _ Efc) as (fs & ->).
      destruct (negb (typeof_string (prop (JObj fs) "thoughtSignature"))
                || strict_eq_str (prop (JObj fs) "thoughtSignature") "") eqn:Esig.
      * cbn [setProp]. rewrite cbind_normal. intros [= <- <-].
        split; [exact Hcur|]. split; [reflexivity|].
        split.
        { unfold signed_as_required. rewrite !set_signature_keeps by discriminate.
          rewrite Efc.
          assert (Hsig : exists sig,
                     prop (JObj (set_field "thoughtSignature"
                                   (JStr (default THOUGHT_SIGNATURE_BYPASS current)) fs))
                       "thoughtSignature" = JStr sig /\ sig <> "").
          { cbn [prop getProp]. rewrite lookup_set_field_eq. eexists. split; [reflexivity|].
            destruct current as [s|]; [exact Hcur|discriminate]. }
          destruct (prop (JObj fs) "thought") as [| |[|]| | | |]; try exact Hsig.
          destruct Hnt. }
        split.
        { etransitivity; [|exact Eth]. apply is_thought_keeps; try reflexivity.
          now apply set_signature_keeps. }
        split; [intros _; cbn [unsigned]; now rewrite remove_set_field|].
        intros k Hk. now apply set_signature_keeps.
      * intros [= <- <-]. split; [exact Hcur|]. split; [reflexivity|].
        split; [|auto].
        unfold signed_as_required. rewrite Efc.
        assert (Hsig : exists sig,
                   prop (JObj fs) "thoughtSignature" = JStr sig /\ sig <> "").
        { apply orb_false_iff in Esig as (Hstr & Hne).
          apply negb_false_iff in Hstr.
          destruct (prop (JObj fs) "thoughtSignature") as [| | | |s| |];
            try discriminate Hstr.
          exists s. split; [reflexivity|].
          cbn [strict_eq_str] in Hne. now apply String.eqb_neq in Hne. }
        destruct (prop (JObj fs) "thought") as [| |[|]| | | |]; try exact Hsig.
        destruct Hnt.
    + destruct (is_undefined (prop part "thoughtSignature")) eqn:Eund; cbn [negb].
      * intros [= <- <-]. split; [exact Hcur|]. split; [reflexivity|].
        split; [|auto].
        unfold signed_as_required. rewrite Efc.
        assert (Hsig : prop part "thoughtSignature" = JUndefined)
          by (destruct (prop part "thoughtSignature"); try discriminate Eund; reflexivity).
        destruct (prop part "thought") as [| |[|]| | | |]; try exact Hsig.
        destruct Hnt.
      * destruct part as [| | | | | |fs]; try discriminate Eund.
        intros [= <- <-]. split; [exact Hcur|]. split; [reflexivity|].
        split.
        { unfold signed_as_required. rewrite !remove_signature_keeps by discriminate.
          rewrite Efc.
          assert (Hsig : prop (JObj (remove_field "thoughtSignature" fs)) "thoughtSignature"
                         = JUndefined) by apply lookup_remove_field_eq.
          destruct (prop (JObj fs) "thought") as [| |[|]| | | |]; try exact Hsig.
          destruct Hnt. }
        split.
        { etransitivity; [|exact Eth]. apply is_thought_keeps; try reflexivity.
          now apply remove_signature_keeps. }
        split; [intros _; cbn [unsigned]; now rewrite remove_field_idem|].
        intros k Hk. now apply remove_signature_keeps.
Qed.


Lemma model_parts_spec ctx cache parts :
  forall current out,
    current_ok current ->
    model_parts ctx cache current parts = Normal out ->
    Forall (signed_as_required ctx cache) out
    /\ List.map unsigned (List.filter plain out)
       = List.map unsigned (List.filter kept_as_plain parts).
Proof.
  induction parts as [|part rest IH]; intros current out Hcur; cbn [model_parts].
  - intros [= <-]. split; [constructor|reflexivity].
  - destruct (model_part ctx cache current part) as [[kept current']|e] eqn:Epart;
      [|discriminate].
    rewrite cbind_normal.
    destruct (model_part_spec _ _ _ _ _ _ Hcur Epart) as (Hcur' & Hkept).
    destruct (model_parts ctx cache current' rest) as [filtered|e] eqn:Erest;
      [|discriminate].
    rewrite cbind_normal. intros [= <-].
    destruct (IH current' filtered Hcur' Erest) as (Hall & Heq).
    destruct kept as [p|].
    + destruct Hkept as (Htr & Hsigned & Hth & Hun & _).
      split; [constructor; assumption|].
      assert (Hkp : kept_as_plain part = plain part)
        by (unfold kept_as_plain; now rewrite Htr).
      assert (Hpp : plain p = plain part) by (unfold plain; now rewrite Hth).
      destruct (plain part) eqn:Eplain.
      * rewrite (filter_cons_true plain p filtered Hpp).
        rewrite (filter_cons_true kept_as_plain part rest Hkp).
        cbn [List.map]. rewrite Heq. f_equal. apply Hun.
        unfold plain in Eplain. now apply negb_true_iff in Eplain.
      * rewrite (filter_cons_false plain p filtered Hpp).
        now rewrite (filter_cons_false kept_as_plain part rest Hkp).
    + split; [exact Hall|].
      rewrite filter_cons_false; [exact Heq|].
      unfold kept_as_plain, plain.
      destruct Hkept as [-> | ->]; [reflexivity|apply andb_false_r].
Qed.

Lemma model_part_returns ctx cache current part :
  text_is_string_if_thought part ->
  exists r, model_part ctx cache current part = Normal r.
Proof.
  intros Htext.
  destruct (truthy part) eqn:Etr.
  2:{ unfold model_part. rewrite Etr. cbn [negb]. eauto. }
  destruct (is_thought part) eqn:Eth.
  - rewrite model_part_thought by assumption.
    destruct (truthy (prop part "text")) eqn:Et; cbn [andb]; [|eauto].
    destruct (truthy_string (sessionId ctx)); [|eauto].
    specialize (Htext Eth Et).
    destruct (prop part "text") as [| | | |t| |] eqn:Etext; try discriminate Htext.
    destruct (getCachedSignature _ _ _ _) as [sig|]; [|eauto].
    destruct (truthy_string sig); [|eauto].
    destruct (prop_JStr_obj _ _ _ Etext) as (fs & ->). cbn [setProp]. eauto.
  - rewrite model_part_other by assumption.
    destruct (truthy (prop part "functionCall")) eqn:Efc.
    + destruct (truthy_prop_obj _ _ Efc) as (fs & ->).
      destruct (_ || _); cbn [setProp]; eauto.
    + destruct (negb _); [destruct part|]; eauto.
Qed.

Lemma model_parts_returns ctx cache parts :
  Forall text_is_string_if_thought parts ->
  forall current, exists out, model_parts ctx cache current parts = Normal out.
Proof.
  induction 1 as [|part rest Hpart _ IH]; intros current; cbn [model_parts]; [eauto|].
  destruct (model_part_returns ctx cache current part Hpart) as ([kept current'] & ->).
  rewrite cbind_normal. destruct (IH current') as (filtered & ->). eauto.
Qed.

Lemma model_content_passed ctx cache content content' :
  model_content ctx cache content = Normal content' -> passed ctx cache content content'.
Proof.
  unfold model_content, passed.
  destruct (truthy content) eqn:Etr; cbn [negb andb]; [|now intros [= <-]].
  assert (Hn : is_nullish content = false) by (now apply truthy_not_nullish).
  rewrite !(getProp_prop content) by assumption. rewrite cbind_normal.
  destruct (strict_eq_str (prop content "role") "model") eqn:Erole; cbn [negb];
    [|now intros [= <-]].
  rewrite cbind_normal.
  destruct (prop content "parts") as [| | | | |items|] eqn:Eparts; try (now intros [= <-]).
  destruct (model_parts ctx cache None items) as [filtered|e] eqn:Erun; [|discriminate].
  rewrite cbind_normal.
  destruct content as [| | | | | |fs]; try discriminate Eparts.
  cbn [setProp]. intros [= <-].
  destruct (model_parts_spec ctx cache items None filtered I Erun) as (Hall & Heq).
  exists filtered. cbn [prop getProp]. rewrite lookup_set_field_eq.
  split; [reflexivity|]. split; [|split; assumption].
  intros k Hk. apply lookup_set_field_ne. congruence.
Qed.

Lemma model_content_returns ctx cache content :
  (forall items, prop content "parts" = JArr items ->
                 Forall text_is_string_if_thought items) ->
  exists content', model_content ctx cache content = Normal content'.
Proof.
  intros Hparts. unfold model_content.
  destruct (truthy content) eqn:Etr; cbn [negb]; [|eauto].
  assert (Hn : is_nullish content = false) by (now apply truthy_not_nullish).
  rewrite !(getProp_prop content) by assumption. rewrite cbind_normal.
  destruct (strict_eq_str (prop content "role") "model"); cbn [negb]; [|eauto].
  rewrite cbind_normal.
  destruct (prop content "parts") as [| | | | |items|] eqn:Eparts; eauto.
  destruct (model_parts_returns ctx cache items (Hparts items eq_refl) None) as (out & ->).
  rewrite cbind_normal.
  destruct content as [| | | | | |fs]; try discriminate Eparts. cbn [setProp]. eauto.
Qed.

(** X16. The Gemini pass over the conversation touches model contents
    only, and of those only the parts.  Of the parts it keeps, every
    thinking part carries the signature cached for its text under the
    context's family and session, every function call carries a
    non-empty signature, and nothing else carries a signature; the
    parts that are neither falsy nor thinking parts are all kept, in
    order and unchanged apart from [thoughtSignature].  The pass
    returns whenever no thinking part has a truthy text that is not a
    string, and leaves a [contents] that is not an array alone. *)
Theorem gemini_pass_signs_model_parts :
  forall ctx cache,
    (forall contents out,
        transformGeminiContents ctx cache (JArr contents) = Normal out ->
        exists outs, out = JArr outs /\ Forall2 (passed ctx cache) contents outs)
    /\ (forall contents,
          Forall (fun content =>
                    forall items, prop content "parts" = JArr items ->
                                  Forall text_is_string_if_thought items) contents ->
          exists out, transformGeminiContents ctx cache (JArr contents) = Normal out)
    /\ (forall v, isArray v = false -> transformGeminiContents ctx cache v = Normal v).
Proof.
  intros ctx cache. split; [|split].
  - intros contents out. cbn [transformGeminiContents].
    destruct (cmap (model_content ctx cache) contents) as [cs|e] eqn:Emap; [|discriminate].
    rewrite cbind_normal. intros [= <-]. exists cs. split; [reflexivity|].
    apply cmap_Forall2 in Emap.
    eapply Forall2_impl; [exact Emap|]. cbv beta. intros content content'.
    apply model_content_passed.
  - intros contents Hall. cbn [transformGeminiContents].
    assert (Hmap : exists cs, cmap (model_content ctx cache) contents = Normal cs).
    { induction Hall as [|content rest Hc _ IH]; cbn [cmap]; [eauto|].
      destruct (model_content_returns ctx cache content Hc) as (content' & ->).
      destruct IH as (cs & ->). cbn [cbind]. eauto. }
    destruct Hmap as (cs & ->). rewrite cbind_normal. eauto.
  - intros v Hv. destruct v; try reflexivity. discriminate Hv.
Qed.

End GeminiFacts.

Lemma gemini_pass_signs_model_parts_witness :
  exists outs,
    @transformGeminiContents Examples.sample_crypto Examples.claude_context ∅
      (JArr [Examples.model_turn])
    = Normal (JArr outs)
    /\ Forall2 (@passed Examples.sample_crypto Examples.claude_context ∅)
         [Examples.model_turn] outs.
Proof.
  destruct (@gemini_pass_signs_model_parts Examples.sample_crypto Examples.claude_context ∅)
    as (Hpass & Hret & _).
  destruct (Hret [Examples.model_turn]) as (out & Hout).
  { repeat constructor. intros items [= <-]. repeat constructor; intros Hth; discriminate Hth. }
  destruct (Hpass _ _ Hout) as (outs & -> & Hrel).
  exists outs. split; [exact Hout|exact Hrel].
Defined.

End GeminiFactsOuter.

(* ===================================================================== *)
(** * Pairing of function calls and responses in the Claude pass *)
(* ===================================================================== *)

Section ClaudeIdFactsOuter.
Import Codec JS Accounts Claude ClaudeIds Storage.

Lemma append_not_empty a c b : a ++ String c b <> "".
Proof. destruct a; discriminate. Qed.

Section ClaudeIdFacts.
Context `{Crypto}.

Lemma plain_process_part ctx part st :
  is_nullish part = false -> plain part = true ->
  process_part ctx part st
  = (part2 ← function_call_block part;
     part3 ← function_response_block part2;
     ret (Some part3)) st.
Proof.
  intros Hn Hp. rewrite process_part_unfold by assumption.
  unfold plain in Hp. apply negb_true_iff in Hp.
  rewrite is_thought_prop in Hp by assumption.
  destruct (prop part "thought") as [| |[|]| | | |]; try reflexivity. discriminate Hp.
Qed.

(** The turn on a part that calls [n]. *)
Lemma call_turn ctx n part st :
  calls_tool n part ->
  exists part' st',
    process_part ctx part st = (Normal (Some part'), st')
    /\ truthy (call_id part') = true
    /\ (truthy (call_id part) = true -> call_id part' = call_id part)
    /\ funcCallIdQueues st'
       = <[n := (default [] (funcCallIdQueues st !! n) ++ [call_id part'])%list]>
           (funcCallIdQueues st).
Proof.
  intros (Hplain & (call & Hcall & Hname) & Hresp).
  destruct part as [| | | | | |fs]; try discriminate Hcall.
  rewrite plain_process_part by (try reflexivity; assumption).
  unfold function_call_block. cbn [getProp]. cbn [prop getProp] in Hcall, Hresp.
  rewrite Hcall. eff. cbn [truthy negb getProp]. eff. rewrite Hname. eff.
  unfold call_id. cbn [prop getProp]. rewrite Hcall. cbn [getProp].
  destruct (truthy (lookup_field "id" call)) eqn:Eid; cbn [negb].
  - eff. unfold function_response_block. cbn [getProp]. eff. rewrite Hresp. cbn [negb]. eff.
    eexists. eexists. split; [reflexivity|].
    cbn [prop getProp]. rewrite Hcall. cbn [getProp funcCallIdQueues with_queues].
    auto.
  - cbn [setProp]. eff. cbn [setProp]. eff.
    unfold function_response_block. cbn [getProp]. eff.
    rewrite lookup_set_field_ne by discriminate. rewrite Hresp. cbn [negb]. eff.
    eexists. eexists. split; [reflexivity|].
    unfold prop. cbn [getProp]. rewrite lookup_set_field_eq. cbn [getProp].
    rewrite lookup_set_field_eq. cbn [funcCallIdQueues with_queues].
    split.
    { cbn [truthy]. apply negb_true_iff, String.eqb_neq.
      change ("-" ++ randomUUID (uuids_drawn st))
        with (String "-" (randomUUID (uuids_drawn st))).
      apply append_not_empty. }
    split; [intros Habs; rewrite Eid in Habs; discriminate Habs|reflexivity].
Qed.

(** The turn on a part that answers [n]. *)
Lemma answer_turn ctx n part st :
  answers_tool n part ->
  exists part' st',
    process_part ctx part st = (Normal (Some part'), st')
    /\ response_id part'
       = default (response_id part) (head (default [] (funcCallIdQueues st !! n)))
    /\ default [] (funcCallIdQueues st' !! n) = tail (default [] (funcCallIdQueues st !! n)).
Proof.
  intros (Hplain & Hcall & response & Hresp & Hname & Hid).
  destruct part as [| | | | | |fs]; try discriminate Hresp.
  rewrite plain_process_part by (try reflexivity; assumption).
  unfold function_call_block. cbn [getProp]. cbn [prop getProp] in Hcall, Hresp.
  eff. rewrite Hcall. cbn [negb]. eff.
  unfold function_response_block. cbn [getProp]. eff. rewrite Hresp.
  cbn [truthy negb getProp]. eff. rewrite Hname. eff. rewrite Hid. cbn [negb]. eff.
  unfold response_id. cbn [prop getProp]. rewrite Hresp. cbn [getProp].
  destruct (funcCallIdQueues st !! n) as [[|id queue]|] eqn:Eq.
  - eff. eexists. eexists. split; [reflexivity|].
    cbn [prop getProp default head tail]. rewrite Hresp, Eq. cbn [getProp]. auto.
  - eff. cbn [setProp]. eff. cbn [setProp]. eff.
    eexists. eexists. split; [reflexivity|].
    unfold prop. cbn [getProp default head tail funcCallIdQueues with_queues].
    rewrite lookup_set_field_eq. cbn [getProp]. rewrite lookup_set_field_eq.
    rewrite lookup_insert_eq. auto.
  - eff. eexists. eexists. split; [reflexivity|].
    cbn [prop getProp default head tail]. rewrite Hresp, Eq. cbn [getProp]. auto.
Qed.

(** The calls go through, each with an id, and their ids join the
    queue of [n] in order. *)
Lemma calls_queue_up ctx n calls :
  forall st,
    Forall (calls_tool n) calls ->
    exists calls' st',
      filter_parts ctx calls st = (Normal calls', st')
      /\ Forall2 (fun c c' => truthy (call_id c') = true
                              /\ (truthy (call_id c) = true -> call_id c' = call_id c))
           calls calls'
      /\ default [] (funcCallIdQueues st' !! n)
         = (default [] (funcCallIdQueues st !! n) ++ List.map call_id calls')%list.
Proof.
  induction calls as [|c calls IH]; intros st Hall.
  - exists [], st. split; [reflexivity|]. split; [constructor|].
    cbn [List.map]. now rewrite app_nil_r.
  - inversion Hall as [|? ? Hc Hrest]; subst.
    destruct (call_turn ctx n c st Hc) as (c' & st1 & Hturn & Hid & Hsame & Hq).
    destruct (IH st1 Hrest) as (calls' & st' & Hrun & Hrel & Hqueue).
    exists (c' :: calls'), st'.
    split; [apply (filter_parts_cons ctx c calls st (Some c') st1 calls' st' Hturn Hrun)|].
    split; [constructor; auto|].
    rewrite Hqueue, Hq, lookup_insert_eq. cbn [default List.map]. unfold id.
    now rewrite <- List.app_assoc.
Qed.

(** The responses go through, the [k]-th taking the [k]-th id of the
    queue of [n] when there is one. *)
Lemma responses_take_ids ctx n responses :
  forall st,
    Forall (answers_tool n) responses ->
    exists responses' st',
      filter_parts ctx responses st = (Normal responses', st')
      /\ length responses' = length responses
      /\ forall k r r',
           responses !! k = Some r -> responses' !! k = Some r' ->
           response_id r'
           = default (response_id r) (default [] (funcCallIdQueues st !! n) !! k).
Proof.
  induction responses as [|r responses IH]; intros st Hall.
  - exists [], st. split; [reflexivity|]. split; [reflexivity|].
    intros k r r' Hk. destruct k; discriminate.
  - inversion Hall as [|? ? Hr Hrest]; subst.
    destruct (answer_turn ctx n r st Hr) as (r' & st1 & Hturn & Hid & Hq).
    destruct (IH st1 Hrest) as (responses' & st' & Hrun & Hlen & Hids).
    exists (r' :: responses'), st'.
    split; [apply (filter_parts_cons ctx r responses st (Some r') st1 responses' st' Hturn Hrun)|].
    split; [cbn [length]; now rewrite Hlen|].
    intros [|k] x x' Hx Hx'.
    + injection Hx as <-. injection Hx' as <-. rewrite Hid.
      now destruct (default [] (funcCallIdQueues st !! n)).
    + cbn [lookup list_lookup] in Hx, Hx'. rewrite (Hids k x x' Hx Hx'), Hq.
      now destruct (default [] (funcCallIdQueues st !! n)).
Qed.

(** X17. Function responses take the ids of the function calls first in,
    first out.  When the conversation parts call a tool some times and
    then answer it without naming the calls, every call leaves with an
    id (its own if it had one), and the [k]-th answer leaves with the id
    of the [k]-th call; answers beyond the number of calls keep what
    they had. *)
Theorem function_responses_take_call_ids_in_order :
  forall ctx n calls responses st,
    Forall (calls_tool n) calls ->
    Forall (answers_tool n) responses ->
    default [] (funcCallIdQueues st !! n) = [] ->
    exists calls' responses' st',
      filter_parts ctx (calls ++ responses) st = (Normal (calls' ++ responses')%list, st')
      /\ Forall2 (fun c c' => truthy (call_id c') = true
                              /\ (truthy (call_id c) = true -> call_id c' = call_id c))
           calls calls'
      /\ length responses' = length responses
      /\ forall k r r',
           responses !! k = Some r -> responses' !! k = Some r' ->
           response_id r' = default (response_id r) (call_id <$> calls' !! k).
Proof.
  intros ctx n calls responses st Hcalls Hresponses Hempty.
  destruct (calls_queue_up ctx n calls st Hcalls) as (calls' & st1 & Hrun1 & Hrel & Hq).
  destruct (responses_take_ids ctx n responses st1 Hresponses)
    as (responses' & st' & Hrun2 & Hlen & Hids).
  exists calls', responses', st'.
  split; [now apply (filter_parts_app ctx calls responses st calls' st1 responses' st')|].
  split; [exact Hrel|]. split; [exact Hlen|].
  intros k r r' Hr Hr'. rewrite (Hids k r r' Hr Hr'), Hq, Hempty. cbn [app].
  change (List.map call_id calls') with (call_id <$> calls').
  now rewrite list_lookup_fmap.
Qed.

End ClaudeIdFacts.

Lemma function_responses_take_call_ids_in_order_witness :
  exists calls' responses' st',
    @filter_parts Examples.sample_crypto Examples.claude_context
      ([Examples.call_part "read"; Examples.call_part "read"]
       ++ [Examples.answer_part "read"; Examples.answer_part "read"])
      Examples.fresh_pass
    = (Normal (calls' ++ responses')%list, st')
    /\ List.map response_id responses' = List.map call_id calls'.
Proof.
  destruct (@function_responses_take_call_ids_in_order Examples.sample_crypto
              Examples.claude_context "read"
              [Examples.call_part "read"; Examples.call_part "read"]
              [Examples.answer_part "read"; Examples.answer_part "read"]
              Examples.fresh_pass)
    as (calls' & responses' & st' & Hrun & Hrel & Hlen & Hids).
  - repeat constructor; try reflexivity; eexists; split; reflexivity.
  - repeat constructor; try reflexivity; eexists; repeat split; reflexivity.
  - reflexivity.
  - exists calls', responses', st'. split; [exact Hrun|].
    apply Forall2_length in Hrel.
    destruct calls' as [|c1 [|c2 [|]]]; try discriminate Hrel.
    destruct responses' as [|r1 [|r2 [|]]]; try discriminate Hlen.
    cbn [List.map].
    rewrite (Hids 0%nat _ r1 eq_refl eq_refl), (Hids 1%nat _ r2 eq_refl eq_refl).
    reflexivity.
Defined.

End ClaudeIdFactsOuter.

(* ===================================================================== *)
(** * Properties of the request helpers *)
(* ===================================================================== *)

Section HelperFacts.
Import Codec JS Claude Tools Helpers.

Lemma to_lower_char_idem c : to_lower_char (to_lower_char c) = to_lower_char c.
Proof. destruct c as [[] [] [] [] [] [] [] []]; reflexivity. Qed.

Lemma toLowerCase_idem s : toLowerCase (toLowerCase s) = toLowerCase s.
Proof.
  induction s as [|c s IH]; cbn [toLowerCase]; [reflexivity|].
  now rewrite to_lower_char_idem, IH.
Qed.

Lemma toLowerCase_length s : String.length (toLowerCase s) = String.length s.
Proof. induction s as [|c s IH]; cbn [toLowerCase String.length]; congruence. Qed.

Lemma toLowerCase_nonempty s : s <> "" -> toLowerCase s <> "".
Proof. destruct s; [congruence|discriminate]. Qed.

Lemma normalized_fixed tb tl ti :
  budget_ok tb -> level_ok tl -> include_ok ti ->
  is_undefined tb && is_undefined tl && is_undefined ti = false ->
  normalizeThinkingConfig
    (JObj (defined_fields [("thinkingBudget", tb); ("thinkingLevel", tl);
                           ("include_thoughts", ti)]))
  = JObj (defined_fields [("thinkingBudget", tb); ("thinkingLevel", tl);
                          ("include_thoughts", ti)]).
Proof.
  intros [->|Hb] [->|(s & -> & Hs & Hlow)] [->|Hi] Hsome;
    try discriminate Hsome;
    try (destruct tb; try discriminate Hb);
    try (destruct ti; try discriminate Hi);
    try (destruct s as [|c s]; [congruence|]);
    unfold normalizeThinkingConfig, defined_fields, prop;
    cbn -[toLowerCase];
    rewrite ?Hlow; reflexivity.
Qed.

Lemma normalized_fields tb tl ti k v :
  budget_ok tb -> level_ok tl -> include_ok ti ->
  In (k, v) (defined_fields [("thinkingBudget", tb); ("thinkingLevel", tl);
                             ("include_thoughts", ti)]) ->
  (k = "thinkingBudget" /\ typeof_number v = true)
  \/ (k = "thinkingLevel" /\ exists s, v = JStr s /\ s <> "" /\ toLowerCase s = s)
  \/ (k = "include_thoughts" /\ typeof_boolean v = true).
Proof.
  intros Hb Hl Hi Hin. unfold defined_fields in Hin.
  apply filter_In in Hin as [Hin Hdef]. cbn [snd] in Hdef.
  destruct Hin as [E|[E|[E|[]]]]; inversion E; subst.
  - left. split; [reflexivity|]. destruct Hb as [->|Hb]; [discriminate Hdef|exact Hb].
  - right; left. split; [reflexivity|]. destruct Hl as [->|Hl]; [discriminate Hdef|exact Hl].
  - right; right. split; [reflexivity|].
    destruct Hi as [->|Hi]; [discriminate Hdef|exact Hi].
Qed.

Lemma normalize_cases config :
  normalizeThinkingConfig config = JUndefined
  \/ exists tb tl ti,
       budget_ok tb /\ level_ok tl /\ include_ok ti
       /\ is_undefined tb && is_undefined tl && is_undefined ti = false
       /\ normalizeThinkingConfig config
          = JObj (defined_fields [("thinkingBudget", tb); ("thinkingLevel", tl);
                                  ("include_thoughts", ti)]).
Proof.
  unfold normalizeThinkingConfig.
  destruct (negb (truthy config) || negb (typeof_object config)); [now left|].
  set (b := nullish_or (prop config "thinkingBudget") (prop config "thinking_budget")).
  set (l := nullish_or (prop config "thinkingLevel") (prop config "thinking_level")).
  set (i := nullish_or (prop config "includeThoughts") (prop config "include_thoughts")).
  set (tb := if typeof_number b then b else JUndefined).
  set (tl := match l with
             | JStr level => if (0 <? String.length level)%nat then JStr (toLowerCase level)
                             else JUndefined
             | _ => JUndefined
             end).
  set (ti := if typeof_boolean i then i else JUndefined).
  destruct (is_undefined tb && is_undefined tl && is_undefined ti) eqn:Hall; [now left|].
  right. exists tb, tl, ti. split; [|split; [|split; [|split; [exact Hall|reflexivity]]]].
  - unfold budget_ok. subst tb. destruct (typeof_number b) eqn:E; [right; exact E|now left].
  - unfold level_ok. subst tl. destruct l; try now left.
    destruct (0 <? String.length s)%nat eqn:E; [|now left].
    right. exists (toLowerCase s). split; [reflexivity|]. split.
    + apply toLowerCase_nonempty. intros ->. discriminate E.
    + apply toLowerCase_idem.
  - unfold include_ok. subst ti. destruct (typeof_boolean i) eqn:E; [right; exact E|now left].
Qed.

(** X18. [normalizeThinkingConfig] gives [undefined] or a non-empty object
    that holds only [thinkingBudget] (a number), [thinkingLevel] (a
    non-empty string in lower case) and [include_thoughts] (a boolean),
    and normalizing its own result changes nothing. *)
Theorem normalizeThinkingConfig_is_a_normal_form :
  forall config,
    let normalized := normalizeThinkingConfig config in
    normalizeThinkingConfig normalized = normalized
    /\ (normalized = JUndefined
        \/ exists fs,
             normalized = JObj fs /\ fs <> []
             /\ forall k v, In (k, v) fs ->
                  (k = "thinkingBudget" /\ typeof_number v = true)
                  \/ (k = "thinkingLevel"
                      /\ exists s, v = JStr s /\ s <> "" /\ toLowerCase s = s)
                  \/ (k = "include_thoughts" /\ typeof_boolean v = true)).
Proof.
  intros config normalized. subst normalized.
  destruct (normalize_cases config) as [->|(tb & tl & ti & Hb & Hl & Hi & Hsome & ->)].
  - split; [reflexivity|now left].
  - split; [now apply normalized_fixed|]. right.
    eexists. split; [reflexivity|]. split.
    + intros Hnil. unfold defined_fields in Hnil. cbn [List.filter snd] in Hnil.
      destruct (is_undefined tb), (is_undefined tl), (is_undefined ti);
        cbn in Hnil, Hsome; congruence.
    + intros k v Hin. now apply (normalized_fields tb tl ti).
Qed.

(** ** The cached-content clean-up *)

Lemma remove_field_not_in k fs : ~ In k (List.map fst (remove_field k fs)).
Proof.
  induction fs as [|[k' v] fs IH]; cbn [remove_field]; [intros []|].
  destruct (String.eqb_spec k k') as [->|Hne]; [exact IH|].
  cbn [List.map fst]. intros [E|Hin]; [congruence|contradiction].
Qed.

Lemma remove_field_keys k k' fs :
  In k (List.map fst (remove_field k' fs)) -> In k (List.map fst fs).
Proof.
  induction fs as [|[k0 v] fs IH]; cbn [remove_field]; [intros []|].
  destruct (String.eqb_spec k' k0) as [->|Hne]; cbn [List.map fst].
  - intros Hin. right. now apply IH.
  - intros [E|Hin]; [now left|right; now apply IH].
Qed.

Lemma set_field_keys k k' x fs :
  In k (List.map fst (set_field k' x fs)) -> k = k' \/ In k (List.map fst fs).
Proof.
  induction fs as [|[k0 v] fs IH]; cbn [set_field].
  - cbn. intros [E|[]]. now left.
  - destruct (String.eqb_spec k' k0) as [->|Hne]; cbn [List.map fst].
    + intros [E|Hin]; [left; congruence|right; now right].
    + intros [E|Hin]; [right; now left|].
      destruct (IH Hin) as [E|Hin']; [now left|right; now right].
Qed.

Lemma lookup_remove_other k k' fs :
  k <> k' -> lookup_field k (remove_field k' fs) = lookup_field k fs.
Proof.
  intros Hne. induction fs as [|[k0 v] fs IH]; cbn [remove_field lookup_field]; [reflexivity|].
  destruct (String.eqb_spec k' k0) as [->|Hne0].
  - rewrite IH. destruct (String.eqb_spec k k0); [congruence|reflexivity].
  - cbn [lookup_field]. now rewrite IH.
Qed.

Lemma lookup_remove_same k fs : lookup_field k (remove_field k fs) = JUndefined.
Proof.
  induction fs as [|[k0 v] fs IH]; cbn [remove_field lookup_field]; [reflexivity|].
  destruct (String.eqb_spec k k0) as [->|Hne]; [exact IH|].
  cbn [lookup_field]. destruct (String.eqb_spec k k0); [congruence|exact IH].
Qed.

Lemma lookup_set_other k k' x fs :
  k <> k' -> lookup_field k (set_field k' x fs) = lookup_field k fs.
Proof.
  intros Hne. induction fs as [|[k0 v] fs IH]; cbn [set_field lookup_field].
  - destruct (String.eqb_spec k k'); [congruence|reflexivity].
  - destruct (String.eqb_spec k' k0) as [->|Hne0]; cbn [lookup_field].
    + destruct (String.eqb_spec k k0); [congruence|reflexivity].
    + now rewrite IH.
Qed.

Lemma lookup_set_same k x fs : lookup_field k (set_field k x fs) = x.
Proof.
  induction fs as [|[k0 v] fs IH]; cbn [set_field lookup_field].
  - now rewrite String.eqb_refl.
  - destruct (String.eqb_spec k k0) as [->|Hne]; cbn [lookup_field].
    + now rewrite String.eqb_refl.
    + destruct (String.eqb_spec k k0); [congruence|exact IH].
Qed.

Lemma prop_delete_same k v : prop (delete_prop k v) k = JUndefined.
Proof.
  destruct v; try reflexivity. unfold prop. cbn [delete_prop getProp].
  apply lookup_remove_same.
Qed.

Lemma prop_delete_other k k' v : k <> k' -> prop (delete_prop k' v) k = prop v k.
Proof.
  intros Hne. destruct v; try reflexivity. unfold prop. cbn [delete_prop getProp].
  now apply lookup_remove_other.
Qed.

Lemma delete_prop_object k v :
  typeof_object (delete_prop k v) = typeof_object v
  /\ truthy (delete_prop k v) = truthy v.
Proof. destruct v; split; reflexivity. Qed.

(** X19. After the clean-up the payload has neither [cached_content] nor
    [cachedContent], not even the one the step itself has just written;
    an [extra_body] that stays has neither of them and, where it is an
    object, is not empty; and every other field of the payload reads as
    before. *)
Theorem cached_content_is_never_forwarded :
  forall requestPayload,
    let cleaned := stripCachedContent requestPayload in
    let extra_body := lookup_field "extra_body" cleaned in
    ~ In "cached_content" (List.map fst cleaned)
    /\ ~ In "cachedContent" (List.map fst cleaned)
    /\ prop extra_body "cached_content" = JUndefined
    /\ prop extra_body "cachedContent" = JUndefined
    /\ (truthy extra_body = true -> typeof_object extra_body = true ->
        keys_length extra_body <> 0%nat)
    /\ forall k, k <> "cached_content" -> k <> "cachedContent" -> k <> "extra_body" ->
         lookup_field k cleaned = lookup_field k requestPayload.
Proof.
  intros requestPayload cleaned extra_body. subst extra_body cleaned.
  unfold stripCachedContent.
  set (cachedContent := nullish_or _ _).
  set (p1 := if truthy cachedContent then _ else _).
  set (p2 := remove_field "cachedContent" (remove_field "cached_content" p1)).
  assert (Hcc : ~ In "cached_content" (List.map fst p2)).
  { intros Hin. apply remove_field_keys in Hin. now apply remove_field_not_in in Hin. }
  assert (HcC : ~ In "cachedContent" (List.map fst p2)) by apply remove_field_not_in.
  assert (Hother : forall k, k <> "cached_content" -> k <> "cachedContent" ->
                     lookup_field k p2 = lookup_field k requestPayload).
  { intros k H1 H2. unfold p2. rewrite !lookup_remove_other by assumption.
    unfold p1. destruct (truthy cachedContent); [|reflexivity].
    now apply lookup_set_other. }
  set (e := lookup_field "extra_body" p2).
  destruct (truthy e && typeof_object e) eqn:Hobj.
  - apply andb_true_iff in Hobj as [Ht Ho].
    set (c := delete_prop "cachedContent" (delete_prop "cached_content" e)).
    assert (Hc1 : prop c "cached_content" = JUndefined).
    { unfold c. rewrite prop_delete_other by discriminate. apply prop_delete_same. }
    assert (Hc2 : prop c "cachedContent" = JUndefined) by apply prop_delete_same.
    destruct (keys_length c =? 0)%nat eqn:Hlen.
    + rewrite lookup_remove_same. repeat split.
      * intros Hin. now apply remove_field_keys in Hin.
      * intros Hin. now apply remove_field_keys in Hin.
      * discriminate.
      * intros k H1 H2 H3. rewrite lookup_remove_other by assumption. now apply Hother.
    + rewrite lookup_set_same. repeat split; try assumption.
      * intros Hin. apply set_field_keys in Hin as [E|Hin]; [discriminate E|contradiction].
      * intros Hin. apply set_field_keys in Hin as [E|Hin]; [discriminate E|contradiction].
      * intros _ _. now apply Nat.eqb_neq.
      * intros k H1 H2 H3. rewrite lookup_set_other by assumption. now apply Hother.
  - fold e. repeat split; try assumption.
    + destruct e; try reflexivity; discriminate Hobj.
    + destruct e; try reflexivity; discriminate Hobj.
    + intros Ht Ho. rewrite Ht, Ho in Hobj. discriminate Hobj.
    + intros k H1 H2 _. now apply Hother.
Qed.

(** ** Tool-call arguments *)

Section ArgFacts.
Context `{JSON_API}.

Lemma set_field_fresh k x fs :
  ~ In k (List.map fst fs) -> set_field k x fs = (fs ++ [(k, x)])%list.
Proof.
  induction fs as [|[k0 v] fs IH]; cbn [set_field List.map fst]; [reflexivity|].
  intros Hnot. destruct (String.eqb_spec k k0) as [->|Hne].
  - exfalso. apply Hnot. now left.
  - cbn [app]. rewrite IH; [reflexivity|]. intros Hin. apply Hnot. now right.
Qed.

Lemma fold_set_field_fresh (g : string -> JSValue -> JSValue) fs acc :
  List.NoDup (List.map fst acc ++ List.map fst fs) ->
  fold_left (fun result kv => set_field (fst kv) (g (fst kv) (snd kv)) result) fs acc
  = (acc ++ List.map (fun kv => (fst kv, g (fst kv) (snd kv))) fs)%list.
Proof.
  revert acc. induction fs as [|[k v] fs IH]; intros acc Hnd; cbn [fold_left List.map fst snd].
  - now rewrite List.app_nil_r.
  - cbn [List.map fst] in Hnd.
    assert (Hfresh : ~ In k (List.map fst acc)).
    { intros Hin. apply List.NoDup_remove_2 in Hnd. apply Hnd. apply in_or_app. now left. }
    rewrite set_field_fresh by exact Hfresh.
    rewrite IH.
    + now rewrite <- List.app_assoc.
    + rewrite List.map_app. cbn [List.map fst]. rewrite <- List.app_assoc. exact Hnd.
Qed.

Lemma processEscapeSequencesOnly_non_string v :
  typeof_string v = false -> processEscapeSequencesOnly v = v.
Proof. destruct v; try reflexivity. discriminate. Qed.

Lemma normalizeArg_non_string cache toolName key v :
  typeof_string v = false -> normalizeArg cache toolName key v = v.
Proof.
  intros Hv. unfold normalizeArg. rewrite Hv. cbn [andb].
  destruct (strict_eq_str _ _); now apply processEscapeSequencesOnly_non_string.
Qed.

(** X20. [normalizeToolCallArgs] keeps the keys of an argument object, in
    their order, each with the normalized form of its own value; a value
    that is not a string comes back as it was, and so do arguments that
    are not an object.  The object is one whose entries have distinct
    keys, none of them [__proto__] (assigning to that name stores no
    entry). *)
Theorem normalizeToolCallArgs_keeps_keys :
  forall cache fs toolName,
    List.NoDup (List.map fst fs) ->
    ~ In "__proto__" (List.map fst fs) ->
    exists fs',
      normalizeToolCallArgs cache (JObj fs) toolName = JObj fs'
      /\ List.map fst fs' = List.map fst fs
      /\ Forall2 (fun kv kv' => snd kv' = normalizeArg cache toolName (fst kv) (snd kv)) fs fs'
      /\ (forall k v, In (k, v) fs -> typeof_string v = false -> In (k, v) fs')
      /\ forall args, typeof_object args = false ->
           normalizeToolCallArgs cache args toolName = args.
Proof.
  intros cache fs toolName Hnd _.
  exists (List.map (fun kv => (fst kv, normalizeArg cache toolName (fst kv) (snd kv))) fs).
  split; [|split; [|split; [|split]]].
  - unfold normalizeToolCallArgs. cbn [truthy typeof_object negb orb object_entries].
    now rewrite (fold_set_field_fresh (normalizeArg cache toolName)).
  - rewrite List.map_map. reflexivity.
  - clear Hnd. induction fs as [|kv fs IH]; cbn [List.map]; constructor; [reflexivity|exact IH].
  - intros k v Hin Hv. apply in_map_iff. exists (k, v). split; [|exact Hin].
    cbn [fst snd]. now rewrite normalizeArg_non_string.
  - intros args Hargs. unfold normalizeToolCallArgs. rewrite Hargs.
    now rewrite orb_true_r.
Qed.

End ArgFacts.

Lemma normalizeToolCallArgs_keeps_keys_witness :
  List.NoDup (List.map fst [("path", JStr "a.txt"); ("limit", JInt 3)])
  /\ ~ In "__proto__" (List.map fst [("path", JStr "a.txt"); ("limit", JInt 3)])
  /\ exists fs',
       @normalizeToolCallArgs Examples.sample_json ∅
         (JObj [("path", JStr "a.txt"); ("limit", JInt 3)]) "read" = JObj fs'
       /\ List.map fst fs' = ["path"; "limit"]
       /\ In ("limit", JInt 3) fs'.
Proof.
  assert (Hnd : List.NoDup (List.map fst [("path", JStr "a.txt"); ("limit", JInt 3)])).
  { cbn. repeat constructor; cbn; intuition discriminate. }
  assert (Hproto : ~ In "__proto__" (List.map fst [("path", JStr "a.txt"); ("limit", JInt 3)])).
  { cbn. intuition discriminate. }
  split; [exact Hnd|]. split; [exact Hproto|].
  destruct (@normalizeToolCallArgs_keeps_keys Examples.sample_json ∅ _ "read" Hnd Hproto)
    as (fs' & Hres & Hkeys & _ & Hkeep & _).
  exists fs'. split; [exact Hres|]. split; [exact Hkeys|].
  apply Hkeep; [right; now left|reflexivity].
Defined.

End HelperFacts.

Lemma normalizeThinkingConfig_is_a_normal_form_witness :
  Helpers.normalizeThinkingConfig
    (JS.JObj [("thinking_budget", JS.JInt 1024); ("thinkingLevel", JS.JStr "HIGH");
              ("includeThoughts", JS.JBool true); ("other", JS.JStr "dropped")])
  = JS.JObj [("thinkingBudget", JS.JInt 1024); ("thinkingLevel", JS.JStr "high");
             ("include_thoughts", JS.JBool true)]
  /\ Helpers.normalizeThinkingConfig
       (JS.JObj [("thinkingBudget", JS.JInt 1024); ("thinkingLevel", JS.JStr "high");
                 ("include_thoughts", JS.JBool true)])
     = JS.JObj [("thinkingBudget", JS.JInt 1024); ("thinkingLevel", JS.JStr "high");
                ("include_thoughts", JS.JBool true)].
Proof.
  split; [reflexivity|].
  exact (proj1 (normalizeThinkingConfig_is_a_normal_form
                  (JS.JObj [("thinking_budget", JS.JInt 1024);
                            ("thinkingLevel", JS.JStr "HIGH");
                            ("includeThoughts", JS.JBool true);
                            ("other", JS.JStr "dropped")]))).
Defined.

Lemma cached_content_is_never_forwarded_witness :
  Helpers.stripCachedContent
    [("contents", JS.JArr []); ("cachedContent", JS.JStr "cachedContents/abc");
     ("extra_body", JS.JObj [("cached_content", JS.JStr "cachedContents/abc")])]
  = [("contents", JS.JArr [])]
  /\ ~ In "cachedContent"
        (List.map fst
           (Helpers.stripCachedContent
              [("contents", JS.JArr []); ("cachedContent", JS.JStr "cachedContents/abc");
               ("extra_body", JS.JObj [("cached_content", JS.JStr "cachedContents/abc")])])).
Proof.
  split; [reflexivity|].
  exact (proj1 (proj2 (cached_content_is_never_forwarded
                         [("contents", JS.JArr []);
                          ("cachedContent", JS.JStr "cachedContents/abc");
                          ("extra_body",
                           JS.JObj [("cached_content", JS.JStr "cachedContents/abc")])]))).
Defined.

(* ===================================================================== *)
(** * Properties of the project context resolution *)
(* ===================================================================== *)

Section ProjectFacts.
Import Codec Token Project.

Lemma truthy_string_iff s : truthy_string s = true <-> s <> "".
Proof.
  unfold truthy_string. destruct (String.eqb_spec s ""); cbn; split; congruence.
Qed.

Lemma truthy_opt_default o : truthy_opt o = true -> default "" o <> "".
Proof. destruct o; cbn; [apply truthy_string_iff|discriminate]. Qed.

Lemma format_has_nonws parts : has_nonws (formatRefreshParts parts) = true.
Proof.
  unfold formatRefreshParts.
  change (refreshToken parts ++ "|" ++ default "" (projectId parts))
    with (refreshToken parts ++ String pipe (default "" (projectId parts))).
  destruct (managedProjectId parts) as [m|]; [destruct (truthy_string m)|];
    apply has_nonws_app_pipe.
Qed.

Lemma getCacheKey_formatted parts a e :
  getCacheKey {| refresh := formatRefreshParts parts; access := a; expires := e |}
  = Some (trim (formatRefreshParts parts)).
Proof.
  unfold getCacheKey. cbn [refresh].
  now rewrite (trim_truthy _ (format_has_nonws parts)).
Qed.

Variable load_reply : nat -> Request -> Reply LoadCodeAssistPayload.
Variable onboard_reply : nat -> Request -> Reply OnboardUserPayload.
Variable auth_set_rejects : OAuthAuthDetails -> bool.

Lemma same_caches_refl st : same_caches st st.
Proof. split; reflexivity. Qed.

Lemma same_caches_trans a b c : same_caches a b -> same_caches b c -> same_caches a c.
Proof. intros [H1 H2] [H3 H4]. split; congruence. Qed.

Lemma same_caches_send r st : same_caches st (send r st).
Proof. split; reflexivity. Qed.

Lemma loadManagedProject_caches accessToken projectId st :
  same_caches st (snd (loadManagedProject load_reply accessToken projectId st)).
Proof.
  unfold loadManagedProject. destruct (load_reply _ _); apply same_caches_send.
Qed.

Lemma onboard_attempts_caches attempts request projectId st :
  same_caches st (snd (onboard_attempts onboard_reply attempts request projectId st)).
Proof.
  revert st. induction attempts as [|n IH]; intros st; cbn [onboard_attempts].
  - apply same_caches_refl.
  - destruct (onboard_reply _ _) as [| |payload]; try apply same_caches_send.
    destruct (default false (done payload) && truthy_opt (managedProject payload));
      [apply same_caches_send|].
    destruct (default false (done payload) && truthy_opt projectId);
      [apply same_caches_send|].
    eapply same_caches_trans; [apply same_caches_send|apply IH].
Qed.

Lemma onboardManagedProject_caches accessToken tierId projectId attempts st :
  same_caches st
    (snd (onboardManagedProject onboard_reply accessToken tierId projectId attempts st)).
Proof.
  unfold onboardManagedProject.
  destruct (negb (tierId =? "FREE") && negb (truthy_opt projectId));
    [apply same_caches_refl|].
  match goal with
  | |- context [onboard_attempts ?o ?n ?r ?p ?s] =>
      pose proof (onboard_attempts_caches n r p s) as Hc;
      destruct (onboard_attempts o n r p s) as [answer st1]
  end.
  exact Hc.
Qed.

Lemma adopt_managed_project_spec auth parts managed st :
  managed <> "" ->
  same_caches st (snd (adopt_managed_project auth_set_rejects auth parts managed st))
  /\ forall r, fst (adopt_managed_project auth_set_rejects auth parts managed st) = Fulfilled r ->
       fresh_result auth r.
Proof.
  intros Hm. unfold adopt_managed_project.
  destruct (auth_set_rejects _); cbn [fst snd]; (split; [split; reflexivity|]).
  - discriminate.
  - intros r [= <-]. split; [reflexivity|]. split; [exact Hm|]. right.
    cbn [pc_auth]. eexists. apply getCacheKey_formatted.
Qed.

Lemma resolveContext_spec auth st :
  same_caches st (snd (resolveContext load_reply onboard_reply auth_set_rejects auth st))
  /\ forall r,
       fst (resolveContext load_reply onboard_reply auth_set_rejects auth st) = Fulfilled r ->
       fresh_result auth r.
Proof.
  unfold resolveContext.
  remember (parseRefreshParts (refresh auth)) as parts eqn:Hparts. clear Hparts.
  destruct (truthy_opt (projectId parts) || truthy_opt (managedProjectId parts)) eqn:Hown.
  - cbn [fst snd]. split; [apply same_caches_refl|].
    intros r [= <-]. split; [reflexivity|]. split; [|now left].
    cbn [effectiveProjectId].
    destruct (truthy_opt (projectId parts)) eqn:Hp; [now apply truthy_opt_default|].
    cbn [orb] in Hown. rewrite Hown. now apply truthy_opt_default.
  - pose proof (loadManagedProject_caches (access auth) (projectId parts) st) as Hload.
    destruct (loadManagedProject load_reply (access auth) (projectId parts) st)
      as [[payload|] st1]; cbn [snd] in Hload; [|split; [exact Hload|discriminate]].
    destruct (truthy_opt (cloudaicompanionProject payload)) eqn:Hmanaged.
    { destruct (adopt_managed_project_spec auth parts
                  (default "" (cloudaicompanionProject payload)) st1
                  (truthy_opt_default _ Hmanaged)) as [Hc Hr].
      split; [eapply same_caches_trans; eassumption|exact Hr]. }
    destruct (truthy_opt (currentTier payload)
              && negb (default "" (currentTier payload) =? "FREE"));
      [split; [exact Hload|discriminate]|].
    destruct (negb (default "FREE" (getDefaultTierId (allowedTiers payload)) =? "FREE"));
      [split; [exact Hload|discriminate]|].
    match goal with
    | |- context [onboardManagedProject ?o ?a ?t ?p ?n ?s] =>
        pose proof (onboardManagedProject_caches a t p n s) as Hon;
        destruct (onboardManagedProject o a t p n s) as [[answer|e] st2]
    end; cbn [snd] in Hon.
    + destruct (truthy_opt answer) eqn:Hanswer.
      * destruct (adopt_managed_project_spec auth parts (default "" answer) st2
                    (truthy_opt_default _ Hanswer)) as [Hc Hr].
        split; [|exact Hr].
        eapply same_caches_trans; [|exact Hc].
        eapply same_caches_trans; eassumption.
      * split; [eapply same_caches_trans; eassumption|discriminate].
    + split; [eapply same_caches_trans; eassumption|discriminate].
Qed.

Lemma getCacheKey_some auth key : getCacheKey auth = Some key -> key = trim (refresh auth).
Proof.
  unfold getCacheKey. destruct (truthy_string (trim (refresh auth))); congruence.
Qed.

(** The outcome of a call, case by case. *)
Lemma ensureProjectContext_spec auth st :
  cache_sound st ->
  let out := ensureProjectContext load_reply onboard_reply auth_set_rejects auth st in
  cache_sound (snd out)
  /\ forall r, fst out = Resolved r ->
       (access auth = "" /\ r = {| pc_auth := auth; effectiveProjectId := "" |}
        /\ snd out = st)
       \/ (access auth <> "" /\ access (pc_auth r) <> "" /\ effectiveProjectId r <> ""
           /\ (getCacheKey auth <> None ->
               exists key, getCacheKey (pc_auth r) = Some key
                           /\ projectContextResultCache (world (snd out)) !! key = Some r)).
Proof.
  intros Hsound out. subst out. unfold ensureProjectContext.
  destruct (truthy_string (access auth)) eqn:Ha; cbn [negb].
  { apply truthy_string_iff in Ha.
    destruct (getCacheKey auth) as [cacheKey|] eqn:Hkey.
    - destruct (projectContextResultCache (world st) !! cacheKey) as [cached|] eqn:Hc.
      + cbn [fst snd]. split; [exact Hsound|]. intros r [= <-].
        destruct (Hsound _ _ Hc) as (Hk & Hacc & Heff).
        right. repeat split; try assumption. intros _. now exists cacheKey.
      + destruct (projectContextPendingCache (world st) !! cacheKey) as [pending|];
          [cbn [fst snd]; split; [exact Hsound|discriminate]|].
        destruct (resolveContext_spec auth st) as [[Hres Hpend] Hfresh].
        destruct (resolveContext load_reply onboard_reply auth_set_rejects auth st)
          as [[result|e] st1]; cbn [fst snd] in *.
        * destruct (Hfresh result eq_refl) as (Hacc & Heff & Hwhere).
          set (nextKey := default cacheKey (getCacheKey (pc_auth result))).
          assert (Hnext : getCacheKey (pc_auth result) = Some nextKey).
          { subst nextKey. destruct Hwhere as [->|[key Hk]].
            - now rewrite Hkey.
            - now rewrite Hk. }
          assert (Hstored :
            (if negb (nextKey =? cacheKey)
             then delete cacheKey (<[nextKey := result]> (projectContextResultCache (world st1)))
             else <[nextKey := result]> (projectContextResultCache (world st1))) !! nextKey
            = Some result).
          { destruct (String.eqb_spec nextKey cacheKey) as [E|Hne]; cbn [negb].
            - apply lookup_insert_eq.
            - rewrite lookup_delete_ne by congruence. apply lookup_insert_eq. }
          split.
          -- intros key r. cbn [with_project_caches world projectContextResultCache].
             intros Hlook.
             destruct (decide (key = nextKey)) as [->|Hne].
             ++ rewrite Hstored in Hlook. injection Hlook as <-.
                repeat split; try assumption. congruence.
             ++ apply (Hsound key r). rewrite <- Hres.
                destruct (negb (nextKey =? cacheKey)).
                ** apply lookup_delete_Some in Hlook as [_ Hlook].
                   now rewrite lookup_insert_ne in Hlook by congruence.
                ** now rewrite lookup_insert_ne in Hlook by congruence.
          -- intros r [= <-]. right. repeat split; try assumption; try congruence.
             intros _. exists nextKey. split; [exact Hnext|].
             cbn [with_project_caches world projectContextResultCache]. exact Hstored.
        * split; [|discriminate].
          intros key r. cbn [with_project_caches world projectContextResultCache].
          rewrite Hres. apply Hsound.
    - destruct (resolveContext_spec auth st) as [[Hres Hpend] Hfresh].
      destruct (resolveContext load_reply onboard_reply auth_set_rejects auth st)
        as [[result|e] st1]; cbn [fst snd] in *.
      + destruct (Hfresh result eq_refl) as (Hacc & Heff & Hwhere).
        split; [intros key r; rewrite Hres; apply Hsound|].
        intros r [= <-]. right. repeat split; try assumption; congruence.
      + split; [intros key r; rewrite Hres; apply Hsound|discriminate]. }
  cbn [fst snd]. split; [exact Hsound|]. intros r [= <-]. left.
  repeat split. unfold truthy_string in Ha.
  destruct (String.eqb_spec (access auth) ""); [assumption|discriminate].
Qed.

(** X21. Whatever the API answers, the results [ensureProjectContext]
    files in its cache stay filed under the key of their own auth record
    with a project named; a call that resolves for an auth record with an
    access token names a project that is not empty, and one without an
    access token answers the empty project id and touches nothing. *)
Theorem project_context_names_a_project :
  forall auth st,
    cache_sound st ->
    let out := ensureProjectContext load_reply onboard_reply auth_set_rejects auth st in
    cache_sound (snd out)
    /\ forall r, fst out = Resolved r ->
         if truthy_string (access auth)
         then effectiveProjectId r <> "" /\ access (pc_auth r) <> ""
         else r = {| pc_auth := auth; effectiveProjectId := "" |} /\ snd out = st.
Proof.
  intros auth st Hsound out.
  destruct (ensureProjectContext_spec auth st Hsound) as [Hs Hr].
  split; [exact Hs|]. intros r Hout.
  destruct (Hr r Hout) as [(Ha & Hr0 & Hst)|(Ha & Hacc & Heff & _)].
  - rewrite Ha. cbn. now split.
  - apply truthy_string_iff in Ha. rewrite Ha. now split.
Qed.

(** X22. Once [ensureProjectContext] has resolved for an auth record with
    an access token and a refresh string that is not blank, asking again
    with the auth record it returned is answered from the cache: the same
    result, no request sent and no state changed, whatever the API would
    have said. *)
Theorem project_context_is_cached_for_returned_auth :
  forall auth st r st',
    cache_sound st ->
    access auth <> "" ->
    getCacheKey auth <> None ->
    ensureProjectContext load_reply onboard_reply auth_set_rejects auth st
    = (Resolved r, st') ->
    forall load_reply' onboard_reply' auth_set_rejects',
      ensureProjectContext load_reply' onboard_reply' auth_set_rejects' (pc_auth r) st'
      = (Resolved r, st').
Proof.
  intros auth st r st' Hsound Ha Hkey Hout load' onboard' rejects'.
  destruct (ensureProjectContext_spec auth st Hsound) as [_ Hr].
  rewrite Hout in Hr. cbn [fst snd] in Hr.
  destruct (Hr r eq_refl) as [(Habs & _)|(_ & Hacc & _ & Hcached)]; [contradiction|].
  destruct (Hcached Hkey) as (key & Hk & Hlook).
  unfold ensureProjectContext.
  apply truthy_string_iff in Hacc. rewrite Hacc. cbn [negb].
  now rewrite Hk, Hlook.
Qed.

End ProjectFacts.

Lemma cache_sound_quiet : Project.cache_sound Examples.quiet_world.
Proof. intros key r Hlook. cbn in Hlook. now rewrite lookup_empty in Hlook. Qed.

Lemma project_context_names_a_project_witness :
  Project.cache_sound Examples.quiet_world
  /\ let out := Project.ensureProjectContext Examples.api_with_project Examples.api_offline
                  (fun _ => false) Examples.projectless_auth Examples.quiet_world in
     Project.cache_sound (snd out)
     /\ forall r, fst out = Project.Resolved r -> Token.effectiveProjectId r <> "".
Proof.
  split; [exact cache_sound_quiet|].
  destruct (project_context_names_a_project Examples.api_with_project Examples.api_offline
              (fun _ => false) Examples.projectless_auth Examples.quiet_world
              cache_sound_quiet) as [Hs Hr].
  split; [exact Hs|]. intros r Hout. exact (proj1 (Hr r Hout)).
Defined.

Lemma project_context_is_cached_for_returned_auth_witness :
  exists r st',
    Project.ensureProjectContext Examples.api_with_project Examples.api_offline
      (fun _ => false) Examples.projectless_auth Examples.quiet_world
    = (Project.Resolved r, st')
    /\ Token.effectiveProjectId r = "managed-1"
    /\ Token.refresh (Token.pc_auth r) = "refresh-token||managed-1"
    /\ Project.ensureProjectContext Examples.api_offline Examples.api_offline
         (fun _ => true) (Token.pc_auth r) st'
       = (Project.Resolved r, st').
Proof.
  set (out := Project.ensureProjectContext Examples.api_with_project Examples.api_offline
                (fun _ => false) Examples.projectless_auth Examples.quiet_world).
  set (r := {| Token.pc_auth := {| Token.refresh := "refresh-token||managed-1";
                                   Token.access := "access-token";
                                   Token.expires := 5000 |};
               Token.effectiveProjectId := "managed-1" |}).
  assert (Hout : out = (Project.Resolved r, snd out)) by (vm_compute; reflexivity).
  exists r, (snd out). split; [exact Hout|]. split; [reflexivity|]. split; [reflexivity|].
  apply (project_context_is_cached_for_returned_auth Examples.api_with_project
           Examples.api_offline (fun _ => false) Examples.projectless_auth
           Examples.quiet_world r (snd out) cache_sound_quiet).
  - discriminate.
  - vm_compute. discriminate.
  - exact Hout.
Defined.

(* ===================================================================== *)
(** * Properties of the generation config of the Claude transformer *)
(* ===================================================================== *)

Section ClaudeConfigFacts.
Import Codec JS Claude Tools Helpers ClaudeConfig.
Context `{Relational}.





Lemma truthy_prop_object v k : truthy (prop v k) = true -> exists fs, v = JObj fs.
Proof. destruct v as [| | | | | |fs]; try discriminate. now exists fs. Qed.

(** The second place: what it makes of the [thinkingConfig], and that
    it leaves every other field. *)
Lemma sonnetFallbackStep_spec model gc :
  prop (sonnetFallbackStep model gc) "thinkingConfig"
  = (if (model =? "gemini-claude-sonnet-4-5")%string && truthy (prop gc "thinkingConfig")
     then JUndefined else prop gc "thinkingConfig")
  /\ (forall k, k <> "thinkingConfig" -> prop (sonnetFallbackStep model gc) k = prop gc k).
Proof.
  unfold sonnetFallbackStep.
  destruct (model =? "gemini-claude-sonnet-4-5")%string; cbn [andb]; [|now split].
  destruct (truthy (prop gc "thinkingConfig")) eqn:Hthink.
  - destruct (truthy_prop_object gc _ Hthink) as [fs ->]. cbn [truthy andb].
    split; [apply prop_delete_same|]. intros k Hk. now apply prop_delete_other.
  - rewrite andb_false_r. now split.
Qed.


Lemma normalize_falsy v : truthy v = false -> normalizeThinkingConfig v = JUndefined.
Proof. intros Hv. unfold normalizeThinkingConfig. now rewrite Hv. Qed.

(** The first place at a model that is no thinking model. *)
Lemma thinkingConfigStep_plain model raw :
  includes "-thinking" model = false ->
  let given := prop raw "thinkingConfig" in
  exists gc,
    thinkingConfigStep model raw = Normal gc
    /\ prop gc "thinkingConfig"
       = (if truthy given then normalizeThinkingConfig given else given)
    /\ (forall k, k <> "thinkingConfig" -> prop gc k = prop raw k).
Proof.
  intros Hmodel given.
  unfold thinkingConfigStep. rewrite Hmodel. fold given.
  destruct (truthy given) eqn:Hgiven.
  - destruct (truthy_prop_object raw _ Hgiven) as [fs Hfs].
    destruct (truthy (normalizeThinkingConfig given)) eqn:Hasked.
    + rewrite Hfs. cbn [truthy setProp].
      eexists. split; [reflexivity|].
      unfold prop. cbn [getProp].
      split; [apply lookup_set_same|].
      intros k Hk. now apply lookup_set_other.
    + assert (Hnone : normalizeThinkingConfig given = JUndefined).
      { destruct (normalize_cases given) as [E|(tb & tl & ti & _ & _ & _ & _ & E)];
          [exact E|]. rewrite E in Hasked. discriminate Hasked. }
      eexists. split; [reflexivity|].
      split; [rewrite Hnone; apply prop_delete_same|].
      intros k Hk. now apply prop_delete_other.
  - rewrite (normalize_falsy given Hgiven). cbn [truthy].
    exists raw. split; [reflexivity|]. split; [reflexivity|]. reflexivity.
Qed.


(** X24. The generation config of the request [transformClaudeRequest]
    serializes for a model that is no thinking model: a [thinkingConfig]
    that was falsy in the request is left as it was; one that was not
    is removed for the model [gemini-claude-sonnet-4-5], and for every
    other model replaced by its normalized form, or removed where that
    form is [undefined].  Every other field of the generation config
    reads as in the request. *)
Theorem claude_plain_model_thinking_config :
  forall model raw,
    includes "-thinking" model = false ->
    let given := prop raw "thinkingConfig" in
    exists gc,
      claudeGenerationConfig model raw = Normal gc
      /\ prop gc "thinkingConfig"
         = (if truthy given
            then if (model =? "gemini-claude-sonnet-4-5")%string then JUndefined
                 else normalizeThinkingConfig given
            else given)
      /\ (forall k, k <> "thinkingConfig" -> prop gc k = prop raw k).
Proof.
  intros model raw Hmodel given.
  destruct (thinkingConfigStep_plain model raw Hmodel) as (gc1 & Hstep & Hthink & Hframe).
  fold given in Hthink.
  destruct (sonnetFallbackStep_spec model gc1) as (Hfb & Hfbframe).
  exists (sonnetFallbackStep model gc1).
  split; [unfold claudeGenerationConfig; rewrite Hstep; now eff|].
  split.
  - rewrite Hfb, Hthink. destruct (truthy given) eqn:Hgiven.
    + destruct (model =? "gemini-claude-sonnet-4-5")%string; cbn [andb]; [|reflexivity].
      destruct (truthy (normalizeThinkingConfig given)) eqn:Hasked; [reflexivity|].
      destruct (normalize_cases given) as [E|(tb & tl & ti & _ & _ & _ & _ & E)];
        [exact E|]. rewrite E in Hasked. discriminate Hasked.
    + rewrite Hgiven, andb_false_r. reflexivity.
  - intros k Hk. rewrite Hfbframe by exact Hk. now apply Hframe.
Qed.

End ClaudeConfigFacts.


Lemma claude_plain_model_thinking_config_witness :
  (exists gc,
      @ClaudeConfig.claudeGenerationConfig Examples.numbers_only "claude-sonnet-4-5"
        (JS.JObj [("thinkingConfig", JS.JObj [("thinking_level", JS.JStr "HIGH")])])
      = JS.Normal gc
      /\ JS.prop gc "thinkingConfig" = JS.JObj [("thinkingLevel", JS.JStr "high")])
  /\ (exists gc,
        @ClaudeConfig.claudeGenerationConfig Examples.numbers_only "gemini-claude-sonnet-4-5"
          (JS.JObj [("thinkingConfig", JS.JObj [("thinking_level", JS.JStr "HIGH")])])
        = JS.Normal gc
        /\ JS.prop gc "thinkingConfig" = JS.JUndefined).
Proof.
  split.
  - destruct (@claude_plain_model_thinking_config Examples.numbers_only "claude-sonnet-4-5"
                (JS.JObj [("thinkingConfig", JS.JObj [("thinking_level", JS.JStr "HIGH")])])
                eq_refl)
      as (gc & Hrun & Hthink & _).
    exists gc. split; [exact Hrun|]. exact Hthink.
  - destruct (@claude_plain_model_thinking_config Examples.numbers_only
                "gemini-claude-sonnet-4-5"
                (JS.JObj [("thinkingConfig", JS.JObj [("thinking_level", JS.JStr "HIGH")])])
                eq_refl)
      as (gc & Hrun & Hthink & _).
    exists gc. split; [exact Hrun|]. exact Hthink.
Defined.
